(* ===== verification/_CoqProject ===== *)
-Q . S2P
Prelude.v
JSColl.v
JSNum.v
NumFacts.v
Utils.v
JSValue.v
AVL.v
AVLTree.v
AVLInsert.v
AVLSpec.v
AVLQuery.v
AVLTheorems.v
AVLRemove.v
AVLRemoval.v
Flat.v
Levenshtein.v
Radix.v
RadixInsert.v
RadixQuery.v
RadixTheorems.v
RadixClaims.v
BKD.v
BKDTheorems.v
Vector.v
PT15.v
Schema.v
SchemaTheorems.v
Store.v
Stemmer.v
Tokenizer.v
Index.v
Where.v
WhereTheorems.v
Sorter.v
Database.v
TextIndex.v
DatabaseTheorems.v
Adapter.v
AdapterTheorems.v
DatabaseClaims.v
Facets.v
Groups.v
GroupsTheorems.v
Search.v
SearchTheorems.v
Errors.v
Components.v
Hooks.v
Generator.v
AdapterGenerator.v
GeneratorTheorems.v
Mutation.v
SavedDatabase.v
MutationTheorems.v
AnswerSession.v
WordcutDict.v
Wordcut.v
WordcutTheorems.v
TinySegTables.v
TinySeg.v
LunrAdapter.v
SearchPage.v
WordPattern.v
Dom.v
Highlight.v
HighlightTheorems.v
HighlightClaims.v
PageSearch.v
PageSearchTheorems.v
Flyouts.v
Tabs.v
ScrollHistory.v
PageServices.v
Excerpt.v
AutoComplete.v
AutoCompleteTheorems.v
Topbar.v
Diagrams.v
PageThemes.v
CopyButtons.v
