(* ===== verification/Prelude.v ===== *)
(** * Verification of the site search of choria-io/asyncjobs

    The documentation site of asyncjobs carries its own search engine. This
    library models it as it is written, the scripts under
    src/docs/themes/hugo-theme-relearn/assets/js/, and proves what they
    promise. The Go packages (client, processor, storage, ...) are not covered.

    ** The program

    search-orama.js is the Orama engine bundled for old browsers, with the
    plugin pt15 and the adapter of the site. Its functions have one- and
    two-letter names; each file below names those it models. orama/orama.js is
    the same engine as a module; what only it has is modelled from there.
    search-lunr.js is the alternative adapter, lunr/tinyseg.js and
    lunr/wordcut.js its segmenters for Japanese and Thai;
    auto-complete/auto-complete.js is the suggestion box and search.js the
    search page in front of either. theme.js is the script of every page: it
    highlights the words searched for, opens what hides them, keeps tabs,
    scroll positions and visited pages, and drives the sidebar and the topbar.

    The layers, from the bottom:

    - Values. [JSNum] (doubles as [spec_float], the order of keys as the class
      [JSOrd] with its laws [JSOrdLaws]), [NumFacts], [JSColl] (Set, Map and
      plain objects as lists in insertion order), [JSValue] (values,
      documents), [Utils] (helpers at the top of the bundle, sorting). Strings
      are lists of 16-bit units; errors and the state-and-error monad [M] are
      in this file.
    - Index structures, each with its insertions, removals and queries: [AVL]
      (classes ae, ce: numbers; [AVLTree] is the functional tree, [AVLInsert],
      [AVLQuery], [AVLRemove] relate the pointer code to it, [AVLSpec] is the
      association list it implements), [Flat] (le, me: enums and booleans),
      [Levenshtein] (ue, fe) and [Radix] (de, he: words), [BKD] (pe, ge:
      places), [Vector] (be and BM25), [PT15] (positional index of the plugin).
    - The engine. [Schema], [Store] (internal ids, documents), [Stemmer],
      [Tokenizer], [Index] (one structure per property), [Where] (filters,
      threshold), [Sorter], [Database] (create, insert, full-text search). A
      database sees its index through the record [index_component], of which
      the default index and the plugin pt15 are values; [TextIndex] states as
      a class what may be expected of one, [DatabaseTheorems] are proved
      against the class, and pt15, which the site uses, is an instance.
    - Around it. [Errors] (messages), [Components] (overriding parts, plugins),
      [Hooks] (before/after hooks, batches with pauses), [Facets], [Groups],
      [Search] (modes fulltext, vector, hybrid; distinct), [Mutation] (remove,
      update, save, load; batches run by timers), [SavedDatabase] (a database
      that is saved and loaded again), [AnswerSession] (class Fn).
    - The site. [Adapter] (functions on/sn, an/cn as plain functions),
      [Generator] (the regenerator runtime en, nn, tn) and [AdapterGenerator]
      (the adapter as it is compiled, run by that runtime); [LunrAdapter],
      [WordcutDict]/[Wordcut], [TinySegTables]/[TinySeg]; [SearchPage] (with
      the browser history), [Excerpt] (results as shown), [AutoComplete] (the
      suggestion box, its list on the screen, the page a choice leads to).
    - The page. [Dom] (a document tree: elements, text, [normalize]);
      [WordPattern] (the regular expression of some words), [Highlight] (wrapping
      and unwrapping them), [PageSearch] (boxes and menu entries opened for a
      match; mark, unmark, the search fields); [Flyouts] (sidebar, topbar
      flyouts, shortcuts, swipes), [Tabs], [ScrollHistory] (with the visited
      pages), [Topbar] (buttons moving with the width), [PageServices] (arrow
      keys, versions, languages, links of headings, toasts, colours); [Diagrams] (the text of diagrams, their
      theme and their drawing) and [PageThemes] (when diagrams and API
      descriptions are drawn, printing); [CopyButtons] (the text of code and the
      buttons that copy it).

    ** State and operations

    Objects the code mutates through several references live in a store with
    addresses (the nodes of the AVL tree); objects with one owner are records
    that operations return anew. A function that may throw after writing is an [M] computation, which
    keeps the state reached next to the error: that is how the theorems speak
    of half-done insertions and removals. Timers and answers that arrive later
    are explicit: [engine] holds the timers of pending batches, [box] those of
    the suggestion box, [scroller] the debounced functions of the page, and their
    events are steps. In the document tree lists of elements taken earlier refer
    to elements by identity ([e_key], [bid]), so that handlers work on what the
    tree has become; the state of boxes and checkboxes is a map by identity.

    ** What is shown

    - End to end: the site search lists, best first and none twice, all pages in
      which every keyword of the term is found and only such in which some
      keyword is, and so for a term of one keyword exactly the pages that have it
      ([AdapterTheorems.site_search]), and the compiled generators do what the
      plain functions do and settle ([AdapterGenerator]); from a word typed into the search box the arrow keys
      and Enter lead to the page wanted ([AutoCompleteTheorems.search_and_go]).
    - Databases: a query has one ranking out of which all pages are cut,
      batched insertion does not depend on the batches, removal and its timers
      end having removed everything, a database saved and loaded into a new one
      answers every query of texts as before ([DatabaseClaims],
      [Hooks], [MutationTheorems], [SavedDatabase]).
    - Index structures: each refines a simple specification (association list,
      word table, relation, point set), with search equal to its declarative
      meaning; the balance of the AVL tree; the bounded distance against the
      edit distance.
    - Results: facets count, groups are classes of equal values, filters
      intersect, the hybrid mode merges weighted scores, distinct pages.
    - Text: the tokenizer and its cache, the dictionary acceptor against the
      set of words, segmentation as a partition of the text in Thai and
      Japanese, stems that are never longer than their word.
    - Interaction: the generator protocol and its asynchronous iterator, whose
      answers come in the order of the calls, answer sessions, the cache and the
      arrow keys of the suggestion box, where what is selected is seen from its
      upper edge on ([AutoCompleteTheorems.selection_visible]), searching again
      through the history.
    - The page: highlighting wraps exactly the words and is undone exactly
      ([HighlightClaims]); whatever is typed, a page, unless it is the
      search page, shows the last term alone
      ([PageSearchTheorems.search_session]); at most one flyout is open; tabs
      and scroll positions survive leaving the page; the topbar of every page
      the layouts produce depends on the width alone and loses nothing; the
      excerpt of a result exists exactly when a match occurs as a word; whatever changes, visible diagrams are in the
      theme of the page or the one of their author
      ([PageThemes.diagrams_follow_theme]), where diagrams can be read; code
      that is kept apart gets its button, which copies its text, whatever the
      loop moves meanwhile
      ([CopyButtons.initCodeClipboard_serves]).
    - Where the code goes wrong a theorem shows it on the model: a threshold the
      search ignores, so that pages with one of several keywords are listed
      ([AdapterTheorems.search_any_keyword]), removals from
      the AVL, BKD and radix trees that lose other entries, keys that are NaN,
      insertions and updates that are not atomic
      ([MutationTheorems.failed_insert_stays]), tolerant searches that miss
      words, updates overtaken by the timers of removals, unknown characters
      that take the end of a known word, answers cached under another term,
      terms given up because a beginning of them found nothing, suggestions that
      are higher than the first and seen in part,
      menu entries opened or left open by marks, positions not saved because
      one timer serves all, choices of tabs lost, diagrams that lose the theme of
      their author or are not drawn, all but one API description removed.

    ** Bounds and fuel

    Loops without a structural measure take fuel: tree walks the number of
    nodes or the length of the word, batches the number of documents plus one,
    the binary search the length of its interval, the way back through a cut
    text its length, the matches in a text its length. The theorems of each part prove the fuel enough (the
    result is never [None]) under the invariant of the structure. Batch sizes
    of zero, for which the asynchronous loop does not end, are stated as such
    ([Hooks.insertMultiple_async_spec]). Counters and identifiers are
    exact integers, below 2^53; scores, keys and coordinates are doubles, whose
    operations that the platform approximates ([Math.log], [Math.sin], ...)
    are the parameters of the class [MathOps].

    ** Not modelled

    Of theme.js the zoom of diagrams, which are calls of d3, and the painting of
    the scroll bars and of the width of the content, effects on the rendered
    page; where the focus is outside of the flyouts and the suggestion box; of
    the suggestion box how it shows a suggestion by default, in place of which
    this site has its own way; of the regenerator runtime how it sets up
    prototypes. orama/orama.js repeats as a module what is modelled from
    search-orama.js. Third-party code is left out: the minified libraries and
    the packages bundled into wordcut.js, which make most of that file; so are
    the script that takes screenshots of the theme and the Go packages.
    Parameters stand for what the platform provides ([toLowerCase], case folding
    of patterns, collation, the clock, random identifiers, YAML and JSON), for
    the character classes of the languages (those of English are given), for
    the text of the Thai dictionary, and for lunr.

    ** Plan

    What the site's own scripts compute is covered. What could be added needs
    models of what they call: a rendered page for the zoom and the scroll bars,
    lunr for the alternative search. *)

From stdpp Require Export prelude gmap strings sorting.
From Stdlib Require Export Lia.

(** ** Strings

    A JavaScript string is a sequence of 16-bit code units; every routine of
    the program only compares, slices and concatenates units, so a string is
    a list of unit values. [js] turns an ASCII literal into one. *)
Abbreviation jsstr := (list N).

Definition js (s : string) : jsstr :=
  Ascii.N_of_ascii <$> String.list_ascii_of_string s.

Lemma js_inj : Inj (=) (=) js.
Proof.
  intros s. unfold js. induction s as [|a s IH]; intros [|b t]; try done. cbn [String.list_ascii_of_string].
  rewrite !fmap_cons. intros [= Ha Hs]. apply IH in Hs as ->. f_equal.
  rewrite <-(Ascii.ascii_N_embedding a), <-(Ascii.ascii_N_embedding b). by rewrite Ha.
Qed.

(** A proposition equivalent to a decidable one. *)
Definition decide_iff (P Q : Prop) (H : P ↔ Q) (d : Decision P) : Decision Q :=
  match d with left p => left (proj1 H p) | right n => right (λ q, n (proj2 H q)) end.

(** ** Errors and results

    [x(code, ...args)] builds an [Error] carrying a code; other code throws
    plain errors, and reading a property of [null] or [undefined] throws a
    [TypeError]. *)
Inductive error : Type :=
  | OramaError (code : string) (args : list jsstr)
  | PlainError (msg : string)
  | TypeError.

Inductive result (A : Type) : Type :=
  | Ok (a : A)
  | Throw (e : error).
Arguments Ok {A} a.
Arguments Throw {A} e.

#[global] Instance result_mret : MRet result := λ A a, Ok a.
#[global] Instance result_mbind : MBind result := λ A B f r,
  match r with Ok a => f a | Throw e => Throw e end.

Definition result_of_option {A} (e : error) (o : option A) : result A :=
  match o with Some a => Ok a | None => Throw e end.

(** ** Stateful code that may throw

    A throw does not undo the writes made before it: a computation returns
    the state it reached next to its outcome. *)
Definition M (S A : Type) : Type := S → S * result A.

#[global] Instance M_mret {S} : MRet (M S) := λ A a s, (s, Ok a).
#[global] Instance M_mbind {S} : MBind (M S) := λ A B f m s,
  match m s with (s', Ok a) => f a s' | (s', Throw e) => (s', Throw e) end.

Definition throw {S A} (e : error) : M S A := λ s, (s, Throw e).
Definition lift {S A} (r : result A) : M S A := λ s, (s, r).
Definition gets {S A} (f : S → A) : M S A := λ s, (s, Ok (f s)).
Definition modify {S} (f : S → S) : M S unit := λ s, (f s, Ok tt).

(** One step of a sequence of operations. *)
Lemma M_bind_eq {S A B} (m : M S A) (f : A → M S B) (s : S) :
  (m ≫= f) s = match m s with (s', Ok a) => f a s' | (s', Throw e) => (s', Throw e) end.
Proof. done. Qed.
Lemma M_bind_ok {S A B} (m : M S A) (f : A → M S B) (s s' : S) a :
  m s = (s', Ok a) → (m ≫= f) s = f a s'.
Proof. rewrite M_bind_eq. by intros ->. Qed.
Lemma M_bind_assoc {S A B C} (m : M S A) (f : A → M S B) (g : B → M S C) (s : S) :
  ((m ≫= f) ≫= g) s = (m ≫= λ a, f a ≫= g) s.
Proof. rewrite !M_bind_eq. by destruct (m s) as [? []]. Qed.

(** [for (const x of l) f(x)] *)
Fixpoint mfor {S A} (f : A → M S unit) (l : list A) : M S unit :=
  match l with
  | [] => mret tt
  | x :: l => f x ;; mfor f l
  end.

(** ** Automation shared by the components *)

Create HintDb jsdb.
Create Rewrite HintDb jscoll.

(** Splits every [match]/[if] of the goal or of a hypothesis, and cleans up. *)
Ltac split_matches :=
  repeat (case_match; simplify_eq/=).

(** Boolean tests of the code turned into propositions. *)
Ltac bool_to_prop :=
  repeat match goal with
  | H : bool_decide _ = true |- _ => apply bool_decide_eq_true in H
  | H : bool_decide _ = false |- _ => apply bool_decide_eq_false in H
  | H : (_ && _)%bool = true |- _ => apply andb_true_iff in H as [? ?]
  | H : (_ || _)%bool = false |- _ => apply orb_false_iff in H as [? ?]
  | H : negb _ = true |- _ => apply negb_true_iff in H
  | H : negb _ = false |- _ => apply negb_false_iff in H
  | H : (_ =? _)%Z = true |- _ => apply Z.eqb_eq in H
  | H : (_ =? _)%Z = false |- _ => apply Z.eqb_neq in H
  | H : (_ <? _)%Z = true |- _ => apply Z.ltb_lt in H
  | H : (_ <? _)%Z = false |- _ => apply Z.ltb_ge in H
  | H : (_ <=? _)%Z = true |- _ => apply Z.leb_le in H
  | H : (_ <=? _)%Z = false |- _ => apply Z.leb_gt in H
  | H : (_ =? _)%nat = true |- _ => apply Nat.eqb_eq in H
  | H : (_ =? _)%nat = false |- _ => apply Nat.eqb_neq in H
  | H : (_ <? _)%nat = true |- _ => apply Nat.ltb_lt in H
  | H : (_ <? _)%nat = false |- _ => apply Nat.ltb_ge in H
  | H : (_ <=? _)%nat = true |- _ => apply Nat.leb_le in H
  | H : (_ <=? _)%nat = false |- _ => apply Nat.leb_gt in H
  end.
