(* ===== verification/JSColl.v ===== *)
(** * JavaScript collections: [Set], [Map] and plain objects

    [Set] and [Map] iterate in insertion order and the program depends on it
    ([Array.from], [for of], [values()]), so a set is a duplicate-free list
    and a map an association list, both in insertion order. *)

From S2P Require Import Prelude.

Section js_set.
Context {A : Type} `{EqDecision A}.

(** [s.has(x)] *)
Definition set_has (x : A) (s : list A) : bool := bool_decide (x ∈ s).
(** [s.add(x)] *)
Definition set_add (x : A) (s : list A) : list A :=
  if set_has x s then s else s ++ [x].
(** [s.delete(x)] *)
Definition set_delete (x : A) (s : list A) : list A := filter (λ y, y ≠ x) s.
(** [for (const x of xs) s.add(x)] *)
Definition set_add_all (xs : list A) (s : list A) : list A :=
  foldl (λ s x, set_add x s) s xs.
(** [new Set(xs)] *)
Definition set_of (xs : list A) : list A := set_add_all xs [].

Lemma set_has_spec x s : set_has x s = true ↔ x ∈ s.
Proof. apply bool_decide_eq_true. Qed.

Lemma elem_of_set_add x y s : x ∈ set_add y s ↔ x = y ∨ x ∈ s.
Proof. unfold set_add, set_has. case_bool_decide; set_solver. Qed.

Lemma elem_of_set_delete x y s : x ∈ set_delete y s ↔ x ∈ s ∧ x ≠ y.
Proof. unfold set_delete. rewrite list_elem_of_filter. tauto. Qed.

Lemma elem_of_set_add_all x xs s : x ∈ set_add_all xs s ↔ x ∈ xs ∨ x ∈ s.
Proof.
  revert s. induction xs as [|y xs IH]; intros s; simpl; [set_solver|].
  rewrite IH, elem_of_set_add, elem_of_cons. tauto.
Qed.

Lemma elem_of_set_of x xs : x ∈ set_of xs ↔ x ∈ xs.
Proof. unfold set_of. rewrite elem_of_set_add_all. set_solver. Qed.

Lemma NoDup_set_add x s : NoDup s → NoDup (set_add x s).
Proof.
  unfold set_add, set_has. case_bool_decide; [done|]. intros.
  apply NoDup_app. split_and!; [done|set_solver|apply NoDup_singleton].
Qed.

Lemma NoDup_set_delete x s : NoDup s → NoDup (set_delete x s).
Proof. apply NoDup_filter. Qed.

Lemma NoDup_set_add_all xs s : NoDup s → NoDup (set_add_all xs s).
Proof. revert s. induction xs; simpl; auto using NoDup_set_add. Qed.

Lemma NoDup_set_of xs : NoDup (set_of xs).
Proof. apply NoDup_set_add_all, NoDup_nil_2. Qed.

Lemma set_add_present x s : x ∈ s → set_add x s = s.
Proof. intros. unfold set_add, set_has. by rewrite bool_decide_eq_true_2. Qed.

Lemma set_add_all_subset xs s : (∀ x, x ∈ xs → x ∈ s) → set_add_all xs s = s.
Proof.
  revert s. induction xs as [|x xs IH]; intros s Hs; [done|]. simpl.
  rewrite set_add_present by set_solver. apply IH. set_solver.
Qed.

Lemma set_add_all_app xs s : NoDup (s ++ xs) → set_add_all xs s = s ++ xs.
Proof.
  revert s. induction xs as [|x xs IH]; intros s Hnd; simpl.
  - by rewrite app_nil_r.
  - assert (set_add x s = s ++ [x]) as ->.
    { unfold set_add, set_has. rewrite bool_decide_eq_false_2; [done|].
      apply NoDup_app in Hnd. set_solver. }
    rewrite IH by (by rewrite <-(assoc_L (++))). by rewrite <-(assoc_L (++)).
Qed.

Lemma set_of_id xs : NoDup xs → set_of xs = xs.
Proof. apply (set_add_all_app xs []). Qed.
End js_set.

#[export] Hint Rewrite @elem_of_set_add @elem_of_set_delete @elem_of_set_add_all
  @elem_of_set_of : jscoll.
#[export] Hint Resolve NoDup_set_add NoDup_set_delete NoDup_set_of NoDup_set_add_all : jsdb.

Section js_map.
Context {K V : Type} `{EqDecision K}.

(** [m.get(k)] *)
Fixpoint jm_get (k : K) (m : list (K * V)) : option V :=
  match m with
  | [] => None
  | (k', v) :: m => if decide (k = k') then Some v else jm_get k m
  end.
(** [m.set(k, v)]: an existing key keeps its place. *)
Fixpoint jm_set (k : K) (v : V) (m : list (K * V)) : list (K * V) :=
  match m with
  | [] => [(k, v)]
  | (k', v') :: m => if decide (k = k') then (k', v) :: m else (k', v') :: jm_set k v m
  end.
(** [m.has(k)] *)
Definition jm_has (k : K) (m : list (K * V)) : bool :=
  match jm_get k m with Some _ => true | None => false end.
(** [m.delete(k)] *)
Definition jm_delete (k : K) (m : list (K * V)) : list (K * V) :=
  filter (λ p, p.1 ≠ k) m.

(** Well-formedness: no key twice. *)
Definition jm_wf (m : list (K * V)) : Prop := NoDup (m.*1).

Lemma jm_get_set_eq k v m : jm_get k (jm_set k v m) = Some v.
Proof.
  induction m as [|[k' v'] m IH]; simpl; [by rewrite decide_True|].
  by repeat (case_decide; simpl; simplify_eq).
Qed.

Lemma jm_get_set_ne k k' v m : k ≠ k' → jm_get k (jm_set k' v m) = jm_get k m.
Proof.
  intros Hne. induction m as [|[k'' v'] m IH]; simpl; [by rewrite decide_False|].
  by repeat (case_decide; simpl; simplify_eq).
Qed.

Lemma jm_get_set k k' v m :
  jm_get k (jm_set k' v m) = if decide (k = k') then Some v else jm_get k m.
Proof. case_decide; [subst; apply jm_get_set_eq|by apply jm_get_set_ne]. Qed.

Lemma jm_get_delete k k' m :
  jm_get k (jm_delete k' m) = if decide (k = k') then None else jm_get k m.
Proof.
  induction m as [|[k'' v] m IH]; simpl; [by case_decide|].
  unfold jm_delete in *. rewrite filter_cons; simpl.
  by repeat (case_decide; simpl; simplify_eq).
Qed.

Lemma jm_get_Some_elem k v m : jm_get k m = Some v → (k, v) ∈ m.
Proof.
  induction m as [|[k' v'] m IH]; simpl; [done|].
  case_decide; intros; simplify_eq; set_solver.
Qed.

Lemma jm_get_None k m : jm_get k m = None ↔ k ∉ m.*1.
Proof.
  induction m as [|[k' v'] m IH]; simpl; [set_solver|].
  case_decide; [subst; set_solver|]. rewrite IH. set_solver.
Qed.

Lemma jm_get_elem k v m : jm_wf m → jm_get k m = Some v ↔ (k, v) ∈ m.
Proof.
  unfold jm_wf. induction m as [|[k' v'] m IH]; simpl; [set_solver|].
  rewrite NoDup_cons, elem_of_cons. intros [Hni Hnd].
  case_decide; [subst|naive_solver].
  split; [naive_solver|]. intros [?|Hin]; [naive_solver|].
  destruct Hni. apply list_elem_of_fmap. by exists (k', v).
Qed.

Lemma jm_set_keys k v m : (jm_set k v m).*1 = set_add k (m.*1).
Proof.
  induction m as [|[k' v'] m IH]; csimpl; [done|].
  unfold set_add, set_has in *.
  destruct (decide (k = k')) as [->|Hne]; csimpl.
  - rewrite bool_decide_eq_true_2; [done|apply elem_of_cons; by left].
  - rewrite IH. clear IH. repeat case_bool_decide; first [done|exfalso; set_solver].
Qed.

Lemma jm_wf_set k v m : jm_wf m → jm_wf (jm_set k v m).
Proof. unfold jm_wf. rewrite jm_set_keys. apply NoDup_set_add. Qed.

Lemma jm_wf_delete k m : jm_wf m → jm_wf (jm_delete k m).
Proof.
  unfold jm_wf, jm_delete. induction m as [|[k' v'] m IH]; simpl; [done|].
  rewrite NoDup_cons. intros [Hni Hnd]. rewrite filter_cons; simpl.
  case_decide; simpl; [|by auto]. apply NoDup_cons. split; [|by auto].
  rewrite list_elem_of_fmap. intros ([? ?] & -> & Hin).
  apply list_elem_of_filter in Hin as [_ Hin]. apply Hni, list_elem_of_fmap. eauto.
Qed.

Lemma jm_set_Forall (P : K * V → Prop) k v m :
  Forall P m → (∀ k', k' = k → P (k', v)) → Forall P (jm_set k v m).
Proof.
  intros Hm Hv. induction Hm as [|[k' v'] m Hp Hm IH]; simpl; [by repeat constructor; apply Hv|].
  destruct (decide (k = k')) as [<-|]; constructor; auto.
Qed.

Lemma jm_delete_Forall (P : K * V → Prop) k m : Forall P m → Forall P (jm_delete k m).
Proof. rewrite !Forall_forall. intros Hm x [_ ?]%list_elem_of_filter. auto. Qed.

(** Setting keys in the order of a duplicate-free list appends them. *)
Lemma jm_set_app k v m : k ∉ m.*1 → jm_set k v m = m ++ [(k, v)].
Proof.
  induction m as [|[k' v'] m IH]; csimpl; [done|]. intros Hk.
  rewrite decide_False, IH by set_solver. done.
Qed.

Lemma jm_set_fold m m0 :
  jm_wf (m0 ++ m) → foldl (λ t p, jm_set p.1 p.2 t) m0 m = m0 ++ m.
Proof.
  unfold jm_wf. revert m0. induction m as [|[k v] m IH]; intros m0 Hnd; csimpl; [by rewrite app_nil_r|].
  rewrite fmap_app in Hnd. csimpl in Hnd.
  rewrite jm_set_app by (apply NoDup_app in Hnd; set_solver).
  rewrite IH; rewrite <-(assoc_L (++)); [done|]. by rewrite fmap_app.
Qed.

Lemma elem_of_jm_set k v m p :
  jm_wf m → p ∈ jm_set k v m ↔ p = (k, v) ∨ (p ∈ m ∧ p.1 ≠ k).
Proof.
  unfold jm_wf. induction m as [|[k' v'] m IH]; csimpl; [set_solver|].
  rewrite NoDup_cons. intros [Hni Hnd]. rewrite elem_of_cons.
  destruct (decide (k = k')) as [<-|Hne]; rewrite elem_of_cons.
  - split; [|naive_solver]. intros [->|Hp]; [by left|]. right. split; [by right|].
    intros <-. apply Hni, list_elem_of_fmap. eauto.
  - rewrite IH by done. split; [|naive_solver]. intros [->|?]; [right; simpl; auto|naive_solver].
Qed.

Lemma elem_of_jm_delete k m p : p ∈ jm_delete k m ↔ p ∈ m ∧ p.1 ≠ k.
Proof. unfold jm_delete. rewrite list_elem_of_filter. tauto. Qed.

Lemma jm_has_spec k m : jm_has k m = true ↔ is_Some (jm_get k m).
Proof. unfold jm_has. destruct (jm_get k m); split; try done; by intros [? ?]. Qed.
End js_map.

#[export] Hint Resolve jm_wf_set jm_wf_delete : jsdb.
