(* ===== verification/JSNum.v ===== *)
(** * JavaScript numbers

    A JavaScript number is an IEEE 754 double: [number] is the Standard
    Library's [spec_float] and the operators are its operations at precision
    53 and maximal exponent 1024, with NaN, infinities and signed zeros. The
    relational operators the program applies to keys are collected in the
    class [JSOrd]; [JSOrdLaws] states what the search structures rely on, a
    strict weak order. The laws hold of every number but NaN ([num]). *)

From Stdlib Require Import SpecFloat.
From S2P Require Import Prelude.
Local Open Scope Z_scope.

(** The operators [a < b], [a <= b] and [a === b]. *)
Class JSOrd (K : Type) := {
  ltb : K → K → bool;
  leb : K → K → bool;
  eqb : K → K → bool;
}.

Class JSOrdLaws (K : Type) `{JSOrd K} : Prop := {
  ltb_irrefl a : ltb a a = false;
  ltb_trans a b c : ltb a b = true → ltb b c = true → ltb a c = true;
  ltb_split a b c : ltb a c = true → ltb a b = true ∨ ltb b c = true;
  leb_spec a b : leb a b = negb (ltb b a);
  eqb_spec a b : eqb a b = negb (ltb a b) && negb (ltb b a);
}.

Section order_facts.
Context {K} `{JSOrdLaws K}.

Lemma ltb_asym a b : ltb a b = true → ltb b a = false.
Proof.
  intros Hab. destruct (ltb b a) eqn:Hba; [|done].
  pose proof (ltb_irrefl a). by rewrite (ltb_trans a b a) in *.
Qed.

Lemma eqb_refl a : eqb a a = true.
Proof. by rewrite eqb_spec, ltb_irrefl. Qed.

Lemma eqb_sym a b : eqb a b = eqb b a.
Proof. rewrite !eqb_spec. apply andb_comm. Qed.

(** Equal keys are interchangeable on either side of [<]. *)
Lemma ltb_eqb_l a b c : eqb a b = true → ltb a c = ltb b c.
Proof.
  rewrite eqb_spec. intros Hab. bool_to_prop.
  apply Bool.eq_iff_eq_true. split; intros Hlt.
  - destruct (ltb_split a b c Hlt); congruence.
  - destruct (ltb_split b a c Hlt); congruence.
Qed.

Lemma ltb_eqb_r a b c : eqb a b = true → ltb c a = ltb c b.
Proof.
  rewrite eqb_spec. intros Hab. bool_to_prop.
  apply Bool.eq_iff_eq_true. split; intros Hlt.
  - destruct (ltb_split c b a Hlt); congruence.
  - destruct (ltb_split c a b Hlt); congruence.
Qed.

Lemma ltb_not_eqb a b : ltb a b = true → eqb a b = false.
Proof. intros Hlt. by rewrite eqb_spec, Hlt. Qed.

Lemma ltb_not_eqb' a b : ltb a b = true → eqb b a = false.
Proof. intros Hlt. rewrite eqb_sym. by apply ltb_not_eqb. Qed.

Lemma eqb_trans a b c : eqb a b = true → eqb b c = true → eqb a c = true.
Proof.
  intros Hab Hbc. rewrite eqb_spec, (ltb_eqb_l a b c Hab), (ltb_eqb_r a b c Hab).
  by rewrite <-eqb_spec.
Qed.
End order_facts.

#[export] Hint Resolve ltb_asym ltb_not_eqb ltb_not_eqb' : jsdb.

(** ** Doubles *)

Abbreviation number := spec_float.

Definition prec : Z := 53.
Definition emax : Z := 1024.

Definition num_add : number → number → number := SFadd prec emax.
Definition num_sub : number → number → number := SFsub prec emax.
Definition num_mul : number → number → number := SFmul prec emax.
Definition num_div : number → number → number := SFdiv prec emax.
Definition num_sqrt : number → number := SFsqrt prec emax.
Definition num_of_Z (z : Z) : number := binary_normalize prec emax z 0 false.
(** The decimal literal [p / 10^q], correctly rounded. *)
Definition num_dec (p : Z) (q : Z) : number := num_div (num_of_Z p) (num_of_Z (10 ^ q)).
Definition num_zero : number := S754_zero false.
Definition num_neg_infinity : number := S754_infinity true.
Definition num_infinity : number := S754_infinity false.
Definition isNaN (x : number) : bool := match x with S754_nan => true | _ => false end.

#[global] Instance number_ord : JSOrd number := {| ltb := SFltb; leb := SFleb; eqb := SFeqb |}.

#[global] Instance number_eq_dec : EqDecision number.
Proof. solve_decision. Defined.

(** Position of a number in the order, as a triple compared lexicographically. *)
Definition rank (x : number) : Z * Z * Z :=
  match x with
  | S754_infinity true => (-2, 0, 0)
  | S754_finite true m e => (-1, -e, Z.neg m)
  | S754_zero _ => (0, 0, 0)
  | S754_finite false m e => (1, e, Z.pos m)
  | S754_infinity false => (2, 0, 0)
  | S754_nan => (0, 0, 0)
  end.

Definition lex_lt (x y : Z * Z * Z) : Prop :=
  let '(a, b, c) := x in let '(a', b', c') := y in
  a < a' ∨ (a = a' ∧ (b < b' ∨ (b = b' ∧ c < c'))).

Lemma SFltb_rank x y :
  isNaN x = false → isNaN y = false → SFltb x y = true ↔ lex_lt (rank x) (rank y).
Proof.
  unfold SFltb, SFcompare, lex_lt.
  destruct x as [s1|s1| |s1 m1 e1], y as [s2|s2| |s2 m2 e2]; intros Hx Hy;
    try discriminate Hx; try discriminate Hy;
    try destruct s1; try destruct s2; simpl;
    try (split; [done || lia|intros; lia || done]);
    try (split; [discriminate|lia]);
    destruct (Z.compare_spec e1 e2); simpl;
    change (Pos.compare_cont Eq m1 m2) with (Pos.compare m1 m2);
    try destruct (Pos.compare_spec m1 m2); simpl;
    (split; intros; try discriminate; lia || done).
Qed.

Lemma SFleb_rank x y :
  isNaN x = false → isNaN y = false → SFleb x y = negb (SFltb y x).
Proof.
  unfold SFltb, SFleb, SFcompare.
  destruct x as [s1|s1| |s1 m1 e1], y as [s2|s2| |s2 m2 e2]; intros Hx Hy;
    try discriminate Hx; try discriminate Hy;
    try destruct s1; try destruct s2; simpl; try done;
    change (Pos.compare_cont Eq m1 m2) with (Pos.compare m1 m2);
    change (Pos.compare_cont Eq m2 m1) with (Pos.compare m2 m1);
    rewrite (Z.compare_antisym e1 e2), (Pos.compare_antisym m1 m2);
    by destruct (e1 ?= e2), (m1 ?= m2)%positive.
Qed.

Lemma SFeqb_rank x y :
  isNaN x = false → isNaN y = false → SFeqb x y = negb (SFltb x y) && negb (SFltb y x).
Proof.
  unfold SFltb, SFeqb, SFcompare.
  destruct x as [s1|s1| |s1 m1 e1], y as [s2|s2| |s2 m2 e2]; intros Hx Hy;
    try discriminate Hx; try discriminate Hy;
    try destruct s1; try destruct s2; simpl; try done;
    change (Pos.compare_cont Eq m1 m2) with (Pos.compare m1 m2);
    change (Pos.compare_cont Eq m2 m1) with (Pos.compare m2 m1);
    rewrite (Z.compare_antisym e1 e2), (Pos.compare_antisym m1 m2);
    by destruct (e1 ?= e2), (m1 ?= m2)%positive.
Qed.

(** A number that is not NaN. *)
Record num := Num { num_val : number; num_ok : isNaN num_val = false }.

#[global] Instance num_ord : JSOrd num := {|
  ltb a b := SFltb (num_val a) (num_val b);
  leb a b := SFleb (num_val a) (num_val b);
  eqb a b := SFeqb (num_val a) (num_val b) |}.

#[global] Instance num_ord_laws : JSOrdLaws num.
Proof.
  assert (∀ a b : num, ltb a b = true ↔ lex_lt (rank (num_val a)) (rank (num_val b))) as Hlt.
  { intros [a Ha] [b Hb]. by apply SFltb_rank. }
  split.
  - intros a. apply not_true_is_false. rewrite Hlt. unfold lex_lt.
    destruct (rank (num_val a)) as [[??]?]. lia.
  - intros a b c. rewrite !Hlt. unfold lex_lt.
    destruct (rank (num_val a)) as [[??]?], (rank (num_val b)) as [[??]?],
      (rank (num_val c)) as [[??]?]. lia.
  - intros a b c. rewrite !Hlt. unfold lex_lt.
    destruct (rank (num_val a)) as [[??]?], (rank (num_val b)) as [[??]?],
      (rank (num_val c)) as [[??]?]. lia.
  - intros [a Ha] [b Hb]. by apply SFleb_rank.
  - intros [a Ha] [b Hb]. by apply SFeqb_rank.
Qed.

(** Integers embed for concrete witnesses. *)
#[global] Instance Z_ord : JSOrd Z := {| ltb := Z.ltb; leb := Z.leb; eqb := Z.eqb |}.

#[global] Instance Z_ord_laws : JSOrdLaws Z.
Proof.
  split; simpl; intros.
  - apply Z.ltb_irrefl.
  - bool_to_prop. apply Z.ltb_lt. lia.
  - bool_to_prop. rewrite !Z.ltb_lt. lia.
  - by rewrite Z.leb_antisym.
  - destruct (Z.ltb_spec a b), (Z.ltb_spec b a), (Z.eqb_spec a b); simpl; try done; lia.
Qed.

(** [Math.ceil] and truncation of a finite number, as integers. *)
Definition num_ceil (x : number) : Z :=
  match x with
  | S754_finite s m e =>
      let v := if s then Z.neg m else Z.pos m in
      if 0 <=? e then v * 2 ^ e else - ((- v) / 2 ^ (- e))
  | _ => 0
  end.
