(* ===== verification/NumFacts.v ===== *)
(** * Sums, products and differences of scores

    Rounding on doubles: a result of the arithmetic is again a normalised
    double, sums and products of non-negative numbers are non-negative and
    never NaN, and the sign of a difference is the order of the operands
    (gradual underflow: a difference of different numbers is not rounded to
    zero). So the comparators of the program order scores. *)

From Stdlib Require Import SpecFloat.
From S2P Require Import Prelude JSNum.
Local Open Scope Z_scope.

Abbreviation fexp' := (fexp prec emax).
Abbreviation emin' := (emin prec emax).

Lemma fexp_val e : fexp' e = Z.max (e - 53) (-1074).
Proof. reflexivity. Qed.

Lemma digits2_log2 p : Z.pos (digits2_pos p) = Z.log2 (Z.pos p) + 1.
Proof.
  induction p as [p IH|p IH|]; cbn [digits2_pos]; [..|reflexivity].
  - rewrite Pos2Z.inj_succ, IH. change (Z.pos p~1) with (2 * Z.pos p + 1). rewrite Z.log2_succ_double; lia.
  - rewrite Pos2Z.inj_succ, IH. change (Z.pos p~0) with (2 * Z.pos p). rewrite Z.log2_double; lia.
Qed.

(** ** Shifting right *)
Lemma shr_1_m x : 0 ≤ shr_m x → shr_m (shr_1 x) = shr_m x / 2.
Proof.
  destruct x as [[|[p|p|]|p] r s]; cbn [shr_m shr_1]; intros; try lia; try reflexivity.
  - change (Z.pos p~1) with (2 * Z.pos p + 1). rewrite (Z.mul_comm 2), Z.div_add_l by lia. change (1 / 2) with 0. lia.
  - change (Z.pos p~0) with (2 * Z.pos p). by rewrite (Z.mul_comm 2), Z.div_mul by lia.
Qed.

Lemma iter_shr_m (p : positive) x : 0 ≤ shr_m x → shr_m (SpecFloat.iter_pos shr_1 p x) = shr_m x / 2 ^ Z.pos p.
Proof.
  revert x. induction p as [p IH|p IH|]; intros x Hx; cbn [SpecFloat.iter_pos].
  - assert (shr_m (shr_1 x) = shr_m x / 2) as H1 by by apply shr_1_m.
    assert (0 ≤ shr_m x / 2) by (apply Z.div_pos; lia).
    assert (0 ≤ shr_m x / 2 / 2 ^ Z.pos p) by (apply Z.div_pos; lia).
    rewrite (IH (SpecFloat.iter_pos _ _ _)), IH; rewrite ?IH, ?H1 by lia; try lia.
    rewrite !Z.div_div by lia. f_equal. replace (Z.pos p~1) with (1 + Z.pos p + Z.pos p) by lia.
    rewrite !Z.pow_add_r by lia. change (2 ^ 1) with 2. lia.
  - assert (0 ≤ shr_m x / 2 ^ Z.pos p) by (apply Z.div_pos; lia).
    rewrite (IH (SpecFloat.iter_pos _ _ _)), IH; rewrite ?IH by lia; try lia. rewrite Z.div_div by lia. f_equal.
    rewrite <-Z.pow_add_r by lia. f_equal. lia.
  - by apply shr_1_m.
Qed.

Lemma shr_fexp_m m e l :
  0 ≤ m → let n := fexp' (Zdigits2 m + e) - e in
  shr_m (shr_fexp prec emax m e l).1 = m / 2 ^ Z.max n 0 ∧ (shr_fexp prec emax m e l).2 = e + Z.max n 0.
Proof.
  intros Hm n. unfold shr_fexp. fold n.
  assert (shr_m (shr_record_of_loc m l) = m) as Hl by by destruct l as [|[]].
  destruct n as [|p|p]; cbn [shr fst snd].
  - change (Z.max 0 0) with 0. rewrite Hl, Z.div_1_r. lia.
  - change (Z.max (Z.pos p) 0) with (Z.pos p). by rewrite iter_shr_m, Hl by lia.
  - change (Z.max (Z.neg p) 0) with 0. rewrite Hl, Z.div_1_r. lia.
Qed.

(** The bound on the mantissa for its exponent: normal or subnormal. *)
Definition canonical (m e : Z) : Prop := fexp' (Z.log2 m + 1 + e) = e.

Lemma canonical_bool m e : canonical_mantissa prec emax m e = true ↔ canonical (Z.pos m) e.
Proof. unfold canonical_mantissa, canonical. by rewrite Z.eqb_eq, digits2_log2. Qed.

(** One shift brings a positive mantissa to its exponent. *)
Lemma shr_fexp_canonical m e l :
  0 < m → e ≤ fexp' (Z.log2 m + 1 + e) →
  let r := shr_fexp prec emax m e l in
  0 ≤ shr_m r.1 ∧ -1074 ≤ r.2 ∧ (shr_m r.1 = 0 → r.2 = -1074) ∧
  (0 < shr_m r.1 → canonical (shr_m r.1) r.2) ∧ (-1074 ≤ e → 0 < shr_m r.1).
Proof.
  intros Hm He r. destruct (shr_fexp_m m e l) as [Hr1 Hr2]; [lia|]. fold r in Hr1, Hr2.
  assert (Zdigits2 m = Z.log2 m + 1) as Hd by (destruct m; [lia|apply digits2_log2|lia]).
  rewrite Hd in Hr1, Hr2. rewrite Z.max_l in Hr1, Hr2 by lia.
  rewrite fexp_val in *. set (n := Z.max (Z.log2 m + 1 + e - 53) (-1074) - e) in *.
  assert (0 ≤ n) by lia. assert (0 < 2 ^ n) by (apply Z.pow_pos_nonneg; lia).
  pose proof (Z.log2_spec m Hm) as [Hlo Hhi]. pose proof (Z.log2_nonneg m).
  assert (0 ≤ m / 2 ^ n) by (apply Z.div_pos; lia).
  assert (n ≤ Z.log2 m → Z.log2 (m / 2 ^ n) = Z.log2 m - n ∧ 0 < m / 2 ^ n) as Hdiv.
  { intros Hn. split.
    - apply Z.log2_unique; [lia|]. split.
      + apply Z.div_le_lower_bound; [lia|]. rewrite <-Z.pow_add_r by lia. by replace (n + (Z.log2 m - n)) with (Z.log2 m) by lia.
      + apply Z.div_lt_upper_bound; [lia|]. rewrite <-Z.pow_add_r by lia. by replace (n + Z.succ (Z.log2 m - n)) with (Z.succ (Z.log2 m)) by lia.
    - apply Z.div_str_pos. split; [lia|]. apply Z.le_trans with (2 ^ Z.log2 m); [|lia]. apply Z.pow_le_mono_r; lia. }
  assert (Z.log2 m < n → m / 2 ^ n = 0) as Hzero.
  { intros Hn. apply Z.div_small. split; [lia|]. apply Z.lt_le_trans with (2 ^ Z.succ (Z.log2 m)); [lia|].
    apply Z.pow_le_mono_r; lia. }
  rewrite Hr1, Hr2. unfold canonical. setoid_rewrite fexp_val.
  destruct (Z.le_gt_cases n (Z.log2 m)) as [Hn|Hn].
  - destruct (Hdiv Hn) as [Hlog Hpos]. rewrite Hlog. split_and!; try lia.
  - rewrite (Hzero Hn). split_and!; lia.
Qed.

Lemma round_even_cases m l : round_nearest_even m l = m ∨ round_nearest_even m l = m + 1.
Proof. destruct l as [|[]]; simpl; auto. destruct (Z.even m); auto. Qed.

(** A normalised, non-negative number. *)
Inductive nonneg : number → Prop :=
  | nonneg_zero : nonneg (S754_zero false)
  | nonneg_inf : nonneg (S754_infinity false)
  | nonneg_finite m e : canonical (Z.pos m) e → nonneg (S754_finite false m e).

Lemma log2_succ_bounds m : 0 ≤ m → Z.log2 m ≤ Z.log2 (m + 1) ≤ Z.log2 m + 1.
Proof.
  intros Hm. destruct (Z.log2_succ_or m) as [H|H]; unfold Z.succ in H; lia.
Qed.

(** Rounding a positive number whose exponent is not too large. *)
Lemma round_aux_spec s m e :
  e ≤ fexp' (Z.log2 (Z.pos m) + 1 + e) →
  let x := binary_round_aux prec emax s (Z.pos m) e loc_Exact in
  (x = S754_zero s ∨ x = S754_infinity s ∨ ∃ m' e', x = S754_finite s m' e' ∧ canonical (Z.pos m') e') ∧
  (-1074 ≤ e → x ≠ S754_zero s).
Proof.
  intros He x. subst x. unfold binary_round_aux.
  pose proof (shr_fexp_canonical (Z.pos m) e loc_Exact ltac:(lia) He) as H1. cbn zeta in H1.
  destruct (shr_fexp prec emax (Z.pos m) e loc_Exact) as [r1 e1]. cbn [fst snd] in H1.
  destruct H1 as (Hm1 & He1 & Hz1 & Hc1 & Hp1).
  set (m2 := round_nearest_even (shr_m r1) (loc_of_shr_record r1)).
  assert (m2 = shr_m r1 ∨ m2 = shr_m r1 + 1) as Hm2 by apply round_even_cases.
  destruct (Z.eq_dec m2 0) as [Hm20|Hm20].
  { rewrite Hm20. assert (shr_m (shr_fexp prec emax 0 e1 loc_Exact).1 = 0) as Hz.
    { rewrite (proj1 (shr_fexp_m 0 e1 loc_Exact ltac:(lia))). by rewrite Z.div_0_l by (apply Z.pow_nonzero; lia). }
    destruct (shr_fexp prec emax 0 e1 loc_Exact) as [r2 e2]. cbn [fst] in Hz. rewrite Hz. split; [by left|]. lia. }
  assert (e1 ≤ fexp' (Z.log2 m2 + 1 + e1)) as He2.
  { rewrite fexp_val. destruct (Z.eq_dec (shr_m r1) 0) as [H0|H0].
    - rewrite (Hz1 H0). lia.
    - unfold canonical in Hc1. setoid_rewrite fexp_val in Hc1. pose proof (log2_succ_bounds (shr_m r1) ltac:(lia)).
      destruct Hm2 as [-> | ->]; lia. }
  pose proof (shr_fexp_canonical m2 e1 loc_Exact ltac:(lia) He2) as H2. cbn zeta in H2.
  destruct (shr_fexp prec emax m2 e1 loc_Exact) as [r2 e2]. cbn [fst snd] in H2.
  destruct H2 as (Hm3 & He3 & _ & Hc3 & Hp3). specialize (Hp3 ltac:(lia)).
  destruct (shr_m r2) as [|m3|m3]; [lia| |lia]. destruct (_ <=? _); (split; [|done]); eauto 10.
Qed.

(** ** Rounding an integer scaled by a power of two *)
Lemma shl_spec m e :
  let e' := fexp' (Z.pos (digits2_pos m) + e) in
  let r := shl_align m e e' in
  r.2 ≤ fexp' (Z.log2 (Z.pos r.1) + 1 + r.2) ∧ (-1074 ≤ e → -1074 ≤ r.2).
Proof.
  intros e' r. subst r. unfold shl_align. subst e'. rewrite digits2_log2.
  pose proof (Z.log2_nonneg (Z.pos m)).
  destruct (fexp' (Z.log2 (Z.pos m) + 1 + e) - e) as [|p|p] eqn:Hd; cbn [fst snd]; rewrite ?fexp_val in *; try lia.
  assert (Z.log2 (Z.pos (Pos.iter xO m p)) = Z.log2 (Z.pos m) + Z.pos p) as Hlog.
  { assert (Z.pos (Pos.iter xO m p) = Z.pos m * 2 ^ Z.pos p) as ->.
    { rewrite <-Z.shiftl_mul_pow2 by lia. simpl. rewrite (Pos.iter_swap_gen _ _ Z.pos xO (Z.mul 2)); done. }
    rewrite Z.log2_mul_pow2 by lia. lia. }
  rewrite Hlog. lia.
Qed.

Lemma binary_round_spec s m e :
  let x := binary_round prec emax s m e in
  (x = S754_zero s ∨ x = S754_infinity s ∨ ∃ m' e', x = S754_finite s m' e' ∧ canonical (Z.pos m') e') ∧
  (-1074 ≤ e → x ≠ S754_zero s).
Proof.
  unfold binary_round. pose proof (shl_spec m e) as Hs. cbn zeta in Hs.
  destruct (shl_align _ _ _) as [mz ez]. cbn [fst snd] in Hs. destruct Hs as [H1 H2].
  destruct (round_aux_spec s mz ez H1) as [H3 H4]. split; [exact H3|]. intros He. by apply H4, H2.
Qed.

(** ** The operations on non-negative numbers *)
Lemma canonical_emin m e : canonical m e → -1074 ≤ e.
Proof. unfold canonical. rewrite fexp_val. lia. Qed.

Lemma binary_round_nonneg m e : nonneg (binary_round prec emax false m e).
Proof. destruct (binary_round_spec false m e) as [[-> | [-> |(m' & e' & -> & ?)]] _]; by constructor. Qed.

Lemma num_of_Z_nonneg z : 0 ≤ z → nonneg (num_of_Z z).
Proof. destruct z as [|p|p]; intros; [constructor|apply binary_round_nonneg|lia]. Qed.

Lemma num_add_nonneg x y : nonneg x → nonneg y → nonneg (num_add x y).
Proof.
  intros [| |mx ex Hx] [| |my ey Hy]; try (by constructor). apply binary_round_nonneg.
Qed.

Lemma num_mul_nonneg x y :
  nonneg x → nonneg y → x ≠ num_infinity → y ≠ num_infinity → nonneg (num_mul x y).
Proof.
  intros [| |mx ex Hx] [| |my ey Hy] Hnx Hny; try done; try (by constructor).
  unfold num_mul, SFmul. cbn [xorb].
  destruct (round_aux_spec false (mx * my) (ex + ey)) as [[-> | [-> |(m' & e' & -> & ?)]] _]; try by constructor.
  unfold canonical in *. rewrite fexp_val in *. rewrite Pos2Z.inj_mul.
  pose proof (Z.log2_mul_below (Z.pos mx) (Z.pos my) ltac:(lia) ltac:(lia)).
  pose proof (Z.log2_nonneg (Z.pos mx)). pose proof (Z.log2_nonneg (Z.pos my)). lia.
Qed.

(** The mantissas brought to a common exponent compare like the numbers. *)
Lemma shl_align_val m e e' : e' ≤ e → Z.pos (shl_align m e e').1 = Z.pos m * 2 ^ (e - e').
Proof.
  intros He. unfold shl_align. destruct (e' - e) as [|p|p] eqn:Hd; cbn [fst]; [..|].
  - replace (e - e') with 0 by lia. lia.
  - lia.
  - replace (e - e') with (Z.pos p) by lia. rewrite <-Z.shiftl_mul_pow2 by lia. simpl.
    rewrite (Pos.iter_swap_gen _ _ Z.pos xO (Z.mul 2)); done.
Qed.

Lemma canonical_lt m1 e1 m2 e2 :
  canonical (Z.pos m1) e1 → canonical (Z.pos m2) e2 → e1 < e2 →
  Z.pos m1 * 2 ^ (e1 - e1) < Z.pos m2 * 2 ^ (e2 - e1).
Proof.
  intros H1 H2 He. apply canonical_emin in H1 as He1. unfold canonical in *. rewrite fexp_val in *.
  rewrite Z.sub_diag, Z.mul_1_r. pose proof (Z.log2_spec (Z.pos m1) ltac:(lia)) as [_ Hm1].
  pose proof (Z.log2_spec (Z.pos m2) ltac:(lia)) as [Hm2 _].
  assert (2 ^ Z.succ (Z.log2 (Z.pos m1)) ≤ 2 ^ 53) by (apply Z.pow_le_mono_r; lia).
  assert (2 ^ 52 ≤ 2 ^ Z.log2 (Z.pos m2)) by (apply Z.pow_le_mono_r; lia).
  assert (2 ^ 1 ≤ 2 ^ (e2 - e1)) by (apply Z.pow_le_mono_r; lia).
  change (2 ^ 53) with (2 ^ 52 * 2) in *. change (2 ^ 1) with 2 in *. nia.
Qed.

Lemma ltb_aligned m1 e1 m2 e2 :
  canonical (Z.pos m1) e1 → canonical (Z.pos m2) e2 → let e := Z.min e1 e2 in
  ltb (S754_finite false m1 e1) (S754_finite false m2 e2) =
    (Z.pos (shl_align m1 e1 e).1 <? Z.pos (shl_align m2 e2 e).1).
Proof.
  intros H1 H2 e. rewrite !shl_align_val by lia. cbn [ltb number_ord SFltb SFcompare].
  unfold SFltb, SFcompare. destruct (Z.compare_spec e1 e2) as [<-|Hlt|Hlt].
  - subst e. rewrite Z.min_id, Z.sub_diag, !Z.mul_1_r. change (Pos.compare_cont Eq m1 m2) with (Pos.compare m1 m2).
    unfold Z.ltb. cbn [Z.compare]. by destruct (m1 ?= m2)%positive.
  - subst e. rewrite Z.min_l by lia. symmetry. apply Z.ltb_lt. by apply canonical_lt.
  - subst e. rewrite Z.min_r by lia. symmetry. apply Z.ltb_ge. apply Z.lt_le_incl. by apply canonical_lt.
Qed.

Lemma sub_sign x y : nonneg x → nonneg y → ltb num_zero (num_sub x y) = ltb y x.
Proof.
  intros [| |mx ex Hx] [| |my ey Hy]; try done.
  rewrite ltb_aligned, Z.min_comm by done. unfold num_sub, SFsub. cbn [cond_Zopp].
  set (e := Z.min ex ey). apply canonical_emin in Hx, Hy.
  destruct (Z.ltb_spec (Z.pos (shl_align my ey e).1) (Z.pos (shl_align mx ex e).1)) as [Hlt|Hle].
  - destruct (_ - _) as [|p|p] eqn:Hd; [lia| |lia]. cbn [binary_normalize].
    destruct (binary_round_spec false p e) as [[-> | [-> |(m' & e' & -> & ?)]] Hz]; try done. destruct Hz; [lia|done].
  - destruct (_ - _) as [|p|p] eqn:Hd; [done|lia|]. cbn [binary_normalize].
    destruct (binary_round_spec true p e) as [[-> | [-> |(m' & e' & -> & ?)]] Hz]; done.
Qed.

Lemma nonneg_not_nan x : nonneg x → isNaN x = false.
Proof. by intros []. Qed.
