(* ===== verification/Utils.v ===== *)
(** * Helper functions of the bundle (the top of search-orama.js) *)

From stdpp Require Import pretty.
From S2P Require Import Prelude JSColl JSNum.
Local Open Scope Z_scope.

Section collections.
Context {A : Type} `{EqDecision A}.

(** Function [_]: the union of two sets, the first of which may be absent.
    [e.union(t)] and [new Set([...e, ...t])] both list the elements of [e]
    first. *)
Definition __union (e : option (list A)) (t : list A) : list A :=
  match e with Some e => set_add_all t e | None => set_of t end.

Lemma elem_of_union_sets x e t :
  x ∈ __union e t ↔ x ∈ t ∨ ∃ e', e = Some e' ∧ x ∈ e'.
Proof.
  destruct e; simpl; autorewrite with jscoll; naive_solver.
Qed.

(** ** Function [f]: appending an array in chunks of [u] elements *)
Definition MAX_ARGUMENT_COUNT : nat := Z.to_nat 65535.

Fixpoint push_chunks (fuel : nat) (u r : nat) (e t : list A) : option (list A) :=
  match fuel with
  | O => None
  | S fuel => if (r <? length t)%nat
              then push_chunks fuel u (r + u) (e ++ take u (drop r t)) t
              else Some e
  end.

Definition safeArrayPush (u : nat) (e t : list A) : option (list A) :=
  if (length t <? u)%nat then Some (e ++ t)
  else push_chunks (S (length t)) u 0 e t.

Lemma push_chunks_spec fuel u r e t :
  (0 < u)%nat → (length t - r < fuel)%nat →
  push_chunks fuel u r e t = Some (e ++ drop r t).
Proof.
  intros Hu. revert r e. induction fuel as [|fuel IH]; intros r e Hf.
  - lia.
  - cbn [push_chunks]. destruct (Nat.ltb_spec r (length t)) as [Hl|Hl].
    + rewrite IH by lia. rewrite <-(assoc_L (++)). do 2 f_equal.
      by rewrite <-drop_drop, take_drop.
    + by rewrite drop_ge, app_nil_r by lia.
Qed.

(** The chunks make up the whole array. *)
Lemma safeArrayPush_spec u e t : (0 < u)%nat → safeArrayPush u e t = Some (e ++ t).
Proof.
  intros Hu. unfold safeArrayPush. destruct (length t <? u)%nat; [done|].
  rewrite push_chunks_spec by lia. by rewrite drop_0.
Qed.

(** ** Function [b]: the elements common to several arrays *)

(** The first loop brings a shortest array to the front. *)
Fixpoint shortest_first (e0 : list A) (rest : list (list A)) : list A * list (list A) :=
  match rest with
  | [] => (e0, [])
  | x :: rest =>
      if (length x <? length e0)%nat
      then let '(h, l) := shortest_first x rest in (h, e0 :: l)
      else let '(h, l) := shortest_first e0 rest in (h, x :: l)
  end.

(** The loop over one array [l]: an element seen in all arrays so far
    ([e === n]) is counted once; [r] counts them. *)
Fixpoint count_seen (n : nat) (l : list A) (t : list (A * nat)) (r : nat) : list (A * nat) * nat :=
  match l with
  | [] => (t, r)
  | o :: l =>
      match jm_get o t with
      | Some e => if (e =? n)%nat then count_seen n l (jm_set o (e + 1)%nat t) (r + 1) else count_seen n l t r
      | None => count_seen n l t r
      end
  end.

Fixpoint count_arrays (n : nat) (ls : list (list A)) (t : list (A * nat)) : option (list (A * nat)) :=
  match ls with
  | [] => Some t
  | l :: ls =>
      let '(t, r) := count_seen n l t 0 in
      if (r =? 0)%nat then None else count_arrays (S n) ls t
  end.

(** The final filter, which resets the count of what it has seen. *)
Fixpoint keep_full (len : nat) (l : list A) (t : list (A * nat)) : list A :=
  match l with
  | [] => []
  | n :: l =>
      match jm_get n t with
      | Some r => let t := jm_set n 0%nat t in
                  if (r =? len)%nat then n :: keep_full len l t else keep_full len l t
      | None => keep_full len l t
      end
  end.

Definition intersect (e : list (list A)) : list A :=
  match e with
  | [] => []
  | [l] => l
  | l :: ls =>
      let '(e0, rest) := shortest_first l ls in
      let t := foldl (λ t n, jm_set n 1%nat t) [] e0 in
      match count_arrays 1 rest t with
      | None => []
      | Some t => keep_full (length e) e0 t
      end
  end.
End collections.

(** ** The counting implements intersection *)
Section intersect_facts.
Context {A : Type} `{EqDecision A}.
Implicit Types (l : list A) (t : list (A * nat)).

Lemma shortest_first_perm (e0 : list A) rest h (l : list (list A)) :
  shortest_first e0 rest = (h, l) → h :: l ≡ₚ e0 :: rest ∧ length l = length rest.
Proof.
  revert e0 h l. induction rest as [|x rest IH]; intros e0 h l; simpl; [by intros [= <- <-]|].
  destruct (length x <? length e0)%nat; destruct (shortest_first _ rest) as [h' l'] eqn:Hs;
    intros [= <- <-]; apply IH in Hs as [Hp Hl]; simpl; (split; [|lia]).
  - by rewrite Permutation_swap, Hp.
  - rewrite Permutation_swap, Hp. apply Permutation_swap.
Qed.

(** After the arrays [ls] the count of an element of the first one is one more
    than the number of leading arrays that contain it. *)
Definition seen (n : nat) (e0 : list A) (ls : list (list A)) t : Prop :=
  ∀ x, (x ∉ e0 → jm_get x t = None) ∧
       (x ∈ e0 → ∃ k, jm_get x t = Some k ∧ (k ≤ n)%nat ∧
          (k = n ↔ ∀ l, l ∈ ls → x ∈ l)).

Lemma seen_init e0 : seen 1 e0 [] (foldl (λ t n, jm_set n 1%nat t) [] e0).
Proof.
  assert (∀ l t x, jm_get x (foldl (λ t n, jm_set n 1%nat t) t l) = if decide (x ∈ l) then Some 1%nat else jm_get x t) as Hf.
  { induction l as [|y l IH]; intros t x; cbn [foldl]; [by rewrite decide_False by set_solver|].
    rewrite IH, jm_get_set. repeat case_decide; set_solver. }
  intros x. rewrite Hf. split; intros Hx; [by rewrite decide_False|].
  rewrite decide_True by done. exists 1%nat. split_and!; [done..|]. split; [set_solver|done].
Qed.

Lemma count_seen_spec n l t r :
  ∀ t' r', count_seen n l t r = (t', r') →
  (∀ x, jm_get x t' = match jm_get x t with
                      | Some k => if bool_decide (k = n ∧ x ∈ l) then Some (k + 1)%nat else Some k
                      | None => None
                      end) ∧
  (r ≤ r')%nat ∧ (r' = r → ∀ x, jm_get x t = Some n → x ∉ l).
Proof.
  revert t r. induction l as [|o l IH]; intros t r t' r'; cbn [count_seen].
  { intros [= <- <-]. split_and!; [|done|set_solver]. intros x. destruct (jm_get x t); [|done].
    rewrite bool_decide_eq_false_2 by set_solver. done. }
  destruct (jm_get o t) as [e|] eqn:Ho; [destruct (Nat.eqb_spec e n) as [->|Hne]|];
    intros Hc; apply IH in Hc as (Hg & Hr & Hz).
  - split_and!; [|lia|intros; lia]. intros x. rewrite Hg, jm_get_set.
    destruct (decide (x = o)) as [->|].
    + rewrite Ho. rewrite bool_decide_eq_false_2 by lia. by rewrite bool_decide_eq_true_2 by set_solver.
    + destruct (jm_get x t); [|done]. repeat case_bool_decide; set_solver.
  - split_and!; [|done|]. 
    + intros x. rewrite Hg. destruct (jm_get x t) as [k|] eqn:Hx; [|done].
      repeat case_bool_decide; try done; set_solver.
    + intros He x Hx. rewrite not_elem_of_cons. split; [congruence|by apply Hz].
  - split_and!; [|done|].
    + intros x. rewrite Hg. destruct (jm_get x t) as [k|] eqn:Hx; [|done].
      repeat case_bool_decide; try done; set_solver.
    + intros He x Hx. rewrite not_elem_of_cons. split; [congruence|by apply Hz].
Qed.

Lemma count_arrays_spec n e0 ls done_ t :
  seen n e0 done_ t →
  match count_arrays n ls t with
  | Some t' => seen (n + length ls) e0 (done_ ++ ls) t'
  | None => ∀ x, x ∈ e0 → ¬ ∀ l, l ∈ done_ ++ ls → x ∈ l
  end.
Proof.
  revert n done_ t. induction ls as [|l ls IH]; intros n done_ t Hs; cbn [count_arrays].
  { by rewrite Nat.add_0_r, app_nil_r. }
  destruct (count_seen n l t 0) as [t1 r] eqn:Hc.
  apply count_seen_spec in Hc as (Hg & _ & Hz).
  destruct (Nat.eqb_spec r 0) as [->|Hr].
  - intros x Hx Hall. destruct (Hs x) as [_ Hk]. destruct (Hk Hx) as (k & Hk1 & _ & Hk2).
    apply (Hz eq_refl x); [|by apply Hall; set_solver]. rewrite Hk1. f_equal. apply Hk2. set_solver.
  - specialize (IH (S n) (done_ ++ [l]) t1). rewrite <-(assoc_L (++)) in IH. cbn [app] in IH.
    replace (n + length (l :: ls))%nat with (S n + length ls)%nat by (simpl; lia). apply IH.
    intros x. destruct (Hs x) as [H1 H2]. rewrite Hg. split; intros Hx; [by rewrite H1|].
    destruct (H2 Hx) as (k & -> & Hle & Hiff). case_bool_decide as Hb.
    + destruct Hb as [-> Hl]. exists (n + 1)%nat. split_and!; [done|lia|]. split; [|lia]. intros _.
      pose proof (proj1 Hiff eq_refl). set_solver.
    + exists k. split_and!; [done|lia|]. split; [lia|]. intros Hall. destruct Hb. split; [|set_solver].
      apply Hiff. set_solver.
Qed.

Lemma keep_full_spec len l t :
  (0 < len)%nat →
  NoDup (keep_full len l t) ∧ ∀ x, x ∈ keep_full len l t ↔ x ∈ l ∧ jm_get x t = Some len.
Proof.
  intros Hlen. revert t. induction l as [|n l IH]; intros t; cbn [keep_full].
  { split; [constructor|set_solver]. }
  destruct (jm_get n t) as [r|] eqn:Hn.
  2: { destruct (IH t) as [Hnd Hin]. split; [done|]. intros x. rewrite Hin. set_solver. }
  destruct (IH (jm_set n 0%nat t)) as [Hnd Hin].
  assert (∀ x, jm_get x (jm_set n 0%nat t) = Some len ↔ x ≠ n ∧ jm_get x t = Some len) as Hget.
  { intros x. rewrite jm_get_set. case_decide; [|naive_solver]. split; [intros [= ?]; lia|naive_solver]. }
  destruct (Nat.eqb_spec r len) as [->|Hne].
  - split.
    + apply NoDup_cons. split; [|done]. rewrite Hin, Hget. naive_solver.
    + intros x. rewrite elem_of_cons, Hin, Hget, elem_of_cons. destruct (decide (x = n)); naive_solver.
  - split; [done|]. intros x. rewrite Hin, Hget, elem_of_cons. destruct (decide (x = n)); naive_solver.
Qed.

(** The elements of an intersection. *)
Lemma intersect_elem (e : list (list A)) :
  (∀ x, x ∈ intersect e ↔ e ≠ [] ∧ ∀ l, l ∈ e → x ∈ l) ∧
  (length e ≠ 1%nat → NoDup (intersect e)).
Proof.
  destruct e as [|l [|l2 ls]]; [split; [set_solver|constructor]|split; [set_solver|done]|].
  unfold intersect. destruct (shortest_first l (l2 :: ls)) as [e0 rest] eqn:Hs.
  apply shortest_first_perm in Hs as [Hp Hl].
  assert (∀ x, (∀ l', l' ∈ l :: l2 :: ls → x ∈ l') ↔ x ∈ e0 ∧ ∀ l', l' ∈ rest → x ∈ l') as Hall.
  { intros x. setoid_rewrite <-Hp. set_solver. }
  pose proof (count_arrays_spec 1 e0 rest [] _ (seen_init e0)) as Hc. cbn [app] in Hc.
  destruct (count_arrays 1 rest _) as [t|].
  - destruct (keep_full_spec (length (l :: l2 :: ls)) e0 t) as [Hnd Hin]; [simpl; lia|].
    split; [|done]. intros x. rewrite Hin, Hall. destruct (Hc x) as [H1 H2].
    assert (1 + length rest = length (l :: l2 :: ls))%nat as <- by (simpl in *; lia).
    split.
    + intros [Hx Hk]. destruct (H2 Hx) as (k & Hk' & _ & Hiff). split; [done|]. split; [done|].
      apply Hiff. congruence.
    + intros [_ [Hx Ha]]. destruct (H2 Hx) as (k & Hk' & _ & Hiff). split; [done|].
      rewrite Hk'. f_equal. by apply Hiff.
  - split; [|constructor]. intros x. rewrite Hall. split; [set_solver|]. intros [_ [Hx Ha]].
    by destruct (Hc x Hx).
Qed.

(** The counting intersection of several arrays returns, without
    repetition, exactly the elements that occur in every array; swapping a
    short array to the front and leaving early on an empty count change
    nothing. *)
Theorem intersect_spec (e : list (list A)) :
  (∀ x, x ∈ intersect e ↔ e ≠ [] ∧ ∀ l, l ∈ e → x ∈ l) ∧
  (length e ≠ 1%nat → NoDup (intersect e)).
Proof. apply intersect_elem. Qed.
End intersect_facts.

(** ** Sorting

    [Array.prototype.sort] with a comparator is a stable sort; [le a b] says
    that the comparator's result for [a] and [b] is not positive. *)
Section sort.
Context {A : Type} (le : A → A → bool).

Fixpoint sort_insert (x : A) (l : list A) : list A :=
  match l with
  | [] => [x]
  | y :: l' => if le x y then x :: l else y :: sort_insert x l'
  end.
Definition js_sort (l : list A) : list A := foldr sort_insert [] l.

Lemma sort_insert_perm x l : sort_insert x l ≡ₚ x :: l.
Proof.
  induction l as [|y l IH]; simpl; [done|]. destruct (le x y); [done|]. rewrite IH. apply Permutation_swap.
Qed.

Lemma js_sort_perm l : js_sort l ≡ₚ l.
Proof. induction l as [|x l IH]; simpl; [done|]. by rewrite sort_insert_perm, IH. Qed.

(** The comparator needs to be consistent only on the elements of the list. *)
Section sorted.
Context (P : A → Prop).
Context (le_total : ∀ a b, P a → P b → le a b = true ∨ le b a = true).
Context (le_trans : ∀ a b c, P a → P b → P c → le a b = true → le b c = true → le a c = true).

Lemma sort_insert_sorted x l :
  P x → Forall P l →
  StronglySorted (λ a b, le a b = true) l → StronglySorted (λ a b, le a b = true) (sort_insert x l).
Proof.
  intros Hx HP. induction 1 as [|y l Hs IH Hall]; simpl; [repeat constructor|].
  apply Forall_cons in HP as [Hy HP]. destruct (le x y) eqn:Hxy.
  - constructor; [by constructor|]. constructor; [done|]. rewrite Forall_forall in *.
    intros z Hz. eapply (le_trans x y z); auto.
  - constructor; [by apply IH|]. rewrite sort_insert_perm. constructor; [|done].
    destruct (le_total x y); congruence.
Qed.

Lemma js_sort_sorted_on l : Forall P l → StronglySorted (λ a b, le a b = true) (js_sort l).
Proof.
  induction 1 as [|x l Hx Hl IH]; simpl; [constructor|]. apply sort_insert_sorted; [done| |done].
  by rewrite js_sort_perm.
Qed.
End sorted.

Lemma js_sort_sorted l :
  (∀ a b, le a b = true ∨ le b a = true) → (∀ a b c, le a b = true → le b c = true → le a c = true) →
  StronglySorted (λ a b, le a b = true) (js_sort l).
Proof. intros ??. apply (js_sort_sorted_on (λ _, True)); [by auto|by eauto|by apply Forall_true]. Qed.
End sort.

(** Function [y]: by score, highest first, then by id. *)
Definition sortTokenScorePredicate (e t : Z * number) : bool :=
  if eqb t.2 e.2 then e.1 <=? t.1 else negb (ltb num_zero (num_sub t.2 e.2)).

(** ** Function [h]: durations *)
Definition formatNanoseconds (e : Z) : jsstr :=
  if e <? 1000 then js (pretty e) ++ js "ns"
  else if e <? 1000000 then js (pretty (Z.quot e 1000)) ++ [956%N; 115%N]
  else if e <? 1000000000 then js (pretty (Z.quot e 1000000)) ++ js "ms"
  else js (pretty (Z.quot e 1000000000)) ++ js "s".

(** ** Table [v] and function [I]: distances in metres *)
Definition distance_unit (t : jsstr) : option number :=
  if decide (t = js "cm") then Some (num_dec 1 2)
  else if decide (t = js "m") then Some (num_of_Z 1)
  else if decide (t = js "km") then Some (num_of_Z 1000)
  else if decide (t = js "ft") then Some (num_dec 3048 4)
  else if decide (t = js "yd") then Some (num_dec 9144 4)
  else if decide (t = js "mi") then Some (num_dec 1609344 3)
  else None.

Definition convertDistanceToMeters (e : number) (t : jsstr) : result number :=
  match distance_unit t with
  | None => Throw (OramaError "INVALID_DISTANCE_SUFFIX" [])
  | Some n => Ok (num_mul e n)
  end.
