(* ===== verification/JSValue.v ===== *)
(** * JavaScript values

    Documents are plain data: what JSON can hold, plus [undefined]. Property
    names are own properties; the names objects inherit from
    [Object.prototype] are not used as property names. *)

From Stdlib Require Import SpecFloat.
From stdpp Require Import pretty.
From S2P Require Import Prelude JSColl JSNum.
Local Open Scope Z_scope.

Inductive jsval :=
  | JUndef
  | JNull
  | JBool (b : bool)
  | JNum (n : number)
  | JStr (s : jsstr)
  | JArr (l : list jsval)
  | JObj (o : list (jsstr * jsval)).

(** [typeof v] *)
Definition typeof (v : jsval) : string :=
  match v with
  | JUndef => "undefined"
  | JBool _ => "boolean"
  | JNum _ => "number"
  | JStr _ => "string"
  | JNull | JArr _ | JObj _ => "object"
  end.

(** [Array.isArray(v)] *)
Definition isArray (v : jsval) : bool := match v with JArr _ => true | _ => false end.

(** [!!v] *)
Definition truthy (v : jsval) : bool :=
  match v with
  | JUndef | JNull => false
  | JBool b => b
  | JNum n => match n with S754_zero _ | S754_nan => false | _ => true end
  | JStr s => negb (bool_decide (s = []))
  | JArr _ | JObj _ => true
  end.

(** [k] as an array index: decimal digits without a leading zero. *)
Definition digit (c : N) : option nat :=
  if (48 <=? c)%N && (c <=? 57)%N then Some (N.to_nat (c - 48)) else None.
Fixpoint digits_value (s : jsstr) (acc : nat) : option nat :=
  match s with
  | [] => Some acc
  | c :: s => d ← digit c; digits_value s (10 * acc + d)%nat
  end.
Definition array_index (k : jsstr) : option nat :=
  match k with
  | [] => None
  | [c] => digit c
  | c :: _ => if (c =? 48)%N then None else digits_value k 0
  end.

(** [v[k]] *)
Definition get_prop (v : jsval) (k : jsstr) : result jsval :=
  match v with
  | JUndef | JNull => Throw TypeError
  | JBool _ | JNum _ => Ok JUndef
  | JStr s =>
      if decide (k = js "length") then Ok (JNum (num_of_Z (Z.of_nat (length s))))
      else match array_index k with
           | Some i => Ok (match s !! i with Some c => JStr [c] | None => JUndef end)
           | None => Ok JUndef
           end
  | JArr l =>
      if decide (k = js "length") then Ok (JNum (num_of_Z (Z.of_nat (length l))))
      else match array_index k with
           | Some i => Ok (default JUndef (l !! i))
           | None => Ok JUndef
           end
  | JObj o => Ok (default JUndef (jm_get k o))
  end.

(** [k in v], for an object or array [v]; other values throw. *)
Definition prop_in (k : jsstr) (v : jsval) : result bool :=
  match v with
  | JObj o => Ok (jm_has k o)
  | JArr l => Ok (bool_decide (k = js "length") ||
                  match array_index k with Some i => (i <? length l)%nat | None => false end)
  | _ => Throw TypeError
  end.

(** A number as a decimal string, for an index. *)
Definition nat_str (n : nat) : jsstr := js (pretty n).

(** [s.split('.')] *)
Fixpoint split_on (c : N) (s : jsstr) : list jsstr :=
  match s with
  | [] => [[]]
  | x :: s =>
      if decide (x = c) then [] :: split_on c s
      else match split_on c s with
           | w :: ws => (x :: w) :: ws
           | [] => [[x]]
           end
  end.
Definition dot : N := 46.

(** [a.join(c)] *)
Fixpoint join_on (c : N) (l : list jsstr) : jsstr :=
  match l with
  | [] => []
  | [w] => w
  | w :: l => w ++ c :: join_on c l
  end.

(** [l.join(sep)] *)
Fixpoint join_str (sep : jsstr) (l : list jsstr) : jsstr :=
  match l with
  | [] => []
  | [w] => w
  | w :: l => w ++ sep ++ join_str sep l
  end.

Lemma split_on_ne c s : split_on c s ≠ [].
Proof. destruct s as [|x s]; [done|]. simpl. repeat case_match; done. Qed.

(** Splitting and joining at a separator are inverse. *)
Lemma join_split c s : join_on c (split_on c s) = s.
Proof.
  induction s as [|x s IH]; [done|]. simpl. pose proof (split_on_ne c s).
  destruct (decide (x = c)) as [->|]; destruct (split_on c s) as [|w ws]; try done; simpl in *.
  - by rewrite IH.
  - destruct ws; simpl in *; by rewrite IH.
Qed.

Lemma split_on_clean c s w : w ∈ split_on c s → c ∉ w.
Proof.
  revert w. induction s as [|x s IH]; simpl; intros w.
  - rewrite list_elem_of_singleton. intros ->. set_solver.
  - destruct (decide (x = c)) as [->|].
    + rewrite elem_of_cons. intros [->|?]; [set_solver|by apply IH].
    + destruct (split_on c s) as [|w' ws] eqn:Hs; [by apply split_on_ne in Hs|].
      rewrite elem_of_cons. intros [->|?]; [|apply IH; by right].
      assert (c ∉ w') by (apply IH; by left). rewrite elem_of_cons. intros [?|?]; congruence.
Qed.

Lemma split_join c l :
  l ≠ [] → Forall (λ w, c ∉ w) l → split_on c (join_on c l) = l.
Proof.
  intros Hne Hall. induction Hall as [|w l Hw Hl IH]; [done|].
  assert (split_on c w = [w]) as Hs.
  { clear -Hw. induction w as [|x w IH]; [done|]. simpl.
    rewrite decide_False by set_solver. rewrite IH by set_solver. done. }
  destruct l as [|w' l]; [done|]. change (join_on c (w :: w' :: l)) with (w ++ c :: join_on c (w' :: l)).
  specialize (IH ltac:(done)). clear Hs Hne. induction w as [|x w IHw]; cbn [app split_on].
  - by rewrite decide_True, IH.
  - rewrite decide_False by set_solver. rewrite IHw by set_solver. done.
Qed.

(** ** Property order

    Enumerating an object lists the properties that are array indices first,
    in ascending order, then the others in the order they were created. *)
Definition is_index {V} (p : jsstr * V) : bool :=
  match array_index p.1 with Some _ => true | None => false end.
Definition index_le {V} (p q : jsstr * V) : bool :=
  (default 0 (array_index p.1) <=? default 0 (array_index q.1))%nat.
Definition insert_index {V} (p : jsstr * V) (l : list (jsstr * V)) : list (jsstr * V) :=
  (fix go l := match l with [] => [p] | q :: l' => if index_le p q then p :: l else q :: go l' end) l.
Definition obj_entries {V} (o : list (jsstr * V)) : list (jsstr * V) :=
  foldr insert_index [] (List.filter is_index o) ++ List.filter (λ p, negb (is_index p)) o.

Lemma insert_index_perm {V} (p : jsstr * V) l : insert_index p l ≡ₚ p :: l.
Proof.
  induction l as [|q l IH]; [done|]. simpl. destruct (index_le p q); [done|].
  unfold insert_index in IH. rewrite IH. apply Permutation_swap.
Qed.

Lemma obj_entries_perm {V} (o : list (jsstr * V)) : obj_entries o ≡ₚ o.
Proof.
  unfold obj_entries. assert (foldr insert_index [] (List.filter is_index o) ≡ₚ List.filter is_index o) as ->.
  { induction (List.filter is_index o) as [|p l IH]; simpl; [done|]. by rewrite insert_index_perm, IH. }
  induction o as [|p o IH]; simpl; [done|]. destruct (is_index p); simpl.
  - by rewrite IH.
  - by rewrite <-Permutation_middle, IH.
Qed.
Lemma obj_entries_wf {V} (o : list (jsstr * V)) : jm_wf o → jm_wf (obj_entries o).
Proof. unfold jm_wf. by rewrite obj_entries_perm. Qed.
Lemma obj_entries_get {V} (o : list (jsstr * V)) k : jm_wf o → jm_get k (obj_entries o) = jm_get k o.
Proof.
  intros Ho. pose proof (obj_entries_wf o Ho) as Ho'. apply option_eq. intros v.
  rewrite !jm_get_elem by done. by rewrite obj_entries_perm.
Qed.
