(* ===== verification/AVL.v ===== *)
(** * The AVL tree of numeric properties (classes [ae] and [ce])

    The tree is modelled as the code builds it: a store of mutable node
    objects linked by references, with [null] as [None]. Dereferencing a
    reference that is not there is [None] of the option monad. [tree] is the
    functional counterpart, a binary tree whose nodes carry the reference of
    the object they stand for, and [repr] relates the two. *)

From S2P Require Import Prelude JSColl JSNum Utils.
Local Open Scope Z_scope.

Abbreviation loc := positive.

Section avl.
Context {K D : Type} `{JSOrd K, EqDecision D}.

(** ** Node objects *)
Record node := Node {
  n_k : K; n_v : list D; n_l : option loc; n_r : option loc; n_h : Z }.

Abbreviation heap := (gmap loc node).

(** [new ae(e, t)] *)
Definition new_node (e : K) (t : list D) : node := Node e (set_of t) None None 1.

Definition set_l (p : option loc) (n : node) : node :=
  Node (n_k n) (n_v n) p (n_r n) (n_h n).
Definition set_r (p : option loc) (n : node) : node :=
  Node (n_k n) (n_v n) (n_l n) p (n_h n).
Definition set_h (h : Z) (n : node) : node :=
  Node (n_k n) (n_v n) (n_l n) (n_r n) h.
Definition set_v (v : list D) (n : node) : node :=
  Node (n_k n) v (n_l n) (n_r n) (n_h n).
Definition set_k (k : K) (n : node) : node :=
  Node k (n_v n) (n_l n) (n_r n) (n_h n).

(** Writing a field of an existing object. *)
Definition write (hp : heap) (a : loc) (f : node → node) : option heap :=
  n ← hp !! a; Some (<[a := f n]> hp).

Definition getHeight (hp : heap) (e : option loc) : option Z :=
  match e with Some a => n_h <$> hp !! a | None => Some 0 end.

Definition updateHeight (hp : heap) (this : loc) : option heap :=
  n ← hp !! this;
  hl ← getHeight hp (n_l n);
  hr ← getHeight hp (n_r n);
  write hp this (set_h (Z.max hl hr + 1)).

Definition getBalanceFactor (hp : heap) (this : loc) : option Z :=
  n ← hp !! this;
  hl ← getHeight hp (n_l n);
  hr ← getHeight hp (n_r n);
  Some (hl - hr).

Definition rotateLeft (hp : heap) (this : loc) : option (heap * loc) :=
  n ← hp !! this;
  e ← n_r n;
  en ← hp !! e;
  hp ← write hp this (set_r (n_l en));
  hp ← write hp e (set_l (Some this));
  hp ← updateHeight hp this;
  hp ← updateHeight hp e;
  Some (hp, e).

Definition rotateRight (hp : heap) (this : loc) : option (heap * loc) :=
  n ← hp !! this;
  e ← n_l n;
  en ← hp !! e;
  hp ← write hp this (set_l (n_r en));
  hp ← write hp e (set_r (Some this));
  hp ← updateHeight hp this;
  hp ← updateHeight hp e;
  Some (hp, e).

(** ** The tree object *)
Record avl := Avl {
  cells : heap; next : loc; root : option loc; insertCount : Z }.

(** [new ce(e, t)] with both arguments given, as the index creates it. *)
Definition new_avl (e : K) (t : list D) : avl :=
  Avl {[ 1%positive := new_node e t ]} 2 (Some 1%positive) 0.

Definition rebalanceNode (hp : heap) (e : loc) : option (heap * loc) :=
  n ← hp !! e;
  t ← getBalanceFactor hp e;
  let right_heavy :=
    if t <? -1 then
      match n_r n with
      | Some r =>
          br ← getBalanceFactor hp r;
          if br <=? 0 then rotateLeft hp e
          else '(hp, r') ← rotateRight hp r;
               hp ← write hp e (set_r (Some r'));
               rotateLeft hp e
      | None => Some (hp, e)
      end
    else Some (hp, e) in
  if 1 <? t then
    match n_l n with
    | Some l =>
        bl ← getBalanceFactor hp l;
        if 0 <=? bl then rotateRight hp e
        else '(hp, l') ← rotateLeft hp l;
             hp ← write hp e (set_l (Some l'));
             rotateRight hp e
    | None => right_heavy
    end
  else right_heavy.

(** ** Insertion

    The loop that walks down from the root, recording [{parent, node}]
    pairs in [o], until it finds the key ([found]) or hangs a new node [nx]
    below a leaf. *)
Inductive descended :=
  | found (hp : heap)
  | attached (hp : heap) (o : list (option loc * loc)).

Fixpoint descend (fuel : nat) (hp : heap) (nx : loc) (t : K) (n : D)
    (s : loc) (i : option loc) (o : list (option loc * loc)) : option descended :=
  match fuel with
  | O => None
  | S fuel =>
      sn ← hp !! s;
      let o := o ++ [(i, s)] in
      if ltb t (n_k sn) then
        match n_l sn with
        | None =>
            hp ← write (<[nx := new_node t [n]]> hp) s (set_l (Some nx));
            Some (attached hp (o ++ [(Some s, nx)]))
        | Some l => descend fuel hp nx t n l (Some s) o
        end
      else if negb (ltb (n_k sn) t) then
        hp ← write hp s (λ sn, set_v (set_add n (n_v sn)) sn); Some (found hp)
      else
        match n_r sn with
        | None =>
            hp ← write (<[nx := new_node t [n]]> hp) s (set_r (Some nx));
            Some (attached hp (o ++ [(Some s, nx)]))
        | Some r => descend fuel hp nx t n r (Some s) o
        end
  end.

(** Relinking the parent [n] of [r] to [t]: [n.l === r ? (n.l = t) : n.r === r && (n.r = t)]. *)
Definition relink (hp : heap) (n r t : loc) : option heap :=
  nn ← hp !! n;
  if decide (n_l nn = Some r) then write hp n (set_l (Some t))
  else if decide (n_r nn = Some r) then write hp n (set_r (Some t))
  else Some hp.

(** The loop from the end of the recorded path back to its start; the list
    is the path in the order the loop visits it. *)
Fixpoint unwind (a : bool) (hp : heap) (e : loc) (o : list (option loc * loc)) :
    option (heap * loc) :=
  match o with
  | [] => Some (hp, e)
  | (n, r) :: o =>
      hp ← updateHeight hp r;
      if a then
        '(hp, t) ← rebalanceNode hp r;
        match n with
        | Some n => hp ← relink hp n r t; unwind a hp e o
        | None => unwind a hp t o
        end
      else unwind a hp e o
  end.

(** [insertCount++ % r == 0]; a remainder by zero is NaN. *)
Definition rebalance_due (count r : Z) : bool :=
  negb (r =? 0) && (Z.rem count r =? 0).

Definition insertNode (tr : avl) (e : option loc) (t : K) (n : D) (r : Z) : option avl :=
  match e with
  | None =>
      Some (Avl (<[next tr := new_node t [n]]> (cells tr)) (Pos.succ (next tr))
                (Some (next tr)) (insertCount tr))
  | Some e =>
      d ← descend (S (size (cells tr))) (cells tr) (next tr) t n e None [];
      match d with
      | found hp => Some (Avl hp (next tr) (Some e) (insertCount tr))
      | attached hp o =>
          '(hp, e) ← unwind (rebalance_due (insertCount tr) r) hp e (rev o);
          Some (Avl hp (Pos.succ (next tr)) (Some e) (insertCount tr + 1))
      end
  end.

Definition avl_insert (tr : avl) (e : K) (t : D) (n : Z) : option avl :=
  insertNode tr (root tr) e t n.

Fixpoint avl_insertMultiple (tr : avl) (e : K) (t : list D) (n : Z) : option avl :=
  match t with
  | [] => Some tr
  | r :: t => tr ← avl_insert tr e r n; avl_insertMultiple tr e t n
  end.

Definition avl_rebalance (tr : avl) : option avl :=
  match root tr with
  | None => Some tr
  | Some e =>
      '(hp, e) ← rebalanceNode (cells tr) e;
      Some (Avl hp (next tr) (Some e) (insertCount tr))
  end.

(** ** Lookup *)
Fixpoint find_loop (fuel : nat) (hp : heap) (e : K) (t : option loc) : option (option loc) :=
  match fuel with
  | O => None
  | S fuel =>
      match t with
      | None => Some None
      | Some a =>
          tn ← hp !! a;
          if ltb e (n_k tn) then find_loop fuel hp e (n_l tn)
          else if negb (ltb (n_k tn) e) then Some (Some a)
          else find_loop fuel hp e (n_r tn)
      end
  end.

Definition findNodeByKey (tr : avl) (e : K) : option (option loc) :=
  find_loop (S (size (cells tr))) (cells tr) e (root tr).

Definition avl_find (tr : avl) (e : K) : option (option (list D)) :=
  t ← findNodeByKey tr e;
  match t with
  | None => Some None
  | Some a => tn ← cells tr !! a; Some (Some (n_v tn))
  end.

Definition avl_contains (tr : avl) (e : K) : option bool :=
  v ← avl_find tr e; Some (match v with Some _ => true | None => false end).

(** [getSize]: an in-order walk with an explicit stack; [n] is the current
    node and the last element of the JavaScript array is the head of [st]. *)
Fixpoint push_left (fuel : nat) (hp : heap) (o : option loc) (st : list loc) :
    option (list loc) :=
  match fuel with
  | O => None
  | S fuel =>
      match o with
      | None => Some st
      | Some a => n ← hp !! a; push_left fuel hp (n_l n) (a :: st)
      end
  end.

Fixpoint push_right (fuel : nat) (hp : heap) (o : option loc) (st : list loc) :
    option (list loc) :=
  match fuel with
  | O => None
  | S fuel =>
      match o with
      | None => Some st
      | Some a => n ← hp !! a; push_right fuel hp (n_r n) (a :: st)
      end
  end.

Fixpoint size_loop (fuel : nat) (hp : heap) (o : option loc) (st : list loc) (e : Z) :
    option Z :=
  match fuel with
  | O => None
  | S fuel =>
      match o, st with
      | None, [] => Some e
      | _, _ =>
          st ← push_left (S (size hp)) hp o st;
          match st with
          | [] => None
          | a :: st => n ← hp !! a; size_loop fuel hp (n_r n) st (e + 1)
          end
      end
  end.

Definition getSize (tr : avl) : option Z :=
  size_loop (S (size (cells tr))) (cells tr) (root tr) [] 0.

Fixpoint balanced_loop (fuel : nat) (hp : heap) (e : list loc) : option bool :=
  match fuel with
  | O => None
  | S fuel =>
      match e with
      | [] => Some true
      | t :: e =>
          tn ← hp !! t;
          n ← getBalanceFactor hp t;
          if 1 <? Z.abs n then Some false
          else
            let e := match n_l tn with Some l => l :: e | None => e end in
            let e := match n_r tn with Some r => r :: e | None => e end in
            balanced_loop fuel hp e
      end
  end.

Definition isBalanced (tr : avl) : option bool :=
  match root tr with
  | None => Some true
  | Some e => balanced_loop (S (size (cells tr))) (cells tr) [e]
  end.

(** ** Range queries *)
Fixpoint range_loop (fuel : nat) (hp : heap) (e t : K) (o : option loc)
    (r : list loc) (n : list D) : option (list D) :=
  match fuel with
  | O => None
  | S fuel =>
      match o, r with
      | None, [] => Some n
      | _, _ =>
          r ← push_left (S (size hp)) hp o r;
          match r with
          | [] => None
          | a :: r =>
              on ← hp !! a;
              let n := if leb e (n_k on) && leb (n_k on) t
                       then __union (Some n) (n_v on) else n in
              if ltb t (n_k on) then Some n
              else range_loop fuel hp e t (n_r on) r n
          end
      end
  end.

Definition rangeSearch (tr : avl) (e t : K) : option (list D) :=
  range_loop (S (size (cells tr))) (cells tr) e t (root tr) [] [].

Fixpoint greater_loop (fuel : nat) (hp : heap) (e : K) (t : bool) (o : option loc)
    (r : list loc) (n : list D) : option (list D) :=
  match fuel with
  | O => None
  | S fuel =>
      match o, r with
      | None, [] => Some n
      | _, _ =>
          r ← push_right (S (size hp)) hp o r;
          match r with
          | [] => None
          | a :: r =>
              on ← hp !! a;
              if (t && leb e (n_k on)) || (negb t && ltb e (n_k on))
              then greater_loop fuel hp e t (n_l on) r (__union (Some n) (n_v on))
              else if leb (n_k on) e then Some n
              else greater_loop fuel hp e t (n_l on) r n
          end
      end
  end.

Definition greaterThan (tr : avl) (e : K) (t : bool) : option (list D) :=
  greater_loop (S (size (cells tr))) (cells tr) e t (root tr) [] [].

Fixpoint less_loop (fuel : nat) (hp : heap) (e : K) (t : bool) (o : option loc)
    (r : list loc) (n : list D) : option (list D) :=
  match fuel with
  | O => None
  | S fuel =>
      match o, r with
      | None, [] => Some n
      | _, _ =>
          r ← push_left (S (size hp)) hp o r;
          match r with
          | [] => None
          | a :: r =>
              on ← hp !! a;
              if (t && leb (n_k on) e) || (negb t && ltb (n_k on) e)
              then less_loop fuel hp e t (n_r on) r (__union (Some n) (n_v on))
              else if ltb e (n_k on) then Some n
              else less_loop fuel hp e t (n_r on) r n
          end
      end
  end.

Definition lessThan (tr : avl) (e : K) (t : bool) : option (list D) :=
  less_loop (S (size (cells tr))) (cells tr) e t (root tr) [] [].

(** ** Removal *)

(** [for (; null !== r && r.k !== t; ) n.push(r), (r = t < r.k ? r.l : r.r)];
    the path is returned with its last element first. *)
Fixpoint remove_path (fuel : nat) (hp : heap) (t : K) (n : list loc) (r : option loc) :
    option (list loc * option loc) :=
  match fuel with
  | O => None
  | S fuel =>
      match r with
      | None => Some (n, None)
      | Some a =>
          rn ← hp !! a;
          if eqb (n_k rn) t then Some (n, Some a)
          else remove_path fuel hp t (a :: n) (if ltb t (n_k rn) then n_l rn else n_r rn)
      end
  end.

(** [for (; null !== t.l; ) (e = t), (t = t.l)] *)
Fixpoint successor (fuel : nat) (hp : heap) (e t : loc) : option (loc * loc) :=
  match fuel with
  | O => None
  | S fuel =>
      tn ← hp !! t;
      match n_l tn with
      | None => Some (e, t)
      | Some l => successor fuel hp t l
      end
  end.

(** The loop back to the root; the list is the path, last element first. *)
Fixpoint remove_unwind (hp : heap) (e : option loc) (n : list loc) :
    option (heap * option loc) :=
  match n with
  | [] => Some (hp, e)
  | r :: n =>
      hp ← updateHeight hp r;
      '(hp, o) ← rebalanceNode hp r;
      match n with
      | p :: _ => hp ← relink hp p r o; remove_unwind hp e n
      | [] => remove_unwind hp (Some o) n
      end
  end.

(** [e.l === r ? (e.l = t) : (e.r = t)] *)
Definition replace_child (hp : heap) (e r : loc) (t : option loc) : option heap :=
  en ← hp !! e;
  if decide (n_l en = Some r) then write hp e (set_l t) else write hp e (set_r t).

(** Taking node [r] out, given the path [n] to it (last element first): the
    store, the root and the path of the walk back. *)
Definition unlink (hp : heap) (e : option loc) (n : list loc) (r : loc) :
    option (heap * option loc * list loc) :=
  rn ← hp !! r;
  match n_l rn, n_r rn with
  | Some _, Some rr =>
      '(p, s) ← successor (S (size hp)) hp r rr;
      sn ← hp !! s;
      hp ← write hp r (λ rn, set_v (n_v sn) (set_k (n_k sn) rn));
      hp ← replace_child hp p s (n_r sn);
      Some (hp, e, p :: n)
  | _, _ =>
      let t := match n_l rn with Some l => Some l | None => n_r rn end in
      match n with
      | [] => Some (hp, t, r :: n)
      | p :: _ => hp ← replace_child hp p r t; Some (hp, e, r :: n)
      end
  end.

Definition removeNode (hp : heap) (e : option loc) (t : K) : option (heap * option loc) :=
  match e with
  | None => Some (hp, None)
  | Some _ =>
      '(n, r) ← remove_path (S (size hp)) hp t [] e;
      match r with
      | None => Some (hp, e)
      | Some r => '(hp, e, n) ← unlink hp e n r; remove_unwind hp e n
      end
  end.

Definition avl_remove (tr : avl) (e : K) : option avl :=
  '(hp, rt) ← removeNode (cells tr) (root tr) e;
  Some (Avl hp (next tr) rt (insertCount tr)).

Definition avl_removeDocument (tr : avl) (e : K) (t : D) : option avl :=
  n ← findNodeByKey tr e;
  match n with
  | None => Some tr
  | Some a =>
      nn ← cells tr !! a;
      if (length (n_v nn) =? 1)%nat then avl_remove tr e
      else
        hp ← write (cells tr) a (set_v (set_of (filter (λ e, e ≠ t) (n_v nn))));
        Some (Avl hp (next tr) (root tr) (insertCount tr))
  end.

(** ** Serialisation *)
Inductive json_node := JNode (k : K) (v : list D) (l r : option json_node) (h : Z).

(** [ae.toJSON] *)
Fixpoint node_toJSON (fuel : nat) (hp : heap) (this : loc) : option json_node :=
  match fuel with
  | O => None
  | S fuel =>
      n ← hp !! this;
      l ← match n_l n with Some l => Some <$> node_toJSON fuel hp l | None => Some None end;
      r ← match n_r n with Some r => Some <$> node_toJSON fuel hp r | None => Some None end;
      Some (JNode (n_k n) (n_v n) l r (n_h n))
  end.

(** [ae.fromJSON]: the node is allocated before its children. *)
Fixpoint node_fromJSON (hp : heap) (nx : loc) (e : json_node) : heap * loc * loc :=
  let '(JNode k v l r h) := e in
  let t := nx in
  let hp := <[t := new_node k v]> hp in
  let '(hp, nx, pl) :=
    match l with
    | Some l => let '(hp, nx, a) := node_fromJSON hp (Pos.succ nx) l in (hp, nx, Some a)
    | None => (hp, Pos.succ nx, None)
    end in
  let '(hp, nx, pr) :=
    match r with
    | Some r => let '(hp, nx, a) := node_fromJSON hp nx r in (hp, nx, Some a)
    | None => (hp, nx, None)
    end in
  (<[t := Node k (set_of v) pl pr h]> hp, nx, t).

Record json_tree := JTree { j_root : option json_node; j_insertCount : Z }.

Definition avl_toJSON (tr : avl) : option json_tree :=
  r ← match root tr with
      | Some a => Some <$> node_toJSON (S (size (cells tr))) (cells tr) a
      | None => Some None
      end;
  Some (JTree r (insertCount tr)).

Definition avl_fromJSON (e : json_tree) : avl :=
  match j_root e with
  | Some r => let '(hp, nx, a) := node_fromJSON ∅ 1 r in Avl hp nx (Some a) (j_insertCount e)
  | None => Avl ∅ 1 None (j_insertCount e)
  end.
End avl.

Arguments node : clear implicits.
Arguments avl : clear implicits.
Arguments json_node : clear implicits.
Arguments json_tree : clear implicits.
