(* ===== verification/AVLTree.v ===== *)
(** * The functional counterpart of the AVL tree and its representation

    [tree] carries at each node the reference of the object it stands for,
    so that rotations, which move objects and never copy them, are functions
    on trees. [repr hp t] says that the store [hp] holds exactly the node
    objects of [t], linked as [t] is. *)

From S2P Require Import Prelude JSColl JSNum Utils AVL.
Local Open Scope Z_scope.

Section tree.
Context {K D : Type} `{JSOrd K, EqDecision D}.

Inductive tree :=
  | Lf
  | Nd (a : loc) (l : tree) (k : K) (v : list D) (h : Z) (r : tree).

Definition ptr (t : tree) : option loc :=
  match t with Lf => None | Nd a _ _ _ _ _ => Some a end.
Definition ht (t : tree) : Z :=
  match t with Lf => 0 | Nd _ _ _ _ h _ => h end.
Fixpoint locs (t : tree) : list loc :=
  match t with Lf => [] | Nd a l _ _ _ r => a :: locs l ++ locs r end.

Fixpoint repr (hp : gmap loc (node K D)) (t : tree) : Prop :=
  match t with
  | Lf => True
  | Nd a l k v h r =>
      hp !! a = Some (Node k v (ptr l) (ptr r) h) ∧ repr hp l ∧ repr hp r
  end.

(** The node objects of [t] are distinct and all allocated. *)
Definition represents (tr : avl K D) (t : tree) : Prop :=
  root tr = ptr t ∧ repr (cells tr) t ∧ NoDup (locs t) ∧
  (∀ a, next tr ≤ a → cells tr !! a = None)%positive.

(** ** Operations on functional trees *)
Definition bf (t : tree) : Z :=
  match t with Lf => 0 | Nd _ l _ _ _ r => ht l - ht r end.
Definition fix_height (t : tree) : tree :=
  match t with
  | Lf => Lf
  | Nd a l k v _ r => Nd a l k v (Z.max (ht l) (ht r) + 1) r
  end.
Definition rot_left (t : tree) : tree :=
  match t with
  | Nd a l k v h (Nd b rl k' v' h' rr) =>
      fix_height (Nd b (fix_height (Nd a l k v h rl)) k' v' h' rr)
  | t => t
  end.
Definition rot_right (t : tree) : tree :=
  match t with
  | Nd a (Nd b ll k' v' h' lr) k v h r =>
      fix_height (Nd b ll k' v' h' (fix_height (Nd a lr k v h r)))
  | t => t
  end.
Definition rebal (t : tree) : tree :=
  match t with
  | Lf => Lf
  | Nd a l k v h r =>
      if 1 <? bf t then
        if 0 <=? bf l then rot_right t else rot_right (Nd a (rot_left l) k v h r)
      else if bf t <? -1 then
        if bf r <=? 0 then rot_left t else rot_left (Nd a l k v h (rot_right r))
      else t
  end.
(** One step of the walk back to the root. *)
Definition settle (b : bool) (t : tree) : tree :=
  if b then rebal (fix_height t) else fix_height t.

(** ** Abstraction: the entries in key order *)
Fixpoint entries (t : tree) : list (K * list D) :=
  match t with Lf => [] | Nd _ l k v _ r => entries l ++ (k, v) :: entries r end.

(** ** The heights recorded in the nodes are non-negative *)
Fixpoint heights (t : tree) : Prop :=
  match t with
  | Lf => True
  | Nd _ l _ _ h r => h = Z.max (ht l) (ht r) + 1 ∧ heights l ∧ heights r
  end.
Fixpoint balanced (t : tree) : Prop :=
  match t with
  | Lf => True
  | Nd _ l _ _ _ r => -1 ≤ ht l - ht r ≤ 1 ∧ balanced l ∧ balanced r
  end.

Lemma heights_nonneg t : heights t → 0 ≤ ht t.
Proof. induction t; simpl; [lia|]. intros (-> & Hl & Hr). specialize (IHt1 Hl). lia. Qed.

(** ** Framing *)
Lemma repr_frame hp hp' t :
  (∀ a, a ∈ locs t → hp' !! a = hp !! a) → repr hp t → repr hp' t.
Proof.
  induction t as [|a l IHl k v h r IHr]; simpl; [done|].
  intros Heq (Ha & Hl & Hr). rewrite Heq by set_solver.
  split_and!; [done|apply IHl|apply IHr]; set_solver.
Qed.

Lemma repr_insert_ne hp a n t : a ∉ locs t → repr hp t → repr (<[a := n]> hp) t.
Proof.
  intros Ha. apply repr_frame. intros b Hb. apply lookup_insert_ne. set_solver.
Qed.

Lemma repr_lookup hp t a : repr hp t → a ∈ locs t → is_Some (hp !! a).
Proof.
  induction t as [|b l IHl k v h r IHr]; simpl; [set_solver|].
  intros (Hb & Hl & Hr) [->|[?|?]%elem_of_app]%elem_of_cons; [eauto|by auto|by auto].
Qed.

Lemma getHeight_repr hp t : repr hp t → getHeight hp (ptr t) = Some (ht t).
Proof. destruct t; simpl; [done|]. intros (-> & _). done. Qed.

Lemma write_lookup hp a (n : node K D) f :
  hp !! a = Some n → write hp a f = Some (<[a := f n]> hp).
Proof. unfold write. by intros ->. Qed.

Lemma updateHeight_node hp a l k v h r :
  hp !! a = Some (Node k v (ptr l) (ptr r) h) → repr hp l → repr hp r →
  updateHeight hp a = Some (<[a := Node k v (ptr l) (ptr r) (Z.max (ht l) (ht r) + 1)]> hp).
Proof.
  intros Ha Hl Hr. unfold updateHeight. rewrite Ha; simpl.
  rewrite (getHeight_repr hp l), (getHeight_repr hp r) by done; simpl.
  by rewrite (write_lookup _ _ _ _ Ha).
Qed.

Lemma updateHeight_repr hp t a :
  repr hp t → NoDup (locs t) → ptr t = Some a →
  ∃ hp', updateHeight hp a = Some hp' ∧ repr hp' (fix_height t) ∧
    (∀ b, b ≠ a → hp' !! b = hp !! b).
Proof.
  destruct t as [|a' l k v h r]; simpl; [done|].
  intros (Ha & Hl & Hr) [Hni Hnd]%NoDup_cons [= ->].
  eexists. rewrite (updateHeight_node hp a l k v h r) by done.
  split_and!; [done|by rewrite lookup_insert_eq|..].
  - apply repr_insert_ne; [set_solver|done].
  - apply repr_insert_ne; [set_solver|done].
  - intros b Hb. by rewrite lookup_insert_ne.
Qed.

Lemma getBalanceFactor_repr hp t a :
  repr hp t → ptr t = Some a → getBalanceFactor hp a = Some (bf t).
Proof.
  destruct t as [|a' l k v h r]; simpl; [done|].
  intros (Ha & Hl & Hr) [= ->]. unfold getBalanceFactor. rewrite Ha; simpl.
  by rewrite (getHeight_repr hp l), (getHeight_repr hp r).
Qed.

(** ** Rotations *)
Lemma rotateLeft_repr hp a l k v h b rl k' v' h' rr :
  let t := Nd a l k v h (Nd b rl k' v' h' rr) in
  repr hp t → NoDup (locs t) →
  ∃ hp', rotateLeft hp a = Some (hp', b) ∧ repr hp' (rot_left t) ∧
    (∀ c, c ∉ locs t → hp' !! c = hp !! c).
Proof.
  simpl. intros (Ha & Hl & Hb & Hrl & Hrr) Hnd.
  apply NoDup_cons in Hnd as [Hni Hnd]. apply NoDup_app in Hnd as (Hndl & Hdisj & Hndr).
  apply NoDup_cons in Hndr as [Hnib Hndr]. apply NoDup_app in Hndr as (Hndrl & Hdisjr & Hndrr).
  assert (a ≠ b) as Hab by set_solver.
  unfold rotateLeft. rewrite Ha; simpl. rewrite Hb; simpl.
  rewrite (write_lookup _ _ _ _ Ha); simpl. unfold set_r, set_l; simpl.
  rewrite (write_lookup _ b (Node k' v' (ptr rl) (ptr rr) h')) by (by rewrite lookup_insert_ne).
  simpl. rewrite (updateHeight_node _ a l k v h rl); simpl; first last.
  { apply repr_insert_ne; [set_solver|]. apply repr_insert_ne; [set_solver|done]. }
  { apply repr_insert_ne; [set_solver|]. apply repr_insert_ne; [set_solver|done]. }
  { by rewrite lookup_insert_ne, lookup_insert_eq. }
  rewrite (updateHeight_node _ b (Nd a l k v (Z.max (ht l) (ht rl) + 1) rl) k' v' h' rr);
    simpl; first last.
  { repeat (apply repr_insert_ne; [set_solver|]). done. }
  { split_and!; [by rewrite lookup_insert_eq|..];
      repeat (apply repr_insert_ne; [set_solver|]); done. }
  { by rewrite lookup_insert_ne, lookup_insert_eq. }
  eexists. split; [done|]. split.
  - split_and!; try (by rewrite lookup_insert_eq);
      try (repeat (apply repr_insert_ne; [set_solver|]); done).
    by rewrite lookup_insert_ne, lookup_insert_eq.
  - intros c Hc. rewrite !lookup_insert_ne by set_solver. done.
Qed.

Lemma rotateRight_repr hp a b ll k' v' h' lr k v h r :
  let t := Nd a (Nd b ll k' v' h' lr) k v h r in
  repr hp t → NoDup (locs t) →
  ∃ hp', rotateRight hp a = Some (hp', b) ∧ repr hp' (rot_right t) ∧
    (∀ c, c ∉ locs t → hp' !! c = hp !! c).
Proof.
  simpl. intros (Ha & (Hb & Hll & Hlr) & Hr) Hnd.
  apply NoDup_cons in Hnd as [Hni Hnd]. apply NoDup_cons in Hnd as [Hnib Hnd].
  apply NoDup_app in Hnd as (Hndl & Hdisj & Hndr).
  apply NoDup_app in Hndl as (Hndll & Hdisjl & Hndlr).
  assert (a ≠ b) as Hab by set_solver.
  unfold rotateRight. rewrite Ha; simpl. rewrite Hb; simpl.
  rewrite (write_lookup _ _ _ _ Ha); simpl. unfold set_r, set_l; simpl.
  rewrite (write_lookup _ b (Node k' v' (ptr ll) (ptr lr) h')) by (by rewrite lookup_insert_ne).
  simpl. rewrite (updateHeight_node _ a lr k v h r); simpl; first last.
  { repeat (apply repr_insert_ne; [set_solver|]). done. }
  { repeat (apply repr_insert_ne; [set_solver|]). done. }
  { by rewrite lookup_insert_ne, lookup_insert_eq. }
  rewrite (updateHeight_node _ b ll k' v' h' (Nd a lr k v (Z.max (ht lr) (ht r) + 1) r));
    simpl; first last.
  { split_and!; [by rewrite lookup_insert_eq|..];
      repeat (apply repr_insert_ne; [set_solver|]); done. }
  { repeat (apply repr_insert_ne; [set_solver|]). done. }
  { by rewrite lookup_insert_ne, lookup_insert_eq. }
  eexists. split; [done|]. split.
  - split_and!; try (by rewrite lookup_insert_eq);
      try (repeat (apply repr_insert_ne; [set_solver|]); done).
    by rewrite lookup_insert_ne, lookup_insert_eq.
  - intros c Hc. rewrite !lookup_insert_ne by set_solver. done.
Qed.

(** ** Rebalancing *)
Fixpoint pos_heights (t : tree) : Prop :=
  match t with
  | Lf => True
  | Nd _ l _ _ h r => 1 ≤ h ∧ pos_heights l ∧ pos_heights r
  end.

Lemma pos_heights_ht t : pos_heights t → 0 ≤ ht t.
Proof. destruct t; simpl; lia. Qed.

Lemma heights_pos t : heights t → pos_heights t.
Proof.
  induction t as [|a l IHl k v h r IHr]; simpl; [done|].
  intros (-> & Hl & Hr). pose proof (heights_nonneg _ Hl). split_and!; auto; lia.
Qed.

Lemma locs_fix_height t : locs (fix_height t) = locs t.
Proof. by destruct t. Qed.
Lemma ptr_fix_height t : ptr (fix_height t) = ptr t.
Proof. by destruct t. Qed.

Lemma locs_rot_left t : locs (rot_left t) ≡ₚ locs t.
Proof.
  destruct t as [|a l k v h [|b rl k' v' h' rr]]; simpl; [done..|].
  solve_Permutation.
Qed.
Lemma locs_rot_right t : locs (rot_right t) ≡ₚ locs t.
Proof.
  destruct t as [|a [|b ll k' v' h' lr] k v h r]; simpl; [done..|].
  solve_Permutation.
Qed.
Lemma locs_rebal t : locs (rebal t) ≡ₚ locs t.
Proof.
  destruct t as [|a l k v h r]; [done|]. unfold rebal.
  repeat case_match; try done; rewrite ?locs_rot_left, ?locs_rot_right; simpl;
    by rewrite ?locs_rot_left, ?locs_rot_right.
Qed.
Lemma locs_settle b t : locs (settle b t) ≡ₚ locs t.
Proof. destruct b; simpl; by rewrite ?locs_rebal, locs_fix_height. Qed.

Lemma pos_fix_height t : pos_heights t → pos_heights (fix_height t).
Proof.
  destruct t as [|a l k v h r]; simpl; [done|]. intros (_ & Hl & Hr).
  pose proof (pos_heights_ht _ Hl). pose proof (pos_heights_ht _ Hr). split_and!; auto; lia.
Qed.
Lemma pos_rot_left t : pos_heights t → pos_heights (rot_left t).
Proof.
  destruct t as [|a l k v h [|b rl k' v' h' rr]]; simpl; [done..|].
  intros (? & ? & ? & Hl & Hr).
  pose proof (pos_heights_ht _ Hl). pose proof (pos_heights_ht _ Hr). split_and!; auto; lia.
Qed.
Lemma pos_rot_right t : pos_heights t → pos_heights (rot_right t).
Proof.
  destruct t as [|a [|b ll k' v' h' lr] k v h r]; simpl; [done..|].
  intros (? & (? & Hll & Hlr) & Hr).
  pose proof (pos_heights_ht _ Hlr). pose proof (pos_heights_ht _ Hll). split_and!; auto; lia.
Qed.
Lemma pos_rebal t : pos_heights t → pos_heights (rebal t).
Proof.
  destruct t as [|a l k v h r]; [done|]. intros Hp. unfold rebal.
  repeat case_match; try done; auto using pos_rot_left, pos_rot_right.
  - apply pos_rot_right. destruct Hp as (?&?&?). split_and!; auto using pos_rot_left.
  - apply pos_rot_left. destruct Hp as (?&?&?). split_and!; auto using pos_rot_right.
Qed.

(** A changed subtree, put back under its parent. *)
Lemma write_left_repr hp hp1 a l k v h r l' :
  let t := Nd a l k v h r in
  repr hp t → NoDup (locs t) → repr hp1 l' → NoDup (locs l') →
  (∀ c, c ∈ locs l' → c ∈ locs l ∨ hp !! c = None) →
  (∀ c, c ∉ locs l' → c ∉ locs l → hp1 !! c = hp !! c) →
  let hp2 := <[a := Node k v (ptr l') (ptr r) h]> hp1 in
  write hp1 a (set_l (ptr l')) = Some hp2 ∧ repr hp2 (Nd a l' k v h r) ∧
  NoDup (locs (Nd a l' k v h r)) ∧
  (∀ c, c ∉ locs (Nd a l' k v h r) → c ∉ locs t → hp2 !! c = hp !! c).
Proof.
  simpl. intros (Ha & Hl & Hr) Hnd Hl' Hndl' Hsub Hfr.
  apply NoDup_cons in Hnd as [Hni Hnd]. apply NoDup_app in Hnd as (Hndl & Hdisj & Hndr).
  assert (a ∉ locs l') as Hal'.
  { intros [?|?]%Hsub; [set_solver|congruence]. }
  assert (∀ x, x ∈ locs l' → x ∉ locs r) as Hdisj'.
  { intros x [?|Hx]%Hsub; [by apply Hdisj|]. intros Hxr.
    destruct (repr_lookup _ _ _ Hr Hxr). congruence. }
  assert (hp1 !! a = hp !! a) as Ha1 by (apply Hfr; set_solver).
  rewrite (write_lookup hp1 a _ _ (eq_trans Ha1 Ha)).
  split_and!; [done|by rewrite lookup_insert_eq|by apply repr_insert_ne|..].
  - apply repr_insert_ne; [set_solver|]. eapply repr_frame; [|done].
    intros x Hx. apply Hfr; [|set_solver]. intros Hx'. by apply (Hdisj' x).
  - apply NoDup_cons. split; [set_solver|]. by apply NoDup_app.
  - intros x Hx1 Hx2. rewrite lookup_insert_ne by set_solver. apply Hfr; set_solver.
Qed.

Lemma write_right_repr hp hp1 a l k v h r r' :
  let t := Nd a l k v h r in
  repr hp t → NoDup (locs t) → repr hp1 r' → NoDup (locs r') →
  (∀ c, c ∈ locs r' → c ∈ locs r ∨ hp !! c = None) →
  (∀ c, c ∉ locs r' → c ∉ locs r → hp1 !! c = hp !! c) →
  let hp2 := <[a := Node k v (ptr l) (ptr r') h]> hp1 in
  write hp1 a (set_r (ptr r')) = Some hp2 ∧ repr hp2 (Nd a l k v h r') ∧
  NoDup (locs (Nd a l k v h r')) ∧
  (∀ c, c ∉ locs (Nd a l k v h r') → c ∉ locs t → hp2 !! c = hp !! c).
Proof.
  simpl. intros (Ha & Hl & Hr) Hnd Hr' Hndr' Hsub Hfr.
  apply NoDup_cons in Hnd as [Hni Hnd]. apply NoDup_app in Hnd as (Hndl & Hdisj & Hndr).
  assert (a ∉ locs r') as Har'.
  { intros [?|?]%Hsub; [set_solver|congruence]. }
  assert (∀ x, x ∈ locs l → x ∉ locs r') as Hdisj'.
  { intros x Hxl [?|Hx]%Hsub; [by apply (Hdisj x)|].
    destruct (repr_lookup _ _ _ Hl Hxl). congruence. }
  assert (hp1 !! a = hp !! a) as Ha1 by (apply Hfr; set_solver).
  rewrite (write_lookup hp1 a _ _ (eq_trans Ha1 Ha)).
  split_and!; [done|by rewrite lookup_insert_eq|..].
  - apply repr_insert_ne; [set_solver|]. eapply repr_frame; [|done].
    intros x Hx. apply Hfr; [by apply Hdisj'|set_solver].
  - by apply repr_insert_ne.
  - apply NoDup_cons. split; [set_solver|]. by apply NoDup_app.
  - intros x Hx1 Hx2. rewrite lookup_insert_ne by set_solver. apply Hfr; set_solver.
Qed.

(** The same with the locations only permuted. *)
Ltac frame_perm Hperm :=
  let x := fresh in intros x; rewrite ?Hperm; by auto.

Lemma rebalanceNode_repr hp t a :
  repr hp t → NoDup (locs t) → pos_heights t → ptr t = Some a →
  ∃ hp' b, rebalanceNode hp a = Some (hp', b) ∧ ptr (rebal t) = Some b ∧
    repr hp' (rebal t) ∧ (∀ c, c ∉ locs t → hp' !! c = hp !! c).
Proof.
  destruct t as [|a' l k v h r]; [done|]. intros Hrep Hnd Hpos [= ->].
  pose proof (getBalanceFactor_repr _ _ _ Hrep eq_refl) as Hbf.
  assert (hp !! a = Some (Node k v (ptr l) (ptr r) h)) as Ha by apply Hrep.
  assert (repr hp l ∧ repr hp r) as [Hl Hr] by apply Hrep.
  assert (pos_heights l ∧ pos_heights r) as [Hpl Hpr] by apply Hpos.
  pose proof (pos_heights_ht _ Hpl). pose proof (pos_heights_ht _ Hpr).
  assert (NoDup (locs l) ∧ NoDup (locs r)) as [Hndl Hndr].
  { cbn [locs] in Hnd. by apply NoDup_cons in Hnd as [_ (? & _ & ?)%NoDup_app]. }
  unfold rebalanceNode. rewrite Hbf, Ha; cbn [mbind option_bind].
  unfold rebal. cbv zeta. cbn [bf] in *.
  destruct (Z.ltb_spec 1 (ht l - ht r)); [|destruct (Z.ltb_spec (ht l - ht r) (-1))].
  - destruct l as [|b ll k' v' h' lr]; [simpl in *; lia|]. cbn [ptr n_l].
    rewrite (getBalanceFactor_repr hp _ b Hl eq_refl); cbn [mbind option_bind].
    destruct (Z.leb_spec 0 (bf (Nd b ll k' v' h' lr))).
    { destruct (rotateRight_repr _ _ _ _ _ _ _ _ _ _ _ _ Hrep Hnd) as (hp' & ? & ? & ?).
      eauto 10. }
    destruct lr as [|c lrl k'' v'' h'' lrr].
    { simpl in *. destruct Hpl as (_ & Hpll & _). pose proof (pos_heights_ht _ Hpll). lia. }
    destruct (rotateLeft_repr _ _ _ _ _ _ _ _ _ _ _ _ Hl Hndl)
      as (hp1 & -> & Hrep1 & Hfr1). cbn [mbind option_bind].
    pose proof (locs_rot_left (Nd b ll k' v' h' (Nd c lrl k'' v'' h'' lrr))) as Hperm.
    destruct (write_left_repr hp hp1 a _ k v h r _ Hrep Hnd Hrep1)
      as (Hw & Hrep2 & Hnd2 & Hfr2); [by rewrite Hperm|frame_perm Hperm..|].
    cbn [rot_left fix_height ptr] in Hw. rewrite Hw; cbn [mbind option_bind].
    destruct (rotateRight_repr _ _ _ _ _ _ _ _ _ _ _ _ Hrep2 Hnd2)
      as (hp3 & Hrot & Hrep3 & Hfr3).
    exists hp3, c. split_and!; [exact Hrot|done|exact Hrep3|].
    intros x Hx. assert (x ∉ locs (Nd a (rot_left (Nd b ll k' v' h' (Nd c lrl k'' v'' h'' lrr)))
      k v h r)) by (cbn [locs] in *; by rewrite Hperm).
    rewrite Hfr3 by done. by apply Hfr2.
  - destruct r as [|b rl k' v' h' rr]; [simpl in *; lia|]. cbn [ptr n_r].
    rewrite (getBalanceFactor_repr hp _ b Hr eq_refl); cbn [mbind option_bind].
    destruct (Z.leb_spec (bf (Nd b rl k' v' h' rr)) 0).
    { destruct (rotateLeft_repr _ _ _ _ _ _ _ _ _ _ _ _ Hrep Hnd) as (hp' & ? & ? & ?).
      eauto 10. }
    destruct rl as [|c rll k'' v'' h'' rlr].
    { simpl in *. destruct Hpr as (_ & _ & Hprr). pose proof (pos_heights_ht _ Hprr). lia. }
    destruct (rotateRight_repr _ _ _ _ _ _ _ _ _ _ _ _ Hr Hndr)
      as (hp1 & -> & Hrep1 & Hfr1). cbn [mbind option_bind].
    pose proof (locs_rot_right (Nd b (Nd c rll k'' v'' h'' rlr) k' v' h' rr)) as Hperm.
    destruct (write_right_repr hp hp1 a l k v h _ _ Hrep Hnd Hrep1)
      as (Hw & Hrep2 & Hnd2 & Hfr2); [by rewrite Hperm|frame_perm Hperm..|].
    cbn [rot_right fix_height ptr] in Hw. rewrite Hw; cbn [mbind option_bind].
    destruct (rotateLeft_repr _ _ _ _ _ _ _ _ _ _ _ _ Hrep2 Hnd2)
      as (hp3 & Hrot & Hrep3 & Hfr3).
    exists hp3, c. split_and!; [exact Hrot|done|exact Hrep3|].
    intros x Hx. assert (x ∉ locs (Nd a l k v h
      (rot_right (Nd b (Nd c rll k'' v'' h'' rlr) k' v' h' rr))))
      by (cbn [locs] in *; by rewrite Hperm).
    rewrite Hfr3 by done. by apply Hfr2.
  - eexists _, a. split_and!; [done|done|exact Hrep|done].
Qed.
End tree.

Arguments tree : clear implicits.
