(* ===== verification/AVLInsert.v ===== *)
(** * Insertion into the AVL tree: the pointer code refines the functional one *)

From S2P Require Import Prelude JSColl JSNum Utils AVL AVLTree.
Local Open Scope Z_scope.

Section insert.
Context {K D : Type} `{JSOrd K, EqDecision D}.
Implicit Types (t l r : tree K D) (hp : gmap loc (node K D)).

(** ** The functional insertion *)

(** Does the walk from the root meet a node whose key is neither above nor
    below [key]? *)
Fixpoint fmem (key : K) (t : tree K D) : bool :=
  match t with
  | Lf => false
  | Nd _ l k _ _ r => if ltb key k then fmem key l else if ltb k key then fmem key r else true
  end.
Fixpoint fadd (key : K) (d : D) (t : tree K D) : tree K D :=
  match t with
  | Lf => Lf
  | Nd a l k v h r =>
      if ltb key k then Nd a (fadd key d l) k v h r
      else if ltb k key then Nd a l k v h (fadd key d r)
      else Nd a l k (set_add d v) h r
  end.
Fixpoint fins (b : bool) (nx : loc) (key : K) (d : D) (t : tree K D) : tree K D :=
  match t with
  | Lf => Nd nx Lf key [d] 1 Lf
  | Nd a l k v h r =>
      if ltb key k then settle b (Nd a (fins b nx key d l) k v h r)
      else settle b (Nd a l k v h (fins b nx key d r))
  end.
Definition finsert (b : bool) (nx : loc) (key : K) (d : D) (t : tree K D) : tree K D :=
  if fmem key t then fadd key d t else fins b nx key d t.

Definition is_lf (t : tree K D) : bool := match t with Lf => true | Nd _ _ _ _ _ _ => false end.

(** ** Size of the search path *)
Fixpoint depth (t : tree K D) : nat :=
  match t with Lf => 0 | Nd _ l _ _ _ r => S (depth l `max` depth r) end.

Lemma depth_locs t : (depth t ≤ length (locs t))%nat.
Proof. induction t; simpl; rewrite ?length_app; lia. Qed.

Lemma locs_size hp t : repr hp t → NoDup (locs t) → (length (locs t) ≤ size hp)%nat.
Proof.
  intros Hrep Hnd.
  rewrite <-(size_list_to_set (C := gset loc)) by done. rewrite <-(size_dom (D := gset loc)).
  apply subseteq_size. intros a. rewrite elem_of_list_to_set, elem_of_dom.
  by apply repr_lookup.
Qed.

Lemma depth_size hp t : repr hp t → NoDup (locs t) → (depth t ≤ size hp)%nat.
Proof. intros. etrans; [apply depth_locs|by apply locs_size]. Qed.

(** ** One step of the walk back: a settled child under its parent *)
Lemma settle_repr (b : bool) hp t a :
  repr hp t → NoDup (locs t) → pos_heights t → ptr t = Some a →
  ∃ hp1, updateHeight hp a = Some hp1 ∧
    (if b then ∃ hp2 c, rebalanceNode hp1 a = Some (hp2, c) ∧ ptr (settle b t) = Some c ∧
                repr hp2 (settle b t) ∧ (∀ x, x ∉ locs t → hp2 !! x = hp !! x)
     else repr hp1 (settle b t) ∧ ptr (settle b t) = Some a ∧
          (∀ x, x ∉ locs t → hp1 !! x = hp !! x)).
Proof.
  intros Hrep Hnd Hpos Hp.
  assert (a ∈ locs t) as Hin by (destruct t; simplify_eq/=; set_solver).
  destruct (updateHeight_repr hp t a) as (hp1 & Hu & Hrep1 & Hfr1); [done..|].
  exists hp1. split; [done|]. destruct b; simpl.
  - destruct (rebalanceNode_repr hp1 (fix_height t) a)
      as (hp2 & c & ? & ? & ? & Hfr2); rewrite ?locs_fix_height, ?ptr_fix_height;
      auto using pos_fix_height.
    exists hp2, c. split_and!; [done..|]. intros x Hx.
    rewrite Hfr2 by (by rewrite locs_fix_height). apply Hfr1. set_solver.
  - rewrite ptr_fix_height. split_and!; [done..|]. intros x Hx. apply Hfr1. set_solver.
Qed.

Lemma unwind_left b hp e rest s a l k v h r :
  repr hp (Nd s l k v h r) → NoDup (locs (Nd s l k v h r)) → pos_heights l →
  ptr l = Some a →
  ∃ hp', unwind b hp e ((Some s, a) :: rest) = unwind b hp' e rest ∧
    repr hp' (Nd s (settle b l) k v h r) ∧
    (∀ x, x ∉ locs (Nd s l k v h r) → hp' !! x = hp !! x).
Proof.
  intros Hrep Hnd Hpos Hp.
  assert (repr hp l) as Hl by apply Hrep.
  assert (NoDup (locs l)) as Hndl.
  { cbn [locs] in Hnd. by apply NoDup_cons in Hnd as [_ (? & _)%NoDup_app]. }
  pose proof (locs_settle b l) as Hperm.
  destruct (settle_repr b hp l a Hl Hndl Hpos Hp) as (hp1 & Hu & Hset).
  cbn [unwind]. rewrite Hu; cbn [mbind option_bind]. destruct b.
  - destruct Hset as (hp2 & c & -> & Hc & Hrep2 & Hfr2). cbn [mbind option_bind].
    destruct (write_left_repr hp hp2 s l k v h r (settle true l) Hrep Hnd Hrep2)
      as (Hw & Hrep3 & _ & Hfr3).
    { by rewrite Hperm. }
    { intros x. rewrite Hperm. by left. }
    { intros x _ Hx. by apply Hfr2. }
    assert (hp2 !! s = Some (Node k v (Some a) (ptr r) h)) as Hs.
    { rewrite Hfr2; [rewrite <-Hp; apply Hrep|].
      cbn [locs] in Hnd. apply NoDup_cons in Hnd as [? _]. set_solver. }
    unfold relink. rewrite Hs; cbn [mbind option_bind n_l].
    rewrite decide_True, <-Hc, Hw by done. cbn [mbind option_bind].
    eexists. split_and!; [done|exact Hrep3|].
    intros x Hx. apply Hfr3; [|done]. cbn [locs] in Hx |- *. by rewrite Hperm.
  - destruct Hset as (Hrep1 & Hc & Hfr1). eexists. split; [done|]. split.
    + cbn [repr]. destruct Hrep as (Hs & _ & Hr). cbn [locs] in Hnd.
      apply NoDup_cons in Hnd as [? (_ & Hdisj & _)%NoDup_app].
      split_and!; [|done|].
      * rewrite Hfr1 by set_solver. rewrite Hc, <-Hp. done.
      * eapply repr_frame; [|done]. intros x Hx. apply Hfr1. intros Hx'. by apply (Hdisj x).
    + intros x Hx. apply Hfr1. cbn [locs] in Hx. set_solver.
Qed.

Lemma unwind_right b hp e rest s a l k v h r :
  repr hp (Nd s l k v h r) → NoDup (locs (Nd s l k v h r)) → pos_heights r →
  ptr r = Some a →
  ∃ hp', unwind b hp e ((Some s, a) :: rest) = unwind b hp' e rest ∧
    repr hp' (Nd s l k v h (settle b r)) ∧
    (∀ x, x ∉ locs (Nd s l k v h r) → hp' !! x = hp !! x).
Proof.
  intros Hrep Hnd Hpos Hp.
  assert (repr hp r) as Hr by apply Hrep.
  assert (NoDup (locs r) ∧ ptr l ≠ Some a) as [Hndr Hne].
  { cbn [locs] in Hnd. apply NoDup_cons in Hnd as [_ (? & Hdisj & ?)%NoDup_app].
    split; [done|]. intros Hl. apply (Hdisj a); [destruct l|destruct r]; simplify_eq/=; set_solver. }
  pose proof (locs_settle b r) as Hperm.
  destruct (settle_repr b hp r a Hr Hndr Hpos Hp) as (hp1 & Hu & Hset).
  cbn [unwind]. rewrite Hu; cbn [mbind option_bind]. destruct b.
  - destruct Hset as (hp2 & c & -> & Hc & Hrep2 & Hfr2). cbn [mbind option_bind].
    destruct (write_right_repr hp hp2 s l k v h r (settle true r) Hrep Hnd Hrep2)
      as (Hw & Hrep3 & _ & Hfr3).
    { by rewrite Hperm. }
    { intros x. rewrite Hperm. by left. }
    { intros x _ Hx. by apply Hfr2. }
    assert (hp2 !! s = Some (Node k v (ptr l) (Some a) h)) as Hs.
    { rewrite Hfr2; [rewrite <-Hp; apply Hrep|].
      cbn [locs] in Hnd. apply NoDup_cons in Hnd as [? _]. set_solver. }
    unfold relink. rewrite Hs; cbn [mbind option_bind n_l n_r].
    rewrite decide_False, decide_True, <-Hc, Hw by done. cbn [mbind option_bind].
    eexists. split_and!; [done|exact Hrep3|].
    intros x Hx. apply Hfr3; [|done]. cbn [locs] in Hx |- *. by rewrite Hperm.
  - destruct Hset as (Hrep1 & Hc & Hfr1). eexists. split; [done|]. split.
    + cbn [repr]. destruct Hrep as (Hs & Hl & _). cbn [locs] in Hnd.
      apply NoDup_cons in Hnd as [? (_ & Hdisj & _)%NoDup_app].
      split_and!; [| |done].
      * rewrite Hfr1 by set_solver. rewrite Hc, <-Hp. done.
      * eapply repr_frame; [|done]. intros x Hx. apply Hfr1. by apply Hdisj.
    + intros x Hx. apply Hfr1. cbn [locs] in Hx. set_solver.
Qed.

(** ** The key is found *)
Lemma descend_found fuel hp nx key d t s i o :
  repr hp t → NoDup (locs t) → ptr t = Some s → (depth t < fuel)%nat →
  fmem key t = true →
  ∃ hp', descend fuel hp nx key d s i o = Some (found hp') ∧
    repr hp' (fadd key d t) ∧ (∀ x, x ∉ locs t → hp' !! x = hp !! x).
Proof.
  revert fuel s i o. induction t as [|a l IHl k v h r IHr]; intros fuel s i o; [done|].
  intros Hrep Hnd [= <-] Hfuel Hmem. destruct fuel as [|fuel]; [lia|].
  destruct Hrep as (Ha & Hl & Hr). cbn [locs] in Hnd.
  apply NoDup_cons in Hnd as [Hni (Hndl & Hdisj & Hndr)%NoDup_app].
  cbn [descend fmem fadd depth] in *. rewrite Ha; cbn [mbind option_bind n_k n_l n_r].
  destruct (ltb key k) eqn:?; [|destruct (ltb k key) eqn:?; cbn [negb]].
  - destruct l as [|b ll k' v' h' lr]; [done|]. cbn [ptr].
    destruct (IHl fuel b (Some a) (o ++ [(i, a)])) as (hp' & -> & Hrep' & Hfr); [done..|lia|done|].
    eexists. split; [done|]. split; [|intros x Hx; apply Hfr; simpl in *; set_solver].
    cbn [repr]. split_and!; [|done|].
    + rewrite Hfr by (simpl in *; set_solver). rewrite Ha.
      simpl. by repeat case_match.
    + eapply repr_frame; [|done]. intros x Hx. apply Hfr. intros ?. by apply (Hdisj x).
  - destruct r as [|b rl k' v' h' rr]; [done|]. cbn [ptr].
    destruct (IHr fuel b (Some a) (o ++ [(i, a)])) as (hp' & -> & Hrep' & Hfr); [done..|lia|done|].
    eexists. split; [done|]. split; [|intros x Hx; apply Hfr; simpl in *; set_solver].
    cbn [repr]. split_and!; [|by eapply repr_frame; [|done]; intros x Hx; apply Hfr, Hdisj|done].
    rewrite Hfr by (simpl in *; set_solver). rewrite Ha. simpl. by repeat case_match.
  - rewrite (write_lookup _ _ _ _ Ha). cbn. eexists. split; [done|]. split.
    + split_and!; [by rewrite lookup_insert_eq|apply repr_insert_ne; set_solver..].
    + intros x Hx. apply lookup_insert_ne. set_solver.
Qed.

(** ** The key is new *)
Lemma pos_settle b t : pos_heights t → pos_heights (settle b t).
Proof. destruct b; simpl; auto using pos_rebal, pos_fix_height. Qed.

Lemma pos_fins b nx key d t : pos_heights t → pos_heights (fins b nx key d t).
Proof.
  induction t as [|a l IHl k v h r IHr]; simpl; [done|]. intros (? & ? & ?).
  case_match; apply pos_settle; simpl; auto.
Qed.

Lemma pos_fadd key d t : pos_heights t → pos_heights (fadd key d t).
Proof.
  induction t as [|a l IHl k v h r IHr]; simpl; [done|]. intros (? & ? & ?).
  repeat case_match; simpl; auto.
Qed.

Lemma locs_fins b nx key d t : locs (fins b nx key d t) ≡ₚ nx :: locs t.
Proof.
  induction t as [|a l IHl k v h r IHr]; simpl; [done|].
  case_match; rewrite locs_settle; simpl; rewrite ?IHl, ?IHr; solve_Permutation.
Qed.

Lemma locs_fadd key d t : locs (fadd key d t) = locs t.
Proof. induction t; simpl; [done|]. repeat case_match; simpl; congruence. Qed.

Lemma ptr_fadd key d t : ptr (fadd key d t) = ptr t.
Proof. destruct t; simpl; [done|]. by repeat case_match. Qed.

(** The node [t2] at [s] once the walk back has settled everything below it:
    settling it too gives the functional result. *)
Definition below (b : bool) (nx : loc) (key : K) (d : D) (t : tree K D) : tree K D :=
  match t with
  | Lf => Lf
  | Nd a l k v h r =>
      if ltb key k then Nd a (fins b nx key d l) k v h r
      else Nd a l k v h (fins b nx key d r)
  end.

Lemma settle_below b nx key d t :
  t ≠ Lf → settle b (below b nx key d t) = fins b nx key d t.
Proof. destruct t as [|a l k v h r]; [done|]. intros _. simpl. by destruct (ltb key k). Qed.

Lemma locs_below b nx key d t : t ≠ Lf → locs (below b nx key d t) ≡ₚ nx :: locs t.
Proof.
  intros Ht. rewrite <-(locs_settle b), settle_below by done. apply locs_fins.
Qed.

(** Hanging the new node below [s] and settling it. *)
Lemma attach_left b hp e rest nx key d s k v h r :
  repr hp (Nd s Lf k v h r) → NoDup (nx :: locs (Nd s Lf k v h r)) → hp !! nx = None →
  ∃ hp1 hp2, write (<[nx := new_node key [d]]> hp) s (set_l (Some nx)) = Some hp1 ∧
    unwind b hp1 e ((Some s, nx) :: rest) = unwind b hp2 e rest ∧
    repr hp2 (Nd s (Nd nx Lf key [d] 1 Lf) k v h r) ∧
    (∀ x, x ∉ nx :: locs (Nd s Lf k v h r) → hp2 !! x = hp !! x).
Proof.
  intros Hrep [Hnx Hnd]%NoDup_cons Hfresh.
  destruct (write_left_repr hp (<[nx := new_node key [d]]> hp) s Lf k v h r
    (Nd nx Lf key [d] 1 Lf) Hrep Hnd) as (Hw & Hrep1 & Hnd1 & Hfr1).
  { cbn. by rewrite lookup_insert_eq. }
  { apply NoDup_singleton. }
  { intros c. cbn. set_solver. }
  { intros c Hc _. apply lookup_insert_ne. cbn in Hc. set_solver. }
  destruct (unwind_left b _ e rest s nx _ k v h r Hrep1 Hnd1) as (hp2 & Hun & Hrep2 & Hfr2);
    [done|done|].
  eexists _, hp2. split_and!; [exact Hw|exact Hun| |].
  - by destruct b.
  - intros x Hx. rewrite Hfr2 by (simpl in *; set_solver). apply Hfr1; simpl in *; set_solver.
Qed.

Lemma attach_right b hp e rest nx key d s l k v h :
  repr hp (Nd s l k v h Lf) → NoDup (nx :: locs (Nd s l k v h Lf)) → hp !! nx = None →
  ∃ hp1 hp2, write (<[nx := new_node key [d]]> hp) s (set_r (Some nx)) = Some hp1 ∧
    unwind b hp1 e ((Some s, nx) :: rest) = unwind b hp2 e rest ∧
    repr hp2 (Nd s l k v h (Nd nx Lf key [d] 1 Lf)) ∧
    (∀ x, x ∉ nx :: locs (Nd s l k v h Lf) → hp2 !! x = hp !! x).
Proof.
  intros Hrep [Hnx Hnd]%NoDup_cons Hfresh.
  destruct (write_right_repr hp (<[nx := new_node key [d]]> hp) s l k v h Lf
    (Nd nx Lf key [d] 1 Lf) Hrep Hnd) as (Hw & Hrep1 & Hnd1 & Hfr1).
  { cbn. by rewrite lookup_insert_eq. }
  { apply NoDup_singleton. }
  { intros c. cbn. set_solver. }
  { intros c Hc _. apply lookup_insert_ne. cbn in Hc. set_solver. }
  destruct (unwind_right b _ e rest s nx l k v h _ Hrep1 Hnd1) as (hp2 & Hun & Hrep2 & Hfr2);
    [done|done|].
  eexists _, hp2. split_and!; [exact Hw|exact Hun| |].
  - by destruct b.
  - intros x Hx. rewrite Hfr2 by (simpl in *; set_solver). apply Hfr1; simpl in *; set_solver.
Qed.

Lemma ptr_below b nx key d t : ptr (below b nx key d t) = ptr t.
Proof. destruct t as [|a l k v h r]; simpl; [done|]. by destruct (ltb key k). Qed.

Lemma pos_below b nx key d t : pos_heights t → pos_heights (below b nx key d t).
Proof.
  destruct t as [|a l k v h r]; simpl; [done|]. intros (? & ? & ?).
  destruct (ltb key k); simpl; auto using pos_fins.
Qed.

(** The step from a child whose subtree is settled to its parent. *)
Lemma climb_left b hp hp2 e rest nx key d a a' l k v h r :
  repr hp (Nd a l k v h r) → NoDup (nx :: locs (Nd a l k v h r)) → pos_heights l →
  ptr l = Some a' → repr hp2 (below b nx key d l) →
  (∀ x, x ∉ nx :: locs l → hp2 !! x = hp !! x) →
  ∃ hp3, unwind b hp2 e ((Some a, a') :: rest) = unwind b hp3 e rest ∧
    repr hp3 (Nd a (fins b nx key d l) k v h r) ∧
    (∀ x, x ∉ nx :: locs (Nd a l k v h r) → hp3 !! x = hp !! x).
Proof.
  intros (Ha & _ & Hr) Hnd Hpl Hp Hrep2 Hfr2. assert (l ≠ Lf) as Hl by by destruct l.
  cbn [locs] in Hnd. apply NoDup_cons in Hnd as [Hnx Hnd].
  apply NoDup_cons in Hnd as [Hni (Hndl & Hdisj & Hndr)%NoDup_app].
  pose proof (locs_below b nx key d l Hl) as Hperm.
  destruct (unwind_left b hp2 e rest a a' (below b nx key d l) k v h r)
    as (hp3 & Hun3 & Hrep3 & Hfr3); [| |by apply pos_below|by rewrite ptr_below|].
  - cbn [repr]. split_and!; [by rewrite ptr_below, Hfr2, Ha by set_solver|done|].
    eapply repr_frame; [|done]. intros x Hx. apply Hfr2. set_solver.
  - cbn [locs]. rewrite Hperm. apply NoDup_cons. split; [set_solver|].
    apply (NoDup_app (nx :: locs l)). split_and!; [|set_solver|done].
    apply NoDup_cons. set_solver.
  - exists hp3. rewrite settle_below in Hrep3 by done. split_and!; [done..|].
    intros x Hx. cbn [locs] in *. rewrite Hfr3, Hfr2; [done|set_solver|].
    cbn [locs]. rewrite Hperm. set_solver.
Qed.

Lemma climb_right b hp hp2 e rest nx key d a a' l k v h r :
  repr hp (Nd a l k v h r) → NoDup (nx :: locs (Nd a l k v h r)) → pos_heights r →
  ptr r = Some a' → repr hp2 (below b nx key d r) →
  (∀ x, x ∉ nx :: locs r → hp2 !! x = hp !! x) →
  ∃ hp3, unwind b hp2 e ((Some a, a') :: rest) = unwind b hp3 e rest ∧
    repr hp3 (Nd a l k v h (fins b nx key d r)) ∧
    (∀ x, x ∉ nx :: locs (Nd a l k v h r) → hp3 !! x = hp !! x).
Proof.
  intros (Ha & Hl & _) Hnd Hpr Hp Hrep2 Hfr2. assert (r ≠ Lf) as Hr by by destruct r.
  cbn [locs] in Hnd. apply NoDup_cons in Hnd as [Hnx Hnd].
  apply NoDup_cons in Hnd as [Hni (Hndl & Hdisj & Hndr)%NoDup_app].
  pose proof (locs_below b nx key d r Hr) as Hperm.
  destruct (unwind_right b hp2 e rest a a' l k v h (below b nx key d r))
    as (hp3 & Hun3 & Hrep3 & Hfr3); [| |by apply pos_below|by rewrite ptr_below|].
  - cbn [repr]. split_and!; [by rewrite ptr_below, Hfr2, Ha by set_solver| |done].
    eapply repr_frame; [|done]. intros x Hx. apply Hfr2. set_solver.
  - cbn [locs]. rewrite Hperm. apply NoDup_cons. split; [set_solver|].
    apply NoDup_app. split_and!; [done|set_solver|]. apply NoDup_cons. set_solver.
  - exists hp3. rewrite settle_below in Hrep3 by done. split_and!; [done..|].
    intros x Hx. cbn [locs] in *. rewrite Hfr3, Hfr2; [done|set_solver|].
    cbn [locs]. rewrite Hperm. set_solver.
Qed.

Lemma descend_attached b fuel hp nx key d t s i o :
  repr hp t → NoDup (nx :: locs t) → hp !! nx = None → pos_heights t → ptr t = Some s →
  (depth t < fuel)%nat → fmem key t = false →
  ∃ hp1 q, descend fuel hp nx key d s i o = Some (attached hp1 (o ++ (i, s) :: rev q)) ∧
    ∀ e rest, ∃ hp2, unwind b hp1 e (q ++ rest) = unwind b hp2 e rest ∧
      repr hp2 (below b nx key d t) ∧ (∀ x, x ∉ nx :: locs t → hp2 !! x = hp !! x).
Proof.
  revert fuel s i o. induction t as [|a l IHl k v h r IHr]; intros fuel s i o; [done|].
  intros Hrep Hnd Hfresh (_ & Hpl & Hpr) [= <-] Hfuel Hmem. destruct fuel as [|fuel]; [lia|].
  assert (hp !! a = Some (Node k v (ptr l) (ptr r) h)) as Ha by apply Hrep.
  assert (NoDup (nx :: locs l) ∧ NoDup (nx :: locs r)) as [Hndl Hndr].
  { cbn [locs] in Hnd. apply NoDup_cons in Hnd as [? Hnd].
    apply NoDup_cons in Hnd as [? (? & ? & ?)%NoDup_app]. rewrite !NoDup_cons. set_solver. }
  cbn [descend fmem below depth] in *. rewrite Ha; cbn [mbind option_bind n_k n_l n_r].
  destruct (ltb key k) eqn:?; [|destruct (ltb k key) eqn:?; cbn [negb]; [|done]].
  - destruct (ptr l) as [a'|] eqn:Hp; [|destruct l; [|done]].
    + destruct (IHl fuel a' (Some a) (o ++ [(i, a)])) as (hp1 & q & -> & Hq);
        [apply Hrep|done..|lia|done|].
      exists hp1, (q ++ [(Some a, a')]). split.
      { by rewrite <-(assoc_L (++)), rev_app_distr. }
      intros e rest. destruct (Hq e ((Some a, a') :: rest)) as (hp2 & Hun & Hrep2 & Hfr2).
      rewrite <-(assoc_L (++)). cbn [app]. rewrite Hun. by eapply climb_left.
    + destruct (attach_left b hp a [] nx key d a k v h r) as (hp1 & _ & Hw & _); [done..|].
      exists hp1, [(Some a, nx)]. rewrite Hw; cbn [mbind option_bind]. split.
      { by rewrite <-(assoc_L (++)). }
      intros e rest. destruct (attach_left b hp e rest nx key d a k v h r)
        as (hp1' & hp2 & Hw' & Hun & ? & ?); [done..|].
      assert (hp1' = hp1) as -> by congruence. by exists hp2.
  - destruct (ptr r) as [a'|] eqn:Hp; [|destruct r; [|done]].
    + destruct (IHr fuel a' (Some a) (o ++ [(i, a)])) as (hp1 & q & -> & Hq);
        [apply Hrep|done..|lia|done|].
      exists hp1, (q ++ [(Some a, a')]). split.
      { by rewrite <-(assoc_L (++)), rev_app_distr. }
      intros e rest. destruct (Hq e ((Some a, a') :: rest)) as (hp2 & Hun & Hrep2 & Hfr2).
      rewrite <-(assoc_L (++)). cbn [app]. rewrite Hun. by eapply climb_right.
    + destruct (attach_right b hp a [] nx key d a l k v h) as (hp1 & _ & Hw & _); [done..|].
      exists hp1, [(Some a, nx)]. rewrite Hw; cbn [mbind option_bind]. split.
      { by rewrite <-(assoc_L (++)). }
      intros e rest. destruct (attach_right b hp e rest nx key d a l k v h)
        as (hp1' & hp2 & Hw' & Hun & ? & ?); [done..|].
      assert (hp1' = hp1) as -> by congruence. by exists hp2.
Qed.

(** ** The refinement *)
Lemma represents_fresh tr t a : represents tr t → a ∈ locs t → (a < next tr)%positive.
Proof.
  intros (_ & Hrep & _ & Hfr) Ha. destruct (repr_lookup _ _ _ Hrep Ha) as [n Hn].
  destruct (Pos.lt_total a (next tr)) as [|Hge]; [done|].
  rewrite Hfr in Hn; [done|]. lia.
Qed.

Lemma avl_insert_refines tr t key d n :
  represents tr t → pos_heights t →
  let b := rebalance_due (insertCount tr) n in
  ∃ tr', avl_insert tr key d n = Some tr' ∧ represents tr' (finsert b (next tr) key d t) ∧
    insertCount tr' = if fmem key t || is_lf t then insertCount tr
                      else insertCount tr + 1.
Proof.
  intros Hr Hpos b. destruct (Hr) as (Hroot & Hrep & Hnd & Hfr).
  assert (next tr ∉ locs t) as Hnx by (intros Hx%(represents_fresh _ _ _ Hr); lia).
  unfold avl_insert, insertNode, finsert. rewrite Hroot. destruct (ptr t) as [e|] eqn:Hp.
  - assert (depth t < S (size (cells tr)))%nat by (pose proof (depth_size _ _ Hrep Hnd); lia).
    assert (is_lf t = false) as -> by by destruct t.
    rewrite orb_false_r. destruct (fmem key t) eqn:Hm.
    + edestruct (descend_found (S (size (cells tr))) (cells tr) (next tr) key d t e None [])
        as (hp' & -> & Hrep' & Hfr'); [done..|]. cbn [mbind option_bind].
      eexists. split; [done|]. split; [|done]. split_and!; cbn.
      * by rewrite ptr_fadd.
      * done.
      * by rewrite locs_fadd.
      * intros a Ha. rewrite Hfr'; [by apply Hfr|]. intros ?%(represents_fresh _ _ _ Hr). lia.
    + edestruct (descend_attached b (S (size (cells tr))) (cells tr) (next tr) key d t e None [])
        as (hp1 & q & -> & Hq); [done|by apply NoDup_cons|apply Hfr; lia|done..|].
      cbn [mbind option_bind app]. destruct (Hq e [(None, e)]) as (hp2 & Hun & Hrep2 & Hfr2).
      fold b. cbn [rev]. rewrite rev_involutive, Hun. assert (t ≠ Lf) as Hne by by destruct t.
      pose proof (locs_below b (next tr) key d t Hne) as Hperm.
      destruct (settle_repr b hp2 (below b (next tr) key d t) e) as (hp3 & Hu & Hset);
        [done|rewrite Hperm; by apply NoDup_cons|by apply pos_below|by rewrite ptr_below|].
      rewrite settle_below in Hset by done. cbn [unwind]. rewrite Hu; cbn [mbind option_bind].
      assert (∀ hp', (∀ x, x ∉ locs (below b (next tr) key d t) → hp' !! x = hp2 !! x) →
        ∀ a, Pos.succ (next tr) ≤ a → hp' !! a = None)%positive as Hclean.
      { intros hp' Hfr' a Ha. assert (a ∉ next tr :: locs t).
        { rewrite elem_of_cons. intros [->|?%(represents_fresh _ _ _ Hr)]; lia. }
        rewrite Hfr', Hfr2 by (rewrite ?Hperm; done). apply Hfr. lia. }
      destruct b; [destruct Hset as (hp4 & c & -> & Hc & Hrep4 & Hfr4)|
                   destruct Hset as (Hrep4 & Hc & Hfr4)]; cbn [mbind option_bind];
        (eexists; split; [done|]; split; [|done]; split_and!; cbn;
          [done|done|rewrite locs_fins; by apply NoDup_cons|by apply Hclean]).
  - destruct t; [|done]. cbn. eexists. split; [done|]. split; [|done]. split_and!; cbn.
    + done.
    + by rewrite lookup_insert_eq.
    + apply NoDup_singleton.
    + intros a Ha. rewrite lookup_insert_ne by lia. apply Hfr. lia.
Qed.
End insert.
