(* ===== verification/AVLSpec.v ===== *)
(** * What the AVL tree promises: a sorted association list

    [avl_inv tr m]: the object [tr] holds a search tree whose nodes, in key
    order, are the entries [m], with correct heights. Insertion, lookup and
    the range queries are proved against [m]. *)

From S2P Require Import Prelude JSColl JSNum Utils AVL AVLTree AVLInsert.
Local Open Scope Z_scope.

(** ** The abstract map *)
Section spec.
Context {K D : Type} `{JSOrdLaws K, EqDecision D}.
Implicit Types (m : list (K * list D)).

Fixpoint put (key : K) (d : D) (m : list (K * list D)) : list (K * list D) :=
  match m with
  | [] => [(key, [d])]
  | (k, v) :: m =>
      if ltb key k then (key, [d]) :: (k, v) :: m
      else if ltb k key then (k, v) :: put key d m
      else (k, set_add d v) :: m
  end.

(** The documents filed under [key]. *)
Fixpoint docs_at (key : K) (m : list (K * list D)) : option (list D) :=
  match m with
  | [] => None
  | (k, v) :: m => if eqb k key then Some v else docs_at key m
  end.

Definition key_lt (x y : K * list D) : Prop := ltb x.1 y.1 = true.
Definition sorted_entries (m : list (K * list D)) : Prop := StronglySorted key_lt m.

Lemma sorted_app m1 x m2 :
  sorted_entries (m1 ++ x :: m2) ↔
  sorted_entries m1 ∧ sorted_entries m2 ∧
  Forall (λ y, key_lt y x) m1 ∧ Forall (key_lt x) m2.
Proof.
  unfold sorted_entries. induction m1 as [|y m1 IH]; simpl.
  - split.
    + inversion_clear 1. repeat split; auto using SSorted_nil.
    + intros (_ & ? & _ & ?). by constructor.
  - split.
    + inversion_clear 1 as [|? ? Hss Hall].
      apply Forall_app in Hall as [Hall1 [Hyx Hall2]%Forall_cons].
      apply IH in Hss as (? & ? & ? & ?). split_and!; auto; by constructor.
    + intros (Hss & ? & [? ?]%Forall_cons & Hx).
      inversion_clear Hss. constructor; [by apply IH|].
      apply Forall_app; split; [done|]. constructor; [done|].
      eapply Forall_impl; [exact Hx|]. intros z Hxz. unfold key_lt in *. eauto using ltb_trans.
Qed.

Lemma put_left key d m1 k v m2 :
  ltb key k = true → put key d (m1 ++ (k, v) :: m2) = put key d m1 ++ (k, v) :: m2.
Proof.
  intros Hlt. induction m1 as [|[k1 v1] m1 IH]; simpl; [by rewrite Hlt|].
  rewrite IH. by repeat case_match.
Qed.

Lemma put_right key d m1 k v m2 :
  ltb key k = false → Forall (λ y, ltb y.1 k = true) m1 →
  put key d (m1 ++ (k, v) :: m2) =
  m1 ++ (if ltb k key then (k, v) :: put key d m2 else (k, set_add d v) :: m2).
Proof.
  intros Hnlt. induction 1 as [|[k1 v1] m1 Hk1 _ IH]; simpl in *; [by rewrite Hnlt|].
  assert (ltb key k1 = false) as ->.
  { destruct (ltb key k1) eqn:Hkk; [|done]. by rewrite (ltb_trans key k1 k) in Hnlt. }
  rewrite IH. destruct (ltb_split k1 key k Hk1) as [->|?]; [done|congruence].
Qed.

Lemma put_lower x key d m :
  key_lt x (key, [d]) → Forall (key_lt x) m → Forall (key_lt x) (put key d m).
Proof.
  intros Hx. induction 1 as [|[k v] m Hk Hm IH]; simpl; [by constructor|].
  repeat case_match; constructor; auto; by constructor.
Qed.

Lemma sorted_put key d m : sorted_entries m → sorted_entries (put key d m).
Proof.
  unfold sorted_entries. induction 1 as [|[k v] m Hss IH Hall]; simpl; [repeat constructor|].
  destruct (ltb key k) eqn:Hlt; [|destruct (ltb k key) eqn:Hgt].
  - constructor; [by constructor|]. constructor; [done|].
    eapply Forall_impl; [exact Hall|]. intros y. unfold key_lt; simpl. eauto using ltb_trans.
  - constructor; [done|]. by apply put_lower.
  - constructor; [done|]. exact Hall.
Qed.

(** Insert/lookup laws of the abstract map. *)
Lemma docs_at_above key m : Forall (λ y, ltb key y.1 = true) m → docs_at key m = None.
Proof.
  induction 1 as [|[k v] m Hk _ IH]; simpl in *; [done|].
  by rewrite ltb_not_eqb' by done.
Qed.

Lemma docs_at_put key key' d m :
  sorted_entries m →
  docs_at key' (put key d m) =
  if eqb key key' then Some (match docs_at key m with Some v => set_add d v | None => [d] end)
  else docs_at key' m.
Proof.
  intros Hs. induction Hs as [|[k v] m Hss IH Hall]; simpl.
  { by destruct (eqb key key'). }
  destruct (ltb key k) eqn:Hlt; [|destruct (ltb k key) eqn:Hgt]; simpl.
  - assert (docs_at key m = None) as Hnone.
    { apply docs_at_above. eapply Forall_impl; [exact Hall|].
      intros y Hy. by eapply ltb_trans. }
    rewrite (ltb_not_eqb' key k), Hnone by done. by destruct (eqb key key').
  - rewrite IH. rewrite (ltb_not_eqb k key) by done.
    destruct (eqb key key') eqn:Hk; [|done].
    assert (eqb k key' = false) as ->; [|done].
    destruct (eqb k key') eqn:Hk'; [|done]. rewrite eqb_sym in Hk.
    pose proof (eqb_trans _ _ _ Hk' Hk). by rewrite (ltb_not_eqb k key) in *.
  - assert (eqb k key = true) as Hkk by by rewrite eqb_spec, Hlt, Hgt.
    rewrite Hkk. destruct (eqb key key') eqn:Hk.
    + by rewrite (eqb_trans _ _ _ Hkk Hk).
    + assert (eqb k key' = false) as ->; [|done].
      destruct (eqb k key') eqn:Hk'; [|done]. rewrite eqb_sym in Hkk.
      by rewrite (eqb_trans _ _ _ Hkk Hk') in Hk.
Qed.

(** ** Trees and their entries *)
Implicit Types t l r : tree K D.

Lemma entries_fix_height t : entries (fix_height t) = entries t.
Proof. by destruct t. Qed.
Lemma entries_rot_left t : entries (rot_left t) = entries t.
Proof.
  destruct t as [|a l k v h [|b rl k' v' h' rr]]; simpl; [done..|].
  by rewrite <-(assoc_L (++)).
Qed.
Lemma entries_rot_right t : entries (rot_right t) = entries t.
Proof.
  destruct t as [|a [|b ll k' v' h' lr] k v h r]; simpl; [done..|].
  by rewrite <-(assoc_L (++)).
Qed.
Lemma entries_rebal t : entries (rebal t) = entries t.
Proof.
  destruct t as [|a l k v h r]; [done|]. unfold rebal.
  repeat case_match; try done; rewrite ?entries_rot_left, ?entries_rot_right; simpl;
    by rewrite ?entries_rot_left, ?entries_rot_right.
Qed.
Lemma entries_settle b t : entries (settle b t) = entries t.
Proof. destruct b; simpl; by rewrite ?entries_rebal, entries_fix_height. Qed.

Lemma entries_fadd key d t :
  sorted_entries (entries t) → fmem key t = true →
  entries (fadd key d t) = put key d (entries t).
Proof.
  induction t as [|a l IHl k v h r IHr]; simpl; [done|].
  intros (Hl & Hr & Hlk & Hkr)%sorted_app Hm.
  destruct (ltb key k) eqn:Hlt; [|destruct (ltb k key) eqn:Hgt]; simpl.
  - by rewrite put_left, IHl.
  - by rewrite put_right, Hgt, IHr.
  - by rewrite put_right, Hgt.
Qed.

Lemma entries_fins b nx key d t :
  sorted_entries (entries t) → fmem key t = false →
  entries (fins b nx key d t) = put key d (entries t).
Proof.
  induction t as [|a l IHl k v h r IHr]; simpl; [done|].
  intros (Hl & Hr & Hlk & Hkr)%sorted_app Hm.
  destruct (ltb key k) eqn:Hlt; [|destruct (ltb k key) eqn:Hgt]; [..|done];
    rewrite entries_settle; simpl.
  - by rewrite put_left, IHl.
  - by rewrite put_right, Hgt, IHr.
Qed.

Lemma entries_finsert b nx key d t :
  sorted_entries (entries t) → entries (finsert b nx key d t) = put key d (entries t).
Proof.
  intros Hs. unfold finsert. destruct (fmem key t) eqn:?;
    auto using entries_fadd, entries_fins.
Qed.

(** ** Heights and balance *)
Lemma heights_rebal t : heights t → heights (rebal t).
Proof.
  destruct t as [|a l k v h r]; [done|]. intros (Hh & Hl & Hr). unfold rebal.
  repeat case_match; try done;
    destruct l as [|? ll ? ? ? lr], r as [|? rl ? ? ? rr]; simpl in *; try lia;
    try destruct lr; try destruct rl; simpl in *; naive_solver.
Qed.

Lemma heights_settle b a l k v h r :
  heights l → heights r → heights (settle b (Nd a l k v h r)).
Proof. intros. destruct b; [apply heights_rebal|]; done. Qed.

Lemma heights_finsert b nx key d t : heights t → heights (finsert b nx key d t).
Proof.
  assert (∀ t, heights t → ht (fadd key d t) = ht t ∧ heights (fadd key d t)) as Hadd.
  { clear t. induction t as [|a l IHl k v h r IHr]; simpl; [done|]. intros (-> & Hl & Hr).
    destruct (IHl Hl), (IHr Hr). repeat case_match; simpl; split_and!; auto; lia. }
  unfold finsert. intros Ht. destruct (fmem key t); [by apply Hadd|].
  induction t as [|a l IHl k v h r IHr]; simpl; [done|]. destruct Ht as (_ & Hl & Hr).
  case_match; apply heights_settle; auto.
Qed.

(** Settling a node whose subtrees differ by at most two in height. *)
Lemma settle_balanced a l k v h r :
  heights l → heights r → balanced l → balanced r → -2 ≤ ht l - ht r ≤ 2 →
  let t := settle true (Nd a l k v h r) in
  balanced t ∧ Z.max (ht l) (ht r) ≤ ht t ≤ Z.max (ht l) (ht r) + 1 ∧
  (-1 ≤ ht l - ht r ≤ 1 → ht t = Z.max (ht l) (ht r) + 1).
Proof.
  intros Hhl Hhr Hbl Hbr Hd. simpl. unfold rebal; cbn [fix_height bf].
  destruct (Z.ltb_spec 1 (ht l - ht r));
    [|destruct (Z.ltb_spec (ht l - ht r) (-1))].
  - pose proof (heights_nonneg _ Hhr).
    destruct l as [|b ll k' v' h' lr]; [simpl in *; lia|].
    destruct Hhl as (Hh' & Hhll & Hhlr). destruct Hbl as (Hdl & Hbll & Hblr).
    pose proof (heights_nonneg _ Hhll). pose proof (heights_nonneg _ Hhlr).
    destruct (Z.leb_spec 0 (bf (Nd b ll k' v' h' lr))); cbn [bf] in *.
    + simpl in *. split_and!; auto; lia.
    + destruct lr as [|c lrl k'' v'' h'' lrr]; [simpl in *; lia|].
      destruct Hhlr as (Hh'' & ? & ?). destruct Hblr as (? & ? & ?).
      simpl in *. split_and!; auto; lia.
  - pose proof (heights_nonneg _ Hhl).
    destruct r as [|b rl k' v' h' rr]; [simpl in *; lia|].
    destruct Hhr as (Hh' & Hhrl & Hhrr). destruct Hbr as (Hdr & Hbrl & Hbrr).
    pose proof (heights_nonneg _ Hhrl). pose proof (heights_nonneg _ Hhrr).
    destruct (Z.leb_spec (bf (Nd b rl k' v' h' rr)) 0); cbn [bf] in *.
    + simpl in *. split_and!; auto; lia.
    + destruct rl as [|c rll k'' v'' h'' rlr]; [simpl in *; lia|].
      destruct Hhrl as (Hh'' & ? & ?). destruct Hbrl as (? & ? & ?).
      simpl in *. split_and!; auto; lia.
  - simpl. split_and!; auto; lia.
Qed.

Lemma fins_balanced nx key d t :
  heights t → balanced t →
  balanced (fins true nx key d t) ∧ heights (fins true nx key d t) ∧
  ht t ≤ ht (fins true nx key d t) ≤ ht t + 1.
Proof.
  induction t as [|a l IHl k v h r IHr]; [simpl; lia|].
  intros (Hh & Hhl & Hhr) (Hd & Hbl & Hbr). cbn [fins].
  destruct (ltb key k).
  - destruct (IHl Hhl Hbl) as (Hb' & Hh' & Hht').
    destruct (settle_balanced a (fins true nx key d l) k v h r) as (? & ? & ?); [done..|lia|].
    split_and!; [done|by apply heights_settle|simpl ht at 1; lia|simpl ht at 2; lia].
  - destruct (IHr Hhr Hbr) as (Hb' & Hh' & Hht').
    destruct (settle_balanced a l k v h (fins true nx key d r)) as (? & ? & ?); [done..|lia|].
    split_and!; [done|by apply heights_settle|simpl ht at 1; lia|simpl ht at 2; lia].
Qed.

Lemma fadd_balanced key d t :
  balanced t → balanced (fadd key d t) ∧ ht (fadd key d t) = ht t.
Proof.
  induction t as [|a l IHl k v h r IHr]; simpl; [done|]. intros (Hd & Hl & Hr).
  destruct (IHl Hl), (IHr Hr). repeat case_match; simpl; split_and!; auto; lia.
Qed.

Lemma finsert_balanced nx key d t :
  heights t → balanced t → balanced (finsert true nx key d t).
Proof.
  intros. unfold finsert. case_match; [by apply fadd_balanced|by apply fins_balanced].
Qed.
End spec.
