(* ===== verification/AVLQuery.v ===== *)
(** * Queries on the AVL tree: lookup, range searches, size, balance check

    The explicit-stack walks are shown to visit the entries in order, so each
    query is the corresponding fold over the abstract map. *)

From S2P Require Import Prelude JSColl JSNum Utils AVL AVLTree AVLInsert AVLSpec.
Local Open Scope Z_scope.

Section walk.
Context {K D : Type} `{JSOrd K, EqDecision D}.
Implicit Types (t l r : tree K D) (hp : gmap loc (node K D)).

Definition good (hp : gmap loc (node K D)) (t : tree K D) : Prop :=
  repr hp t ∧ NoDup (locs t).

Lemma good_children hp a l k v h r :
  good hp (Nd a l k v h r) →
  hp !! a = Some (Node k v (ptr l) (ptr r) h) ∧ good hp l ∧ good hp r.
Proof.
  intros [(? & ? & ?) Hnd]. cbn [locs] in Hnd.
  apply NoDup_cons in Hnd as [? (? & ? & ?)%NoDup_app]. by split_and!.
Qed.

(** Entries still to be visited by a pending node of the left-to-right walk. *)
Definition rest_up (t : tree K D) : list (K * list D) :=
  match t with Lf => [] | Nd _ _ k v _ r => (k, v) :: entries r end.
Definition rest_down (t : tree K D) : list (K * list D) :=
  match t with Lf => [] | Nd _ l k v _ _ => (k, v) :: rev (entries l) end.

(** A walk at node [o] with stack [st] still has to visit [m]. *)
Definition walk_up hp (o : option loc) (st : list loc) (m : list (K * list D)) : Prop :=
  ∃ t ps, o = ptr t ∧ good hp t ∧ Some <$> st = ptr <$> ps ∧ Forall (good hp) ps ∧
    m = entries t ++ concat (rest_up <$> ps).
Definition walk_down hp (o : option loc) (st : list loc) (m : list (K * list D)) : Prop :=
  ∃ t ps, o = ptr t ∧ good hp t ∧ Some <$> st = ptr <$> ps ∧ Forall (good hp) ps ∧
    m = rev (entries t) ++ concat (rest_down <$> ps).

Lemma push_left_walk hp t st ps fuel :
  good hp t → Forall (good hp) ps → Some <$> st = ptr <$> ps → (depth t < fuel)%nat →
  ∃ st' ps', push_left fuel hp (ptr t) st = Some st' ∧ Some <$> st' = ptr <$> ps' ∧
    Forall (good hp) ps' ∧
    entries t ++ concat (rest_up <$> ps) = concat (rest_up <$> ps').
Proof.
  revert st ps fuel. induction t as [|a l IHl k v h r IHr]; intros st ps fuel Ht Hps Hst Hf;
    (destruct fuel as [|fuel]; [simpl in *; lia|]).
  - exists st, ps. done.
  - pose proof Ht as (Ha & Hl & Hr)%good_children. cbn [push_left ptr].
    rewrite Ha; cbn [mbind option_bind n_l].
    destruct (IHl (a :: st) (Nd a l k v h r :: ps) fuel) as (st' & ps' & -> & ? & ? & Heq);
      [done|by constructor|by csimpl; rewrite Hst|cbn [depth] in Hf; lia|].
    exists st', ps'. split_and!; [done..|]. rewrite <-Heq. csimpl.
    by rewrite <-(assoc_L (++)).
Qed.

Lemma push_right_walk hp t st ps fuel :
  good hp t → Forall (good hp) ps → Some <$> st = ptr <$> ps → (depth t < fuel)%nat →
  ∃ st' ps', push_right fuel hp (ptr t) st = Some st' ∧ Some <$> st' = ptr <$> ps' ∧
    Forall (good hp) ps' ∧
    rev (entries t) ++ concat (rest_down <$> ps) = concat (rest_down <$> ps').
Proof.
  revert st ps fuel. induction t as [|a l IHl k v h r IHr]; intros st ps fuel Ht Hps Hst Hf;
    (destruct fuel as [|fuel]; [simpl in *; lia|]).
  - exists st, ps. done.
  - pose proof Ht as (Ha & Hl & Hr)%good_children. cbn [push_right ptr].
    rewrite Ha; cbn [mbind option_bind n_r].
    destruct (IHr (a :: st) (Nd a l k v h r :: ps) fuel) as (st' & ps' & -> & ? & ? & Heq);
      [done|by constructor|by csimpl; rewrite Hst|cbn [depth] in Hf; lia|].
    exists st', ps'. split_and!; [done..|]. rewrite <-Heq. csimpl.
    rewrite rev_app_distr. simpl. by rewrite <-!(assoc_L (++)).
Qed.

(** One round of the outer loop visits the next entry. *)
Lemma walk_up_step hp o st k v m :
  walk_up hp o st ((k, v) :: m) →
  (∃ a, o = Some a ∨ a ∈ st) ∧
  ∃ a st' n, push_left (S (size hp)) hp o st = Some (a :: st') ∧ hp !! a = Some n ∧
    n_k n = k ∧ n_v n = v ∧ walk_up hp (n_r n) st' m.
Proof.
  intros (t & ps & -> & Ht & Hst & Hps & Hm).
  split.
  { destruct t as [|a]; [|eauto]. destruct ps as [|p ps]; [done|].
    destruct st as [|a st]; [done|]. exists a. right. set_solver. }
  destruct (push_left_walk hp t st ps (S (size hp))) as (st' & ps' & -> & Hst' & Hps' & Heq);
    [done..|destruct Ht; pose proof (depth_size hp t); naive_solver lia|].
  rewrite <-Hm in Heq. destruct ps' as [|p ps']; [done|]. destruct st' as [|a st']; [done|].
  apply Forall_cons in Hps' as [Hp Hps']. csimpl in Hst'. injection Hst' as Hpa Hst'.
  destruct p as [|a' l k' v' h r]; [done|]. injection Hpa as <-.
  csimpl in Heq. injection Heq as <- <- ->. apply good_children in Hp as (Ha & _ & Hr).
  eexists a, st', _. split_and!; [done..|]. by exists r, ps'.
Qed.

Lemma walk_down_step hp o st k v m :
  walk_down hp o st ((k, v) :: m) →
  (∃ a, o = Some a ∨ a ∈ st) ∧
  ∃ a st' n, push_right (S (size hp)) hp o st = Some (a :: st') ∧ hp !! a = Some n ∧
    n_k n = k ∧ n_v n = v ∧ walk_down hp (n_l n) st' m.
Proof.
  intros (t & ps & -> & Ht & Hst & Hps & Hm).
  split.
  { destruct t as [|a]; [|eauto]. destruct ps as [|p ps]; [done|].
    destruct st as [|a st]; [done|]. exists a. right. set_solver. }
  destruct (push_right_walk hp t st ps (S (size hp))) as (st' & ps' & -> & Hst' & Hps' & Heq);
    [done..|destruct Ht; pose proof (depth_size hp t); naive_solver lia|].
  rewrite <-Hm in Heq. destruct ps' as [|p ps']; [done|]. destruct st' as [|a st']; [done|].
  apply Forall_cons in Hps' as [Hp Hps']. csimpl in Hst'. injection Hst' as Hpa Hst'.
  destruct p as [|a' l k' v' h r]; [done|]. injection Hpa as <-.
  csimpl in Heq. injection Heq as <- <- ->. apply good_children in Hp as (Ha & Hl & _).
  eexists a, st', _. split_and!; [done..|]. by exists l, ps'.
Qed.

Lemma walk_up_done hp o st : walk_up hp o st [] → o = None ∧ st = [].
Proof.
  intros (t & ps & -> & Ht & Hst & Hps & Hm).
  destruct t as [|a l k v h r];
    [|simpl in Hm; rewrite <-(assoc_L (++)) in Hm; by destruct (entries l)].
  split; [done|]. destruct ps as [|[|? ? ? ? ? ?] ps], st; csimpl in *; simplify_eq; done.
Qed.

Lemma walk_down_done hp o st : walk_down hp o st [] → o = None ∧ st = [].
Proof.
  intros (t & ps & -> & Ht & Hst & Hps & Hm).
  destruct t as [|a l k v h r]; [|simpl in Hm; rewrite rev_app_distr in Hm; simpl in Hm;
    rewrite <-!(assoc_L (++)) in Hm; by destruct (rev (entries r))].
  split; [done|]. destruct ps as [|[|? ? ? ? ? ?] ps], st; csimpl in *; simplify_eq; done.
Qed.

Lemma walk_up_start hp t : good hp t → walk_up hp (ptr t) [] (entries t).
Proof. intros. exists t, []. by rewrite app_nil_r. Qed.
Lemma walk_down_start hp t : good hp t → walk_down hp (ptr t) [] (rev (entries t)).
Proof. intros. exists t, []. by rewrite app_nil_r. Qed.

Lemma entries_size hp t : good hp t → (length (entries t) ≤ size hp)%nat.
Proof.
  intros [Hrep Hnd]. assert (length (entries t) = length (locs t)) as ->.
  { clear. induction t; simpl; rewrite ?length_app; simpl; lia. }
  by apply locs_size.
Qed.
End walk.

Section queries.
Context {K D : Type} `{JSOrdLaws K, EqDecision D}.
Implicit Types (t l r : tree K D) (hp : gmap loc (node K D)) (m : list (K * list D)).

(** The documents of the entries whose key satisfies [P], in the order met. *)
Definition collect (P : K → bool) (n : list D) (m : list (K * list D)) : list D :=
  foldl (λ n x, if P x.1 then set_add_all x.2 n else n) n m.

Lemma collect_none P n m : Forall (λ x, P x.1 = false) m → collect P n m = n.
Proof. unfold collect. induction 1 as [|x m Hx _ IH]; simpl; [done|]. by rewrite Hx. Qed.

Lemma collect_cons P n k v m :
  collect P n ((k, v) :: m) = collect P (if P k then set_add_all v n else n) m.
Proof. done. Qed.

Lemma elem_of_collect P n m d :
  d ∈ collect P n m ↔ d ∈ n ∨ ∃ k v, (k, v) ∈ m ∧ P k = true ∧ d ∈ v.
Proof.
  unfold collect. revert n. induction m as [|[k v] m IH]; intros n; simpl; [set_solver|].
  rewrite IH. setoid_rewrite elem_of_cons.
  destruct (P k) eqn:HP; [rewrite elem_of_set_add_all|]; naive_solver congruence.
Qed.

Lemma size_loop_walk fuel hp o st m e :
  walk_up hp o st m → (length m < fuel)%nat →
  size_loop fuel hp o st e = Some (e + Z.of_nat (length m)).
Proof.
  revert fuel o st e. induction m as [|[k v] m IH]; intros fuel o st e Hw Hf;
    (destruct fuel as [|fuel]; [simpl in *; lia|]); cbn [size_loop].
  - apply walk_up_done in Hw as [-> ->]. f_equal. simpl. lia.
  - apply walk_up_step in Hw as [[b Hb] (a & st' & n & Hpush & Ha & _ & _ & Hw)].
    assert (size_loop fuel hp (n_r n) st' (e + 1) = Some (e + Z.of_nat (S (length m)))) as Hrec.
    { rewrite (IH fuel (n_r n) st') by (done || simpl in *; lia). f_equal. lia. }
    destruct o as [o|]; [|destruct st; [naive_solver set_solver|]];
      rewrite Hpush; cbn; rewrite Ha; cbn; exact Hrec.
Qed.

Lemma range_loop_walk fuel hp (e t : K) o st m n :
  walk_up hp o st m → sorted_entries m → (length m < fuel)%nat →
  range_loop fuel hp e t o st n = Some (collect (λ k, leb e k && leb k t) n m).
Proof.
  revert fuel o st n. induction m as [|[k v] m IH]; intros fuel o st n Hw Hs Hf;
    (destruct fuel as [|fuel]; [simpl in *; lia|]); cbn [range_loop].
  - by apply walk_up_done in Hw as [-> ->].
  - apply walk_up_step in Hw as [[b Hb] (a & st' & nd & Hpush & Ha & Hk & Hv & Hw)].
    inversion_clear Hs as [|? ? Hs' Hall].
    assert (∀ n', (if ltb t k then Some n' else range_loop fuel hp e t (n_r nd) st' n')
              = Some (collect (λ k, leb e k && leb k t) n' m)) as Hrec.
    { intros n'. destruct (ltb t k) eqn:Htk; [|apply IH; auto; simpl in *; lia].
      rewrite collect_none; [done|]. eapply Forall_impl; [exact Hall|].
      intros [k' v'] Hk'. unfold key_lt in Hk'; simpl in *.
      rewrite (leb_spec k' t), (ltb_trans t k k') by done. by rewrite andb_false_r. }
    rewrite collect_cons.
    destruct o as [o|]; [|destruct st; [naive_solver set_solver|]];
      rewrite Hpush; cbn; rewrite Ha; cbn; rewrite Hk, Hv; apply Hrec.
Qed.

Lemma less_loop_walk fuel hp e (t : bool) o st m n :
  walk_up hp o st m → sorted_entries m → (length m < fuel)%nat →
  less_loop fuel hp e t o st n =
    Some (collect (λ k, if t then leb k e else ltb k e) n m).
Proof.
  revert fuel o st n. induction m as [|[k v] m IH]; intros fuel o st n Hw Hs Hf;
    (destruct fuel as [|fuel]; [simpl in *; lia|]); cbn [less_loop].
  - by apply walk_up_done in Hw as [-> ->].
  - apply walk_up_step in Hw as [[b Hb] (a & st' & nd & Hpush & Ha & Hk & Hv & Hw)].
    inversion_clear Hs as [|? ? Hs' Hall].
    set (P := λ k, if t then leb k e else ltb k e) in *.
    assert ((t && leb k e) || (negb t && ltb k e) = P k) as HP
      by (unfold P; destruct t; simpl; by rewrite ?orb_false_r).
    assert ((if P k then less_loop fuel hp e t (n_r nd) st' (set_add_all v n)
             else if ltb e k then Some n else less_loop fuel hp e t (n_r nd) st' n)
              = Some (collect P n ((k, v) :: m))) as Hrec.
    { rewrite collect_cons.
      destruct (P k) eqn:HPk; [apply IH; auto; simpl in *; lia|].
      destruct (ltb e k) eqn:Hek; [|apply IH; auto; simpl in *; lia].
      rewrite collect_none; [done|]. eapply Forall_impl; [exact Hall|].
      intros [k' v'] Hk'. unfold key_lt in Hk'; simpl in *. unfold P.
      pose proof (ltb_trans e k k' Hek Hk') as Hek'.
      destruct t; [by rewrite leb_spec, Hek'|by apply ltb_asym]. }
    destruct o as [o|]; [|destruct st; [naive_solver set_solver|]];
      rewrite Hpush; cbn; rewrite Ha; cbn; rewrite Hk, Hv, HP; exact Hrec.
Qed.

Lemma greater_loop_walk fuel hp e (t : bool) o st m n :
  walk_down hp o st m → StronglySorted (λ x y, key_lt y x) m → (length m < fuel)%nat →
  greater_loop fuel hp e t o st n =
    Some (collect (λ k, if t then leb e k else ltb e k) n m).
Proof.
  revert fuel o st n. induction m as [|[k v] m IH]; intros fuel o st n Hw Hs Hf;
    (destruct fuel as [|fuel]; [simpl in *; lia|]); cbn [greater_loop].
  - by apply walk_down_done in Hw as [-> ->].
  - apply walk_down_step in Hw as [[b Hb] (a & st' & nd & Hpush & Ha & Hk & Hv & Hw)].
    inversion_clear Hs as [|? ? Hs' Hall].
    set (P := λ k, if t then leb e k else ltb e k) in *.
    assert ((t && leb e k) || (negb t && ltb e k) = P k) as HP
      by (unfold P; destruct t; simpl; by rewrite ?orb_false_r).
    assert ((if P k then greater_loop fuel hp e t (n_l nd) st' (set_add_all v n)
             else if leb k e then Some n else greater_loop fuel hp e t (n_l nd) st' n)
              = Some (collect P n ((k, v) :: m))) as Hrec.
    { rewrite collect_cons.
      destruct (P k) eqn:HPk; [apply IH; auto; simpl in *; lia|].
      destruct (leb k e) eqn:Hek; [|apply IH; auto; simpl in *; lia].
      rewrite collect_none; [done|]. eapply Forall_impl; [exact Hall|].
      intros [k' v'] Hk'. unfold key_lt in Hk'; simpl in *. unfold P.
      assert (ltb k' e = true) as Hk'e.
      { rewrite leb_spec in Hek. destruct (ltb_split k' e k Hk') as [|He]; [done|].
        by rewrite He in Hek. }
      destruct t; [by rewrite leb_spec, Hk'e|by apply ltb_asym]. }
    destruct o as [o|]; [|destruct st; [naive_solver set_solver|]];
      rewrite Hpush; cbn; rewrite Ha; cbn; rewrite Hk, Hv, HP; exact Hrec.
Qed.

Lemma sorted_rev m : sorted_entries m → StronglySorted (λ x y, key_lt y x) (rev m).
Proof.
  induction 1 as [|x m Hs IH Hall]; simpl; [constructor|].
  apply StronglySorted_app_2; [|done|repeat constructor].
  intros y z Hy ->%list_elem_of_singleton.
  rewrite list_elem_of_In, <-in_rev, <-list_elem_of_In in Hy.
  rewrite Forall_forall in Hall. by apply Hall.
Qed.
End queries.
