(* ===== verification/AVLTheorems.v ===== *)
(** * Theorems about the AVL tree *)

From Stdlib Require Import SpecFloat.
From S2P Require Import Prelude JSColl JSNum Utils AVL AVLTree AVLInsert AVLSpec AVLQuery.
Local Open Scope Z_scope.

Section facts.
Context {K D : Type} `{JSOrdLaws K, EqDecision D}.
Implicit Types (t l r : tree K D) (m : list (K * list D)).

(** [tr] is a search tree holding the entries [m]. *)
Definition avl_inv (tr : avl K D) (m : list (K * list D)) : Prop :=
  ∃ t, represents tr t ∧ heights t ∧ entries t = m ∧ sorted_entries m ∧
    Forall (λ x, NoDup x.2) m.

Lemma represents_good tr t : represents tr t → good (cells tr) t.
Proof. intros (_ & ? & ? & _). done. Qed.

(** ** Lookup *)
Lemma docs_at_below key m : Forall (λ y, ltb y.1 key = true) m → docs_at key m = None.
Proof.
  induction 1 as [|[k v] m Hk _ IH]; simpl in *; [done|]. by rewrite ltb_not_eqb by done.
Qed.

Lemma docs_at_app key m1 m2 :
  docs_at key (m1 ++ m2) = match docs_at key m1 with Some v => Some v | None => docs_at key m2 end.
Proof.
  induction m1 as [|[k v] m1 IH]; simpl; [done|]. by destruct (eqb k key).
Qed.

Lemma docs_at_node key m1 k v m2 :
  sorted_entries (m1 ++ (k, v) :: m2) →
  docs_at key (m1 ++ (k, v) :: m2) =
    if ltb key k then docs_at key m1 else if ltb k key then docs_at key m2 else Some v.
Proof.
  intros (_ & _ & H1 & H2)%sorted_app. rewrite docs_at_app. simpl.
  assert (ltb key k = false → docs_at key m1 = None) as Hm1.
  { intros Hge. apply docs_at_below. eapply Forall_impl; [exact H1|]. intros [k' v'] Hk'.
    unfold key_lt in Hk'; simpl in *. destruct (ltb_split k' key k Hk'); congruence. }
  destruct (ltb key k) eqn:Hlt; [|destruct (ltb k key) eqn:Hgt].
  - rewrite ltb_not_eqb' by done. destruct (docs_at key m1); [done|].
    apply docs_at_above. eapply Forall_impl; [exact H2|]. intros y Hy. by eapply ltb_trans.
  - by rewrite Hm1, ltb_not_eqb by done.
  - by rewrite Hm1, eqb_spec, Hlt, Hgt by done.
Qed.

Lemma find_loop_repr fuel hp key t :
  repr hp t → sorted_entries (entries t) → (depth t < fuel)%nat →
  match docs_at key (entries t) with
  | None => find_loop fuel hp key (ptr t) = Some None
  | Some v => ∃ a n, find_loop fuel hp key (ptr t) = Some (Some a) ∧ hp !! a = Some n ∧
                n_v n = v ∧ eqb (n_k n) key = true
  end.
Proof.
  revert fuel. induction t as [|a l IHl k v h r IHr]; intros fuel Hrep Hs Hf;
    (destruct fuel as [|fuel]; [simpl in *; lia|]); [done|].
  destruct Hrep as (Ha & Hl & Hr). cbn [entries depth] in *.
  rewrite docs_at_node by done. apply sorted_app in Hs as (? & ? & _).
  cbn [find_loop ptr]. rewrite Ha; cbn [mbind option_bind n_k n_l n_r].
  destruct (ltb key k) eqn:Hlt; [|destruct (ltb k key) eqn:Hgt; cbn [negb]].
  - apply IHl; auto; lia.
  - apply IHr; auto; lia.
  - eexists a, _. split_and!; [done..|]. simpl. by rewrite eqb_spec, Hlt, Hgt.
Qed.

Lemma findNodeByKey_spec tr m key :
  avl_inv tr m →
  match docs_at key m with
  | None => findNodeByKey tr key = Some None
  | Some v => ∃ a n, findNodeByKey tr key = Some (Some a) ∧ cells tr !! a = Some n ∧
                n_v n = v ∧ eqb (n_k n) key = true
  end.
Proof.
  intros (t & (Hroot & Hrep & Hnd & _) & _ & <- & Hs & _). unfold findNodeByKey. rewrite Hroot.
  apply find_loop_repr; [done..|]. pose proof (depth_size _ _ Hrep Hnd). lia.
Qed.

(** ** Balance *)
Fixpoint balancedb (t : tree K D) : bool :=
  match t with
  | Lf => true
  | Nd _ l _ _ _ r => (Z.abs (ht l - ht r) <=? 1) && balancedb l && balancedb r
  end.

Lemma balancedb_spec t : balancedb t = true ↔ balanced t.
Proof.
  induction t as [|a l IHl k v h r IHr]; simpl; [done|].
  rewrite !andb_true_iff, IHl, IHr, Z.leb_le. intuition lia.
Qed.

Definition nodes (ts : list (tree K D)) : nat := sum_list (length ∘ locs <$> ts).

Lemma balanced_loop_repr fuel hp st ts :
  Forall (repr hp) ts → Forall (λ t, t ≠ Lf) ts → Some <$> st = ptr <$> ts →
  (nodes ts < fuel)%nat →
  balanced_loop fuel hp st = Some (forallb balancedb ts).
Proof.
  revert st ts. induction fuel as [|fuel IH]; intros st ts Hrep Hne Hst Hf; [lia|].
  destruct ts as [|t ts], st as [|a st]; try done.
  apply Forall_cons in Hrep as [Ht Hrep]. apply Forall_cons in Hne as [Hnt Hne].
  csimpl in Hst. injection Hst as Hp Hst. cbn [balanced_loop].
  rewrite (getBalanceFactor_repr hp t a) by done.
  destruct t as [|a' l k v h r]; [done|]. injection Hp as <-.
  destruct Ht as (Ha & Hl & Hr). rewrite Ha. cbn [mbind option_bind bf n_l n_r forallb balancedb].
  destruct (Z.ltb_spec 1 (Z.abs (ht l - ht r))) as [Hub|Hub].
  { by rewrite (proj2 (Z.leb_gt _ 1)) by lia. }
  rewrite (proj2 (Z.leb_le _ 1)) by lia. cbn [andb].
  set (ts1 := if ptr l then l :: ts else ts). set (ts2 := if ptr r then r :: ts1 else ts1).
  assert (balancedb l && balancedb r && forallb balancedb ts = forallb balancedb ts2) as ->.
  { assert (∀ t, ptr t = None → balancedb t = true) as Hlf by by intros [].
    pose proof (Hlf l). pose proof (Hlf r). unfold ts2, ts1.
    destruct (ptr l), (ptr r); cbn [forallb];
      destruct (balancedb l), (balancedb r), (forallb balancedb ts); naive_solver. }
  apply IH; unfold ts2, ts1.
  - destruct (ptr l), (ptr r); by repeat constructor.
  - destruct l, r; cbn [ptr]; by repeat constructor.
  - destruct l, r; cbn [ptr]; csimpl; by rewrite Hst.
  - unfold nodes in *. cbn [fmap list_fmap sum_list compose locs] in Hf.
    rewrite length_cons, length_app in Hf. destruct l, r; cbn in Hf |- *; lia.
Qed.

Lemma isBalanced_repr tr t : represents tr t → isBalanced tr = Some (balancedb t).
Proof.
  intros (Hroot & Hrep & Hnd & _). unfold isBalanced. rewrite Hroot.
  destruct (ptr t) as [a|] eqn:Hp; [|by destruct t].
  rewrite (balanced_loop_repr _ _ [a] [t]).
  - simpl. by rewrite andb_true_r.
  - by repeat constructor.
  - constructor; [by destruct t|constructor].
  - csimpl. by rewrite Hp.
  - unfold nodes. simpl. rewrite Nat.add_0_r.
    pose proof (locs_size _ _ Hrep Hnd). lia.
Qed.
End facts.

Section claims.
Context {K D : Type} `{JSOrdLaws K, EqDecision D}.

Lemma avl_inv_new (e : K) (t : list D) : avl_inv (new_avl e t) [(e, set_of t)].
Proof.
  exists (Nd 1 Lf e (set_of t) 1 Lf). split_and!.
  - split_and!; [done|done|apply NoDup_singleton|].
    intros a Ha. apply lookup_singleton_ne. cbn in Ha. lia.
  - done.
  - done.
  - repeat constructor.
  - constructor; [apply NoDup_set_of|constructor].
Qed.

Lemma put_NoDup key d (m : list (K * list D)) :
  Forall (λ x, NoDup x.2) m → Forall (λ x, NoDup x.2) (put key d m).
Proof.
  induction 1 as [|[k v] m Hv Hm IH]; simpl.
  - constructor; [apply NoDup_singleton|constructor].
  - repeat case_match; rewrite !Forall_cons; simpl in *;
      auto using NoDup_singleton, NoDup_set_add.
Qed.

Lemma avl_find_spec (tr : avl K D) m key :
  avl_inv tr m → avl_find tr key = Some (docs_at key m).
Proof.
  intros Hinv%(findNodeByKey_spec _ _ key). unfold avl_find.
  destruct (docs_at key m) as [v|].
  - destruct Hinv as (a & n & -> & Hn & <- & _). cbn. by rewrite Hn.
  - by rewrite Hinv.
Qed.

Lemma avl_insert_inv (tr : avl K D) m key d n :
  avl_inv tr m → ∃ tr', avl_insert tr key d n = Some tr' ∧ avl_inv tr' (put key d m).
Proof.
  intros (t & Hr & Hh & <- & Hs & Hnd).
  destruct (avl_insert_refines tr t key d n) as (tr' & -> & Hr' & _);
    [done|by apply heights_pos|].
  exists tr'. split; [done|]. eexists. split_and!; [done|by apply heights_finsert|..].
  - by apply entries_finsert.
  - by apply sorted_put.
  - by apply put_NoDup.
Qed.

(** C5. Inserting document [d] under [key] into a search tree always
    succeeds, keeps it a search tree, files [d] under [key] (next to the
    documents that were there) and changes no other key: the pointer code
    implements a map from keys to document sets, whatever the rebalancing
    threshold [n]. *)
Theorem avl_insert_find (tr : avl K D) m key d n :
  avl_inv tr m →
  ∃ tr', avl_insert tr key d n = Some tr' ∧ avl_inv tr' (put key d m) ∧
    ∀ key', avl_find tr' key' =
      Some (if eqb key key'
            then Some (match docs_at key m with Some v => set_add d v | None => [d] end)
            else docs_at key' m).
Proof.
  intros Hinv. destruct (avl_insert_inv tr m key d n Hinv) as (tr' & ? & Hinv').
  exists tr'. split_and!; [done..|]. intros key'. rewrite (avl_find_spec _ _ _ Hinv').
  rewrite docs_at_put; [done|]. by destruct Hinv as (? & _ & _ & _ & ? & _).
Qed.

(** C8. The range queries return exactly the documents filed under a key in
    the range: [rangeSearch(e, t)] those with [e <= k <= t], [greaterThan]
    and [lessThan] those beyond the bound, with the bound itself when the
    flag is set. The stack-based walks with their early exits always end. *)
Theorem avl_range_queries (tr : avl K D) m (e t : K) (b : bool) :
  avl_inv tr m →
  (∃ s, rangeSearch tr e t = Some s ∧
    ∀ d, d ∈ s ↔ ∃ k v, (k, v) ∈ m ∧ leb e k && leb k t = true ∧ d ∈ v) ∧
  (∃ s, greaterThan tr e b = Some s ∧
    ∀ d, d ∈ s ↔ ∃ k v, (k, v) ∈ m ∧ (if b then leb e k else ltb e k) = true ∧ d ∈ v) ∧
  (∃ s, lessThan tr e b = Some s ∧
    ∀ d, d ∈ s ↔ ∃ k v, (k, v) ∈ m ∧ (if b then leb k e else ltb k e) = true ∧ d ∈ v).
Proof.
  intros (tt & Hr & _ & <- & Hs & _). pose proof (represents_good _ _ Hr) as Hg.
  pose proof (entries_size _ _ Hg) as Hsz. destruct (Hr) as (Hroot & _).
  unfold rangeSearch, greaterThan, lessThan. rewrite Hroot. split_and!.
  - rewrite (range_loop_walk _ _ _ _ _ _ (entries tt)); [|by apply walk_up_start|done|lia].
    eexists. split; [done|]. intros d. rewrite elem_of_collect. set_solver.
  - rewrite (greater_loop_walk _ _ _ _ _ _ (rev (entries tt)));
      [|by apply walk_down_start|by apply sorted_rev|rewrite length_rev; lia].
    eexists. split; [done|]. intros d. rewrite elem_of_collect.
    setoid_rewrite list_elem_of_In at 2. setoid_rewrite <-in_rev.
    setoid_rewrite <-list_elem_of_In. set_solver.
  - rewrite (less_loop_walk _ _ _ _ _ _ (entries tt)); [|by apply walk_up_start|done|lia].
    eexists. split; [done|]. intros d. rewrite elem_of_collect. set_solver.
Qed.

Lemma getSize_spec (tr : avl K D) m :
  avl_inv tr m → getSize tr = Some (Z.of_nat (length m)).
Proof.
  intros (t & Hr & _ & <- & _). pose proof (represents_good _ _ Hr) as Hg.
  unfold getSize. destruct Hr as (-> & _).
  rewrite (size_loop_walk _ _ _ _ (entries t)); [done|by apply walk_up_start|].
  pose proof (entries_size _ _ Hg). lia.
Qed.

(** ** Runs of insertions *)
Fixpoint insert_all (tr : avl K D) (l : list (K * D)) (n : Z) : option (avl K D) :=
  match l with
  | [] => Some tr
  | (k, d) :: l => tr ← avl_insert tr k d n; insert_all tr l n
  end.
Definition put_all (l : list (K * D)) (m : list (K * list D)) : list (K * list D) :=
  foldl (λ m x, put x.1 x.2 m) m l.

Definition avl_bal (tr : avl K D) (m : list (K * list D)) : Prop :=
  avl_inv tr m ∧ isBalanced tr = Some true.

Lemma avl_insert_bal tr m key d :
  avl_bal tr m → ∃ tr', avl_insert tr key d 1 = Some tr' ∧ avl_bal tr' (put key d m).
Proof.
  intros [(t & Hr & Hh & <- & Hs & Hnd) Hb].
  rewrite (isBalanced_repr tr t) in Hb by done. injection Hb as Hb%balancedb_spec.
  destruct (avl_insert_refines tr t key d 1) as (tr' & -> & Hr' & _);
    [done|by apply heights_pos|].
  assert (rebalance_due (insertCount tr) 1 = true) as Hdue.
  { unfold rebalance_due. by rewrite Z.rem_1_r. }
  rewrite Hdue in Hr'. exists tr'. split; [done|]. split.
  - eexists. split_and!; [done|by apply heights_finsert|by apply entries_finsert|
      by apply sorted_put|by apply put_NoDup].
  - rewrite (isBalanced_repr _ _ Hr'). f_equal. apply balancedb_spec, finsert_balanced; done.
Qed.

(** C10. A numeric index built with threshold 1 (what the index passes where
    its caller gives none) stays balanced: from a fresh tree, any sequence of
    insertions succeeds, [isBalanced()] is true of the result and [getSize()]
    counts its distinct keys. *)
Theorem avl_run_balanced (e : K) (t : list D) (l : list (K * D)) :
  ∃ tr, insert_all (new_avl e t) l 1 = Some tr ∧ isBalanced tr = Some true ∧
    getSize tr = Some (Z.of_nat (length (put_all l [(e, set_of t)]))).
Proof.
  assert (avl_bal (new_avl e t) [(e, set_of t)]) as Hb by (split; [apply avl_inv_new|done]).
  revert Hb. generalize (new_avl e t), [(e, set_of t)].
  induction l as [|[k d] l IH]; intros tr m Hb; simpl.
  - exists tr. destruct Hb. split_and!; [done..|by apply getSize_spec].
  - destruct (avl_insert_bal tr m k d Hb) as (tr' & -> & Hb'). by apply IH.
Qed.
End claims.

(** A NaN property value compares neither below nor above any key, so the
    insertion walk stops at the root and files the document under the root's
    key: with the tree the index creates ([new ce(0, [])]), a document whose
    value is NaN is found by a lookup of 0. *)
Theorem avl_insert_nan (d : N) (n : Z) :
  ∃ tr, avl_insert (new_avl (num_of_Z 0) []) S754_nan d n = Some tr ∧
    avl_find tr (num_of_Z 0) = Some (Some [d]).
Proof. eexists. split; reflexivity. Qed.

(** ** Witnesses *)
Definition sample : avl Z N := default (new_avl 0 []) (insert_all (new_avl 0 []) [(5, 1%N); (3, 2%N); (8, 3%N)] 1).

Lemma sample_inv : avl_inv sample [(0, []); (3, [2%N]); (5, [1%N]); (8, [3%N])].
Proof.
  pose proof (avl_inv_new 0 ([] : list N)) as H0.
  destruct (avl_insert_inv _ _ 5 1%N 1 H0) as (t1 & E1 & H1).
  destruct (avl_insert_inv _ _ 3 2%N 1 H1) as (t2 & E2 & H2).
  destruct (avl_insert_inv _ _ 8 3%N 1 H2) as (t3 & E3 & H3).
  unfold sample. cbn [insert_all fst snd]. rewrite E1; cbn. rewrite E2; cbn. rewrite E3; cbn.
  exact H3.
Qed.

Lemma avl_insert_find_witness :
  ∃ tr, avl_insert sample 3 7%N 1 = Some tr ∧ avl_find tr 3 = Some (Some [2; 7]%N).
Proof.
  destruct (avl_insert_find sample _ 3 7%N 1 sample_inv) as (tr & H1 & _ & H2).
  exists tr. split; [exact H1|]. rewrite H2. reflexivity.
Defined.

Lemma avl_range_queries_witness : ∃ s, rangeSearch sample 3 5 = Some s ∧ 2%N ∈ s.
Proof.
  destruct (avl_range_queries sample _ 3 5 true sample_inv) as ((s & Hs & Hd) & _).
  exists s. split; [exact Hs|]. apply Hd. exists 3, [2%N].
  split_and!; [by right; left|done|by left].
Defined.

Lemma avl_run_balanced_witness :
  ∃ tr, insert_all (new_avl 0 []) [(1, 1%N); (2, 2%N); (3, 3%N)] 1 = Some tr ∧
    isBalanced tr = Some true.
Proof.
  destruct (avl_run_balanced 0 ([] : list N) [(1, 1%N); (2, 2%N); (3, 3%N)]) as (tr & ? & ? & _).
  exists tr. done.
Defined.
