(* ===== verification/AVLRemove.v ===== *)
(** * Removal from the AVL tree

    The walk back of [removeNode] starts at the node it has just taken out
    (or at the parent of its successor), and at the root its result replaces
    the root. Removal is correct for the keys described by [removable]; at a
    root with at most one child the removed node is put back, and when the
    successor is not the right child itself the tree above it is dropped. *)

From S2P Require Import Prelude JSColl JSNum Utils AVL AVLTree AVLInsert AVLSpec AVLQuery AVLTheorems.
Local Open Scope Z_scope.

Section remove.
Context {K D : Type} `{JSOrdLaws K, EqDecision D}.
Implicit Types (t l r : tree K D) (hp : gmap loc (node K D)) (m : list (K * list D)).

(** The node holds the key and has at most one child, or its successor is its
    right child. *)
Definition easy_node (l r : tree K D) : bool :=
  match l, r with
  | Nd _ _ _ _ _ _, Nd _ (Nd _ _ _ _ _ _) _ _ _ _ => false
  | _, _ => true
  end.

(** Removing the node that is the root of [Nd a l k v h r], below some parent. *)
Definition fcut (a : loc) (l : tree K D) (k : K) (v : list D) (h : Z) (r : tree K D) : tree K D :=
  match l, r with
  | Lf, r => r
  | l, Lf => l
  | l, Nd _ _ k' v' _ rr => settle true (Nd a l k' v' h rr)
  end.

Fixpoint fdel (key : K) (t : tree K D) : tree K D :=
  match t with
  | Lf => Lf
  | Nd a l k v h r =>
      if eqb k key then fcut a l k v h r
      else if ltb key k then settle true (Nd a (fdel key l) k v h r)
      else settle true (Nd a l k v h (fdel key r))
  end.

Fixpoint removable_below (key : K) (t : tree K D) : bool :=
  match t with
  | Lf => false
  | Nd _ l k _ _ r =>
      if eqb k key then easy_node l r
      else if ltb key k then removable_below key l else removable_below key r
  end.

Definition removable (key : K) (t : tree K D) : bool :=
  match t with
  | Lf => false
  | Nd _ l k _ _ r =>
      if eqb k key then
        match l, r with Nd _ _ _ _ _ _, Nd _ Lf _ _ _ _ => true | _, _ => false end
      else if ltb key k then removable_below key l else removable_below key r
  end.

(** ** The walk back *)
Lemma remove_unwind_step hp hp' e e' a s n :
  unwind true hp e' [(Some s, a)] = Some (hp', e') →
  remove_unwind hp e (a :: s :: n) = remove_unwind hp' e (s :: n).
Proof.
  cbn [unwind]. intros Hun. change (remove_unwind hp e (a :: s :: n)) with
    (hp ← updateHeight hp a; '(hp, o) ← rebalanceNode hp a;
     hp ← relink hp s a o; remove_unwind hp e (s :: n)).
  destruct (updateHeight hp a) as [hp1|]; cbn in *; [|done].
  destruct (rebalanceNode hp1 a) as [[hp2 o]|]; cbn in *; [|done].
  destruct (relink hp2 s a o) as [hp3|]; cbn in *; by simplify_eq.
Qed.

Lemma remove_unwind_left hp e s a l k v h r n :
  repr hp (Nd s l k v h r) → NoDup (locs (Nd s l k v h r)) → pos_heights l → ptr l = Some a →
  ∃ hp', remove_unwind hp e (a :: s :: n) = remove_unwind hp' e (s :: n) ∧
    repr hp' (Nd s (settle true l) k v h r) ∧
    (∀ x, x ∉ locs (Nd s l k v h r) → hp' !! x = hp !! x).
Proof.
  intros. destruct (unwind_left true hp a [] s a l k v h r) as (hp' & Hun & ? & ?); [done..|].
  exists hp'. split_and!; [|done..]. by eapply remove_unwind_step.
Qed.

Lemma remove_unwind_right hp e s a l k v h r n :
  repr hp (Nd s l k v h r) → NoDup (locs (Nd s l k v h r)) → pos_heights r → ptr r = Some a →
  ∃ hp', remove_unwind hp e (a :: s :: n) = remove_unwind hp' e (s :: n) ∧
    repr hp' (Nd s l k v h (settle true r)) ∧
    (∀ x, x ∉ locs (Nd s l k v h r) → hp' !! x = hp !! x).
Proof.
  intros. destruct (unwind_right true hp a [] s a l k v h r) as (hp' & Hun & ? & ?); [done..|].
  exists hp'. split_and!; [|done..]. by eapply remove_unwind_step.
Qed.

Lemma remove_unwind_top hp e t s :
  repr hp t → NoDup (locs t) → pos_heights t → ptr t = Some s →
  ∃ hp', remove_unwind hp e [s] = Some (hp', ptr (settle true t)) ∧
    repr hp' (settle true t) ∧ (∀ x, x ∉ locs t → hp' !! x = hp !! x).
Proof.
  intros. destruct (settle_repr true hp t s) as (hp1 & Hu & hp2 & c & Hr & Hc & ? & ?); [done..|].
  exists hp2. split_and!; [|done..].
  change (remove_unwind hp e [s]) with
    (hp ← updateHeight hp s; '(hp, o) ← rebalanceNode hp s; Some (hp, Some o)).
  rewrite Hu; cbn [mbind option_bind]. rewrite Hr; cbn [mbind option_bind]. by rewrite Hc.
Qed.

(** A balanced node is not rotated: the detached node only gets its height
    set, and its former parent is not relinked. *)
Lemma rebal_balanced_id t : balanced t → rebal t = t.
Proof.
  destruct t as [|a l k v h r]; [done|]. intros (Hd & _). unfold rebal. cbn [bf].
  rewrite (proj2 (Z.ltb_ge 1 _)), (proj2 (Z.ltb_ge _ (-1))) by lia. done.
Qed.

Lemma rebalanceNode_balanced hp t a :
  repr hp t → balanced t → ptr t = Some a → rebalanceNode hp a = Some (hp, a).
Proof.
  destruct t as [|a' l k v h r]; [done|]. intros Hrep (Hd & _) [= ->].
  pose proof (getBalanceFactor_repr _ _ _ Hrep eq_refl) as Hbf. cbn [bf] in Hbf.
  destruct Hrep as (Ha & _). unfold rebalanceNode. rewrite Hbf, Ha. cbn [mbind option_bind].
  by rewrite (proj2 (Z.ltb_ge 1 _)), (proj2 (Z.ltb_ge _ (-1))) by lia.
Qed.

Lemma detached_step hp e x t s n sn :
  repr hp t → NoDup (locs t) → balanced t → ptr t = Some x →
  hp !! s = Some sn → s ≠ x → n_l sn ≠ Some x → n_r sn ≠ Some x →
  ∃ hp', remove_unwind hp e (x :: s :: n) = remove_unwind hp' e (s :: n) ∧
    (∀ y, y ≠ x → hp' !! y = hp !! y).
Proof.
  intros Hrep Hnd Hb Hx Hs Hne Hl Hr.
  destruct (updateHeight_repr hp t x) as (hp1 & Hu & Hrep1 & Hfr); [done..|].
  exists hp1. split; [|done].
  apply (remove_unwind_step hp hp1 e x). cbn [unwind]. rewrite Hu; cbn [mbind option_bind].
  rewrite (rebalanceNode_balanced hp1 (fix_height t) x);
    [|done|by destruct t as [|? ? ? ? ? ?]|by rewrite ptr_fix_height].
  cbn [mbind option_bind]. unfold relink. rewrite Hfr, Hs by done. cbn [mbind option_bind].
  by rewrite !decide_False by done.
Qed.

(** ** Taking the node out *)
Lemma ptr_locs t a : ptr t = Some a → a ∈ locs t.
Proof. destruct t; [done|]. intros [= ->]. simpl. set_solver. Qed.

Lemma ptr_not_locs t a : a ∉ locs t → ptr t ≠ Some a.
Proof. intros Ha ?%ptr_locs. done. Qed.

(** Two children, the right one without a left child: the node takes the
    successor's key and documents. *)
Lemma unlink_successor hp e n x l k v h y k' v' h' rr :
  let t := Nd x l k v h (Nd y Lf k' v' h' rr) in
  l ≠ Lf → repr hp t → NoDup (locs t) →
  ∃ hp1, unlink hp e n x = Some (hp1, e, x :: n) ∧ repr hp1 (Nd x l k' v' h rr) ∧
    NoDup (locs (Nd x l k' v' h rr)) ∧ (∀ c, c ∉ locs t → hp1 !! c = hp !! c).
Proof.
  simpl. intros Hl (Hx & Hrl & Hy & _ & Hrr) Hnd.
  apply NoDup_cons in Hnd as [Hnx (Hndl & Hdisj & Hndr)%NoDup_app].
  apply NoDup_cons in Hndr as [Hny Hndr].
  assert (x ≠ y) by set_solver.
  unfold unlink. rewrite Hx; cbn. destruct (ptr l) as [pl|] eqn:Hpl; [|by destruct l].
  rewrite Hy; cbn. rewrite Hy; cbn. rewrite (write_lookup _ _ _ _ Hx); cbn.
  unfold replace_child. rewrite lookup_insert_eq; cbn.
  rewrite decide_False by (rewrite <-Hpl; apply ptr_not_locs; set_solver).
  rewrite (write_lookup _ x _ _ (lookup_insert_eq _ _ _)); cbn.
  eexists. split; [done|]. rewrite insert_insert_eq, <-Hpl. split_and!.
  - by rewrite lookup_insert_eq.
  - apply repr_insert_ne; [set_solver|done].
  - apply repr_insert_ne; [set_solver|done].
  - apply NoDup_cons. split; [set_solver|]. apply NoDup_app. set_solver.
  - intros c Hc. apply lookup_insert_ne. set_solver.
Qed.

(** At most one child [c]: the parent is linked to it, and the walk back
    leaves the detached node alone. *)
Lemma unlink_left hp e n s x ll lk lv lh lr k v h r c :
  let l := Nd x ll lk lv lh lr in
  let t := Nd s l k v h r in
  (ll = Lf ∧ c = lr ∨ lr = Lf ∧ c = ll) →
  repr hp t → NoDup (locs t) → balanced l →
  ∃ hp1 hp2, unlink hp e (s :: n) x = Some (hp1, e, x :: s :: n) ∧
    remove_unwind hp1 e (x :: s :: n) = remove_unwind hp2 e (s :: n) ∧
    repr hp2 (Nd s c k v h r) ∧ (∀ y, y ∉ locs t → hp2 !! y = hp !! y).
Proof.
  intros l t Hc Hrep Hnd Hb.
  assert (hp !! s = Some (Node k v (Some x) (ptr r) h)) as Hs by apply Hrep.
  assert (repr hp l) as Hl by apply Hrep.
  assert (hp !! x = Some (Node lk lv (ptr ll) (ptr lr) lh)) as Hx by apply Hl.
  assert (locs l ≡ₚ x :: locs c ∧ repr hp c) as [Hlocs Hrc].
  { destruct Hl as (_ & ? & ?). destruct Hc as [[-> ->]|[-> ->]]; simpl; [done|].
    by rewrite (right_id_L [] (++)). }
  pose proof Hnd as Hnd'. unfold t in Hnd'. cbn [locs] in Hnd'. rewrite Hlocs in Hnd'.
  apply NoDup_cons in Hnd' as [Hns (Hndl & Hdisj & Hndr)%NoDup_app].
  pose proof Hndl as Hndl'. rewrite <-Hlocs in Hndl'. apply NoDup_cons in Hndl as [Hnx Hndc].
  destruct (write_left_repr hp hp s l k v h r c Hrep Hnd Hrc Hndc)
    as (Hw & Hrep1 & Hnd1 & Hfr1); [intros y; rewrite Hlocs; set_solver|done|].
  set (hp1 := <[s := Node k v (ptr c) (ptr r) h]> hp) in *.
  destruct (detached_step hp1 e x l s n (Node k v (ptr c) (ptr r) h)) as (hp2 & Hun & Hfr2).
  { apply repr_insert_ne; [rewrite Hlocs; set_solver|done]. }
  { done. } { done. } { done. } { apply lookup_insert_eq. } { set_solver. }
  { by apply ptr_not_locs. } { apply ptr_not_locs. set_solver. }
  exists hp1, hp2. split_and!; [|done| |].
  - unfold unlink. rewrite Hx; cbn [mbind option_bind n_l n_r].
    assert ((match ptr ll with Some l => Some l | None => ptr lr end) = ptr c) as Hpc.
    { destruct Hc as [[-> ->]|[-> ->]]; [done|]. cbn. by destruct (ptr ll). }
    unfold replace_child in *. rewrite Hs; cbn [mbind option_bind n_l].
    rewrite decide_True, Hpc, Hw by done. cbn [mbind option_bind].
    destruct Hc as [[-> _]|[-> _]]; cbn; [done|]. by destruct (ptr ll).
  - eapply repr_frame; [|exact Hrep1]. intros y Hy. apply Hfr2. cbn [locs] in Hy. set_solver.
  - intros y Hy. unfold t in Hy. cbn [locs] in Hy. rewrite Hlocs in Hy.
    rewrite Hfr2 by set_solver. apply lookup_insert_ne. set_solver.
Qed.

Lemma unlink_right hp e n s x rl rk rv rh rr l k v h c :
  let r := Nd x rl rk rv rh rr in
  let t := Nd s l k v h r in
  (rl = Lf ∧ c = rr ∨ rr = Lf ∧ c = rl) →
  repr hp t → NoDup (locs t) → balanced r →
  ∃ hp1 hp2, unlink hp e (s :: n) x = Some (hp1, e, x :: s :: n) ∧
    remove_unwind hp1 e (x :: s :: n) = remove_unwind hp2 e (s :: n) ∧
    repr hp2 (Nd s l k v h c) ∧ (∀ y, y ∉ locs t → hp2 !! y = hp !! y).
Proof.
  intros r t Hc Hrep Hnd Hb.
  assert (hp !! s = Some (Node k v (ptr l) (Some x) h)) as Hs by apply Hrep.
  assert (repr hp r) as Hr by apply Hrep.
  assert (hp !! x = Some (Node rk rv (ptr rl) (ptr rr) rh)) as Hx by apply Hr.
  assert (locs r ≡ₚ x :: locs c ∧ repr hp c) as [Hlocs Hrc].
  { destruct Hr as (_ & ? & ?). destruct Hc as [[-> ->]|[-> ->]]; simpl; [done|].
    by rewrite (right_id_L [] (++)). }
  pose proof Hnd as Hnd'. unfold t in Hnd'. cbn [locs] in Hnd'. rewrite Hlocs in Hnd'.
  apply NoDup_cons in Hnd' as [Hns (Hndl & Hdisj & Hndr)%NoDup_app].
  pose proof Hndr as Hndr'. rewrite <-Hlocs in Hndr'. apply NoDup_cons in Hndr as [Hnx Hndc].
  destruct (write_right_repr hp hp s l k v h r c Hrep Hnd Hrc Hndc)
    as (Hw & Hrep1 & Hnd1 & Hfr1); [intros y; rewrite Hlocs; set_solver|done|].
  set (hp1 := <[s := Node k v (ptr l) (ptr c) h]> hp) in *.
  assert (ptr l ≠ Some x) as Hlx by (apply ptr_not_locs; set_solver).
  destruct (detached_step hp1 e x r s n (Node k v (ptr l) (ptr c) h)) as (hp2 & Hun & Hfr2).
  { apply repr_insert_ne; [rewrite Hlocs; set_solver|done]. }
  { done. } { done. } { done. } { apply lookup_insert_eq. } { set_solver. } { done. }
  { by apply ptr_not_locs. }
  exists hp1, hp2. split_and!; [|done| |].
  - unfold unlink. rewrite Hx; cbn [mbind option_bind n_l n_r].
    assert ((match ptr rl with Some l => Some l | None => ptr rr end) = ptr c) as Hpc.
    { destruct Hc as [[-> ->]|[-> ->]]; [done|]. cbn. by destruct (ptr rl). }
    unfold replace_child in *. rewrite Hs; cbn [mbind option_bind n_l].
    rewrite decide_False, Hpc, Hw by done. cbn [mbind option_bind].
    destruct Hc as [[-> _]|[-> _]]; cbn; [done|]. by destruct (ptr rl).
  - eapply repr_frame; [|exact Hrep1]. intros y Hy. apply Hfr2. cbn [locs] in Hy. set_solver.
  - intros y Hy. unfold t in Hy. cbn [locs] in Hy. rewrite Hlocs in Hy.
    rewrite Hfr2 by set_solver. apply lookup_insert_ne. set_solver.
Qed.

Lemma NoDup_Nd a l k v h r :
  NoDup (locs (Nd a l k v h r)) ↔
  a ∉ locs l ∧ a ∉ locs r ∧ NoDup (locs l) ∧ NoDup (locs r) ∧
  (∀ x, x ∈ locs l → x ∉ locs r).
Proof. cbn [locs]. rewrite NoDup_cons, NoDup_app, elem_of_app. tauto. Qed.

Lemma not_elem_Nd x a l k v h r :
  x ∉ locs (Nd a l k v h r) ↔ x ≠ a ∧ x ∉ locs l ∧ x ∉ locs r.
Proof. cbn [locs]. rewrite elem_of_cons, elem_of_app. tauto. Qed.

(** Both cases together: the child [l] (or [r]) of [s] is taken out. *)
Lemma cut_left hp e n s x ll lk lv lh lr k v h r :
  let l := Nd x ll lk lv lh lr in
  let t := Nd s l k v h r in
  easy_node ll lr = true → repr hp t → NoDup (locs t) → balanced l → pos_heights l →
  ∃ hp1 hp2, unlink hp e (s :: n) x = Some (hp1, e, x :: s :: n) ∧
    remove_unwind hp1 e (x :: s :: n) = remove_unwind hp2 e (s :: n) ∧
    repr hp2 (Nd s (fcut x ll lk lv lh lr) k v h r) ∧
    (∀ y, y ∉ locs t → hp2 !! y = hp !! y).
Proof.
  intros l t He Hrep Hnd Hb Hp.
  destruct ll as [|a1 l1 k1 v1 h1 r1]; [by apply unlink_left; auto|].
  destruct lr as [|y rl k' v' h' rr]; [by apply unlink_left; auto|].
  destruct rl; [|done]. set (ll := Nd a1 l1 k1 v1 h1 r1) in *.
  apply NoDup_Nd in Hnd as (Hsl & Hsr & Hndl & Hndr & Hdisj).
  assert (repr hp l) as Hl by apply Hrep.
  destruct (unlink_successor hp e (s :: n) x ll lk lv lh y k' v' h' rr)
    as (hp1 & Hun & Hrep1 & Hnd1 & Hfr1); [done..|]. fold l in Hfr1.
  assert (∀ z, z ∈ locs (Nd x ll k' v' lh rr) → z ∈ locs l) as Hsub
    by (clear; unfold l; cbn [locs]; set_solver).
  destruct (remove_unwind_left hp1 e s x (Nd x ll k' v' lh rr) k v h r n)
    as (hp2 & Hun2 & Hrep2 & Hfr2).
  - destruct Hrep as (Hs & _ & Hr). split; [by rewrite Hfr1|split; [exact Hrep1|]].
    eapply repr_frame; [|done]. intros z Hz. apply Hfr1. intros Hz'. by apply (Hdisj z).
  - apply NoDup_Nd. split_and!; auto.
  - destruct Hp as (? & ? & ? & _ & ?). done.
  - done.
  - exists hp1, hp2. split_and!; [done..|exact Hrep2|].
    intros z (? & ? & ?)%not_elem_Nd. rewrite Hfr2, Hfr1; [done..|].
    apply not_elem_Nd. by split_and!; auto.
Qed.

Lemma cut_right hp e n s x rl rk rv rh rr l k v h :
  let r := Nd x rl rk rv rh rr in
  let t := Nd s l k v h r in
  easy_node rl rr = true → repr hp t → NoDup (locs t) → balanced r → pos_heights r →
  ∃ hp1 hp2, unlink hp e (s :: n) x = Some (hp1, e, x :: s :: n) ∧
    remove_unwind hp1 e (x :: s :: n) = remove_unwind hp2 e (s :: n) ∧
    repr hp2 (Nd s l k v h (fcut x rl rk rv rh rr)) ∧
    (∀ y, y ∉ locs t → hp2 !! y = hp !! y).
Proof.
  intros r t He Hrep Hnd Hb Hp.
  destruct rl as [|a1 l1 k1 v1 h1 r1]; [by apply unlink_right; auto|].
  destruct rr as [|y rl' k' v' h' rr']; [by apply unlink_right; auto|].
  destruct rl'; [|done]. set (rl := Nd a1 l1 k1 v1 h1 r1) in *.
  apply NoDup_Nd in Hnd as (Hsl & Hsr & Hndl & Hndr & Hdisj).
  assert (repr hp r) as Hr by apply Hrep.
  destruct (unlink_successor hp e (s :: n) x rl rk rv rh y k' v' h' rr')
    as (hp1 & Hun & Hrep1 & Hnd1 & Hfr1); [done..|]. fold r in Hfr1.
  assert (∀ z, z ∈ locs (Nd x rl k' v' rh rr') → z ∈ locs r) as Hsub
    by (clear; unfold r; cbn [locs]; set_solver).
  destruct (remove_unwind_right hp1 e s x l k v h (Nd x rl k' v' rh rr') n)
    as (hp2 & Hun2 & Hrep2 & Hfr2).
  - destruct Hrep as (Hs & Hl & _). split; [by rewrite Hfr1|split; [|exact Hrep1]].
    eapply repr_frame; [|done]. intros z Hz. apply Hfr1. by apply Hdisj.
  - apply NoDup_Nd. split_and!; auto. intros z Hz Hz'. by apply (Hdisj z), Hsub.
  - destruct Hp as (? & ? & ? & _ & ?). done.
  - done.
  - exists hp1, hp2. split_and!; [done..|exact Hrep2|].
    intros z (? & ? & ?)%not_elem_Nd. rewrite Hfr2, Hfr1; [done..|].
    apply not_elem_Nd. by split_and!; auto.
Qed.

(** ** The descent *)
Definition del_below (key : K) (t : tree K D) : tree K D :=
  match t with
  | Lf => Lf
  | Nd a l k v h r =>
      if ltb key k then Nd a (fdel key l) k v h r else Nd a l k v h (fdel key r)
  end.

Lemma locs_fdel key t a : removable_below key t = true → a ∈ locs (fdel key t) → a ∈ locs t.
Proof.
  induction t as [|b l IHl k v h r IHr]; [done|]. cbn [removable_below fdel].
  destruct (eqb k key); [|destruct (ltb key k)].
  - intros _. unfold fcut. destruct l as [|? ? ? ? ? ?]; [cbn; set_solver|].
    destruct r as [|? rl ? ? ? rr]; [cbn; set_solver|].
    rewrite locs_settle. cbn [locs]. set_solver.
  - intros ?. rewrite locs_settle. cbn [locs]. set_solver.
  - intros ?. rewrite locs_settle. cbn [locs]. set_solver.
Qed.

Lemma NoDup_fdel key t :
  removable_below key t = true → NoDup (locs t) → NoDup (locs (fdel key t)).
Proof.
  induction t as [|b l IHl k v h r IHr]; [done|]. cbn [removable_below fdel locs].
  intros He [Hb (Hl & Hd & Hr)%NoDup_app]%NoDup_cons.
  destruct (eqb k key); [|destruct (ltb key k)].
  - unfold fcut. destruct l as [|? ? ? ? ? ?]; [done|].
    destruct r as [|? rl ? ? ? rr]; [done|]. destruct rl; [|done].
    rewrite locs_settle. cbn [locs] in *. apply NoDup_cons in Hr as [? ?].
    apply NoDup_cons. split; [set_solver|]. apply NoDup_app. set_solver.
  - rewrite locs_settle. cbn [locs]. apply NoDup_cons. pose proof (locs_fdel key l).
    split; [set_solver|]. apply NoDup_app. split_and!; [by apply IHl|set_solver|done].
  - rewrite locs_settle. cbn [locs]. apply NoDup_cons. pose proof (locs_fdel key r).
    split; [set_solver|]. apply NoDup_app. split_and!; [done|set_solver|by apply IHr].
Qed.

Lemma pos_fdel key t : pos_heights t → pos_heights (fdel key t).
Proof.
  induction t as [|b l IHl k v h r IHr]; [done|]. intros (? & ? & ?). cbn [fdel].
  destruct (eqb k key); [|destruct (ltb key k)].
  - unfold fcut. destruct l as [|? ? ? ? ? ?]; [done|].
    destruct r as [|? rl ? ? ? rr]; [done|]. apply pos_settle.
    cbn [pos_heights] in *. naive_solver.
  - apply pos_settle. cbn [pos_heights]. auto.
  - apply pos_settle. cbn [pos_heights]. auto.
Qed.

Definition key_here (key : K) (t : tree K D) : bool :=
  match t with Lf => false | Nd _ _ k _ _ _ => eqb k key end.

Lemma settle_del_below key t :
  t ≠ Lf → key_here key t = false → settle true (del_below key t) = fdel key t.
Proof.
  destruct t as [|a l k v h r]; [done|]. intros _ Hk. cbn [key_here] in Hk.
  cbn [del_below fdel]. rewrite Hk. by destruct (ltb key k).
Qed.

Lemma ptr_del_below key t : ptr (del_below key t) = ptr t.
Proof. destruct t as [|a l k v h r]; [done|]. cbn. by destruct (ltb key k). Qed.

Lemma pos_del_below key t : pos_heights t → pos_heights (del_below key t).
Proof.
  destruct t as [|a l k v h r]; [done|]. intros (? & ? & ?). cbn [del_below].
  destruct (ltb key k); cbn [pos_heights]; auto using pos_fdel.
Qed.

Lemma locs_del_below key t :
  key_here key t = false → removable_below key t = true →
  (NoDup (locs t) → NoDup (locs (del_below key t))) ∧
  (∀ a, a ∈ locs (del_below key t) → a ∈ locs t).
Proof.
  intros Hk Hrm. assert (t ≠ Lf) by by destruct t. rewrite <-(locs_settle true (del_below key t)).
  rewrite settle_del_below by done. split; [by apply NoDup_fdel|].
  intros a. rewrite <-(locs_settle true (del_below key t)), settle_del_below by done. by apply locs_fdel.
Qed.

Lemma remove_descent fuel hp e key t s n :
  repr hp t → NoDup (locs t) → balanced t → pos_heights t → ptr t = Some s →
  (depth t < fuel)%nat → key_here key t = false → removable_below key t = true →
  ∃ n' x hp1 q hp2, remove_path fuel hp key n (Some s) = Some (n', Some x) ∧
    unlink hp e n' x = Some (hp1, e, q ++ s :: n) ∧
    remove_unwind hp1 e (q ++ s :: n) = remove_unwind hp2 e (s :: n) ∧
    repr hp2 (del_below key t) ∧ (∀ y, y ∉ locs t → hp2 !! y = hp !! y).
Proof.
  revert fuel s n. induction t as [|a l IHl k v h r IHr]; intros fuel s n; [done|].
  intros Hrep Hnd (Hd & Hbl & Hbr) (Hh & Hpl & Hpr) [= <-] Hf Hk Hrm.
  destruct fuel as [|fuel]; [lia|]. cbn [key_here removable_below del_below depth] in *.
  rewrite Hk in Hrm. assert (hp !! a = Some (Node k v (ptr l) (ptr r) h)) as Ha by apply Hrep.
  assert (repr hp l ∧ repr hp r) as [Hl Hr] by (split; apply Hrep).
  pose proof Hnd as (Hal & Har & Hndl & Hndr & Hdisj)%NoDup_Nd.
  cbn [remove_path]. rewrite Ha; cbn [mbind option_bind n_k n_l n_r]. rewrite Hk.
  destruct (ltb key k) eqn:Hlt.
  - destruct (ptr l) as [x|] eqn:Hp; [|by destruct l].
    destruct (key_here key l) eqn:Hkl.
    + destruct l as [|x' ll lk lv lh lr]; [done|]. injection Hp as ->. cbn [key_here] in Hkl.
      cbn [removable_below fdel] in *. rewrite Hkl in *.
      destruct (cut_left hp e n a x ll lk lv lh lr k v h r) as (hp1 & hp2 & ? & ? & ? & ?);
        [done..|]. exists (a :: n), x, hp1, [x], hp2. split_and!; [|done..].
      destruct fuel as [|fuel]; [cbn [depth] in Hf; lia|]. cbn [remove_path].
      destruct Hl as (Hx & _). rewrite Hx; cbn [mbind option_bind n_k]. by rewrite Hkl.
    + destruct (IHl fuel x (a :: n)) as (n' & y & hp1 & q & hp2 & ? & ? & Hun & Hrep2 & Hfr2);
        [done..|lia|done|done|].
      destruct (locs_del_below key l Hkl Hrm) as [Hnd2 Hsub].
      destruct (remove_unwind_left hp2 e a x (del_below key l) k v h r n)
        as (hp3 & Hun3 & Hrep3 & Hfr3).
      * split; [by rewrite Hfr2, ptr_del_below, Hp|split; [exact Hrep2|]].
        eapply repr_frame; [|exact Hr]. intros z Hz. apply Hfr2. intros ?. by apply (Hdisj z).
      * apply NoDup_Nd. split_and!; auto.
      * by apply pos_del_below.
      * by rewrite ptr_del_below.
      * rewrite settle_del_below in Hrep3 by (done || by destruct l).
        exists n', y, hp1, (q ++ [x]), hp3. rewrite <-(assoc_L (++)). cbn [app].
        split_and!; [done|done|by rewrite Hun|exact Hrep3|].
        intros z (? & ? & ?)%not_elem_Nd. rewrite Hfr3, Hfr2; [done..|].
        apply not_elem_Nd. by split_and!; auto.
  - destruct (ptr r) as [x|] eqn:Hp; [|by destruct r].
    destruct (key_here key r) eqn:Hkr.
    + destruct r as [|x' rl rk rv rh rr]; [done|]. injection Hp as ->. cbn [key_here] in Hkr.
      cbn [removable_below fdel] in *. rewrite Hkr in *.
      destruct (cut_right hp e n a x rl rk rv rh rr l k v h) as (hp1 & hp2 & ? & ? & ? & ?);
        [done..|]. exists (a :: n), x, hp1, [x], hp2. split_and!; [|done..].
      destruct fuel as [|fuel]; [cbn [depth] in Hf; lia|]. cbn [remove_path].
      destruct Hr as (Hx & _). rewrite Hx; cbn [mbind option_bind n_k]. by rewrite Hkr.
    + destruct (IHr fuel x (a :: n)) as (n' & y & hp1 & q & hp2 & ? & ? & Hun & Hrep2 & Hfr2);
        [done..|lia|done|done|].
      destruct (locs_del_below key r Hkr Hrm) as [Hnd2 Hsub].
      destruct (remove_unwind_right hp2 e a x l k v h (del_below key r) n)
        as (hp3 & Hun3 & Hrep3 & Hfr3).
      * split; [by rewrite Hfr2, ptr_del_below, Hp|split; [|exact Hrep2]].
        eapply repr_frame; [|exact Hl]. intros z Hz. apply Hfr2. by apply Hdisj.
      * apply NoDup_Nd. split_and!; auto. intros z Hz Hz'. by apply (Hdisj z), Hsub.
      * by apply pos_del_below.
      * by rewrite ptr_del_below.
      * rewrite settle_del_below in Hrep3 by (done || by destruct r).
        exists n', y, hp1, (q ++ [x]), hp3. rewrite <-(assoc_L (++)). cbn [app].
        split_and!; [done|done|by rewrite Hun|exact Hrep3|].
        intros z (? & ? & ?)%not_elem_Nd. rewrite Hfr3, Hfr2; [done..|].
        apply not_elem_Nd. by split_and!; auto.
Qed.

Lemma avl_remove_refines tr t key :
  represents tr t → balanced t → pos_heights t → removable key t = true →
  ∃ tr', avl_remove tr key = Some tr' ∧ represents tr' (fdel key t).
Proof.
  intros Hrs Hb Hpos Hrm. destruct (Hrs) as (Hroot & Hrep & Hnd & Hfr).
  destruct (ptr t) as [s|] eqn:Hp; [|by destruct t].
  assert (∀ hp', (∀ y, y ∉ locs t → hp' !! y = cells tr !! y) →
    ∀ a, (next tr ≤ a)%positive → hp' !! a = None) as Hclean.
  { intros hp' Hf a Ha. rewrite Hf; [by apply Hfr|].
    intros ?%(represents_fresh _ _ _ Hrs). lia. }
  unfold avl_remove, removeNode. rewrite Hroot. destruct (key_here key t) eqn:Hk.
  - destruct t as [|a l k v h r]; [done|]. injection Hp as ->. cbn [key_here removable fdel] in *.
    rewrite Hk in *. destruct l as [|a1 l1 k1 v1 h1 r1]; [done|].
    destruct r as [|y rl k' v' h' rr]; [done|]. destruct rl; [|done].
    set (l := Nd a1 l1 k1 v1 h1 r1) in *.
    cbn [remove_path]. destruct (Hrep) as (Hs & _). rewrite Hs. cbn [mbind option_bind n_k].
    rewrite Hk. cbn [mbind option_bind].
    destruct (unlink_successor (cells tr) (Some s) [] s l k v h y k' v' h' rr)
      as (hp1 & -> & Hrep1 & Hnd1 & Hfr1); [done..|]. cbn [mbind option_bind].
    destruct (remove_unwind_top hp1 (Some s) (Nd s l k' v' h rr) s) as (hp2 & -> & Hrep2 & Hfr2);
      [done|done|by destruct Hpos as (? & ? & ? & _ & ?)|done|].
    cbn [mbind option_bind]. eexists. split; [done|]. split_and!; cbn [root cells next].
    + done.
    + exact Hrep2.
    + unfold fcut, l. fold l. by rewrite locs_settle.
    + apply Hclean. intros z Hz. rewrite Hfr2, Hfr1; [done..|].
      unfold l in *. cbn [locs] in *. set_solver.
  - assert (removable_below key t = true) as Hrb.
    { destruct t as [|a l k v h r]; [done|]. cbn [removable removable_below key_here] in *.
      by rewrite Hk in *. }
    destruct (remove_descent (S (size (cells tr))) (cells tr) (Some s) key t s [])
      as (n' & x & hp1 & q & hp2 & -> & Hul & Hun & Hrep2 & Hfr2); try done.
    { pose proof (depth_size _ _ Hrep Hnd). lia. }
    cbn [mbind option_bind]. rewrite Hul; cbn [mbind option_bind]. rewrite Hun.
    destruct (locs_del_below key t Hk Hrb) as [Hnd2 Hsub].
    destruct (remove_unwind_top hp2 (Some s) (del_below key t) s) as (hp3 & -> & Hrep3 & Hfr3);
      [done|auto|by apply pos_del_below|by rewrite ptr_del_below|].
    rewrite settle_del_below in * by (done || by destruct t).
    cbn [mbind option_bind]. eexists. split; [done|]. split_and!; cbn [root cells next].
    + done.
    + done.
    + by apply NoDup_fdel.
    + apply Hclean. intros z Hz. rewrite Hfr3, Hfr2; auto.
Qed.
End remove.
