(* ===== verification/AVLRemoval.v ===== *)
(** * Theorems about removal from the AVL tree *)

From S2P Require Import Prelude JSColl JSNum Utils AVL AVLTree AVLInsert AVLSpec AVLQuery AVLTheorems AVLRemove.
Local Open Scope Z_scope.

Section removal.
Context {K D : Type} `{JSOrdLaws K, EqDecision D}.
Implicit Types (t l r : tree K D) (m : list (K * list D)).

(** The entries without those of a key. *)
Definition without (key : K) (m : list (K * list D)) : list (K * list D) :=
  List.filter (λ x, negb (eqb x.1 key)) m.

Lemma without_app key m1 m2 : without key (m1 ++ m2) = without key m1 ++ without key m2.
Proof. apply List.filter_app. Qed.

Lemma without_id key m : Forall (λ x, eqb x.1 key = false) m → without key m = m.
Proof. unfold without. induction 1 as [|x m Hx _ IH]; simpl; [done|]. by rewrite Hx, IH. Qed.

Lemma without_below key m : Forall (λ x, ltb x.1 key = true) m → without key m = m.
Proof.
  intros Hm. apply without_id. eapply Forall_impl; [exact Hm|]. intros. by apply ltb_not_eqb.
Qed.
Lemma without_above key m : Forall (λ x, ltb key x.1 = true) m → without key m = m.
Proof.
  intros Hm. apply without_id. eapply Forall_impl; [exact Hm|]. intros. by apply ltb_not_eqb'.
Qed.

(** In sorted entries, only one side of the split at [k] can hold [key]. *)
Lemma without_node key m1 k v m2 :
  sorted_entries (m1 ++ (k, v) :: m2) →
  without key (m1 ++ (k, v) :: m2) =
    if eqb k key then m1 ++ m2
    else if ltb key k then without key m1 ++ (k, v) :: m2
    else m1 ++ (k, v) :: without key m2.
Proof.
  intros (_ & _ & H1 & H2)%sorted_app. rewrite without_app. unfold without at 2. simpl.
  fold (without key m2). destruct (eqb k key) eqn:Hk; [|destruct (ltb key k) eqn:Hlt]; simpl.
  - rewrite eqb_spec in Hk. apply andb_true_iff in Hk as [Hk1 Hk2].
    apply negb_true_iff in Hk1, Hk2. rewrite without_below, without_above; [done|..].
    + eapply Forall_impl; [exact H2|]. intros [k' v'] Hk'; unfold key_lt in Hk'; simpl in *.
      destruct (ltb_split k key k' Hk'); congruence.
    + eapply Forall_impl; [exact H1|]. intros [k' v'] Hk'; unfold key_lt in Hk'; simpl in *.
      destruct (ltb_split k' key k Hk'); congruence.
  - rewrite (without_above key m2); [done|]. eapply Forall_impl; [exact H2|].
    intros [k' v'] Hk'; unfold key_lt in Hk'; simpl in *. eauto using ltb_trans.
  - rewrite (without_below key m1); [done|]. eapply Forall_impl; [exact H1|].
    intros [k' v'] Hk'; unfold key_lt in Hk'; simpl in *.
    destruct (ltb_split k' key k Hk') as [?|?]; [done|congruence].
Qed.

Lemma entries_fdel key t :
  sorted_entries (entries t) → removable_below key t = true →
  entries (fdel key t) = without key (entries t).
Proof.
  induction t as [|a l IHl k v h r IHr]; [done|]. cbn [entries fdel removable_below].
  intros Hs. rewrite without_node by done. apply sorted_app in Hs as (Hl & Hr & _).
  destruct (eqb k key); [|destruct (ltb key k)].
  - intros He. unfold fcut. destruct l as [|? ? ? ? ? ?]; [done|].
    destruct r as [|? rl ? ? ? rr]; [cbn; by rewrite app_nil_r|]. destruct rl; [|done].
    by rewrite entries_settle.
  - intros. by rewrite entries_settle; cbn [entries]; rewrite IHl.
  - intros. by rewrite entries_settle; cbn [entries]; rewrite IHr.
Qed.

Lemma removable_weaken key t : removable key t = true → removable_below key t = true.
Proof.
  destruct t as [|a l k v h r]; [done|]. cbn. destruct (eqb k key); [|done].
  by destruct l, r as [|? []].
Qed.

Lemma sorted_without key m : sorted_entries m → sorted_entries (without key m).
Proof.
  unfold sorted_entries, without. induction 1 as [|x m Hs IH Hall]; simpl; [constructor|].
  destruct (negb _); [|done]. constructor; [done|]. rewrite Forall_forall in *.
  intros y Hy. apply Hall. by apply list_elem_of_In, List.filter_In, proj1, list_elem_of_In in Hy.
Qed.

Lemma NoDup_without key m : Forall (λ x, NoDup x.2) m → Forall (λ x, NoDup x.2) (without key m).
Proof. induction 1 as [|x m Hx _ IH]; simpl; [constructor|]. by destruct (negb _); [constructor|]. Qed.

Lemma ht_nonneg t : heights t → 0 ≤ ht t.
Proof.
  induction t as [|a l IHl k v h r IHr]; [done|]. intros (-> & Hl & _). cbn [ht].
  specialize (IHl Hl). lia.
Qed.

(** Removal lowers the height by at most one and every node on the way back is
    rebalanced. *)
Lemma fdel_balanced key t :
  heights t → balanced t → removable_below key t = true →
  balanced (fdel key t) ∧ heights (fdel key t) ∧ ht t - 1 ≤ ht (fdel key t) ≤ ht t.
Proof.
  induction t as [|a l IHl k v h r IHr]; [done|].
  intros (Hh & Hhl & Hhr) (Hd & Hbl & Hbr). cbn [fdel removable_below].
  pose proof (ht_nonneg l Hhl). pose proof (ht_nonneg r Hhr).
  destruct (eqb k key); [|destruct (ltb key k)]; intros Hrm.
  - unfold fcut. cbn [ht]. destruct l as [|? ? ? ? ? ?].
    { cbn [ht] in *. split_and!; [done..|lia|lia]. }
    destruct r as [|? rl k1 v1 ? rr]; [cbn [ht] in *; split_and!; [done..|lia|lia]|].
    destruct rl; [|done]. destruct Hhr as (Hr' & _ & Hhrr). destruct Hbr as (Hdr & _ & Hbrr).
    cbn [ht] in Hr', Hdr. set (l' := Nd _ _ _ _ _ _) in *.
    pose proof (ht_nonneg rr Hhrr). cbn [ht] in *.
    destruct (settle_balanced a l' k1 v1 h rr) as (Hb & Ht & Ht'); [done..|lia|].
    split; [exact Hb|]. split; [by apply heights_settle|lia].
  - destruct IHl as (Hb' & Hh' & Ht'); [done..|].
    destruct (settle_balanced a (fdel key l) k v h r) as (Hb & Ht & Ht2); [done..|lia|].
    split; [exact Hb|]. split; [by apply heights_settle|]. cbn [ht] in *. lia.
  - destruct IHr as (Hb' & Hh' & Ht'); [done..|].
    destruct (settle_balanced a l k v h (fdel key r)) as (Hb & Ht & Ht2); [done..|lia|].
    split; [exact Hb|]. split; [by apply heights_settle|]. cbn [ht] in *. lia.
Qed.
End removal.

Section removal_claims.
Context {K D : Type} `{JSOrdLaws K, EqDecision D}.
Implicit Types (t l r : tree K D) (m : list (K * list D)).

(** C14. Removal of a key works when its node lies below the root with at most
    one child, or has two children of which the right one has no left child:
    the key is gone, all other entries stay, and the tree stays a balanced
    search tree. *)
Theorem avl_remove_correct (tr : avl K D) t key :
  represents tr t → heights t → balanced t → sorted_entries (entries t) →
  Forall (λ x, NoDup x.2) (entries t) → removable key t = true →
  ∃ tr', avl_remove tr key = Some tr' ∧ avl_inv tr' (without key (entries t)) ∧
    avl_contains tr' key = Some false ∧ isBalanced tr' = Some true.
Proof.
  intros Hr Hh Hb Hs Hnd Hrm. pose proof (removable_weaken _ _ Hrm) as Hrb.
  destruct (avl_remove_refines tr t key) as (tr' & -> & Hr'); [done..|by apply heights_pos|done|].
  destruct (fdel_balanced key t) as (Hb' & Hh' & _); [done..|].
  assert (avl_inv tr' (without key (entries t))) as Hinv.
  { exists (fdel key t). split_and!; [done..|by apply entries_fdel|by apply sorted_without|
      by apply NoDup_without]. }
  exists tr'. split_and!; [done..| |].
  - unfold avl_contains. rewrite (avl_find_spec _ _ _ Hinv). cbn [mbind option_bind].
    replace (docs_at key (without key (entries t))) with (@None (list D)); [done|].
    clear. unfold without. induction (entries t) as [|[k v] m IH]; simpl; [done|].
    destruct (eqb k key) eqn:Hk; simpl; [done|]. by rewrite Hk.
  - rewrite (isBalanced_repr _ _ Hr'). f_equal. by apply balancedb_spec.
Qed.

Lemma settle_id t : heights t → balanced t → settle true t = t.
Proof.
  destruct t as [|a l k v h r]; [done|]. intros (-> & _ & _) (Hd & _). cbn [settle fix_height rebal bf].
  by rewrite (proj2 (Z.ltb_ge 1 _)), (proj2 (Z.ltb_ge _ (-1))) by lia.
Qed.

(** The root is not removed when it has at most one child: [removeNode]
    first makes the child the root, then walks back over the removed node and
    returns it as the root again. The tree still holds the key and everything
    else it held. *)
Theorem avl_remove_root_noop (tr : avl K D) a l k v h r key :
  represents tr (Nd a l k v h r) → heights (Nd a l k v h r) → balanced (Nd a l k v h r) →
  eqb k key = true → l = Lf ∨ r = Lf →
  ∃ tr', avl_remove tr key = Some tr' ∧ represents tr' (Nd a l k v h r).
Proof.
  intros Hr Hh Hb Hk Hlr. destruct (Hr) as (Hroot & Hrep & Hnd & Hfr).
  assert (cells tr !! a = Some (Node k v (ptr l) (ptr r) h)) as Ha by apply Hrep.
  unfold avl_remove, removeNode. rewrite Hroot. cbn [remove_path ptr]. rewrite Ha.
  cbn [mbind option_bind n_k]. rewrite Hk. cbn [mbind option_bind]. unfold unlink. rewrite Ha.
  cbn [mbind option_bind n_l n_r].
  destruct (remove_unwind_top (cells tr) (match ptr l with Some l => Some l | None => ptr r end)
    (Nd a l k v h r) a) as (hp' & Hun & Hrep' & Hfr'); [done|done|by apply heights_pos|done|].
  rewrite settle_id in * by done.
  exists (Avl hp' (next tr) (Some a) (insertCount tr)). split.
  - assert (∀ A (x y : A), match ptr l, ptr r with Some _, Some _ => x | _, _ => y end = y) as Hm
      by (destruct Hlr as [-> | ->]; [done|by destruct (ptr l)]).
    destruct (ptr l), (ptr r); cbn in *; try (rewrite Hun; done).
    specialize (Hm _ 0 1). done.
  - split_and!; cbn [root cells next]; [done|done|done|]. intros x Hx. rewrite Hfr'; [by apply Hfr|].
    intros ?%(represents_fresh _ _ _ Hr). lia.
Qed.
End removal_claims.

(** Removing a key whose in-order successor is not its right child loses
    entries: with keys 0, -10, 10 and 5 in the tree, [remove(0)] leaves only
    10, because the walk back starts above the successor with a path that
    misses the nodes in between and ends with that node as the root. *)
Theorem avl_remove_loses_entries :
  ∃ tr tr', insert_all (new_avl 0 [1%N]) [(-10, 2%N); (10, 3%N); (5, 4%N)] 1 = Some tr ∧
    isBalanced tr = Some true ∧ getSize tr = Some 4 ∧ avl_remove tr 0 = Some tr' ∧
    getSize tr' = Some 1 ∧ avl_find tr' (-10) = Some None ∧ avl_find tr' 5 = Some None.
Proof. do 2 eexists. split; [reflexivity|]. vm_compute. auto 10. Qed.

(** ** Witnesses *)
Definition sample_tree : tree Z N :=
  Nd 1 (Nd 2 Lf (-10) [2%N] 1 Lf) 0 [1%N] 2 (Nd 3 Lf 10 [3%N] 1 Lf).
Definition sample_avl : avl Z N :=
  default (new_avl 0 []) (insert_all (new_avl 0 [1%N]) [(-10, 2%N); (10, 3%N)] 1).

Lemma sample_represents : represents sample_avl sample_tree.
Proof.
  assert (represents (new_avl 0 [1%N]) (Nd 1 Lf 0 [1%N] 1 Lf)) as H0.
  { split_and!; [done|done|apply NoDup_singleton|].
    intros a Ha. apply lookup_singleton_ne. cbn in Ha. lia. }
  destruct (avl_insert_refines _ _ (-10) 2%N 1 H0) as (t1 & E1 & R1 & _); [done|].
  change (rebalance_due _ _) with true in R1. cbn in R1.
  destruct (avl_insert_refines _ _ 10 3%N 1 R1) as (t2 & E2 & R2 & _); [done|].
  unfold sample_avl. cbn [insert_all fst snd]. rewrite E1. cbn [mbind option_bind]. rewrite E2.
  cbn [mbind option_bind default]. injection E1 as <-. exact R2.
Qed.

Lemma avl_remove_correct_witness :
  ∃ tr, avl_remove sample_avl 0 = Some tr ∧ avl_inv tr [(-10, [2%N]); (10, [3%N])].
Proof.
  destruct (avl_remove_correct sample_avl sample_tree 0) as (tr & ? & ? & _);
    [exact sample_represents|done|done|repeat constructor|
     repeat constructor; set_solver|done|].
  exists tr. done.
Defined.

Lemma avl_remove_root_noop_witness :
  ∃ tr, avl_remove (new_avl 0 [1%N]) 0 = Some tr ∧ represents tr (Nd 1 Lf 0 [1%N] 1 Lf).
Proof.
  apply (avl_remove_root_noop (new_avl 0 [1%N]) 1 Lf 0 [1%N] 1 Lf 0); [|done|done|done|by left].
  split_and!; [done|done|apply NoDup_singleton|].
  intros a Ha. apply lookup_singleton_ne. cbn in Ha. lia.
Defined.
