(* ===== verification/Flat.v ===== *)
(** * The flat index (class [le]) and the boolean index (class [me])

    [le] maps each value of an enum property to the set of the documents that
    have it; [me] keeps one set of documents for [true] and one for [false]. *)

From Stdlib Require Import SpecFloat.
From S2P Require Import Prelude JSColl JSNum.
Local Open Scope Z_scope.

(** A value of an enum property: the schema check lets strings and numbers
    through. *)
Inductive enum_key := KStr (s : jsstr) | KNum (n : number).
#[global] Instance enum_key_eq_dec : EqDecision enum_key.
Proof. solve_decision. Defined.

(** The key under which a [Map] or a [Set] files a value: -0 is filed as +0. *)
Definition map_key (k : enum_key) : enum_key :=
  match k with KNum (S754_zero _) => KNum (S754_zero false) | k => k end.

Lemma map_key_idemp k : map_key (map_key k) = map_key k.
Proof. by destruct k as [|[]]. Qed.

(** The operand of a filter operation. *)
Inductive operand := One (k : enum_key) | Many (l : list enum_key).

(** The string iterator: one string per code point. *)
Fixpoint code_points (s : jsstr) : list jsstr :=
  match s with
  | [] => []
  | a :: s' =>
      if (0xD800 <=? a)%N && (a <=? 0xDBFF)%N then
        match s' with
        | b :: s'' => if (0xDC00 <=? b)%N && (b <=? 0xDFFF)%N then [a; b] :: code_points s''
                      else [a] :: code_points s'
        | [] => [[a]]
        end
      else [a] :: code_points s'
  end.

(** [for (const e of t)] and [new Set(t)] *)
Definition iterate (t : operand) : result (list enum_key) :=
  match t with
  | Many l => Ok l
  | One (KStr s) => Ok (KStr <$> code_points s)
  | One (KNum _) => Throw TypeError
  end.

(** [e[n].map(...)]: only arrays have [map]. *)
Definition elements (t : operand) : result (list enum_key) :=
  match t with
  | Many l => Ok l
  | One _ => Throw TypeError
  end.

Definition invalid_operation {A} : result A := Throw (PlainError "Invalid operation").

(** ** Class [le] *)
Section flat.
Context {D : Type} `{EqDecision D}.

Record flat := Flat { numberToDocumentId : list (enum_key * list D) }.

Definition new_flat : flat := Flat [].

(** [this.numberToDocumentId.get(e)] *)
Definition flat_get (e : enum_key) (ft : flat) : option (list D) :=
  jm_get (map_key e) (numberToDocumentId ft).

Definition flat_insert (ft : flat) (e : enum_key) (t : D) : flat :=
  match flat_get e ft with
  | Some s => Flat (jm_set (map_key e) (set_add t s) (numberToDocumentId ft))
  | None => Flat (jm_set (map_key e) (set_of [t]) (numberToDocumentId ft))
  end.

Definition flat_find (ft : flat) (e : enum_key) : option (list D) := flat_get e ft.

Definition flat_remove (ft : flat) (e : enum_key) : flat :=
  Flat (jm_delete (map_key e) (numberToDocumentId ft)).

Definition flat_removeDocument (ft : flat) (e : D) (t : enum_key) : flat :=
  match flat_get t ft with
  | None => ft
  | Some n =>
      let n := set_delete e n in
      if (length n =? 0)%nat then Flat (jm_delete (map_key t) (numberToDocumentId ft))
      else Flat (jm_set (map_key t) n (numberToDocumentId ft))
  end.

Definition flat_contains (ft : flat) (e : enum_key) : bool :=
  jm_has (map_key e) (numberToDocumentId ft).

Definition flat_getSize (ft : flat) : nat :=
  foldl (λ e t, e + length t.2)%nat 0%nat (numberToDocumentId ft).

(** The body of the loops of [in] and [nin]. *)
Definition add_docs (s : option (list D)) (r : list D) : list D :=
  match s with Some t => set_add_all t r | None => r end.

(** [filter]: the argument is the filter object, as its list of properties. *)
Definition flat_filter (ft : flat) (e : list (string * operand)) : result (list D) :=
  match e with
  | [(n, v)] =>
      if decide (n = "eq") then
        match v with
        | One t => Ok (default [] (flat_get t ft))
        | Many _ => Ok [] (* an array is not the key of any entry *)
        end
      else if decide (n = "in") then
        t ← iterate v; Ok (foldl (λ r e, add_docs (flat_get e ft) r) [] t)
      else if decide (n = "nin") then
        t ← iterate v;
        let t := set_of (map_key <$> t) in
        Ok (foldl (λ r p, if set_has p.1 t then r else set_add_all p.2 r) []
              (numberToDocumentId ft))
      else invalid_operation
  | _ => invalid_operation
  end.

Definition flat_filterArr (ft : flat) (e : list (string * operand)) : result (list D) :=
  match e with
  | [(n, v)] =>
      if decide (n = "containsAll") then
        t ← elements v;
        match (λ e, default [] (flat_get e ft)) <$> t with
        | [] => Ok []
        | s :: t => Ok (foldl (λ e t, filter (λ x, set_has x t) e) s t)
        end
      else if decide (n = "containsAny") then
        t ← elements v;
        match (λ e, default [] (flat_get e ft)) <$> t with
        | [] => Ok []
        | s :: t => Ok (foldl (λ e t, set_of (e ++ t)) s t)
        end
      else invalid_operation
  | _ => invalid_operation
  end.

Definition flat_toJSON (ft : flat) : list (enum_key * list D) := numberToDocumentId ft.

Definition flat_fromJSON (e : option (list (enum_key * list D))) : result flat :=
  match e with
  | None => Throw (PlainError "Invalid Flat Tree JSON")
  | Some e => Ok (foldl (λ t p, Flat (jm_set (map_key p.1) (set_of p.2) (numberToDocumentId t)))
                    new_flat e)
  end.

(** ** Invariant and abstract view

    The abstract state is the relation between values and documents. *)
Definition flat_rel (ft : flat) (k : enum_key) (d : D) : Prop :=
  ∃ s, flat_get k ft = Some s ∧ d ∈ s.

Definition flat_wf (ft : flat) : Prop :=
  jm_wf (numberToDocumentId ft) ∧
  Forall (λ p, map_key p.1 = p.1 ∧ NoDup p.2 ∧ p.2 ≠ []) (numberToDocumentId ft).

Lemma flat_get_elem ft k s : flat_wf ft → (k, s) ∈ numberToDocumentId ft → flat_get k ft = Some s.
Proof.
  intros [Hwf Hall] Hin. rewrite Forall_forall in Hall. destruct (Hall _ Hin) as [Hk _].
  simpl in Hk. unfold flat_get. by rewrite Hk, jm_get_elem.
Qed.

Lemma flat_get_wf ft k s : flat_wf ft → flat_get k ft = Some s → NoDup s ∧ s ≠ [].
Proof.
  intros [Hwf Hall] Hin%jm_get_Some_elem. rewrite Forall_forall in Hall.
  by destruct (Hall _ Hin) as (_ & ? & ?).
Qed.

Lemma set_wf ft k s :
  flat_wf ft → NoDup s → s ≠ [] → flat_wf (Flat (jm_set (map_key k) s (numberToDocumentId ft))).
Proof.
  intros [Hwf Hall] Hs Hne. split; simpl; [by apply jm_wf_set|].
  apply jm_set_Forall; [done|]. intros k' ->; simpl. by rewrite map_key_idemp.
Qed.

Lemma delete_wf ft k : flat_wf ft → flat_wf (Flat (jm_delete (map_key k) (numberToDocumentId ft))).
Proof. intros [??]. split; simpl; [by apply jm_wf_delete|by apply jm_delete_Forall]. Qed.

Lemma flat_get_set ft k k' s :
  flat_get k (Flat (jm_set (map_key k') s (numberToDocumentId ft))) =
  if decide (map_key k = map_key k') then Some s else flat_get k ft.
Proof. apply jm_get_set. Qed.

Lemma flat_get_delete ft k k' :
  flat_get k (Flat (jm_delete (map_key k') (numberToDocumentId ft))) =
  if decide (map_key k = map_key k') then None else flat_get k ft.
Proof. apply jm_get_delete. Qed.

Lemma flat_insert_wf ft e t : flat_wf ft → flat_wf (flat_insert ft e t).
Proof.
  intros Hwf. unfold flat_insert. destruct (flat_get e ft) as [s|] eqn:Hs; apply set_wf; auto with jsdb.
  - apply NoDup_set_add. by apply (flat_get_wf ft e).
  - unfold set_add. destruct (set_has t s); [by apply (flat_get_wf ft e)|by destruct s].
Qed.

Lemma flat_rel_insert ft e t k d :
  flat_rel (flat_insert ft e t) k d ↔ (map_key k = map_key e ∧ d = t) ∨ flat_rel ft k d.
Proof.
  unfold flat_rel, flat_insert. destruct (flat_get e ft) as [s|] eqn:Hs;
    setoid_rewrite flat_get_set; destruct (decide (map_key k = map_key e)) as [Hk|].
  - assert (flat_get k ft = Some s) as -> by (unfold flat_get in *; by rewrite Hk).
    split; [|intros [[_ ->]|(s' & [= ->] & Hd)]].
    + intros (s' & [= <-] & [->|]%elem_of_set_add); [by left|right; by exists s].
    + eexists; split; [done|]. apply elem_of_set_add. by left.
    + eexists; split; [done|]. apply elem_of_set_add. by right.
  - naive_solver.
  - assert (flat_get k ft = None) as -> by (unfold flat_get in *; by rewrite Hk).
    split; [|intros [[_ ->]|(s' & [=] & Hd)]].
    + intros (s' & [= <-] & Hd%elem_of_set_of). left. set_solver.
    + eexists; split; [done|]. apply elem_of_set_of. set_solver.
  - naive_solver.
Qed.

Lemma flat_removeDocument_wf ft e t : flat_wf ft → flat_wf (flat_removeDocument ft e t).
Proof.
  intros Hwf. unfold flat_removeDocument. destruct (flat_get t ft) as [s|] eqn:Hs; [|done].
  destruct (flat_get_wf _ _ _ Hwf Hs). destruct (Nat.eqb_spec (length (set_delete e s)) 0);
    [by apply delete_wf|]. apply set_wf; auto with jsdb. by destruct (set_delete e s).
Qed.

Lemma flat_rel_removeDocument ft e t k d :
  flat_rel (flat_removeDocument ft e t) k d ↔ flat_rel ft k d ∧ (map_key k ≠ map_key t ∨ d ≠ e).
Proof.
  unfold flat_rel, flat_removeDocument. destruct (flat_get t ft) as [s|] eqn:Hs.
  2: { split; [|naive_solver]. intros (s & Hk & Hd). split; [eauto|]. left. intros He.
       unfold flat_get in *. congruence. }
  assert (map_key k = map_key t → flat_get k ft = Some s) as Hks
    by (unfold flat_get in *; by intros ->).
  pose proof (elem_of_set_delete d e s) as Hdel.
  destruct (Nat.eqb_spec (length (set_delete e s)) 0) as [Hl|Hl];
    setoid_rewrite flat_get_delete || setoid_rewrite flat_get_set;
    destruct (decide (map_key k = map_key t)) as [Hk|Hk]; try naive_solver.
  apply nil_length_inv in Hl. rewrite Hl, (Hks Hk) in *. set_solver.
Qed.

(** ** Filters *)
Lemma elem_of_add_docs (f : enum_key → option (list D)) l r d :
  d ∈ foldl (λ r e, add_docs (f e) r) r l ↔ d ∈ r ∨ ∃ k s, k ∈ l ∧ f k = Some s ∧ d ∈ s.
Proof.
  revert r. induction l as [|k l IH]; intros r; simpl; [set_solver|]. rewrite IH.
  unfold add_docs at 1. destruct (f k) as [s|] eqn:Hk; [rewrite elem_of_set_add_all|]; set_solver.
Qed.

Lemma elem_of_nin t r (m : list (enum_key * list D)) d :
  d ∈ foldl (λ r p, if set_has p.1 t then r else set_add_all p.2 r) r m ↔
  d ∈ r ∨ ∃ k s, (k, s) ∈ m ∧ k ∉ t ∧ d ∈ s.
Proof.
  revert r. induction m as [|[k s] m IH]; intros r; simpl; [set_solver|]. rewrite IH.
  unfold set_has. case_bool_decide; [|rewrite elem_of_set_add_all]; set_solver.
Qed.

Lemma elem_of_all (s : list D) t d :
  d ∈ foldl (λ e t, filter (λ x, set_has x t) e) s t ↔ d ∈ s ∧ ∀ s', s' ∈ t → d ∈ s'.
Proof.
  revert s. induction t as [|s' t IH]; intros s; simpl; [set_solver|].
  rewrite IH, list_elem_of_filter, Is_true_true, set_has_spec. set_solver.
Qed.

Lemma elem_of_any (s : list D) t d :
  d ∈ foldl (λ e t, set_of (e ++ t)) s t ↔ d ∈ s ∨ ∃ s', s' ∈ t ∧ d ∈ s'.
Proof.
  revert s. induction t as [|s' t IH]; intros s; simpl; [set_solver|].
  rewrite IH, elem_of_set_of. set_solver.
Qed.

Lemma elem_of_default ft k d : d ∈ default [] (flat_get k ft) ↔ flat_rel ft k d.
Proof. unfold flat_rel. destruct (flat_get k ft); set_solver. Qed.
End flat.
Arguments flat : clear implicits.

(** ** Class [me] *)
Section bool_index.
Context {D : Type} `{EqDecision D}.

Record bool_node := BoolNode { true_ : list D; false_ : list D }.

Definition new_bool : bool_node := BoolNode [] [].

Definition bool_insert (bn : bool_node) (e : D) (t : bool) : bool_node :=
  if t then BoolNode (set_add e (true_ bn)) (false_ bn)
  else BoolNode (true_ bn) (set_add e (false_ bn)).

Definition bool_delete (bn : bool_node) (e : D) (t : bool) : bool_node :=
  if t then BoolNode (set_delete e (true_ bn)) (false_ bn)
  else BoolNode (true_ bn) (set_delete e (false_ bn)).

Definition bool_getSize (bn : bool_node) : nat := (length (true_ bn) + length (false_ bn))%nat.

Definition bool_toJSON (bn : bool_node) : list D * list D := (true_ bn, false_ bn).

Definition bool_fromJSON (e : list D * list D) : bool_node := BoolNode (set_of e.1) (set_of e.2).

(** The documents filed under a value. *)
Definition bool_docs (bn : bool_node) (t : bool) : list D := if t then true_ bn else false_ bn.

Definition bool_wf (bn : bool_node) : Prop := NoDup (true_ bn) ∧ NoDup (false_ bn).
End bool_index.
Arguments bool_node : clear implicits.

Section flat_claims.
Context {D : Type} `{EqDecision D}.

(** The operations of the flat index implement a relation between values
    and documents: inserting adds one pair, [removeDocument] takes one pair
    away, [remove] all pairs of a value, and each keeps the index well-formed
    (one entry per value, no empty and no duplicate document sets). A value
    whose last document goes is no longer contained. *)
Theorem flat_updates (ft : flat D) e t :
  flat_wf ft →
  flat_wf (flat_insert ft e t) ∧ flat_wf (flat_removeDocument ft t e) ∧ flat_wf (flat_remove ft e) ∧
  (∀ k d, flat_rel (flat_insert ft e t) k d ↔ (map_key k = map_key e ∧ d = t) ∨ flat_rel ft k d) ∧
  (∀ k d, flat_rel (flat_removeDocument ft t e) k d ↔
     flat_rel ft k d ∧ (map_key k ≠ map_key e ∨ d ≠ t)) ∧
  (∀ k d, flat_rel (flat_remove ft e) k d ↔ flat_rel ft k d ∧ map_key k ≠ map_key e) ∧
  (∀ k, flat_contains ft k = true ↔ ∃ d, flat_rel ft k d).
Proof.
  intros Hwf. split_and!; intros;
    [by apply flat_insert_wf|by apply flat_removeDocument_wf|by apply delete_wf|
     apply flat_rel_insert|apply flat_rel_removeDocument|..].
  - unfold flat_rel, flat_remove. setoid_rewrite flat_get_delete. case_decide; naive_solver.
  - unfold flat_contains. rewrite jm_has_spec. unfold flat_rel. fold (flat_get k ft). split.
    + intros [s Hs]. destruct (flat_get_wf _ _ _ Hwf Hs) as [_ Hne].
      destruct s as [|d s]; [done|]. exists d, (d :: s). set_solver.
    + intros (d & s & Hs & _). by exists s.
Qed.

(** The filters of the flat index: [eq] gives the documents with the
    value, [in] those with one of the values, [nin] those with some other
    value, [containsAll] those having all of a non-empty list of values,
    [containsAny] those having one of them; a filter object with no or
    several operations, or an unknown one, throws. *)
Theorem flat_filters (ft : flat D) k (l : list enum_key) op v e :
  flat_wf ft →
  (∃ r, flat_filter ft [("eq", One k)] = Ok r ∧ ∀ d, d ∈ r ↔ flat_rel ft k d) ∧
  (∃ r, flat_filter ft [("in", Many l)] = Ok r ∧ ∀ d, d ∈ r ↔ ∃ k, k ∈ l ∧ flat_rel ft k d) ∧
  (∃ r, flat_filter ft [("nin", Many l)] = Ok r ∧
     ∀ d, d ∈ r ↔ ∃ k, map_key k ∉ map_key <$> l ∧ flat_rel ft k d) ∧
  (∃ r, flat_filterArr ft [("containsAll", Many l)] = Ok r ∧
     ∀ d, d ∈ r ↔ l ≠ [] ∧ ∀ k, k ∈ l → flat_rel ft k d) ∧
  (∃ r, flat_filterArr ft [("containsAny", Many l)] = Ok r ∧
     ∀ d, d ∈ r ↔ ∃ k, k ∈ l ∧ flat_rel ft k d) ∧
  (op ∉ ["eq"; "in"; "nin"] ∨ e ≠ [] → flat_filter ft ((op, v) :: e) = invalid_operation) ∧
  flat_filter ft [] = invalid_operation.
Proof.
  intros Hwf. split_and!.
  - eexists. split; [done|]. intros d. apply elem_of_default.
  - eexists. split; [done|]. intros d. rewrite elem_of_add_docs. unfold flat_rel. set_solver.
  - eexists. split; [done|]. intros d. rewrite elem_of_nin. setoid_rewrite elem_of_set_of. split.
    + intros [?|(k' & s & Hin & Hk & Hd)]; [set_solver|].
      destruct (Hwf) as [_ Hall]. rewrite Forall_forall in Hall. destruct (Hall _ Hin) as [Hmk _].
      simpl in Hmk. exists k'. rewrite Hmk. split; [done|]. exists s. by rewrite (flat_get_elem ft k' s).
    + intros (k' & Hk & s & Hs & Hd). right. exists (map_key k'), s. split_and!; [|done..].
      by apply jm_get_Some_elem.
  - unfold flat_filterArr. simpl. destruct l as [|k0 l]; csimpl; (eexists; split; [done|]).
    { set_solver. }
    intros d. rewrite elem_of_all, elem_of_default. setoid_rewrite list_elem_of_fmap.
    split; [|intros [_ Hall]].
    + intros [H0 Hall]. split; [done|]. intros k' [->|Hk']%elem_of_cons; [done|].
      apply elem_of_default. eauto.
    + split; [apply Hall; set_solver|]. intros s (k' & -> & Hk'). apply elem_of_default. set_solver.
  - unfold flat_filterArr. simpl. destruct l as [|k0 l]; csimpl; (eexists; split; [done|]).
    { set_solver. }
    intros d. rewrite elem_of_any, elem_of_default. setoid_rewrite list_elem_of_fmap. split.
    + intros [|(s & (k' & -> & Hk') & Hd%elem_of_default)]; set_solver.
    + intros (k' & [->|Hk']%elem_of_cons & Hr); [by left|]. right. eexists.
      split; [eexists; eauto|]. by apply elem_of_default.
  - intros Hop. unfold flat_filter. destruct e; [|done]. destruct Hop as [Hop|]; [|done].
    rewrite !decide_False by set_solver. done.
  - done.
Qed.

(** The JSON image of a flat index restores it. *)
Lemma flat_roundtrip (ft : flat D) :
  flat_wf ft → flat_fromJSON (Some (flat_toJSON ft)) = Ok ft.
Proof.
  destruct ft as [m]. intros [Hwf Hall]. unfold flat_fromJSON, flat_toJSON, new_flat. simpl in *. f_equal.
  assert (∀ m0, foldl (λ t p, Flat (jm_set (map_key p.1) (set_of p.2) (numberToDocumentId t)))
    (Flat m0) m = Flat (foldl (λ t p, jm_set p.1 p.2 t) m0 m)) as ->.
  { clear Hwf. induction Hall as [|[k s] m (Hk & Hs & _) _ IH]; intros m0; simpl in *; [done|].
    by rewrite IH, Hk, set_of_id. }
  by rewrite jm_set_fold.
Qed.

(** The boolean index files documents under [true] and [false]
    independently: [insert] adds a document to one side and nothing else,
    [delete] takes it from that side only, both sides stay duplicate-free,
    and serialising and restoring the index gives it back. *)
Theorem bool_index_spec (bn : bool_node D) e t :
  bool_wf bn →
  bool_wf (bool_insert bn e t) ∧ bool_wf (bool_delete bn e t) ∧
  (∀ b d, d ∈ bool_docs (bool_insert bn e t) b ↔ (b = t ∧ d = e) ∨ d ∈ bool_docs bn b) ∧
  (∀ b d, d ∈ bool_docs (bool_delete bn e t) b ↔ (b ≠ t ∨ d ≠ e) ∧ d ∈ bool_docs bn b) ∧
  (bool_getSize (bool_insert bn e t) = bool_getSize bn + if set_has e (bool_docs bn t) then 0 else 1)%nat ∧
  bool_fromJSON (bool_toJSON bn) = bn.
Proof.
  intros [H1 H2]. destruct bn as [tr fa]; simpl in *. split_and!.
  - destruct t; split; simpl; auto with jsdb.
  - destruct t; split; simpl; auto with jsdb.
  - intros [] d; destruct t; simpl; autorewrite with jscoll; naive_solver.
  - intros [] d; destruct t; simpl; autorewrite with jscoll; naive_solver.
  - destruct t; unfold bool_insert, bool_getSize, set_add; simpl;
      destruct (set_has e _); rewrite ?length_app; simpl; lia.
  - unfold bool_fromJSON. simpl. by rewrite !set_of_id.
Qed.
End flat_claims.

(** ** Witnesses *)
Definition sample_flat : flat N :=
  flat_insert (flat_insert (flat_insert new_flat (KStr (js "red")) 1%N) (KStr (js "blue")) 2%N)
    (KStr (js "red")) 3%N.

Lemma sample_flat_wf : flat_wf sample_flat.
Proof. do 3 apply flat_insert_wf. split; constructor. Qed.

Lemma flat_updates_witness : ¬ flat_rel (flat_removeDocument sample_flat 1%N (KStr (js "red"))) (KStr (js "red")) 1%N.
Proof.
  destruct (flat_updates sample_flat (KStr (js "red")) 1%N sample_flat_wf) as (_ & _ & _ & _ & Hr & _).
  rewrite Hr. naive_solver.
Defined.

Lemma flat_filters_witness :
  ∃ r, flat_filter sample_flat [("in", Many [KStr (js "red")])] = Ok r ∧ 3%N ∈ r.
Proof.
  destruct (flat_filters sample_flat (KStr []) [KStr (js "red")] "" (One (KStr [])) [] sample_flat_wf)
    as (_ & (r & Hr & Hd) & _).
  exists r. split; [exact Hr|]. apply Hd. exists (KStr (js "red")). split; [by left|].
  exists [1; 3]%N. split; [reflexivity|]. by right; left.
Defined.

Lemma bool_index_spec_witness : 1%N ∈ bool_docs (bool_insert new_bool 1%N true) true.
Proof.
  destruct (bool_index_spec (new_bool (D := N)) 1%N true) as (_ & _ & H & _); [split; constructor|].
  apply H. by left.
Defined.
