(* ===== verification/Levenshtein.v ===== *)
(** * Bounded Levenshtein distance (functions [ue] and [fe]) *)

From S2P Require Import Prelude.
Local Open Scope Z_scope.

(** [s.startsWith(p)] *)
Fixpoint startsWith (s p : jsstr) {struct p} : bool :=
  match p, s with
  | [], _ => true
  | _ :: _, [] => false
  | a :: p, b :: s => bool_decide (a = b) && startsWith s p
  end.

Lemma startsWith_spec s p : startsWith s p = true ↔ p `prefix_of` s.
Proof.
  revert s. induction p as [|a p IH]; intros s; simpl; [split; auto using prefix_nil|].
  destruct s as [|b s].
  { split; [discriminate|]. intros H%prefix_nil_inv. discriminate. }
  rewrite andb_true_iff, bool_decide_eq_true, IH. split.
  - intros [-> ?]. by apply prefix_cons.
  - intros H. split; [by eapply prefix_cons_inv_1|by eapply prefix_cons_inv_2].
Qed.

Section lev.
Context {A : Type} `{EqDecision A}.
Implicit Types (e t : list A).

(** [s.length] *)
Definition len (s : list A) : Z := Z.of_nat (length s).

(** ** The matrix, row by row

    [lev_row c t prev d left] writes the cells [i[s][n], i[s][n+1], ...] of the
    row for character [c]; [prev] holds [i[s-1][n], i[s-1][n+1], ...], [d] is
    [i[s-1][n-1]] and [left] is [i[s][n-1]]. *)
Fixpoint lev_row (c : A) (t : list A) (prev : list Z) (d left : Z) : list Z :=
  match t, prev with
  | b :: t, up :: prev =>
      let x := if bool_decide (c = b) then d else Z.min (Z.min (up + 1) (left + 1)) (d + 1) in
      x :: lev_row c t prev up x
  | _, _ => []
  end.

(** [r = Math.min(r, i[s][n])] over the row, from [1 / 0]: the row is over its
    bound when every cell is. *)
Definition row_exceeds (row : list Z) (n : Z) : bool := forallb (λ x, n <? x) row.

(** The loop over the rows: [row] holds [i[s-1][1..o]]. *)
Fixpoint lev_rows (e t : list A) (s : Z) (row : list Z) (n : Z) : Z :=
  match e with
  | [] => let x := default 0 (last row) in if x <=? n then x else -1
  | c :: e =>
      let row' := lev_row c t row (s - 1) s in
      if row_exceeds row' n then -1 else lev_rows e t (s + 1) row' n
  end.

(** The first row, [i[0][1..o]]. *)
Definition lev_init (t : list A) : list Z := seqZ 1 (len t).
End lev.

(** Function [ue]. *)
Definition ue (e t : jsstr) (n : Z) : Z :=
  if n <? 0 then -1
  else if bool_decide (e = t) then 0
  else
    let r := len e in
    let o := len t in
    if r =? 0 then if o <=? n then o else -1
    else if o =? 0 then if r <=? n then r else -1
    else
      let s := Z.abs (r - o) in
      if startsWith e t then if s <=? n then s else -1
      else if startsWith t e then 0
      else if n <? s then -1
      else lev_rows e t 1 (lev_init t) n.

(** Function [fe]: [{ distance, isBounded }]. *)
Definition fe (e t : jsstr) (n : Z) : Z * bool := let r := ue e t n in (r, 0 <=? r).
Definition isBounded (e t : jsstr) (n : Z) : bool := (fe e t n).2.

(** ** Specification: the least number of edits *)
Section edits.
Context {A : Type} `{EqDecision A}.
Implicit Types (x y : list A).

(** [edits x y k]: [y] is obtained from [x] by [k] insertions, deletions and
    substitutions. *)
Inductive edits : list A → list A → nat → Prop :=
  | edits_nil : edits [] [] 0
  | edits_keep a x y k : edits x y k → edits (a :: x) (a :: y) k
  | edits_subst a b x y k : edits x y k → edits (a :: x) (b :: y) (S k)
  | edits_del a x y k : edits x y k → edits (a :: x) y (S k)
  | edits_ins b x y k : edits x y k → edits x (b :: y) (S k).

Fixpoint lev (x : list A) : list A → Z :=
  match x with
  | [] => λ y, len y
  | a :: x' =>
      fix go (y : list A) : Z :=
        match y with
        | [] => len x
        | b :: y' => if bool_decide (a = b) then lev x' y'
                     else Z.min (Z.min (lev x' y + 1) (go y' + 1)) (lev x' y' + 1)
        end
  end.

Lemma lev_cons a x b y :
  lev (a :: x) (b :: y) =
  if bool_decide (a = b) then lev x y
  else Z.min (Z.min (lev x (b :: y) + 1) (lev (a :: x) y + 1)) (lev x y + 1).
Proof. done. Qed.

Lemma len_cons (a : A) x : len (a :: x) = len x + 1.
Proof. unfold len. rewrite length_cons. lia. Qed.
Lemma len_nonneg x : 0 ≤ len x.
Proof. unfold len. lia. Qed.

Lemma lev_nil_r x : lev x [] = len x.
Proof. by destruct x. Qed.

Lemma lev_nonneg x y : 0 ≤ lev x y.
Proof.
  revert y. induction x as [|a x IHx]; intros y; [apply len_nonneg|].
  induction y as [|b y IHy]; [apply len_nonneg|]. rewrite lev_cons.
  pose proof (IHx y). pose proof (IHx (b :: y)). case_bool_decide; lia.
Qed.

(** Dropping one character changes the distance by at most one. *)
Lemma lev_drop x y :
  (∀ a, lev x y - 1 ≤ lev (a :: x) y ≤ lev x y + 1) ∧
  (∀ b, lev x y - 1 ≤ lev x (b :: y) ≤ lev x y + 1).
Proof.
  revert y. induction x as [|a' x IHx]; intros y.
  - split; [|intros b; cbn [lev]; rewrite len_cons; lia].
    induction y as [|b y IHy]; intros a; [cbn [lev]; rewrite len_cons; cbn; lia|].
    rewrite lev_cons. specialize (IHy a). cbn [lev] in *. rewrite len_cons.
    pose proof (len_nonneg y). case_bool_decide; lia.
  - induction y as [|b' y IHy].
    + split; intros c; [rewrite !lev_nil_r, !len_cons; lia|].
      rewrite lev_cons. destruct (IHx []) as [_ Hb]. specialize (Hb c).
      rewrite !lev_nil_r, !len_cons in *. pose proof (len_nonneg x). case_bool_decide; lia.
    + destruct IHy as [IHa IHb]. destruct (IHx y) as [_ H2].
      destruct (IHx (b' :: y)) as [H1 H1'].
      assert (∀ c, lev (a' :: x) (c :: b' :: y) ≤ lev (a' :: x) (b' :: y) + 1) as Hub.
      { intros c. rewrite (lev_cons a' x c). destruct (bool_decide (a' = c)); [|lia].
        specialize (H1 a'). lia. }
      split; intros c.
      * rewrite (lev_cons c). specialize (IHa c). specialize (IHb b').
        case_bool_decide; lia.
      * specialize (Hub c). split; [|exact Hub]. rewrite (lev_cons a' x c).
        specialize (H1 a'). specialize (H1' c). case_bool_decide; lia.
Qed.

(** [lev] is a number of edits that suffices, and the least one. *)
Lemma lev_edits x y : edits x y (Z.to_nat (lev x y)).
Proof.
  assert (∀ y, edits [] y (length y)) as Hnil by (intros z; induction z; by constructor).
  revert y. induction x as [|a x IHx]; intros y.
  { cbn [lev]. unfold len. by rewrite Nat2Z.id. }
  induction y as [|b y IHy].
  - specialize (IHx []). rewrite lev_nil_r in *. rewrite len_cons. pose proof (len_nonneg x).
    rewrite Z2Nat.inj_add, Nat.add_1_r by lia. by constructor.
  - rewrite lev_cons. pose proof (lev_nonneg x y). pose proof (lev_nonneg x (b :: y)).
    pose proof (lev_nonneg (a :: x) y). case_bool_decide; [subst; by constructor|].
    assert (∀ z, 0 ≤ z → Z.to_nat (z + 1) = S (Z.to_nat z)) as Hs by lia.
    destruct (Z.min_spec (Z.min (lev x (b :: y) + 1) (lev (a :: x) y + 1)) (lev x y + 1)) as [[_ ->]|[_ ->]].
    2: rewrite Hs by done; by constructor.
    destruct (Z.min_spec (lev x (b :: y) + 1) (lev (a :: x) y + 1)) as [[_ ->]|[_ ->]];
      rewrite Hs by done; by constructor.
Qed.

Lemma lev_least x y k : edits x y k → lev x y ≤ Z.of_nat k.
Proof.
  induction 1 as [|a x y k _ IH|a b x y k _ IH|a x y k _ IH|b x y k _ IH].
  - done.
  - rewrite lev_cons, bool_decide_eq_true_2; done.
  - rewrite lev_cons. case_bool_decide; lia.
  - destruct (lev_drop x y) as [H1 _]. specialize (H1 a). lia.
  - destruct (lev_drop x y) as [_ H1]. specialize (H1 b). lia.
Qed.

Lemma edits_app x1 y1 k1 x2 y2 k2 :
  edits x1 y1 k1 → edits x2 y2 k2 → edits (x1 ++ x2) (y1 ++ y2) (k1 + k2).
Proof. induction 1; intros; simpl; try constructor; auto. Qed.

Lemma edits_rev x y k : edits x y k → edits (rev x) (rev y) k.
Proof.
  induction 1 as [|a x y k _ IH|a b x y k _ IH|a x y k _ IH|b x y k _ IH]; simpl; [constructor|..].
  - replace k with (k + 0)%nat by lia. apply edits_app; [done|]. repeat constructor.
  - replace (S k) with (k + 1)%nat by lia. apply edits_app; [done|]. repeat constructor.
  - rewrite <-(app_nil_r (rev y)). replace (S k) with (k + 1)%nat by lia.
    apply edits_app; [done|]. repeat constructor.
  - rewrite <-(app_nil_r (rev x)). replace (S k) with (k + 1)%nat by lia.
    apply edits_app; [done|]. repeat constructor.
Qed.

Lemma lev_rev x y : lev (rev x) (rev y) = lev x y.
Proof.
  assert (∀ x y, lev (rev x) (rev y) ≤ lev x y) as Hle.
  { intros x' y'. pose proof (lev_edits x' y') as He%edits_rev%lev_least.
    pose proof (lev_nonneg x' y'). lia. }
  apply Z.le_antisymm; [apply Hle|]. specialize (Hle (rev x) (rev y)).
  by rewrite !rev_involutive in Hle.
Qed.
End edits.

(** ** The matrix holds the distances of all prefixes *)
Section matrix.
Context {A : Type} `{EqDecision A}.
Implicit Types (e t px py : list A).

(** The distances of [px] to the prefixes of [t] that extend [py] (strings are
    kept reversed). *)
Fixpoint levs (px py t : list A) : list Z :=
  match t with
  | [] => []
  | b :: t => lev px (b :: py) :: levs px (b :: py) t
  end.

Lemma lev_row_spec c px py t :
  lev_row c t (levs px py t) (lev px py) (lev (c :: px) py) = levs (c :: px) py t.
Proof.
  revert py. induction t as [|b t IH]; intros py; [done|]. cbn [lev_row levs].
  rewrite <-(lev_cons c px b py). by rewrite IH.
Qed.

Lemma lev_init_spec py t : levs [] py t = seqZ (len py + 1) (len t).
Proof.
  revert py. induction t as [|b t IH]; intros py; [done|]. cbn [levs lev]. rewrite IH, !len_cons.
  rewrite (seqZ_cons (len py + 1) (len t + 1)) by (pose proof (len_nonneg t); lia).
  f_equal. f_equal; lia.
Qed.

Lemma levs_last px py t : t ≠ [] → last (levs px py t) = Some (lev px (rev t ++ py)).
Proof.
  revert py. induction t as [|b t IH]; intros py Ht; [done|]. cbn [levs rev].
  rewrite <-(assoc_L (++)). cbn [app]. destruct t as [|b' t]; [done|].
  rewrite last_cons, IH by done. done.
Qed.

Lemma levs_elem px py t p s : t = p ++ s → p ≠ [] → lev px (rev p ++ py) ∈ levs px py t.
Proof.
  revert py t. induction p as [|b p IH]; intros py t -> Hp; [done|]. cbn [levs rev app].
  rewrite <-(assoc_L (++)). cbn [app]. destruct p as [|b' p]; [by left|]. right. by apply IH.
Qed.

(** A distance is at least that of some pair of prefixes. *)
Lemma lev_suffix x' px y : ∃ y', y' `suffix_of` y ∧ lev px y' ≤ lev (x' ++ px) y.
Proof.
  revert y. induction x' as [|a x' IHx]; intros y; [by exists y|]. cbn [app].
  induction y as [|b y IHy].
  - exists []. split; [done|]. rewrite !lev_nil_r, len_cons. unfold len. rewrite length_app. lia.
  - rewrite lev_cons. destruct (IHx y) as (y1 & H1 & ?), (IHx (b :: y)) as (y2 & H2 & ?),
      IHy as (y3 & H3 & ?). apply (suffix_cons_r _ _ b) in H1, H3. case_bool_decide; [by exists y1|].
    destruct (Z.min_spec (Z.min (lev (x' ++ px) (b :: y) + 1) (lev (a :: x' ++ px) y + 1))
      (lev (x' ++ px) y + 1)) as [[_ ->]|[_ ->]]; [|exists y1; split; [done|lia]].
    destruct (Z.min_spec (lev (x' ++ px) (b :: y) + 1) (lev (a :: x' ++ px) y + 1)) as [[_ ->]|[_ ->]];
      [exists y2|exists y3]; (split; [done|lia]).
Qed.

(** Once every cell of a row is over the bound, so is the distance; column 0
    need not be looked at. *)
Lemma row_exceeds_sound c px x' t n :
  t ≠ [] → row_exceeds (levs (c :: px) [] t) n = true → n < lev (x' ++ c :: px) (rev t).
Proof.
  intros Ht Hrow. unfold row_exceeds in Hrow. rewrite forallb_forall in Hrow.
  assert (∀ p s, t = p ++ s → p ≠ [] → n < lev (c :: px) (rev p)) as Hp.
  { intros p s Hps Hne. apply Z.ltb_lt, Hrow, list_elem_of_In.
    rewrite <-(app_nil_r (rev p)). by eapply levs_elem. }
  destruct (lev_suffix x' (c :: px) (rev t)) as (y' & [k Hk] & Hle).
  assert (t = rev y' ++ rev k) as Ht' by (by rewrite <-rev_app_distr, <-Hk, rev_involutive).
  destruct y' as [|b y'].
  - destruct t as [|b t]; [done|]. specialize (Hp [b] t eq_refl). cbn [rev app] in Hp.
    rewrite lev_nil_r, len_cons in Hle. rewrite lev_cons, lev_nil_r in Hp.
    pose proof (Hp ltac:(done)). case_bool_decide; lia.
  - specialize (Hp (rev (b :: y')) (rev k) Ht'). rewrite rev_involutive in Hp.
    assert (rev (b :: y') ≠ []) as Hne by (intros Hr%(f_equal length); by rewrite length_rev in Hr).
    specialize (Hp Hne). lia.
Qed.

Lemma lev_rows_spec px e t n :
  t ≠ [] →
  lev_rows e t (len px + 1) (levs px [] t) n =
  let d := lev (rev e ++ px) (rev t) in if d <=? n then d else -1.
Proof.
  intros Ht. revert px. induction e as [|c e IH]; intros px; cbn [lev_rows rev].
  { rewrite levs_last by done. rewrite app_nil_r. done. }
  rewrite <-(assoc_L (++)). cbn [app].
  assert (lev_row c t (levs px [] t) (len px + 1 - 1) (len px + 1) = levs (c :: px) [] t) as ->.
  { rewrite <-lev_row_spec, !lev_nil_r, len_cons. f_equal. lia. }
  destruct (row_exceeds _ n) eqn:Hrow.
  - apply (row_exceeds_sound c px (rev e) t n Ht) in Hrow. cbn zeta.
    by rewrite (proj2 (Z.leb_gt _ n)).
  - rewrite <-(len_cons c px). apply IH.
Qed.

Lemma lev_length (x y : list A) : Z.abs (len x - len y) ≤ lev x y.
Proof.
  revert y. induction x as [|a x IHx]; intros y.
  { cbn [lev]. unfold len. cbn. lia. }
  induction y as [|b y IHy]; [rewrite lev_nil_r; unfold len; cbn; lia|].
  rewrite lev_cons. pose proof (IHx y). pose proof (IHx (b :: y)). rewrite !len_cons in *.
  case_bool_decide; lia.
Qed.

Lemma lev_refl (x : list A) : lev x x = 0.
Proof. induction x; [done|]. by rewrite lev_cons, bool_decide_eq_true_2. Qed.

Lemma lev_prefix (x k : list A) : lev (x ++ k) x = len k.
Proof.
  induction x as [|a x IH]; cbn [app]; [apply lev_nil_r|]. by rewrite lev_cons, bool_decide_eq_true_2.
Qed.
End matrix.

Lemma ue_spec (e t : jsstr) (n : Z) :
  ue e t n =
    if n <? 0 then -1
    else if negb (bool_decide (e = [])) && startsWith t e then 0
    else if lev e t <=? n then lev e t else -1.
Proof.
  pose proof (lev_nonneg e t) as H0.
  unfold ue. destruct (n <? 0) eqn:Hn; [done|]. bool_to_prop.
  destruct (bool_decide_reflect (e = t)) as [->|Hne].
  { rewrite lev_refl, (proj2 (Z.leb_le 0 n)) by lia. by destruct (_ && _). }
  destruct (Z.eqb_spec (len e) 0) as [He|He].
  { unfold len in He. destruct e; [done|]. cbn in He. lia. }
  assert (e ≠ []) by by intros ->. rewrite bool_decide_eq_false_2 by done. cbn [negb andb].
  destruct (Z.eqb_spec (len t) 0) as [Ht|Ht].
  { destruct t; [|unfold len in Ht; cbn in Ht; lia]. rewrite lev_nil_r. by destruct e. }
  assert (t ≠ []) by by intros ->.
  destruct (startsWith e t) eqn:Hp.
  { apply startsWith_spec in Hp as [k ->]. destruct (startsWith t (t ++ k)) eqn:Hq.
    - apply startsWith_spec in Hq as [k' Hk]. destruct k; [by rewrite app_nil_r in Hne|].
      apply (f_equal length) in Hk. rewrite !length_app in Hk. cbn in Hk. lia.
    - rewrite lev_prefix. unfold len. rewrite length_app.
      replace (Z.abs _) with (Z.of_nat (length k)) by lia. done. }
  destruct (startsWith t e); [done|]. destruct (Z.ltb_spec n (Z.abs (len e - len t))) as [Hl|Hl].
  { pose proof (lev_length e t). by rewrite (proj2 (Z.leb_gt _ n)) by lia. }
  change (lev_init t) with (seqZ (len (@nil N) + 1) (len t)). rewrite <-lev_init_spec.
  change 1 with (len (@nil N) + 1). rewrite lev_rows_spec by done. cbn zeta.
  by rewrite app_nil_r, lev_rev.
Qed.

(** C13. The bounded Levenshtein routine returns the least number of insertions,
    deletions and substitutions that turn [e] into [t] when it is at most
    [n], and -1 otherwise; with one exception the search relies on: a
    non-empty [e] that is a prefix of [t] counts as distance 0. The early exit on a
    row and the length shortcuts never change the answer. *)
Theorem ue_edit_distance (e t : jsstr) (n : Z) :
  ∃ d : nat, edits e t d ∧ (∀ k, edits e t k → (d ≤ k)%nat) ∧
    ue e t n =
      if n <? 0 then -1
      else if negb (bool_decide (e = [])) && startsWith t e then 0
      else if Z.of_nat d <=? n then Z.of_nat d else -1.
Proof.
  exists (Z.to_nat (lev e t)). pose proof (lev_nonneg e t).
  split; [apply lev_edits|]. split; [intros k Hk%lev_least; lia|].
  rewrite Z2Nat.id by done. apply ue_spec.
Qed.

(** Being within the bound, in terms of the distance. *)
Lemma isBounded_spec e t n :
  0 ≤ n → isBounded e t n = (negb (bool_decide (e = [])) && startsWith t e) || (lev e t <=? n).
Proof.
  intros Hn. unfold isBounded, fe. cbn [snd]. rewrite ue_spec, (proj2 (Z.ltb_ge n 0)) by lia.
  pose proof (lev_nonneg e t). destruct (_ && _); [done|].
  destruct (Z.leb_spec (lev e t) n); cbn; [by apply Z.leb_le|done].
Qed.
