(* ===== verification/Radix.v ===== *)
(** * The radix tree (classes [de] and [he])

    The text index: each edge carries a non-empty string [s], a node that
    ends a word has [e] set and the documents containing the word in [d]; [w]
    is the word spelled by the path to the node. Nodes are never shared, so a
    tree of nodes is a value and a method that updates nodes returns the new
    tree. *)

From S2P Require Import Prelude JSColl Levenshtein.
Local Open Scope Z_scope.

(** ** Plain objects used as word tables

    Assigning to [__proto__] sets the prototype and creates no property. *)
Definition proto_key : jsstr := js "__proto__".
Definition obj_set {V} (k : jsstr) (v : V) (o : list (jsstr * V)) : list (jsstr * V) :=
  if decide (k = proto_key) then o else jm_set k v o.

Section radix.
Context {D : Type} `{EqDecision D}.

Inductive rnode :=
  RN (k s w : jsstr) (e : bool) (d : list D) (c : list (N * rnode)).

Definition r_k n := let 'RN k _ _ _ _ _ := n in k.
Definition r_s n := let 'RN _ s _ _ _ _ := n in s.
Definition r_w n := let 'RN _ _ w _ _ _ := n in w.
Definition r_e n := let 'RN _ _ _ e _ _ := n in e.
Definition r_d n := let 'RN _ _ _ _ d _ := n in d.
Definition r_c n := let 'RN _ _ _ _ _ c := n in c.

(** [new de(e, t, n)] and [new he()] *)
Definition new_rnode (k s : jsstr) (e : bool) : rnode := RN k s [] e [] [].
Definition new_radix : rnode := new_rnode [] [] false.

Definition set_children (c : list (N * rnode)) (n : rnode) : rnode :=
  let 'RN k s w e d _ := n in RN k s w e d c.
Definition set_edge (k s : jsstr) (n : rnode) : rnode :=
  let 'RN _ _ w e d c := n in RN k s w e d c.
Definition set_end (e : bool) (n : rnode) : rnode :=
  let 'RN k s w _ d c := n in RN k s w e d c.
Definition set_docs (d : list D) (n : rnode) : rnode :=
  let 'RN k s w e _ c := n in RN k s w e d c.

(** [n.updateParent(e)], [n.addDocument(t)], [n.removeDocument(t)] *)
Definition updateParent (n e : rnode) : rnode :=
  let 'RN k s _ en d c := n in RN k s (r_w e ++ s) en d c.
Definition addDocument (n : rnode) (t : D) : rnode := set_docs (set_add t (r_d n)) n.
Definition removeDocument (n : rnode) (t : D) : rnode := set_docs (set_delete t (r_d n)) n.

(** [for (; c < a && r + c < o && s[c] === e[r + c]; ) c++] *)
Fixpoint common (s e : jsstr) : nat :=
  match s, e with
  | a :: s, b :: e => if bool_decide (a = b) then S (common s e) else 0%nat
  | _, _ => 0%nat
  end.

Definition getCommonPrefix (e t : jsstr) : jsstr := take (common e t) e.

(** ** insert *)

(** The node replacing child [i] of [n] when the word leaves its edge after [c]
    characters; [f] is what is left of the word. *)
Definition split_edge (n i : rnode) (c : nat) (f : jsstr) (t : D) : rnode :=
  let l := take c (r_s i) in
  let u := drop c (r_s i) in
  let d := updateParent (new_rnode (take 1 l) l false) n in
  let i := updateParent (set_edge (take 1 u) u i) d in
  let d := match u with u0 :: _ => set_children (jm_set u0 i (r_c d)) d | [] => d end in
  match f with
  | f0 :: _ =>
      let e := updateParent (addDocument (new_rnode [f0] f true) t) d in
      set_children (jm_set f0 e (r_c d)) d
  | [] => addDocument (set_end true d) t
  end.

(** The loop of [insert] from node [n] with the rest [e] of the word. *)
Fixpoint insert_loop (fuel : nat) (n : rnode) (e : jsstr) (t : D) : option rnode :=
  match fuel with
  | O => None
  | S fuel =>
      match e with
      | [] => Some (addDocument (set_end true n) t)
      | s :: _ =>
          match jm_get s (r_c n) with
          | Some i =>
              let c := common (r_s i) e in
              if (c =? length (r_s i))%nat then
                match drop c e with
                | [] => Some (set_children (jm_set s (addDocument (set_end true i) t) (r_c n)) n)
                | e' => i' ← insert_loop fuel i e' t; Some (set_children (jm_set s i' (r_c n)) n)
                end
              else Some (set_children (jm_set s (split_edge n i c (drop c e) t) (r_c n)) n)
          | None =>
              let o := updateParent (addDocument (new_rnode [s] e true) t) n in
              Some (set_children (jm_set s o (r_c n)) n)
          end
      end
  end.

Definition radix_insert (n : rnode) (e : jsstr) (t : D) : option rnode :=
  insert_loop (S (length e)) n e t.

(** ** findAllWords

    The loop pops the last node pushed and pushes its children, so a subtree
    is finished before its left sibling is looked at; a [continue] leaves the
    children out. *)
Definition table : Type := list (jsstr * list D).

(** The body for one node: the table, or [None] for [continue]. *)
Definition findAllWords_node (n : rnode) (e : table) (t : jsstr) (exact : bool) (r : Z) : option table :=
  let 'RN _ _ w en d _ := n in
  if negb en then Some e
  else if exact && negb (bool_decide (w = t)) then None
  else if negb (r =? 0) && negb ((Z.abs (len t - len w) <=? r) && isBounded t w r) then None
  else
    let e := obj_set w [] e in
    match jm_get w e with
    | Some l => if (0 <? length d)%nat then Some (obj_set w (set_add_all d l) e) else Some e
    | None => Some e
    end.

(** One iteration of the loop on the stack [o] (top first). *)
Definition findAllWords_iter (t : jsstr) (exact : bool) (r : Z) (st : list rnode * table) :
    list rnode * table :=
  match st with
  | (s :: o, e) =>
      match findAllWords_node s e t exact r with
      | None => (o, e)
      | Some e => (rev (r_c s).*2 ++ o, e)
      end
  | st => st
  end.

(** The whole loop, started on the stack [[n]]. *)
Fixpoint findAllWords (n : rnode) (e : table) (t : jsstr) (exact : bool) (r : Z) : table :=
  match findAllWords_node n e t exact r with
  | None => e
  | Some e => let 'RN _ _ _ _ _ c := n in foldr (λ p e, findAllWords p.2 e t exact r) e c
  end.

(** ** _findLevenshtein *)
Definition lev_item : Type := rnode * nat * Z.

(** The effect of one visit on the table, and whether it goes on to the
    neighbours. *)
Definition lev_node (e : jsstr) (r : Z) (it : lev_item) (o : table) : table * bool :=
  let '(t, n, i) := it in
  if startsWith (r_w t) e then (findAllWords t o e false 0, false)
  else if i <? 0 then (o, false)
  else
    let o :=
      if r_e t && negb (bool_decide (r_w t = [])) then
        let o := if isBounded e (r_w t) r then obj_set (r_w t) [] o else o in
        match jm_get (r_w t) o with
        | Some l => if (0 <? length (r_d t))%nat
                    then obj_set (r_w t) (set_add_all (r_d t) (set_of l)) o else o
        | None => o
        end
      else o in
    (o, (n <? length e)%nat).

(** The items pushed, in order. *)
Definition lev_push (e : jsstr) (it : lev_item) : list lev_item :=
  let '(t, n, i) := it in
  match e !! n with
  | None => []
  | Some a =>
      (match jm_get a (r_c t) with Some ch => [(ch, S n, i)] | None => [] end) ++
      [(t, S n, i - 1)] ++
      ((r_c t) ≫= λ '(ch, x), (x, n, i - 1) :: (if bool_decide (ch = a) then [] else [(x, S n, i - 1)]))
  end.

(** One iteration of the loop on the stack [s] (top first). *)
Definition lev_iter (e : jsstr) (r : Z) (st : list lev_item * table) : list lev_item * table :=
  match st with
  | (it :: s, o) =>
      let '(o, go) := lev_node e r it o in
      ((if go then rev (lev_push e it) else []) ++ s, o)
  | st => st
  end.

(** The visits below one item: what is pushed last is visited first. *)
Fixpoint lev_visit (fuel : nat) (e : jsstr) (r : Z) (it : lev_item) (o : table) : option table :=
  match fuel with
  | O => None
  | S fuel =>
      let '(o, go) := lev_node e r it o in
      if go then foldr (λ it o, o ← o; lev_visit fuel e r it o) (Some o) (lev_push e it) else Some o
  end.

Definition _findLevenshtein (n : rnode) (e : jsstr) (t : nat) (i r : Z) (o : table) : option table :=
  lev_visit (S (length e + S (Z.to_nat i))) e r (n, t, i) o.

(** ** find *)

(** The walk down the tree; [t] is what is left of the term. [None] inside
    means [{}] is returned. *)
Fixpoint find_walk (fuel : nat) (e : rnode) (t : jsstr) (exact : bool) : option (option rnode) :=
  match fuel with
  | O => None
  | S fuel =>
      match t with
      | [] => Some (Some e)
      | i :: _ =>
          match jm_get i (r_c e) with
          | None => Some None
          | Some a =>
              let l := common (r_s a) t in
              if negb (l =? length (r_s a))%nat then
                if (l =? length t)%nat then if exact then Some None else Some (Some a)
                else Some None
              else find_walk fuel a (drop l t) exact
          end
      end
  end.

Definition radix_find (n : rnode) (t : jsstr) (exact : bool) (r : Z) : option table :=
  if negb (r =? 0) && negb exact then _findLevenshtein n t 0 r r []
  else
    e ← find_walk (S (length t)) n t exact;
    match e with
    | None => Some []
    | Some e => Some (findAllWords e [] t exact r)
    end.

(** ** contains *)
Fixpoint contains_loop (fuel : nat) (t : rnode) (e : jsstr) : option bool :=
  match fuel with
  | O => None
  | S fuel =>
      match e with
      | [] => Some true
      | o :: _ =>
          match jm_get o (r_c t) with
          | None => Some false
          | Some s =>
              if (common (r_s s) e <? length (r_s s))%nat then Some false
              else contains_loop fuel s (drop (length (r_s s)) e)
          end
      end
  end.

Definition radix_contains (n : rnode) (e : jsstr) : option bool := contains_loop (S (length e)) n e.

(** ** removeWord *)

(** The loop down (only the first character of an edge is compared) and the
    loop back that deletes empty nodes; [None] inside means [false] is
    returned. *)
Fixpoint removeWord_loop (fuel : nat) (t : rnode) (e : jsstr) : option (option rnode) :=
  match fuel with
  | O => None
  | S fuel =>
      match e with
      | [] => Some (Some (set_end false (set_docs [] t)))
      | n :: _ =>
          match jm_get n (r_c t) with
          | None => Some None
          | Some i =>
              i' ← removeWord_loop fuel i (drop (length (r_s i)) e);
              match i' with
              | None => Some None
              | Some i' =>
                  let c := if bool_decide (length (r_c i') = 0%nat) && negb (r_e i') &&
                              bool_decide (length (r_d i') = 0%nat)
                           then jm_delete n (r_c t) else jm_set n i' (r_c t) in
                  Some (Some (set_children c t))
              end
          end
      end
  end.

(** The new tree and the result of the call. *)
Definition removeWord (n : rnode) (e : jsstr) : option (rnode * bool) :=
  match e with
  | [] => Some (n, false)
  | _ => t ← removeWord_loop (S (length e)) n e;
         Some (match t with Some n' => (n', true) | None => (n, false) end)
  end.

(** ** removeDocumentByWord *)
Fixpoint removeDocumentByWord_loop (fuel : nat) (r : rnode) (rest : jsstr) (e : jsstr) (t : D) (n : bool) :
    option (rnode * bool) :=
  match fuel with
  | O => None
  | S fuel =>
      match rest with
      | [] => Some (r, true)
      | o :: _ =>
          match jm_get o (r_c r) with
          | None => Some (r, false)
          | Some i =>
              let i' := if n && negb (bool_decide (r_w i = e)) then i else removeDocument i t in
              '(i', b) ← removeDocumentByWord_loop fuel i' (drop (length (r_s i)) rest) e t n;
              Some (set_children (jm_set o i' (r_c r)) r, b)
          end
      end
  end.

Definition removeDocumentByWord (r : rnode) (e : jsstr) (t : D) (n : bool) : option (rnode * bool) :=
  match e with
  | [] => Some (r, true)
  | _ => removeDocumentByWord_loop (S (length e)) r e e t n
  end.

(** ** JSON *)
Inductive json_rnode :=
  JRN (w s : jsstr) (e : bool) (k : jsstr) (d : list D) (c : list (N * json_rnode)).

Fixpoint radix_toJSON (n : rnode) : json_rnode :=
  let 'RN k s w e d c := n in JRN w s e k d ((λ p, (p.1, radix_toJSON p.2)) <$> c).

Fixpoint radix_fromJSON (j : json_rnode) : rnode :=
  let 'JRN w s e k d c := j in
  RN k s w e (set_of d)
    (foldl (λ m p, jm_set p.1 p.2 m) [] ((λ p, (p.1, radix_fromJSON p.2)) <$> c)).
End radix.
Arguments rnode : clear implicits.
Arguments table : clear implicits.
Arguments json_rnode : clear implicits.
