(* ===== verification/RadixInsert.v ===== *)
(** * Insertion into the radix tree *)

From S2P Require Import Prelude JSColl Levenshtein Radix.
Local Open Scope Z_scope.

Section radix_facts.
Context {D : Type} `{EqDecision D}.
Implicit Types (n i m : rnode D) (w : jsstr) (ox : option D).

Lemma rnode_ind' (P : rnode D → Prop) :
  (∀ k s w e d c, Forall (λ p, P p.2) c → P (RN k s w e d c)) → ∀ n, P n.
Proof.
  intros HP. fix IH 1. intros [k s w e d c]. apply HP.
  induction c as [|p c IHc]; constructor; [apply IH|apply IHc].
Qed.

(** ** Well-formed trees

    Children are filed under the first character of their edge, [w] is the
    path, and only nodes that end a word have documents. *)
Inductive rwf : rnode D → Prop :=
  rwf_intro k s w e d c :
    NoDup d → (e = false → d = []) → jm_wf c →
    Forall (λ p, (∃ s', r_s p.2 = p.1 :: s') ∧ r_k p.2 = [p.1] ∧
                 r_w p.2 = w ++ r_s p.2 ∧ rwf p.2) c →
    rwf (RN k s w e d c).

(** [child_ok w ch i]: [i] may be filed under [ch] below a node spelling [w]. *)
Definition child_ok (w : jsstr) (ch : N) (i : rnode D) : Prop :=
  (∃ s', r_s i = ch :: s') ∧ r_k i = [ch] ∧ r_w i = w ++ r_s i ∧ rwf i.

Lemma rwf_children n : rwf n ↔
  NoDup (r_d n) ∧ (r_e n = false → r_d n = []) ∧ jm_wf (r_c n) ∧
  ∀ ch i, (ch, i) ∈ r_c n → child_ok (r_w n) ch i.
Proof.
  destruct n as [k s w e d c]; simpl. split.
  - intros Hwf. inversion Hwf as [? ? ? ? ? ? Hd He Hc Hall]; subst. rewrite Forall_forall in Hall.
    split_and!; [done..|]. intros ch i Hi. apply (Hall _ Hi).
  - intros (? & ? & ? & Hall). constructor; [done..|]. apply Forall_forall. intros [ch i] Hi.
    by apply Hall.
Qed.

Lemma rwf_get n ch i : rwf n → jm_get ch (r_c n) = Some i → child_ok (r_w n) ch i.
Proof. rewrite rwf_children. intros (_ & _ & _ & Hall) Hi%jm_get_Some_elem. auto. Qed.

Lemma rwf_keys n : rwf n → jm_wf (r_c n).
Proof. by intros (_ & _ & ? & _)%rwf_children. Qed.

(** ** What a tree holds

    [has n w None]: [w] is a word of the tree; [has n w (Some x)]: document
    [x] is filed under it. *)
Definition at_node n w ox : Prop :=
  r_e n = true ∧ r_w n = w ∧ match ox with Some x => x ∈ r_d n | None => True end.

Inductive has : rnode D → jsstr → option D → Prop :=
  | has_here n w ox : at_node n w ox → has n w ox
  | has_below n ch i w ox : (ch, i) ∈ r_c n → has i w ox → has n w ox.

Lemma has_unfold n w ox :
  has n w ox ↔ at_node n w ox ∨ ∃ ch i, (ch, i) ∈ r_c n ∧ has i w ox.
Proof.
  split; [inversion 1; subst; eauto|]. intros [?|(ch & i & ? & ?)]; [by constructor|].
  by eapply has_below.
Qed.

Lemma has_prefix n w ox : rwf n → has n w ox → r_w n `prefix_of` w.
Proof.
  intros Hwf Hh. induction Hh as [n w ox (_ & <- & _)|n ch i w ox Hi _ IH]; [done|].
  apply rwf_children in Hwf as (_ & _ & _ & Hall). destruct (Hall _ _ Hi) as (_ & _ & Hw & Hwi).
  etrans; [|by apply IH]. rewrite Hw. by apply prefix_app_r.
Qed.

(** Setting a child. *)
Lemma set_child_wf n ch i :
  rwf n → child_ok (r_w n) ch i → rwf (set_children (jm_set ch i (r_c n)) n).
Proof.
  rewrite !rwf_children. destruct n as [k s w e d c]; simpl. intros (? & ? & ? & Hall) Hok.
  split_and!; [done..|by apply jm_wf_set|]. intros ch' i' Hi.
  apply elem_of_jm_set in Hi as [[= -> ->]|[? _]]; [done| |done]. by apply Hall.
Qed.

Lemma has_set_child n ch i w ox :
  rwf n → has (set_children (jm_set ch i (r_c n)) n) w ox ↔
    at_node n w ox ∨ has i w ox ∨ ∃ ch' i', (ch', i') ∈ r_c n ∧ ch' ≠ ch ∧ has i' w ox.
Proof.
  intros Hwf%rwf_keys. rewrite has_unfold. destruct n as [k s wn e d c]; simpl in *.
  setoid_rewrite elem_of_jm_set; [|done]. simpl. split.
  - intros [?|(ch' & i' & [[= -> ->]|[? ?]] & ?)]; [by left|by right; left|]. right; right. eauto.
  - intros [?|[?|(ch' & i' & ? & ? & ?)]]; [by left| |]; right; eauto 10.
Qed.

Lemma has_get_child n ch i w ox :
  rwf n → jm_get ch (r_c n) = Some i →
  has n w ox ↔
    at_node n w ox ∨ has i w ox ∨ ∃ ch' i', (ch', i') ∈ r_c n ∧ ch' ≠ ch ∧ has i' w ox.
Proof.
  intros Hwf Hi. rewrite has_unfold. apply rwf_keys in Hwf. split.
  - intros [?|(ch' & i' & Hi' & ?)]; [by left|]. right.
    destruct (decide (ch' = ch)) as [->|]; [|right; eauto 10]. left.
    apply jm_get_elem in Hi'; [|done]. congruence.
  - intros [?|[?|(ch' & i' & ? & ? & ?)]]; [by left| |]; right; eauto.
    eexists _, _. split; [by apply jm_get_Some_elem|done].
Qed.

Lemma has_get_none n ch w ox :
  jm_get ch (r_c n) = None →
  has n w ox ↔ at_node n w ox ∨ ∃ ch' i', (ch', i') ∈ r_c n ∧ ch' ≠ ch ∧ has i' w ox.
Proof.
  intros Hn%jm_get_None. rewrite has_unfold. split; [|naive_solver].
  intros [?|(ch' & i' & Hi & ?)]; [by left|]. right. exists ch', i'. split_and!; [done| |done].
  intros ->. apply Hn, list_elem_of_fmap. by exists (ch, i').
Qed.

(** ** Common prefixes *)
Lemma common_take (s e : jsstr) : take (common s e) s = take (common s e) e.
Proof.
  revert e. induction s as [|a s IH]; intros [|b e]; simpl; try done.
  case_bool_decide; [subst; simpl; by rewrite IH|done].
Qed.

Lemma common_le (s e : jsstr) : (common s e ≤ length s)%nat ∧ (common s e ≤ length e)%nat.
Proof.
  revert e. induction s as [|a s IH]; intros [|b e]; simpl; try lia.
  case_bool_decide; [|lia]. specialize (IH e). lia.
Qed.

Lemma common_full (s e : jsstr) : common s e = length s → e = s ++ drop (length s) e.
Proof.
  intros Hc. pose proof (common_take s e) as Ht. rewrite Hc, firstn_all in Ht.
  rewrite Ht at 1. by rewrite take_drop.
Qed.

Lemma common_differ (s e : jsstr) a b s' e' :
  drop (common s e) s = a :: s' → drop (common s e) e = b :: e' → a ≠ b.
Proof.
  revert e. induction s as [|x s IH]; intros [|y e]; simpl; try done.
  case_bool_decide; simpl; [apply IH|]. by intros [= <- _] [= <- _].
Qed.

(** ** Insertion *)
Lemma mark_wf n t : rwf n → rwf (addDocument (set_end true n) t).
Proof.
  rewrite !rwf_children. destruct n; simpl. intros (? & ? & ? & ?). split_and!; auto with jsdb. done.
Qed.

Lemma has_mark n t w ox :
  rwf n → has (addDocument (set_end true n) t) w ox ↔
    (w = r_w n ∧ (ox = None ∨ ox = Some t)) ∨ has n w ox.
Proof.
  rewrite rwf_children. intros (_ & He & _). rewrite (has_unfold n), has_unfold.
  destruct n as [k s wn e d c]; unfold at_node; simpl in *. destruct ox as [x|].
  - rewrite elem_of_set_add. destruct e; [naive_solver|]. rewrite He by done. set_solver.
  - destruct e; naive_solver.
Qed.

Lemma leaf_ok wn s e t n :
  r_w n = wn → child_ok wn s (updateParent (addDocument (new_rnode [s] (s :: e) true) t) n).
Proof.
  intros <-. split_and!; simpl; [by eexists|done|done|]. apply rwf_children; simpl.
  split_and!; auto with jsdb; [apply NoDup_set_add, NoDup_nil_2|done|constructor|].
  intros ? ? Hi. by apply elem_of_nil in Hi.
Qed.

Lemma has_leaf s f t n w ox :
  has (updateParent (addDocument (new_rnode s f true) t) n) w ox ↔
  w = r_w n ++ f ∧ (ox = None ∨ ox = Some t).
Proof.
  rewrite has_unfold. unfold at_node; simpl. split.
  - intros [(_ & <- & Hx)|(? & ? & Hi & _)]; [|by apply elem_of_nil in Hi].
    split; [done|]. destruct ox; set_solver.
  - intros [-> Hx]. left. split_and!; [done..|]. destruct Hx as [-> | ->]; set_solver.
Qed.

(** Moving the upper part of an edge to a new parent changes nothing below. *)
Lemma has_reedge i d k u w ox :
  r_w d ++ u = r_w i → has (updateParent (set_edge k u i) d) w ox ↔ has i w ox.
Proof.
  intros Hw. rewrite !has_unfold. destruct i as [ki si wi ei di ci]; unfold at_node; simpl in *.
  by rewrite Hw.
Qed.

Lemma reedge_ok i d u0 u :
  rwf i → r_w d ++ (u0 :: u) = r_w i → child_ok (r_w d) u0 (updateParent (set_edge [u0] (u0 :: u) i) d).
Proof.
  rewrite rwf_children. intros (? & ? & ? & Hall) Hw. destruct i as [ki si wi ei di ci]; simpl in *.
  split_and!; simpl; [by eexists|done..|]. apply rwf_children. simpl. rewrite Hw.
  split_and!; done.
Qed.

(** The two cases of a split: the word ends inside the edge, or branches off. *)
Definition split_base n i (c : nat) : rnode D :=
  let l := take c (r_s i) in let u := drop c (r_s i) in
  let d := updateParent (new_rnode (take 1 l) l false) n in
  match u with
  | u0 :: _ => set_children (jm_set u0 (updateParent (set_edge (take 1 u) u i) d) (r_c d)) d
  | [] => d
  end.

Lemma split_base_spec n ch i c :
  child_ok (r_w n) ch i → (0 < c < length (r_s i))%nat →
  child_ok (r_w n) ch (split_base n i c) ∧
  r_w (split_base n i c) = r_w n ++ take c (r_s i) ∧ r_d (split_base n i c) = [] ∧
  (∀ u0 u, drop c (r_s i) = u0 :: u → ∀ x, x ≠ u0 → jm_get x (r_c (split_base n i c)) = None) ∧
  (∀ w ox, has (split_base n i c) w ox ↔ has i w ox).
Proof.
  intros ((s' & Hs) & Hk & Hw & Hwf) Hc. unfold split_base.
  destruct (drop c (r_s i)) as [|u0 u] eqn:Hu.
  { apply (f_equal length) in Hu. rewrite length_drop in Hu. cbn in Hu. lia. }
  set (d := updateParent (new_rnode (take 1 (take c (r_s i))) (take c (r_s i)) false) n).
  assert (r_w d ++ (u0 :: u) = r_w i) as Hwd.
  { unfold d; simpl. by rewrite Hw, <-Hu, <-(assoc_L (++)), take_drop. }
  assert (rwf d) as Hd.
  { apply rwf_children; simpl. split_and!; [constructor|done|constructor|].
    intros ? ? Hi. by apply elem_of_nil in Hi. }
  pose proof (reedge_ok i d u0 u Hwf Hwd) as Hok. cbn [take].
  split_and!.
  - split_and!; [| |done|by apply set_child_wf].
    + unfold d; simpl. rewrite Hs. destruct c; [lia|]. by eexists.
    + unfold d; simpl. rewrite Hs. destruct c; [lia|]. done.
  - done.
  - done.
  - intros ? ? [= <- <-] x Hx. simpl. by rewrite decide_False.
  - intros w ox. rewrite has_set_child, has_reedge by done. split; [|auto].
    intros [(? & _)|[?|(? & ? & Hi & _)]]; [done|done|by apply elem_of_nil in Hi].
Qed.

Lemma split_edge_spec n ch i e t :
  let c := common (r_s i) e in
  child_ok (r_w n) ch i → (0 < c < length (r_s i))%nat →
  child_ok (r_w n) ch (split_edge n i c (drop c e) t) ∧
  ∀ w ox, has (split_edge n i c (drop c e) t) w ox ↔
    (w = r_w n ++ e ∧ (ox = None ∨ ox = Some t)) ∨ has i w ox.
Proof.
  intros c Hok Hc. destruct (split_base_spec n ch i c Hok Hc) as (Hb & Hbw & Hbd & Hbn & Hbh).
  set (b := split_base n i c) in *.
  change (split_edge n i c (drop c e) t) with
    (match drop c e with
     | f0 :: _ => set_children (jm_set f0 (updateParent (addDocument (new_rnode [f0] (drop c e) true) t) b) (r_c b)) b
     | [] => addDocument (set_end true b) t end).
  assert (take c e ++ drop c e = e) as Hte by apply take_drop.
  pose proof (common_take (r_s i) e) as Hct. fold c in Hct.
  destruct (Hb) as (Hs & Hk & Hw & Hwf).
  assert (r_w b ++ drop c e = r_w n ++ e) as Hwe.
  { by rewrite Hbw, Hct, <-(assoc_L (++)), Hte. }
  destruct (drop c e) as [|f0 f] eqn:Hf.
  - split.
    + pose proof (mark_wf b t Hwf). split_and!; destruct b; done.
    + intros w ox. rewrite has_mark, Hbh by done. by rewrite <-Hwe, app_nil_r.
  - assert (jm_get f0 (r_c b) = None) as Hnone.
    { destruct (drop c (r_s i)) as [|u0 u] eqn:Hu.
      - apply (f_equal length) in Hu. rewrite length_drop in Hu. cbn in Hu. lia.
      - eapply Hbn; [done|]. intros ->. by eapply common_differ. }
    split.
    + pose proof (set_child_wf b f0 _ Hwf (leaf_ok _ f0 f t b eq_refl)). split_and!; destruct b; done.
    + intros w ox. rewrite has_set_child, has_leaf, Hwe by done. rewrite <-Hbh.
      rewrite (has_get_none b f0) by done. naive_solver.
Qed.

Lemma insert_loop_spec fuel n e t :
  rwf n → (length e < fuel)%nat →
  ∃ n', insert_loop fuel n e t = Some n' ∧ rwf n' ∧
    r_k n' = r_k n ∧ r_s n' = r_s n ∧ r_w n' = r_w n ∧
    ∀ w ox, has n' w ox ↔ (w = r_w n ++ e ∧ (ox = None ∨ ox = Some t)) ∨ has n w ox.
Proof.
  revert n e. induction fuel as [|fuel IH]; intros n e Hwf Hf; [lia|].
  cbn [insert_loop]. destruct e as [|s e].
  { eexists. split; [done|]. split_and!; [by apply mark_wf|by destruct n..|].
    intros w ox. rewrite has_mark, app_nil_r by done. done. }
  assert (∀ i', r_k (set_children (jm_set s i' (r_c n)) n) = r_k n ∧
    r_s (set_children (jm_set s i' (r_c n)) n) = r_s n ∧
    r_w (set_children (jm_set s i' (r_c n)) n) = r_w n) as Hsame by (by destruct n).
  destruct (jm_get s (r_c n)) as [i|] eqn:Hi.
  2: { eexists. split; [done|]. split; [apply set_child_wf; [done|by apply leaf_ok]|].
       split_and!; [apply Hsame..|]. intros w ox.
       rewrite has_set_child, has_leaf by done. rewrite (has_get_none n s) by done. naive_solver. }
  pose proof (rwf_get _ _ _ Hwf Hi) as Hok. destruct (Hok) as ((s' & Hs) & Hk & Hw & Hwi).
  assert (∀ i', child_ok (r_w n) s i' →
    (∀ w ox, has i' w ox ↔ (w = r_w n ++ s :: e ∧ (ox = None ∨ ox = Some t)) ∨ has i w ox) →
    ∃ n', Some (set_children (jm_set s i' (r_c n)) n) = Some n' ∧ rwf n' ∧
      r_k n' = r_k n ∧ r_s n' = r_s n ∧ r_w n' = r_w n ∧
      ∀ w ox, has n' w ox ↔ (w = r_w n ++ s :: e ∧ (ox = None ∨ ox = Some t)) ∨ has n w ox) as Hput.
  { intros i' Hok' Hh. eexists. split; [done|]. split; [by apply set_child_wf|].
    split_and!; [apply Hsame..|]. intros w ox. rewrite has_set_child, Hh by done.
    rewrite (has_get_child n s i) by done. naive_solver. }
  destruct (Nat.eqb_spec (common (r_s i) (s :: e)) (length (r_s i))) as [Hc|Hc].
  - pose proof (common_full _ _ Hc) as He. rewrite Hc.
    destruct (drop (length (r_s i)) (s :: e)) as [|f0 f] eqn:Hdrop.
    + apply Hput.
      * pose proof (mark_wf i t Hwi). split_and!; destruct i; simpl in *; try done. by eexists.
      * intros w ox. rewrite has_mark, Hw, He, app_nil_r by done. by rewrite app_nil_r in He.
    + destruct (IH i (f0 :: f)) as (i' & -> & Hwf' & Hk' & Hs' & Hw' & Hh'); [done| |].
      { apply (f_equal length) in He. rewrite length_app in He. rewrite Hs in He. cbn in *. lia. }
      cbn [mbind option_bind]. apply Hput.
      * split_and!; rewrite ?Hk', ?Hs', ?Hw'; [by eexists|done..].
      * intros w ox. by rewrite Hh', Hw, <-(assoc_L (++)), <-He.
  - destruct (split_edge_spec n s i (s :: e) t Hok) as [Hok' Hh']; [|by apply Hput].
    pose proof (common_le (r_s i) (s :: e)). split; [|lia]. rewrite Hs. simpl.
    rewrite bool_decide_eq_true_2 by done. lia.
Qed.

Lemma radix_insert_spec n e t :
  rwf n → ∃ n', radix_insert n e t = Some n' ∧ rwf n' ∧ r_w n' = r_w n ∧
    ∀ w ox, has n' w ox ↔ (w = r_w n ++ e ∧ (ox = None ∨ ox = Some t)) ∨ has n w ox.
Proof.
  intros Hwf. destruct (insert_loop_spec (S (length e)) n e t Hwf) as (n' & H1 & H2 & _ & _ & H3); [lia|].
  by exists n'.
Qed.
End radix_facts.
