(* ===== verification/RadixQuery.v ===== *)
(** * Searching the radix tree *)

From S2P Require Import Prelude JSColl Levenshtein Radix RadixInsert.
Local Open Scope Z_scope.

Section query.
Context {D : Type} `{EqDecision D}.
Implicit Types (n i m : rnode D) (w t : jsstr) (ox : option D) (d : list D) (o : table D).

(** [ends n w d]: a node below [n] ends the word [w] and holds the documents [d]. *)
Inductive ends : rnode D → jsstr → list D → Prop :=
  | ends_here n : r_e n = true → ends n (r_w n) (r_d n)
  | ends_below n ch i w d : (ch, i) ∈ r_c n → ends i w d → ends n w d.

Lemma ends_unfold n w d :
  ends n w d ↔ (r_e n = true ∧ r_w n = w ∧ r_d n = d) ∨ ∃ ch i, (ch, i) ∈ r_c n ∧ ends i w d.
Proof.
  split; [inversion 1; subst; eauto 10|].
  intros [(? & <- & <-)|(ch & i & ? & ?)]; [by constructor|by eapply ends_below].
Qed.

Lemma has_ends n w ox :
  has n w ox ↔ ∃ d, ends n w d ∧ match ox with Some x => x ∈ d | None => True end.
Proof.
  split.
  - induction 1 as [n w ox (He & <- & Hx)|n ch i w ox Hi _ (d & Hd & Hx)].
    + exists (r_d n). split; [by constructor|done].
    + exists d. split; [by eapply ends_below|done].
  - intros (d & Hd & Hx). induction Hd as [n He|n ch i w d Hi _ IH].
    + by constructor.
    + eapply has_below; eauto.
Qed.

Lemma ends_prefix n w d : rwf n → ends n w d → r_w n `prefix_of` w.
Proof.
  intros Hwf Hd. apply (has_prefix n w None); [done|]. apply has_ends. eauto.
Qed.

Lemma ends_child n ch i w d :
  rwf n → (ch, i) ∈ r_c n → ends i w d → r_w n ++ [ch] `prefix_of` w.
Proof.
  intros (_ & _ & _ & Hall)%rwf_children Hi Hd. destruct (Hall _ _ Hi) as ((s' & Hs) & _ & Hw & Hwi).
  apply ends_prefix in Hd; [|done]. etrans; [|exact Hd]. rewrite Hw, Hs.
  apply prefix_app. by exists s'.
Qed.

Lemma prefix_app_not (w : jsstr) a : ¬ (w ++ [a] `prefix_of` w).
Proof. intros Hp%prefix_length. rewrite length_app in Hp. simpl in Hp. lia. Qed.

Lemma prefix_next_char (w w' : jsstr) a b : w ++ [a] `prefix_of` w' → w ++ [b] `prefix_of` w' → a = b.
Proof.
  intros [k1 ->] [k2 Hk]. rewrite <-!(assoc_L (++)) in Hk. by apply app_inv_head in Hk as [= ->].
Qed.

Lemma ends_unique n w d1 d2 : rwf n → ends n w d1 → ends n w d2 → d1 = d2.
Proof.
  intros Hwf H1. revert d2 Hwf. induction H1 as [n He|n ch i w d1 Hi H1 IH]; intros d2 Hwf H2.
  - apply ends_unfold in H2 as [(_ & _ & <-)|(ch & i & Hi & H2)]; [done|].
    by apply (ends_child n ch i) in H2 as ?%prefix_app_not.
  - pose proof (ends_child n ch i w d1 Hwf Hi H1) as Hp1.
    apply ends_unfold in H2 as [(_ & <- & _)|(ch' & i' & Hi' & H2)]; [by apply prefix_app_not in Hp1|].
    pose proof (ends_child n ch' i' w d2 Hwf Hi' H2) as Hp2.
    assert (ch' = ch) as -> by by eapply prefix_next_char.
    assert (i' = i) as ->.
    { apply rwf_keys in Hwf. apply jm_get_elem in Hi, Hi'; [|done..]. congruence. }
    apply IH; [|done]. apply rwf_children in Hwf as (_ & _ & _ & Hall). by apply (Hall _ _ Hi).
Qed.

(** The documents of a word, if it is in the tree. *)
Fixpoint word_docs n w : option (list D) :=
  let 'RN _ _ wn e d c := n in
  if e && bool_decide (wn = w) then Some d
  else foldr (λ p acc, match word_docs p.2 w with Some d => Some d | None => acc end) None c.

Lemma word_docs_ends n w d : word_docs n w = Some d → ends n w d.
Proof.
  revert d. induction n as [k s wn e d c IH] using rnode_ind'. intros d'. cbn [word_docs].
  destruct (e && _) eqn:He.
  { bool_to_prop. intros [= <-]. apply ends_unfold. left. simpl. naive_solver. }
  intros Hf. apply ends_unfold. right. simpl. clear He.
  induction IH as [|[ch i] c Hi _ IHc]; simpl in *; [done|].
  destruct (word_docs i w) eqn:Hd; simplify_eq.
  - exists ch, i. split; [by left|auto].
  - destruct (IHc Hf) as (ch' & i' & ? & ?). exists ch', i'. split; [by right|done].
Qed.

Lemma word_docs_none n w : word_docs n w = None → ∀ d, ¬ ends n w d.
Proof.
  induction n as [k s wn e d c IH] using rnode_ind'. cbn [word_docs].
  destruct (e && _) eqn:He; [done|]. intros Hf d' [(? & ? & _)|(ch & i & Hi & Hd)]%ends_unfold;
    simpl in *; [subst; by rewrite bool_decide_eq_true_2 in He|]. clear He.
  induction IH as [|[ch' i'] c Hi' _ IHc]; simpl in *; [by apply elem_of_nil in Hi|].
  destruct (word_docs i' w) eqn:Hw; simplify_eq. apply elem_of_cons in Hi as [[= -> ->]|Hi]; [|auto].
  by apply Hi' in Hd.
Qed.

(** ** findAllWords *)
Lemma obj_get_set w w' v o :
  w ≠ proto_key → jm_get w (obj_set w' v o) = if decide (w = w') then Some v else jm_get w o.
Proof.
  intros Hw. unfold obj_set. destruct (decide (w' = proto_key)) as [->|]; [|apply jm_get_set].
  by rewrite decide_False.
Qed.

Lemma findAllWords_node_plain n o t :
  rwf n →
  ∃ o', findAllWords_node n o t false 0 = Some o' ∧
    ∀ w, w ≠ proto_key →
      jm_get w o' = if r_e n && bool_decide (r_w n = w) then Some (r_d n) else jm_get w o.
Proof.
  rewrite rwf_children. intros (Hnd & _). destruct n as [k s wn e d c]; simpl in *.
  destruct e; simpl; [|by eexists].
  assert (set_add_all d [] = d) as Hd by by apply set_of_id.
  destruct (decide (wn = proto_key)) as [->|Hwn].
  { unfold obj_set. rewrite !decide_True by done. exists o. split; [by repeat case_match|].
    intros w Hw. by rewrite bool_decide_eq_false_2. }
  rewrite obj_get_set, decide_True by done. rewrite Hd.
  destruct (Nat.ltb_spec 0 (length d)) as [|Hl].
  - eexists. split; [done|]. intros w Hw. rewrite !obj_get_set by done. repeat case_decide; repeat case_bool_decide; naive_solver.
  - eexists. split; [done|]. intros w Hw. rewrite obj_get_set by done.
    destruct d; [|simpl in Hl; lia]. repeat case_decide; repeat case_bool_decide; naive_solver.
Qed.

Lemma findAllWords_plain n o t :
  rwf n → ∀ w, w ≠ proto_key →
  (∀ d, ends n w d → jm_get w (findAllWords n o t false 0) = Some d) ∧
  ((∀ d, ¬ ends n w d) → jm_get w (findAllWords n o t false 0) = jm_get w o).
Proof.
  revert o. induction n as [k s wn e d c IH] using rnode_ind'. intros o Hwf w Hw.
  destruct (findAllWords_node_plain _ o t Hwf) as (o1 & Ho1 & Hget).
  cbn [findAllWords]. rewrite Ho1. specialize (Hget w Hw).
  set (n := RN k s wn e d c) in *.
  assert (∀ c', c' ⊆ c →
    (∀ ch i d', (ch, i) ∈ c' → ends i w d' →
       jm_get w (foldr (λ p e, findAllWords p.2 e t false 0) o1 c') = Some d') ∧
    ((∀ ch i d', (ch, i) ∈ c' → ¬ ends i w d') →
       jm_get w (foldr (λ p e, findAllWords p.2 e t false 0) o1 c') = jm_get w o1)) as Hfold.
  { pose proof Hwf as (_ & _ & _ & Hall)%rwf_children. simpl in Hall. rewrite Forall_forall in IH.
    induction c' as [|[ch i] c' IHc]; intros Hsub; simpl; [by split; [set_solver|]|].
    destruct IHc as [IH1 IH2]; [set_solver|]. assert ((ch, i) ∈ c) as Hi by set_solver.
    destruct (IH _ Hi (foldr (λ p e, findAllWords p.2 e t false 0) o1 c')) with (w := w) as [Ha Hb];
      [by apply (Hall ch i)|done|]. simpl in *. split.
    - intros ch' i' d' Hi' Hd'. destruct (decide (ch' = ch)) as [->|Hne].
      + assert (i' = i) as ->; [|by apply Ha]. apply rwf_keys in Hwf; simpl in Hwf.
        assert ((ch, i') ∈ c) as Hi2 by set_solver.
        apply jm_get_elem in Hi, Hi2; [congruence|done..].
      + apply elem_of_cons in Hi' as [?|Hi']; [naive_solver|].
        rewrite Hb; [by eapply IH1|]. intros d'' Hd''.
        assert ((ch', i') ∈ c) as Hi2 by set_solver.
        pose proof (ends_child n _ _ _ _ Hwf Hi Hd'') as P1.
        pose proof (ends_child n _ _ _ _ Hwf Hi2 Hd') as P2.
        apply Hne. by eapply prefix_next_char.
    - intros Hno. rewrite Hb; [apply IH2|].
      + intros ch' i' d' Hi'. apply (Hno ch'). by right.
      + intros d'. apply (Hno ch). by left. }
  destruct (Hfold c) as [Ha Hb]; [done|]. split.
  - intros d' [(He & Hwn & <-)|(ch & i & Hi & Hd')]%ends_unfold; [|by eapply Ha].
    rewrite Hb, Hget.
    + simpl in *. by rewrite He, bool_decide_eq_true_2.
    + intros ch i d' Hi Hd'. pose proof (ends_child n ch i w d' Hwf Hi Hd') as Hp.
      rewrite <-Hwn in Hp. by apply prefix_app_not in Hp.
  - intros Hno. rewrite Hb, Hget.
    + destruct (r_e n) eqn:He; [|done]. simpl. rewrite bool_decide_eq_false_2; [done|].
      intros Hwn. apply (Hno (r_d n)). rewrite <-Hwn. by constructor.
    + intros ch i d' Hi Hd'. apply (Hno d'). by eapply ends_below.
Qed.

(** With [exact], only the node spelling the term is reported. *)
Lemma findAllWords_longer n o t r :
  rwf n → t `prefix_of` r_w n → r_w n ≠ t → findAllWords n o t true r = o.
Proof.
  revert o. induction n as [k s wn e d c IH] using rnode_ind'. intros o Hwf Hp Hne. simpl in Hp, Hne.
  cbn [findAllWords findAllWords_node]. destruct e; simpl.
  { by rewrite bool_decide_eq_false_2. }
  apply rwf_children in Hwf as (_ & _ & _ & Hall). simpl in Hall. clear Hne.
  induction c as [|[ch i] c IHc]; [done|]. simpl. apply Forall_cons in IH as [IH1 IH2].
  rewrite IHc; [|done|set_solver]. destruct (Hall ch i) as ((s' & Hs) & _ & Hw & Hwi); [set_solver|].
  apply IH1; simpl; [done|rewrite Hw; by apply prefix_app_r|]. intros He.
  apply prefix_length in Hp. apply (f_equal length) in He. rewrite Hw, length_app, Hs in He.
  simpl in He. lia.
Qed.

Lemma findAllWords_exact n o t r :
  rwf n → r_w n = t → 0 ≤ r → t ≠ proto_key →
  ∀ w, w ≠ proto_key → jm_get w (findAllWords n o t true r) =
    if r_e n && bool_decide (w = t) then Some (r_d n) else jm_get w o.
Proof.
  intros Hwf <- Hr Hp w Hw. destruct n as [k s wn e d c]. simpl in *.
  assert (∀ o, foldr (λ p e, findAllWords p.2 e wn true r) o c = o) as Hc.
  { intros o'. apply rwf_children in Hwf as (_ & _ & _ & Hall); simpl in Hall.
    induction c as [|[ch i] c IHc]; [done|]. simpl. rewrite IHc by set_solver.
    destruct (Hall ch i) as ((s' & Hs) & _ & Hwi & Hwf'); [set_solver|].
    apply findAllWords_longer; [done|rewrite Hwi; by apply prefix_app_r|].
    intros He. apply (f_equal length) in He. rewrite Hwi, length_app, Hs in He. simpl in He. lia. }
  apply rwf_children in Hwf as (Hnd & _). simpl in Hnd.
  destruct e; simpl; [|by rewrite Hc].
  rewrite bool_decide_eq_true_2 by done. simpl.
  assert ((Z.abs (len wn - len wn) <=? r) && isBounded wn wn r = true) as ->.
  { apply andb_true_iff. split; [apply Z.leb_le; lia|].
    rewrite isBounded_spec, lev_refl by done. apply orb_true_iff. right. by apply Z.leb_le. }
  simpl. rewrite andb_false_r. rewrite obj_get_set, decide_True by done.
  assert (set_add_all d [] = d) as -> by by apply set_of_id.
  destruct (Nat.ltb_spec 0 (length d)) as [|Hl]; rewrite Hc; rewrite !obj_get_set by done.
  - repeat case_decide; repeat case_bool_decide; naive_solver.
  - destruct d; [|simpl in Hl; lia]. repeat case_decide; repeat case_bool_decide; naive_solver.
Qed.

Lemma findAllWords_proto n o : findAllWords n o proto_key true 0 = o.
Proof.
  revert o. induction n as [k s wn e d c IH] using rnode_ind'. intros o. cbn [findAllWords].
  assert (∀ o, foldr (λ p e, findAllWords p.2 e proto_key true 0) o c = o) as Hc.
  { intros o'. clear -IH. induction IH as [|[ch i] c H1 _ IHc]; [done|]. simpl. by rewrite IHc, H1. }
  assert (∀ v, obj_set proto_key v o = o) as Hp by (intros; unfold obj_set; by rewrite decide_True).
  destruct e; cbn [findAllWords_node negb andb]; [|apply Hc].
  destruct (bool_decide_reflect (wn = proto_key)) as [->|]; cbn [negb Z.eqb andb]; [|done].
  rewrite !Hp. by repeat case_match; simplify_eq.
Qed.

(** ** The walk of [find] *)
Lemma prefix_app_cancel (w a b : jsstr) : w ++ a `prefix_of` w ++ b ↔ a `prefix_of` b.
Proof.
  split; [|apply prefix_app]. intros [k Hk]. rewrite <-(assoc_L (++)) in Hk.
  apply app_inv_head in Hk as ->. by exists k.
Qed.

Lemma prefix_common (s t : jsstr) :
  common s t = length t → t `prefix_of` s.
Proof.
  intros Hc. pose proof (common_take s t) as Ht. rewrite Hc, firstn_all in Ht.
  rewrite <-Ht. exists (drop (length t) s). by rewrite take_drop.
Qed.

(** Two strings with different continuations after their common part are not
    comparable below either. *)
Lemma common_diverge (s t w : jsstr) :
  (common s t < length s)%nat → (common s t < length t)%nat → s `prefix_of` w → ¬ t `prefix_of` w.
Proof.
  revert t w. induction s as [|a s IH]; intros [|b t] w; simpl; try lia.
  intros H1 H2 [k ->] Hp. simpl in *. pose proof (prefix_cons_inv_1 _ _ _ _ Hp) as <-.
  rewrite bool_decide_eq_true_2 in * by done. apply prefix_cons_inv_2 in Hp.
  eapply IH; [..|exact Hp]; [lia|lia|by exists k].
Qed.

Lemma ends_via n ch i w d t :
  rwf n → jm_get ch (r_c n) = Some i → r_w n ++ ch :: t `prefix_of` w → ends n w d ↔ ends i w d.
Proof.
  intros Hwf Hi Hp. split.
  2: { intros Hd. eapply ends_below; [by apply jm_get_Some_elem|done]. }
  assert (r_w n ++ [ch] `prefix_of` w) as Hp'.
  { etrans; [|exact Hp]. apply prefix_app. by exists t. }
  intros [(_ & <- & _)|(ch' & i' & Hi' & Hd)]%ends_unfold; [by apply prefix_app_not in Hp'|].
  pose proof (ends_child n ch' i' w d Hwf Hi' Hd) as Hp2.
  assert (ch' = ch) as -> by by eapply prefix_next_char.
  apply jm_get_elem in Hi'; [congruence|by apply rwf_keys].
Qed.

Lemma find_walk_spec fuel n t exact :
  rwf n → (length t < fuel)%nat →
  ∃ om, find_walk fuel n t exact = Some om ∧
    match om with
    | Some m => rwf m ∧ (if exact then r_w m = r_w n ++ t else r_w n ++ t `prefix_of` r_w m) ∧
        ∀ w d, r_w n ++ t `prefix_of` w → ends n w d ↔ ends m w d
    | None => ∀ w d, ends n w d → if exact then w ≠ r_w n ++ t else ¬ r_w n ++ t `prefix_of` w
    end.
Proof.
  revert n t. induction fuel as [|fuel IH]; intros n t Hwf Hf; [lia|]. cbn [find_walk].
  destruct t as [|ch t].
  { eexists. split; [done|]. simpl. rewrite app_nil_r. split_and!; [done|by destruct exact|done]. }
  destruct (jm_get ch (r_c n)) as [i|] eqn:Hi.
  2: { eexists. split; [done|]. simpl. intros w d Hd.
       assert (¬ r_w n ++ ch :: t `prefix_of` w) as Hnp.
       { intros Hp. assert (r_w n ++ [ch] `prefix_of` w) as Hp'.
         { etrans; [|exact Hp]. apply prefix_app. by exists t. }
         apply ends_unfold in Hd as [(_ & <- & _)|(ch' & i' & Hi' & Hd)]; [by apply prefix_app_not in Hp'|].
         pose proof (ends_child n ch' i' w d Hwf Hi' Hd) as Hp2.
         assert (ch' = ch) as -> by by eapply prefix_next_char.
         apply jm_get_None in Hi. apply Hi, list_elem_of_fmap. by exists (ch, i'). }
       destruct exact; [|done]. intros ->. by apply Hnp. }
  destruct (rwf_get _ _ _ Hwf Hi) as ((s' & Hs) & _ & Hw & Hwi).
  pose proof (λ w d, ends_via n ch i w d t Hwf Hi) as Hvia.
  pose proof (common_le (r_s i) (ch :: t)) as [Hl1 Hl2].
  destruct (Nat.eqb_spec (common (r_s i) (ch :: t)) (length (r_s i))) as [Hc|Hc]; cbn [negb].
  - pose proof (common_full _ _ Hc) as He.
    destruct (IH i (drop (common (r_s i) (ch :: t)) (ch :: t)) Hwi) as (om & -> & Hom).
    { rewrite length_drop, Hc, Hs. simpl in *. lia. }
    exists om. split; [done|]. rewrite Hc, Hw, <-(assoc_L (++)), <-He in Hom.
    destruct om as [m|].
    + destruct Hom as (Hm & Hpm & Hem). split_and!; [done..|]. intros w d Hp.
      by rewrite Hvia, Hem.
    + intros w d Hd. destruct exact.
      * intros ->. apply Hvia in Hd; [|done]. by eapply Hom.
      * intros Hp. apply Hvia in Hd; [|done]. by eapply Hom.
  - destruct (Nat.eqb_spec (common (r_s i) (ch :: t)) (length (ch :: t))) as [Hc'|Hc'].
    + assert (r_w n ++ ch :: t `prefix_of` r_w i) as Hpi.
      { rewrite Hw. apply prefix_app. by apply prefix_common. }
      destruct exact.
      * eexists. split; [done|]. simpl. intros w d Hd ->. apply Hvia in Hd; [|done].
        apply ends_prefix in Hd; [|done]. rewrite Hw in Hd. apply prefix_app_cancel, prefix_length in Hd.
        lia.
      * eexists. split; [done|]. simpl. by split_and!.
    + eexists. split; [done|]. simpl.
      assert (∀ w d, ends n w d → ¬ r_w n ++ ch :: t `prefix_of` w) as Hnp.
      { intros w d Hd Hp. apply Hvia in Hd; [|done]. apply ends_prefix in Hd; [|done].
        rewrite Hw in Hd. destruct Hp as [k ->]. rewrite <-(assoc_L (++)) in Hd.
        apply prefix_app_cancel in Hd. eapply common_diverge; [..|exact Hd|by exists k]; lia. }
      intros w d Hd. destruct exact; [intros ->|]; by eapply Hnp.
Qed.

Lemma radix_find_plain n t exact :
  rwf n → r_w n = [] →
  ∃ o, radix_find n t exact 0 = Some o ∧
    ∀ w d, w ≠ proto_key → jm_get w o = Some d ↔
      ends n w d ∧ (if exact then w = t else t `prefix_of` w).
Proof.
  intros Hwf Hw. unfold radix_find. cbn [Z.eqb negb andb].
  destruct (find_walk_spec (S (length t)) n t exact Hwf) as (om & -> & Hom); [lia|].
  rewrite Hw in Hom. simpl in *. destruct om as [m|]; cbn [mbind option_bind].
  2: { eexists. split; [done|]. intros w d _. simpl. split; [done|]. intros [Hd Ht].
       apply Hom in Hd. by destruct exact. }
  destruct Hom as (Hm & Hpm & Hem). eexists. split; [done|]. intros w d Hwp. destruct exact.
  - destruct (decide (t = proto_key)) as [->|Htp].
    { split; [|naive_solver]. by rewrite findAllWords_proto. }
    rewrite findAllWords_exact by (done || lia). simpl. split.
    + destruct (r_e m) eqn:He; simpl; [|done]. case_bool_decide; [subst w|done]. intros [= <-]. split; [|done].
      apply Hem; [done|]. rewrite <-Hpm. by constructor.
    + intros [Hd ->]. apply Hem in Hd; [|done].
      apply ends_unfold in Hd as [(He & _ & <-)|(ch & i & Hi & Hd)].
      * by rewrite He, bool_decide_eq_true_2.
      * apply (ends_child m ch i) in Hd as Hp; [|done..]. rewrite Hpm in Hp. by apply prefix_app_not in Hp.
  - destruct (findAllWords_plain m [] t Hm w Hwp) as [Ha Hb]. split.
    + intros Hg. destruct (word_docs m w) as [d'|] eqn:Hd'.
      * apply word_docs_ends in Hd'. rewrite (Ha _ Hd') in Hg. injection Hg as <-.
        assert (t `prefix_of` w) by (etrans; [exact Hpm|by eapply ends_prefix]).
        split; [by apply Hem|done].
      * rewrite Hb in Hg; [done|]. by apply word_docs_none.
    + intros [Hd Hp]. apply Ha. by apply Hem.
Qed.
End query.
