(* ===== verification/RadixTheorems.v ===== *)
(** * Theorems about the radix tree *)

From S2P Require Import Prelude JSColl Levenshtein Radix RadixInsert RadixQuery.
Local Open Scope Z_scope.

Section loops.
Context {D : Type} `{EqDecision D}.
Implicit Types (n i m : rnode D) (w t : jsstr) (d : list D) (o : table D).

(** ** The recursive definitions are the loops on the explicit stack *)
Lemma findAllWords_loop n st o t exact r :
  ∃ k, Nat.iter k (findAllWords_iter t exact r) (n :: st, o) = (st, findAllWords n o t exact r).
Proof.
  revert st o. induction n as [k s w e d c IH] using rnode_ind'. intros st o.
  set (it := findAllWords_iter t exact r). cbn [findAllWords].
  destruct (findAllWords_node (RN k s w e d c) o t exact r) as [o1|] eqn:Hn.
  2: { exists 1%nat. cbn [Nat.iter nat_rect]. unfold it, findAllWords_iter. by rewrite Hn. }
  assert (∃ k, Nat.iter k it (rev c.*2 ++ st, o1) =
    (st, foldr (λ p e, findAllWords p.2 e t exact r) o1 c)) as (k1 & Hk1).
  { clear Hn. revert st. induction IH as [|[ch i] c Hi _ IHc]; intros st; [by exists 0%nat|].
    csimpl. rewrite <-(assoc_L (++)). destruct (IHc ([i] ++ st)) as (k1 & Hk1).
    destruct (Hi st (foldr (λ p e, findAllWords p.2 e t exact r) o1 c)) as (k2 & Hk2).
    exists (k2 + k1)%nat. by rewrite Nat.iter_add, Hk1. }
  exists (k1 + 1)%nat. rewrite Nat.iter_add. cbn [Nat.iter nat_rect]. unfold it at 2, findAllWords_iter.
  by rewrite Hn.
Qed.

Lemma lev_visit_loop fuel e r it st o o' :
  lev_visit fuel e r it o = Some o' →
  ∃ k, Nat.iter k (lev_iter e r) (it :: st, o) = (st, o').
Proof.
  revert it st o o'. induction fuel as [|fuel IH]; intros it st o o'; [done|]. cbn [lev_visit].
  destruct (lev_node e r it o) as [o1 go] eqn:Hn. destruct go.
  2: { intros [= <-]. exists 1%nat. cbn [Nat.iter nat_rect]. unfold lev_iter. by rewrite Hn. }
  intros Hf.
  assert (∀ l st o', foldr (λ it (oo : option (table D)), o ← oo; lev_visit fuel e r it o) (Some o1) l = Some o' →
    ∃ k, Nat.iter k (lev_iter e r) (rev l ++ st, o1) = (st, o')) as Hl.
  { clear Hf. induction l as [|x l IHl]; intros st' o2 Hf; cbn [foldr] in Hf.
    { injection Hf as <-. by exists 0%nat. }
    destruct (foldr _ _ l) as [o3|] eqn:Ho3; [|done]. cbn [mbind option_bind] in Hf.
    cbn [rev]. rewrite <-(assoc_L (++)). cbn [app]. destruct (IHl (x :: st') o3 eq_refl) as (k1 & Hk1).
    destruct (IH x st' o3 o2 Hf) as (k2 & Hk2). exists (k2 + k1)%nat. by rewrite Nat.iter_add, Hk1. }
  destruct (Hl _ st _ Hf) as (k & Hk). exists (k + 1)%nat. rewrite Nat.iter_add.
  cbn [Nat.iter nat_rect]. unfold lev_iter at 2. by rewrite Hn.
Qed.

(** ** Tolerant search *)
Section tolerant.
Context (root : rnode D) (Hroot : rwf root) (e : jsstr) (r : Z) (Hr : 0 ≤ r).

(** Every entry of the table is a word of the tree close to the term. *)
Definition close (w : jsstr) : Prop := e `prefix_of` w ∨ lev e w ≤ r.
Definition sound (o : table D) : Prop :=
  ∀ w d, w ≠ proto_key → jm_get w o = Some d → ends root w d ∧ close w.
Definition inside (n : rnode D) : Prop := rwf n ∧ ∀ w d, ends n w d → ends root w d.

Lemma isBounded_close w : isBounded e w r = true → close w.
Proof.
  rewrite isBounded_spec by done. rewrite orb_true_iff, andb_true_iff, startsWith_spec, Z.leb_le.
  unfold close. naive_solver.
Qed.

Lemma findAllWords_sound n o :
  inside n → sound o → e `prefix_of` r_w n → sound (findAllWords n o e false 0).
Proof.
  intros [Hwf Hin] Ho Hp w d Hw Hg. destruct (findAllWords_plain n o e Hwf w Hw) as [Ha Hb].
  destruct (word_docs n w) as [d'|] eqn:Hd'.
  - apply word_docs_ends in Hd'. rewrite (Ha _ Hd') in Hg. injection Hg as <-.
    split; [auto|]. left. etrans; [exact Hp|by eapply ends_prefix].
  - rewrite Hb in Hg by by apply word_docs_none. by apply Ho.
Qed.

Lemma lev_node_sound n idx (i : Z) o :
  inside n → sound o → sound (lev_node e r (n, idx, i) o).1.
Proof.
  intros Hin Ho. unfold lev_node. destruct (startsWith (r_w n) e) eqn:Hs.
  { apply startsWith_spec in Hs. by apply findAllWords_sound. }
  destruct (i <? 0); [done|]. cbn [fst]. destruct (r_e n && _) eqn:He; [|done].
  apply andb_true_iff in He as [He _]. destruct Hin as [Hwf Hin].
  assert (NoDup (r_d n)) as Hnd by by apply rwf_children in Hwf as (? & _).
  pose proof (Hin _ _ (ends_here n He)) as Hend.
  assert (∀ v, v = r_d n → close (r_w n) → sound (obj_set (r_w n) v o)) as Hset.
  { intros v -> Hc w d Hw. rewrite obj_get_set by done. case_decide; [|by apply Ho].
    intros [= <-]. by subst. }
  destruct (isBounded e (r_w n) r) eqn:Hb.
  - apply isBounded_close in Hb. destruct (jm_get (r_w n) (obj_set (r_w n) [] o)) as [l|] eqn:Hg.
    + destruct (decide (r_w n = proto_key)) as [Hp|Hp].
      { unfold obj_set in *. by rewrite !decide_True by done; destruct (0 <? _)%nat. }
      rewrite obj_get_set, decide_True in Hg by done. injection Hg as <-.
      change (set_add_all (r_d n) (set_of [])) with (set_of (r_d n)). rewrite set_of_id by done.
      destruct (Nat.ltb_spec 0 (length (r_d n))) as [|Hl].
      * intros w d Hw. rewrite !obj_get_set by done. case_decide; [|by apply Ho].
        intros [= <-]. by subst.
      * apply Hset; [|done]. destruct (r_d n); [done|]. simpl in Hl. lia.
    + destruct (decide (r_w n = proto_key)) as [Hp|Hp].
      { unfold obj_set in *. by rewrite decide_True by done. }
      by rewrite obj_get_set, decide_True in Hg by done.
  - destruct (jm_get (r_w n) o) as [l|] eqn:Hg; [|done].
    destruct (0 <? length (r_d n))%nat; [|done].
    destruct (decide (r_w n = proto_key)) as [Hp|Hp].
    { unfold obj_set in *. by rewrite decide_True by done. }
    destruct (Ho _ _ Hp Hg) as [Hd Hc]. assert (l = r_d n) as -> by by apply (ends_unique root (r_w n)).
    rewrite (set_of_id (r_d n)) by done. apply Hset; [|done].
    by apply set_add_all_subset.
Qed.

Lemma inside_child n ch i : inside n → (ch, i) ∈ r_c n → inside i.
Proof.
  intros [Hwf Hin] Hi. split.
  - apply rwf_children in Hwf as (_ & _ & _ & Hall). by apply (Hall _ _ Hi).
  - intros w d Hd. apply Hin. by eapply ends_below.
Qed.

(** What is pushed lies in the tree and costs an index step or a unit of
    tolerance. *)
Definition cost (it : lev_item (D := D)) : nat :=
  let '(_, n, i) := it in (length e - n + Z.to_nat (i + 1))%nat.

Lemma lev_push_spec n idx (i : Z) it :
  inside n → (idx < length e)%nat → 0 ≤ i → it ∈ lev_push e (n, idx, i) →
  inside it.1.1 ∧ (cost it < cost (n, idx, i))%nat.
Proof.
  intros Hin Hidx Hi Hit. unfold lev_push in Hit.
  destruct (lookup_lt_is_Some_2 e idx Hidx) as [a Ha]. rewrite Ha in Hit.
  rewrite !elem_of_app in Hit. unfold cost. destruct Hit as [Hit|[Hit|Hit]].
  - destruct (jm_get a (r_c n)) as [ch|] eqn:Hc; [|by apply elem_of_nil in Hit].
    apply list_elem_of_singleton in Hit as ->. split; [|simpl; lia].
    eapply inside_child; [done|by apply jm_get_Some_elem].
  - apply list_elem_of_singleton in Hit as ->. split; [done|]. simpl. lia.
  - apply list_elem_of_bind in Hit as ([ch x] & Hit & Hx). pose proof (inside_child _ _ _ Hin Hx).
    apply elem_of_cons in Hit as [->|Hit]; [split; [done|simpl; lia]|].
    case_bool_decide; [by apply elem_of_nil in Hit|].
    apply list_elem_of_singleton in Hit as ->. split; [done|]. simpl. lia.
Qed.

Lemma lev_visit_sound fuel it o :
  inside it.1.1 → (cost it < fuel)%nat → sound o →
  ∃ o', lev_visit fuel e r it o = Some o' ∧ sound o'.
Proof.
  revert it o. induction fuel as [|fuel IH]; intros it o Hin Hf Ho; [lia|]. cbn [lev_visit].
  destruct it as [[n idx] i]. simpl in Hin. pose proof (lev_node_sound n idx i o Hin Ho) as Hs.
  assert (∀ b, (lev_node e r (n, idx, i) o).2 = b → b = true → (idx < length e)%nat ∧ 0 ≤ i) as Hgo.
  { intros b <-. unfold lev_node. destruct (startsWith _ _); [done|].
    destruct (Z.ltb_spec i 0); [done|]. cbn [snd]. intros ?%Nat.ltb_lt. done. }
  destruct (lev_node e r (n, idx, i) o) as [o1 go]. simpl in Hs, Hgo.
  destruct go; [|by exists o1]. destruct (Hgo _ eq_refl eq_refl) as [Hidx Hi].
  pose proof (λ it, lev_push_spec n idx i it Hin Hidx Hi) as Hpush. revert Hpush.
  generalize (lev_push e (n, idx, i)). intros l Hpush.
  induction l as [|x l IHl]; [by exists o1|].
  cbn [foldr]. destruct IHl as (o2 & -> & Ho2); [intros; apply Hpush; by right|].
  cbn [mbind option_bind]. destruct (Hpush x) as [? ?]; [by left|]. apply IH; [done| |done].
  lia.
Qed.
End tolerant.
End loops.

Section removal.
Context {D : Type} `{EqDecision D}.
Implicit Types (n i m : rnode D) (w : jsstr) (ox : option D) (t : D).

(** ** contains *)

(** A node of the tree spells [w]. *)
Inductive spells : rnode D → jsstr → Prop :=
  | spells_here n : spells n (r_w n)
  | spells_below n ch i w : (ch, i) ∈ r_c n → spells i w → spells n w.

Lemma spells_prefix n w : rwf n → spells n w → r_w n `prefix_of` w.
Proof.
  intros Hwf Hs. induction Hs as [n|n ch i w Hi _ IH]; [done|].
  apply rwf_children in Hwf as (_ & _ & _ & Hall). destruct (Hall _ _ Hi) as (_ & _ & Hw & Hwi).
  etrans; [|by apply IH]. rewrite Hw. by apply prefix_app_r.
Qed.

Lemma contains_loop_spec fuel n e :
  rwf n → (length e < fuel)%nat →
  ∃ b, contains_loop fuel n e = Some b ∧ (b = true ↔ spells n (r_w n ++ e)).
Proof.
  revert n e. induction fuel as [|fuel IH]; intros n e Hwf Hf; [lia|]. cbn [contains_loop].
  destruct e as [|ch e].
  { eexists. split; [done|]. rewrite app_nil_r. split; [intros; constructor|done]. }
  assert (∀ ch' i', (ch', i') ∈ r_c n → spells i' (r_w n ++ ch :: e) → ch' = ch) as Hch.
  { intros ch' i' Hi' Hs. pose proof Hwf as (_ & _ & _ & Hall)%rwf_children.
    destruct (Hall _ _ Hi') as ((s' & Hs') & _ & Hw & Hwi). apply spells_prefix in Hs; [|done].
    rewrite Hw, Hs' in Hs. apply prefix_app_cancel in Hs. by apply prefix_cons_inv_1 in Hs. }
  assert (¬ r_w n = r_w n ++ ch :: e) as Hne.
  { intros Hx%(f_equal length). rewrite length_app in Hx. simpl in Hx. lia. }
  destruct (jm_get ch (r_c n)) as [i|] eqn:Hi.
  2: { eexists. split; [done|]. split; [done|]. inversion 1 as [|? ch' i' ? Hi' Hs]; subst; [done|].
       rewrite (Hch _ _ Hi' Hs) in Hi'. apply jm_get_None in Hi. destruct Hi.
       apply list_elem_of_fmap. by exists (ch, i'). }
  destruct (rwf_get _ _ _ Hwf Hi) as ((s' & Hs) & _ & Hw & Hwi).
  assert (spells n (r_w n ++ ch :: e) ↔ spells i (r_w n ++ ch :: e)) as Hvia.
  { split; [|intros; eapply spells_below; [by apply jm_get_Some_elem|done]].
    inversion 1 as [|? ch' i' ? Hi' Hs']; subst; [done|].
    rewrite (Hch _ _ Hi' Hs') in Hi'. apply jm_get_elem in Hi'; [congruence|by apply rwf_keys]. }
  pose proof (common_le (r_s i) (ch :: e)) as [Hl1 Hl2].
  destruct (Nat.ltb_spec (common (r_s i) (ch :: e)) (length (r_s i))) as [Hc|Hc].
  - eexists. split; [done|]. split; [done|]. rewrite Hvia. intros Hp%spells_prefix; [|done].
    rewrite Hw in Hp. apply prefix_app_cancel in Hp. exfalso.
    destruct (Nat.eq_dec (common (r_s i) (ch :: e)) (length (ch :: e))) as [Hq|Hq].
    + apply prefix_length in Hp. lia.
    + eapply common_diverge; [exact Hc| |exact Hp|done]. lia.
  - assert (common (r_s i) (ch :: e) = length (r_s i)) as Hceq by lia.
    pose proof (common_full _ _ Hceq) as He.
    destruct (IH i (drop (length (r_s i)) (ch :: e)) Hwi) as (b & Hb & Hiff).
    { rewrite length_drop, Hs. simpl in *. lia. }
    exists b. split; [done|]. rewrite Hiff, Hvia, Hw, <-(assoc_L (++)), <-He. done.
Qed.

(** ** removeDocumentByWord *)
Lemma removeDocument_wf n t : rwf n → rwf (removeDocument n t).
Proof.
  rewrite !rwf_children. destruct n; simpl. intros (? & Hd & ? & ?).
  split_and!; auto with jsdb. intros He. by rewrite (Hd He).
Qed.

Lemma has_removeDocument n t w ox :
  rwf n → has (removeDocument n t) w ox ↔ has n w ox ∧ ¬ (w = r_w n ∧ ox = Some t).
Proof.
  intros Hwf. rewrite !(has_unfold _ w). destruct n as [k s wn e d c] eqn:Hn; unfold at_node; simpl.
  assert (∀ ch i, (ch, i) ∈ c → has i w ox → w ≠ wn) as Hne.
  { intros ch i Hi Hh ->. apply has_ends in Hh as (d' & Hd & _).
    rewrite <-Hn in Hwf. apply (ends_child n ch i) in Hd as Hp; subst n; try done.
    by apply prefix_app_not in Hp. }
  destruct ox as [x|]; [rewrite elem_of_set_delete|]; naive_solver.
Qed.

Lemma drop_prefix (s rest : jsstr) : s `prefix_of` rest → rest = s ++ drop (length s) rest.
Proof. intros [k ->]. by rewrite drop_app_length. Qed.

Lemma removeDocumentByWord_loop_spec fuel r rest e t :
  rwf r → (length rest < fuel)%nat → r_w r ++ rest = e ∨ ¬ r_w r `prefix_of` e →
  ∃ r' b, removeDocumentByWord_loop fuel r rest e t true = Some (r', b) ∧ rwf r' ∧
    r_k r' = r_k r ∧ r_s r' = r_s r ∧ r_w r' = r_w r ∧
    ∀ w ox, has r' w ox ↔
      has r w ox ∧ ¬ (w = e ∧ ox = Some t ∧ rest ≠ [] ∧ r_w r ++ rest = e).
Proof.
  revert r rest. induction fuel as [|fuel IH]; intros r rest Hwf Hf Hpath; [lia|].
  cbn [removeDocumentByWord_loop]. destruct rest as [|o rest].
  { exists r, true. split_and!; [done..|]. intros. naive_solver. }
  destruct (jm_get o (r_c r)) as [i|] eqn:Hi.
  2: { exists r, false. split_and!; [done..|]. intros w ox. split; [|by intros [? _]].
       intros Hh. split; [done|]. intros (-> & _ & _ & He).
       apply (has_get_none r o) in Hh as [(_ & Hw & _)|(ch & i & Hi' & Hne & Hh)]; [| |done].
       - rewrite <-He in Hw. apply (f_equal length) in Hw. rewrite length_app in Hw. simpl in Hw. lia.
       - apply has_ends in Hh as (d & Hd & _). apply (ends_child r ch i) in Hd; [|done..].
         rewrite <-He in Hd. apply prefix_app_cancel, prefix_cons_inv_1 in Hd. congruence. }
  destruct (rwf_get _ _ _ Hwf Hi) as ((s' & Hs) & Hk & Hw & Hwi). cbn [andb].
  set (i1 := if negb (bool_decide (r_w i = e)) then i else removeDocument i t).
  assert (rwf i1 ∧ r_k i1 = r_k i ∧ r_s i1 = r_s i ∧ r_w i1 = r_w i) as (Hwf1 & Hk1 & Hs1 & Hw1).
  { unfold i1. case_bool_decide; simpl; [|done]. pose proof (removeDocument_wf i t Hwi).
    split_and!; by destruct i. }
  assert (∀ w ox, has i1 w ox ↔ has i w ox ∧ ¬ (w = e ∧ ox = Some t ∧ r_w i = e)) as Hh1.
  { intros w ox. unfold i1. case_bool_decide as He; simpl; [|naive_solver].
    rewrite has_removeDocument by done. rewrite He. naive_solver. }
  set (rest' := drop (length (r_s i)) (o :: rest)).
  assert (r_w i ++ rest' = e ∧ r_w r ++ o :: rest = e ∨ ¬ r_w i `prefix_of` e) as Hpath'.
  { destruct Hpath as [He|Hnp].
    - destruct (decide (r_w i `prefix_of` e)) as [Hp|Hp]; [left|by right]. split; [|done].
      rewrite <-He, Hw in Hp. apply prefix_app_cancel in Hp.
      unfold rest'. by rewrite Hw, <-(assoc_L (++)), <-(drop_prefix _ _ Hp).
    - right. intros Hp. apply Hnp. etrans; [|exact Hp]. rewrite Hw. by apply prefix_app_r. }
  destruct (IH i1 rest') as (i' & b & -> & Hwf' & Hk' & Hs' & Hw' & Hh'); [done| |rewrite Hw1; tauto|].
  { unfold rest'. rewrite length_drop, Hs. simpl in *. lia. }
  cbn [mbind option_bind]. exists (set_children (jm_set o i' (r_c r)) r), b.
  assert (child_ok (r_w r) o i') as Hok.
  { split_and!; rewrite ?Hk', ?Hs', ?Hw', ?Hk1, ?Hs1, ?Hw1; [by eexists|done..]. }
  split_and!; [done|by apply set_child_wf|by destruct r..|]. intros w ox.
  rewrite has_set_child, (has_get_child r o i), Hh', Hh1, Hw1 by done.
  assert (at_node r w ox → r_w r ++ o :: rest = e → w ≠ e) as Ha.
  { intros (_ & <- & _) <- Hx%(f_equal length). rewrite length_app in Hx. simpl in Hx. lia. }
  assert (∀ ch i, (ch, i) ∈ r_c r → ch ≠ o → has i w ox → r_w r ++ o :: rest = e → w ≠ e) as Hb.
  { intros ch j Hj Hne (d & Hd & _)%has_ends He ->. apply (ends_child r ch j) in Hd; [|done..].
    rewrite <-He in Hd. apply prefix_app_cancel, prefix_cons_inv_1 in Hd. congruence. }
  assert (has i w ox → ¬ r_w i `prefix_of` e → w ≠ e) as Hc.
  { intros Hh Hnp ->. apply Hnp. by eapply has_prefix. }
  assert (r_w i ++ rest' = e → r_w i = e ∨ rest' ≠ []) as Hd.
  { intros He. destruct rest'; [left; by rewrite app_nil_r in He|by right]. }
  assert (r_w i = e → r_w i `prefix_of` e) as He by (by intros ->).
  assert (r_w i ++ rest' = e → r_w i `prefix_of` e) as Hf' by (intros <-; by apply prefix_app_r).
  clear IH Hf Hwf Hwf' Hwf1 Hh1 Hh' Hi Hok. destruct Hpath' as [[? ?]|?]; naive_solver.
Qed.
End removal.
