(* ===== verification/RadixClaims.v ===== *)
(** * The promises of the radix tree, and where it breaks them *)

From S2P Require Import Prelude JSColl Levenshtein Radix RadixInsert RadixQuery RadixTheorems.
Local Open Scope Z_scope.

Section claims.
Context {D : Type} `{EqDecision D}.
Implicit Types (n : rnode D) (w t : jsstr).

(** A tree as the constructor and [insert] build it. *)
Definition radix_ok n : Prop := rwf n ∧ r_w n = [].

Lemma new_radix_ok : radix_ok (new_radix (D := D)).
Proof.
  split; [|done]. apply rwf_children. simpl. split_and!; [constructor|done|constructor|].
  intros ? ? Hi. by apply elem_of_nil in Hi.
Qed.

(** The documents a result table gives for a word. *)
Definition found (o : table D) w (x : D) : Prop := ∃ d, jm_get w o = Some d ∧ x ∈ d.

(** C7. The radix tree implements prefix search: inserting a word with a
    document succeeds and keeps the tree well-formed, and afterwards
    [find({term})] lists exactly the words that start with the term, each
    with exactly the documents inserted for it; with [exact] only the term
    itself. ([__proto__] cannot be a key of the result object.) *)
Theorem radix_insert_find n e (x : D) t (exact : bool) :
  radix_ok n →
  ∃ n' o, radix_insert n e x = Some n' ∧ radix_ok n' ∧ radix_find n' t exact 0 = Some o ∧
    ∀ w y, w ≠ proto_key →
      found o w y ↔ (if exact then w = t else t `prefix_of` w) ∧
                    ((w = e ∧ y = x) ∨ has n w (Some y)).
Proof.
  intros [Hwf Hw]. destruct (radix_insert_spec n e x Hwf) as (n' & Hn' & Hwf' & Hw' & Hh).
  rewrite Hw in Hw', Hh. destruct (radix_find_plain n' t exact Hwf' Hw') as (o & Ho & Hg).
  exists n', o. split_and!; [done|by split|done|]. intros w y Hp. unfold found.
  assert ((∃ d, ends n' w d ∧ y ∈ d) ↔ (w = e ∧ y = x) ∨ has n w (Some y)) as <-.
  { rewrite <-(has_ends n' w (Some y)), Hh. simpl. naive_solver. }
  setoid_rewrite Hg; [|done]. naive_solver.
Qed.

(** Searching with a tolerance ends, and reports only words of the tree
    that start with the term or are within that many edits of it, with their
    documents. *)
Theorem radix_tolerance_sound n t (r : Z) :
  radix_ok n → 0 < r →
  ∃ o, radix_find n t false r = Some o ∧
    ∀ w y, w ≠ proto_key → found o w y →
      has n w (Some y) ∧ (t `prefix_of` w ∨ ∃ k, edits t w k ∧ Z.of_nat k ≤ r).
Proof.
  intros [Hwf Hw] Hr. unfold radix_find, _findLevenshtein.
  rewrite (proj2 (Z.eqb_neq r 0)) by lia. cbn [negb andb].
  destruct (lev_visit_sound n Hwf t r ltac:(lia) (S (length t + S (Z.to_nat r))) (n, 0%nat, r) [])
    as (o & -> & Ho).
  - by split.
  - cbn [cost]. lia.
  - by intros w d.
  - exists o. split; [done|]. intros w y Hp (d & Hd & Hy). destruct (Ho w d Hp Hd) as [He Hc].
    split; [apply has_ends; eauto|]. destruct Hc as [|Hc]; [by left|]. right.
    exists (Z.to_nat (lev t w)). split; [apply lev_edits|]. pose proof (lev_nonneg t w). lia.
Qed.

(** [removeDocumentByWord(e, t)] takes document [t] from the word [e] and
    changes nothing else, although the walk compares only the first character
    of each edge: a node is touched only when it spells [e]. *)
Theorem radix_remove_document n e (x : D) :
  radix_ok n →
  ∃ n' b, removeDocumentByWord n e x true = Some (n', b) ∧ radix_ok n' ∧
    ∀ w y, e ≠ [] → has n' w (Some y) ↔ has n w (Some y) ∧ ¬ (w = e ∧ y = x).
Proof.
  intros [Hwf Hw]. destruct e as [|c e]; [by exists n, true|]. unfold removeDocumentByWord.
  destruct (removeDocumentByWord_loop_spec (S (length (c :: e))) n (c :: e) (c :: e) x)
    as (n' & b & -> & Hwf' & _ & _ & Hw' & Hh); [done|lia|left; by rewrite Hw|].
  exists n', b. split_and!; [done|split; [done|by rewrite Hw']|]. intros w y _. rewrite Hh, Hw.
  naive_solver.
Qed.

(** [contains(e)] tells whether some node spells [e], which is not whether
    [e] was inserted: branching nodes count, and the empty string always
    does. *)
Theorem radix_contains_spec n e :
  radix_ok n →
  ∃ b, radix_contains n e = Some b ∧ (b = true ↔ spells n e) ∧ (has n e None → b = true).
Proof.
  intros [Hwf Hw]. destruct (contains_loop_spec (S (length e)) n e Hwf) as (b & Hb & Hiff); [lia|].
  rewrite Hw in Hiff. exists b. split_and!; [done..|]. rewrite Hiff. clear.
  induction 1 as [n w ox (_ & <- & _)|]; [constructor|by eapply spells_below].
Qed.

Fixpoint insert_words (n : rnode D) (l : list (jsstr * D)) : option (rnode D) :=
  match l with
  | [] => Some n
  | (e, x) :: l => n ← radix_insert n e x; insert_words n l
  end.

(** ** JSON *)
Lemma radix_json n : rwf n → radix_fromJSON (radix_toJSON n) = n.
Proof.
  induction n as [k s w e d c IH] using rnode_ind'. intros (Hd & _ & Hc & Hall)%rwf_children.
  simpl in *. rewrite set_of_id by done. f_equal.
  assert ((λ p, (p.1, radix_fromJSON p.2)) <$> ((λ p, (p.1, radix_toJSON p.2)) <$> c) = c) as ->.
  { rewrite <-list_fmap_compose. clear Hc. induction IH as [|[ch i] c Hi _ IHc]; [done|]. csimpl.
    simpl in Hi. rewrite IHc by set_solver. rewrite Hi; [done|]. apply (Hall ch i). set_solver. }
  by rewrite jm_set_fold.
Qed.
End claims.

(** Tolerance can lose exact matches: [_findLevenshtein] advances the term
    by one character per edge whatever the length of the edge, so a word three
    edges deep is out of reach with tolerance 1, while a search without
    tolerance finds it. *)
Theorem radix_tolerance_misses :
  let words := [js "aax"; js "aabbx"; js "aabbccx"; js "aabbccdd"] in
  ∃ n, insert_words (new_radix (D := N)) (zip words [1; 2; 3; 4]%N) = Some n ∧
    radix_find n (js "aabbccdd") false 0 = Some [(js "aabbccdd", [4%N])] ∧
    radix_find n (js "aabbccdd") false 1 = Some [].
Proof. eexists. split; [reflexivity|]. split; vm_compute; reflexivity. Qed.

(** [removeWord] compares only the first character of an edge: asked to
    remove a word that is not in the tree it reports success and deletes
    another word. *)
Theorem radix_removeWord_wrong :
  ∃ n n', insert_words (new_radix (D := N)) [(js "cow", 1%N)] = Some n ∧
    has n (js "cow") (Some 1%N) ∧ ¬ has n (js "cat") None ∧
    removeWord n (js "cat") = Some (n', true) ∧ ¬ has n' (js "cow") None.
Proof.
  eexists _, _. split; [reflexivity|]. split_and!.
  - eapply has_below; [by left|]. constructor. split_and!; [done..|by left].
  - intros (d & Hd & _)%has_ends. apply ends_unfold in Hd as [(? & _)|(ch & i & Hi & Hd)]; [done|].
    apply list_elem_of_singleton in Hi as [= -> ->].
    apply ends_unfold in Hd as [(_ & ? & _)|(ch & i & Hi & _)]; [done|by apply elem_of_nil in Hi].
  - reflexivity.
  - intros (d & Hd & _)%has_ends. apply ends_unfold in Hd as [(? & _)|(ch & i & Hi & Hd)]; [done|].
    by apply elem_of_nil in Hi.
Qed.

(** ** Witnesses *)
Definition sample_radix : rnode N :=
  default new_radix (insert_words new_radix [(js "cat", 1%N); (js "car", 2%N); (js "cat", 3%N)]).

Lemma sample_radix_ok : radix_ok sample_radix.
Proof.
  destruct (radix_insert_spec (new_radix (D := N)) (js "cat") 1%N (proj1 new_radix_ok))
    as (n1 & E1 & W1 & R1 & _).
  destruct (radix_insert_spec n1 (js "car") 2%N W1) as (n2 & E2 & W2 & R2 & _).
  destruct (radix_insert_spec n2 (js "cat") 3%N W2) as (n3 & E3 & W3 & R3 & _).
  unfold sample_radix. cbn [insert_words]. rewrite E1. cbn [mbind option_bind]. rewrite E2.
  cbn [mbind option_bind]. rewrite E3. cbn [default mbind option_bind]. split; [exact W3|].
  change (r_w n3 = []). by rewrite R3, R2, R1.
Qed.

Lemma radix_insert_find_witness :
  ∃ n o, radix_insert sample_radix (js "card") 4%N = Some n ∧
    radix_find n (js "car") false 0 = Some o ∧ found o (js "card") 4%N.
Proof.
  destruct (radix_insert_find sample_radix (js "card") 4%N (js "car") false sample_radix_ok)
    as (n & o & H1 & _ & H2 & H3).
  exists n, o. split_and!; [exact H1|exact H2|]. apply H3; [by vm_compute|].
  split; [|by left]. by exists (js "d").
Defined.

Lemma radix_tolerance_sound_witness :
  ∃ o, radix_find sample_radix (js "cet") false 1 = Some o ∧
    ∀ y, found o (js "cat") y → has sample_radix (js "cat") (Some y).
Proof.
  destruct (radix_tolerance_sound sample_radix (js "cet") 1 sample_radix_ok) as (o & Ho & H); [lia|].
  exists o. split; [exact Ho|]. intros y Hy. apply (H (js "cat") y); [by vm_compute|exact Hy].
Defined.

Lemma radix_remove_document_witness :
  ∃ n b, removeDocumentByWord sample_radix (js "cat") 1%N true = Some (n, b) ∧
    ¬ has n (js "cat") (Some 1%N).
Proof.
  destruct (radix_remove_document sample_radix (js "cat") 1%N sample_radix_ok) as (n & b & H1 & _ & H2).
  exists n, b. split; [exact H1|]. rewrite H2 by done. tauto.
Defined.

Lemma radix_contains_spec_witness :
  ∃ b, radix_contains sample_radix (js "ca") = Some b ∧ (b = true ↔ spells sample_radix (js "ca")).
Proof.
  destruct (radix_contains_spec sample_radix (js "ca") sample_radix_ok) as (b & H1 & H2 & _).
  exists b. split; [exact H1|exact H2].
Defined.
