(* ===== verification/BKD.v ===== *)
(** * The geographic index (classes [pe] and [ge])

    A tree of points split alternately by longitude and latitude, with a map
    from coordinates to nodes. Nodes are mutable objects with parent links and
    are shared between the tree and the map, so they live in a store. *)

From Stdlib Require Import SpecFloat.
From S2P Require Import Prelude JSColl JSNum Utils AVL.
Local Open Scope Z_scope.

(** The functions of [Math] that are not determined by IEEE 754. *)
Class MathOps := {
  math_sin : number → number;
  math_cos : number → number;
  math_tan : number → number;
  math_atan : number → number;
  math_atan2 : number → number → number;
  math_log : number → number;
}.

(** [Math.PI] *)
Definition math_PI : number := S754_finite false 7074237752028440 (-51).

Record point := Point { lon : number; lat : number }.
#[global] Instance point_eq_dec : EqDecision point.
Proof. solve_decision. Defined.

(** [getPointKey(e)]: the text of the two numbers, in which -0 is 0; numbers
    with the same text are the same otherwise. *)
Definition num_key (n : number) : number := match n with S754_zero _ => num_zero | n => n end.
Definition getPointKey (e : point) : number * number := (num_key (lon e), num_key (lat e)).

Section bkd.
Context {D : Type} `{EqDecision D}.

Record bnode := BNode {
  b_point : point; docIDs : list D; b_left : option loc; b_right : option loc; b_parent : option loc }.

Record bkd := Bkd {
  b_cells : gmap loc bnode; b_next : loc; b_root : option loc;
  nodeMap : list ((number * number) * loc) }.

Definition new_bkd : bkd := Bkd ∅ 1 None [].

Definition set_left (p : option loc) (n : bnode) : bnode :=
  BNode (b_point n) (docIDs n) p (b_right n) (b_parent n).
Definition set_right (p : option loc) (n : bnode) : bnode :=
  BNode (b_point n) (docIDs n) (b_left n) p (b_parent n).
Definition set_parent (p : option loc) (n : bnode) : bnode :=
  BNode (b_point n) (docIDs n) (b_left n) (b_right n) p.
Definition set_docIDs (d : list D) (n : bnode) : bnode :=
  BNode (b_point n) d (b_left n) (b_right n) (b_parent n).
Definition bwrite (hp : gmap loc bnode) (a : loc) (f : bnode → bnode) : option (gmap loc bnode) :=
  n ← hp !! a; Some (<[a := f n]> hp).

(** ** insert *)

(** Does the point go left of node [s] at depth [i]? *)
Definition goes_left (e p : point) (i : nat) : bool :=
  if Nat.even i then ltb (lon e) (lon p) else ltb (lat e) (lat p).

(** The loop that finds the place of the new node [o]. *)
Fixpoint place (fuel : nat) (hp : gmap loc bnode) (e : point) (o s : loc) (i : nat) :
    option (gmap loc bnode) :=
  match fuel with
  | O => None
  | S fuel =>
      sn ← hp !! s;
      if goes_left e (b_point sn) i then
        match b_left sn with
        | None => hp ← bwrite hp s (set_left (Some o)); bwrite hp o (set_parent (Some s))
        | Some l => place fuel hp e o l (S i)
        end
      else
        match b_right sn with
        | None => hp ← bwrite hp s (set_right (Some o)); bwrite hp o (set_parent (Some s))
        | Some r => place fuel hp e o r (S i)
        end
  end.

Definition bkd_insert (tr : bkd) (e : point) (t : list D) : option bkd :=
  let n := getPointKey e in
  match jm_get n (nodeMap tr) with
  | Some r =>
      hp ← bwrite (b_cells tr) r (λ rn, set_docIDs (set_add_all t (docIDs rn)) rn);
      Some (Bkd hp (b_next tr) (b_root tr) (nodeMap tr))
  | None =>
      let o := b_next tr in
      let hp := <[o := BNode e (set_of t) None None None]> (b_cells tr) in
      let nm := jm_set n o (nodeMap tr) in
      match b_root tr with
      | None => Some (Bkd hp (Pos.succ o) (Some o) nm)
      | Some s =>
          hp ← place (S (size (b_cells tr))) hp e o s 0;
          Some (Bkd hp (Pos.succ o) (b_root tr) nm)
      end
  end.

Definition bkd_contains (tr : bkd) (e : point) : bool := jm_has (getPointKey e) (nodeMap tr).

Definition getDocIDsByCoordinates (tr : bkd) (e : point) : option (option (list D)) :=
  match jm_get (getPointKey e) (nodeMap tr) with
  | None => Some None
  | Some a => n ← b_cells tr !! a; Some (Some (docIDs n))
  end.

(** ** removal *)
Definition deleteNode (hp : gmap loc bnode) (rt : option loc) (e : loc) :
    option (gmap loc bnode * option loc) :=
  en ← hp !! e;
  let t := b_parent en in
  let n := match b_left en with Some l => Some l | None => b_right en end in
  hp ← match n with Some a => bwrite hp a (set_parent t) | None => Some hp end;
  match t with
  | Some t =>
      tn ← hp !! t;
      if decide (b_left tn = Some e) then hp ← bwrite hp t (set_left n); Some (hp, rt)
      else if decide (b_right tn = Some e) then hp ← bwrite hp t (set_right n); Some (hp, rt)
      else Some (hp, rt)
  | None =>
      match n with
      | Some a => hp ← bwrite hp a (set_parent None); Some (hp, n)
      | None => Some (hp, n)
      end
  end.

Definition removeDocByID (tr : bkd) (e : point) (t : D) : option bkd :=
  let n := getPointKey e in
  match jm_get n (nodeMap tr) with
  | None => Some tr
  | Some r =>
      hp ← bwrite (b_cells tr) r (λ rn, set_docIDs (set_delete t (docIDs rn)) rn);
      rn ← hp !! r;
      if (length (docIDs rn) =? 0)%nat then
        '(hp, rt) ← deleteNode hp (b_root tr) r;
        Some (Bkd hp (b_next tr) rt (jm_delete n (nodeMap tr)))
      else Some (Bkd hp (b_next tr) (b_root tr) (nodeMap tr))
  end.

(** ** Queries *)
Definition hit : Type := point * list D.

(** The walk over all nodes that both queries make: [keep] decides which nodes
    are reported; the right child is on top of the stack. *)
Fixpoint visit_all (fuel : nat) (hp : gmap loc bnode) (keep : point → bool) (st : list loc)
    (a : list hit) : option (list hit) :=
  match fuel with
  | O => None
  | S fuel =>
      match st with
      | [] => Some a
      | r :: st =>
          rn ← hp !! r;
          let a := if keep (b_point rn) then a ++ [(b_point rn, docIDs rn)] else a in
          let st := match b_left rn with Some l => l :: st | None => st end in
          let st := match b_right rn with Some x => x :: st | None => st end in
          visit_all fuel hp keep st a
      end
  end.

Definition visit_tree (tr : bkd) (keep : point → bool) : option (list hit) :=
  visit_all (S (size (b_cells tr))) (b_cells tr) keep
    (match b_root tr with Some r => [r] | None => [] end) [].

(** The order of the hits: by distance from a point. *)
Definition by_distance (dist : point → point → number) (asc : bool) (e : point) (l : list hit) : list hit :=
  js_sort (λ t n,
    let o := dist e t.1 in let i := dist e n.1 in
    negb (ltb num_zero (if asc then num_sub o i else num_sub i o))) l.

Context `{MathOps}.

Definition haversineDistance (e t : point) : number :=
  let n := num_div math_PI (num_of_Z 180) in
  let r := num_mul (lat e) n in
  let o := num_mul (lat t) n in
  let s := num_mul (num_sub (lat t) (lat e)) n in
  let i := num_mul (num_sub (lon t) (lon e)) n in
  let two := num_of_Z 2 in
  let half_s := math_sin (num_div s two) in
  let half_i := math_sin (num_div i two) in
  let a := num_add (num_mul half_s half_s)
             (num_mul (num_mul (num_mul (math_cos r) (math_cos o)) half_i) half_i) in
  num_mul (num_of_Z 6371000)
    (num_mul two (math_atan2 (num_sqrt a) (num_sqrt (num_sub (num_of_Z 1) a)))).

(** The iteration of [vincentyDistance]; the result is [None] for the early
    [return 0], else the last values of [m], [y], [b], [w], [v] and [O]. *)
Fixpoint vincenty_loop (O_ : nat) (r c f d h p : number) (I_ : number) :
    option (number * number * number * number * number * nat) :=
  let one := num_of_Z 1 in let two := num_of_Z 2 in
  let e := math_sin I_ in
  let t := math_cos I_ in
  let x := num_sub (num_mul d h) (num_mul (num_mul f p) t) in
  let m := num_sqrt (num_add (num_mul (num_mul p e) (num_mul p e)) (num_mul x x)) in
  if eqb num_zero m then None
  else
    let y := num_add (num_mul f h) (num_mul (num_mul d p) t) in
    let b := math_atan2 m y in
    let S_ := num_div (num_mul (num_mul d p) e) m in
    let w := num_sub one (num_mul S_ S_) in
    let v := num_sub y (num_div (num_mul (num_mul two f) h) w) in
    let v := if isNaN v then num_zero else v in
    let n := num_mul (num_mul (num_div r (num_of_Z 16)) w)
               (num_add (num_of_Z 4) (num_mul r (num_sub (num_of_Z 4) (num_mul (num_of_Z 3) w)))) in
    let g := I_ in
    let I_ := num_add c (num_mul (num_mul (num_mul (num_sub one n) r) S_)
                (num_add b (num_mul (num_mul n m)
                   (num_add v (num_mul (num_mul n y)
                      (num_sub (num_mul (num_mul two v) v) one)))))) in
    if ltb (num_dec 1 12) (SFabs (num_sub I_ g)) then
      match O_ with
      | O | S O => Some (m, y, b, w, v, 0%nat)
      | S O' => vincenty_loop O' r c f d h p I_
      end
    else Some (m, y, b, w, v, O_).

Definition vincentyDistance (e t : point) : number :=
  let one := num_of_Z 1 in let two := num_of_Z 2 in
  let n := num_of_Z 6378137 in
  let r := num_div one (num_dec 298257223563 9) in
  let o := num_mul (num_sub one r) n in
  let s := num_div math_PI (num_of_Z 180) in
  let i := num_mul (lat e) s in
  let a := num_mul (lat t) s in
  let c := num_mul (num_sub (lon t) (lon e)) s in
  let l := math_atan (num_mul (num_sub one r) (math_tan i)) in
  let u := math_atan (num_mul (num_sub one r) (math_tan a)) in
  let f := math_sin l in let d := math_cos l in
  let h := math_sin u in let p := math_cos u in
  match vincenty_loop 1000 r c f d h p c with
  | None => num_zero
  | Some (m, y, b, w, v, O_) =>
      if (O_ =? 0)%nat then S754_nan
      else
        let T := num_div (num_mul w (num_sub (num_mul n n) (num_mul o o))) (num_mul o o) in
        let N_ := num_mul (num_div T (num_of_Z 1024))
          (num_add (num_of_Z 256) (num_mul T
             (num_sub (num_mul T (num_sub (num_of_Z 74) (num_mul (num_of_Z 47) T))) (num_of_Z 128)))) in
        let A_ := num_add one (num_mul (num_div T (num_of_Z 16384))
          (num_add (num_of_Z 4096) (num_mul T
             (num_sub (num_mul T (num_sub (num_of_Z 320) (num_mul (num_of_Z 175) T))) (num_of_Z 768))))) in
        let vv := num_sub (num_mul (num_mul two v) v) one in
        let inner := num_sub (num_mul y vv)
          (num_mul (num_mul (num_mul (num_div N_ (num_of_Z 6)) v)
             (num_sub (num_mul (num_mul (num_of_Z 4) m) m) (num_of_Z 3)))
             (num_sub (num_mul (num_mul (num_of_Z 4) v) v) (num_of_Z 3))) in
        num_mul (num_mul o A_)
          (num_sub b (num_mul (num_mul N_ m) (num_add v (num_mul (num_div N_ (num_of_Z 4)) inner))))
  end.

Definition distance (o : bool) : point → point → number :=
  if o then vincentyDistance else haversineDistance.

(** [searchByRadius(e, t, n, r, o)]; [r] is the order, [None] when it is
    falsy, else whether it is ascending. *)
Definition searchByRadius (tr : bkd) (e : point) (t : number) (n : bool) (r : option bool) (o : bool) :
    option (list hit) :=
  a ← visit_tree tr (λ p, let c := distance o e p in if n then leb c t else ltb t c);
  Some (match r with Some asc => by_distance (distance o) asc e a | None => a end).

(** ** Polygons *)

(** The edges [(e[s], e[i])] in the order of the loops. *)
Definition polygon_edges (e : list point) : list (point * point) :=
  match last e with
  | None => []
  | Some z => zip e (z :: e)
  end.

Definition isPointInPolygon (e : list point) (t : point) : bool :=
  foldl (λ n '(ps, pi),
    let '(s, a, c, l) := (lon ps, lat ps, lon pi, lat pi) in
    if xorb (ltb (lat t) a) (ltb (lat t) l) &&
       ltb (lon t) (num_add (num_div (num_mul (num_sub c s) (num_sub (lat t) a)) (num_sub l a)) s)
    then negb n else n) false (polygon_edges e).

Definition calculatePolygonCentroid (e : list point) : point :=
  let '(t, n, r) := foldl (λ '(t, n, r) '(ps, pi),
    let '(o, a, c, l) := (lon ps, lat ps, lon pi, lat pi) in
    let u := num_sub (num_mul o l) (num_mul c a) in
    (num_add t u, num_add n (num_mul (num_add o c) u), num_add r (num_mul (num_add a l) u)))
    (num_zero, num_zero, num_zero) (polygon_edges e) in
  let t := num_div t (num_of_Z 2) in
  let s := num_mul (num_of_Z 6) t in
  Point (num_div n s) (num_div r s).

Definition searchByPolygon (tr : bkd) (e : list point) (t : bool) (n : option bool) (r : bool) :
    option (list hit) :=
  s ← visit_tree tr (λ p, Bool.eqb (isPointInPolygon e p) t);
  Some (match n with
        | Some asc => by_distance (distance r) asc (calculatePolygonCentroid e) s
        | None => s
        end).

(** ** JSON *)
Inductive json_bnode := JB (p : point) (d : list D) (l r : option json_bnode).

(** [node.toJSON()]; the fuel bounds the depth. *)
Fixpoint bnode_toJSON (fuel : nat) (hp : gmap loc bnode) (a : loc) : option json_bnode :=
  match fuel with
  | O => None
  | S fuel =>
      n ← hp !! a;
      l ← match b_left n with Some l => j ← bnode_toJSON fuel hp l; Some (Some j) | None => Some None end;
      r ← match b_right n with Some r => j ← bnode_toJSON fuel hp r; Some (Some j) | None => Some None end;
      Some (JB (b_point n) (docIDs n) l r)
  end.

Definition bkd_toJSON (tr : bkd) : option (option json_bnode) :=
  match b_root tr with
  | None => Some None
  | Some a => j ← bnode_toJSON (S (size (b_cells tr))) (b_cells tr) a; Some (Some j)
  end.

(** [pe.fromJSON(e, t)]: allocates the nodes, parents first; also the calls of
    [buildNodeMap], which visits them in the same order. *)
Fixpoint bnode_fromJSON (j : json_bnode) (parent : option loc) (st : gmap loc bnode * loc * list ((number * number) * loc)) :
    loc * (gmap loc bnode * loc * list ((number * number) * loc)) :=
  let '(hp, o, nm) := st in
  let 'JB p d l r := j in
  let st := (<[o := BNode p (set_of d) None None parent]> hp, Pos.succ o, jm_set (getPointKey p) o nm) in
  let '(lp, st) := match l with
                   | Some l => let '(a, st) := bnode_fromJSON l (Some o) st in (Some a, st)
                   | None => (None, st) end in
  let '(rp, st) := match r with
                   | Some r => let '(a, st) := bnode_fromJSON r (Some o) st in (Some a, st)
                   | None => (None, st) end in
  let '(hp, nx, nm) := st in
  (o, (<[o := BNode p (set_of d) lp rp parent]> hp, nx, nm)).

Definition bkd_fromJSON (e : option json_bnode) : bkd :=
  match e with
  | None => new_bkd
  | Some j => let '(a, (hp, nx, nm)) := bnode_fromJSON j None (∅, 1%positive, []) in Bkd hp nx (Some a) nm
  end.
End bkd.
Arguments bkd : clear implicits.
Arguments bnode : clear implicits.
Arguments hit : clear implicits.
