(* ===== verification/BKDTheorems.v ===== *)
(** * Theorems about the geographic index *)

From Stdlib Require Import SpecFloat.
From S2P Require Import Prelude JSColl JSNum Utils AVL BKD.
Local Open Scope Z_scope.

Section trees.
Context {D : Type} `{EqDecision D}.

(** The functional counterpart of the node store. *)
Inductive btree :=
  | BLf
  | BNd (a : loc) (l : btree) (p : point) (d : list D) (r : btree).

Implicit Types (t l r : btree) (hp : gmap loc (bnode D)).

Definition bptr t : option loc := match t with BLf => None | BNd a _ _ _ _ => Some a end.
Fixpoint bnodes t : list (loc * point * list D) :=
  match t with BLf => [] | BNd a l p d r => (a, p, d) :: bnodes r ++ bnodes l end.
Definition blocs t : list loc := (λ x, x.1.1) <$> bnodes t.
Fixpoint bdepth t : nat :=
  match t with BLf => 0%nat | BNd _ l _ _ r => S (bdepth l `max` bdepth r) end.

Fixpoint brepr hp (par : option loc) t : Prop :=
  match t with
  | BLf => True
  | BNd a l p d r =>
      hp !! a = Some (BNode p d (bptr l) (bptr r) par) ∧ brepr hp (Some a) l ∧ brepr hp (Some a) r
  end.

Lemma blocs_Nd a l p d r : blocs (BNd a l p d r) = a :: blocs r ++ blocs l.
Proof. unfold blocs. csimpl. by rewrite fmap_app. Qed.

Lemma brepr_frame hp hp' par t :
  (∀ x, x ∈ blocs t → hp' !! x = hp !! x) → brepr hp par t → brepr hp' par t.
Proof.
  revert par. induction t as [|a l IHl p d r IHr]; intros par Hf; [done|]. rewrite blocs_Nd in Hf.
  intros (Ha & Hl & Hr). split_and!.
  - rewrite Hf by by left. done.
  - apply IHl; [|done]. intros x Hx. apply Hf. right. apply elem_of_app. by right.
  - apply IHr; [|done]. intros x Hx. apply Hf. right. apply elem_of_app. by left.
Qed.

Lemma brepr_in hp par t x : brepr hp par t → x ∈ blocs t → is_Some (hp !! x).
Proof.
  revert par. induction t as [|a l IHl p d r IHr]; intros par.
  { intros _ Hx. by apply elem_of_nil in Hx. }
  rewrite blocs_Nd, elem_of_cons, elem_of_app. intros (Ha & Hl & Hr) [->|[Hx|Hx]]; eauto.
Qed.

Lemma blocs_size hp par t : brepr hp par t → NoDup (blocs t) → (length (bnodes t) ≤ size hp)%nat.
Proof.
  intros Hr Hnd. assert (length (bnodes t) = length (blocs t)) as -> by (unfold blocs; by rewrite length_fmap).
  rewrite <-(size_dom (D := gset loc)). rewrite <-(size_list_to_set (C := gset loc)) by done.
  apply subseteq_size. intros x Hx%elem_of_list_to_set. apply elem_of_dom. by eapply brepr_in.
Qed.

Lemma bdepth_nodes t : (bdepth t ≤ length (bnodes t))%nat.
Proof. induction t; simpl; [done|]. rewrite length_app. lia. Qed.

(** ** The walk reports the nodes that pass the test *)
Lemma visit_all_spec fuel hp keep st ts (a : list (hit D)) :
  Forall (λ t, ∃ par, brepr hp par t) ts → (λ x, Some x) <$> st = bptr <$> ts →
  (length (ts ≫= bnodes) < fuel)%nat →
  visit_all fuel hp keep st a =
    Some (a ++ ((λ x, (x.1.2, x.2)) <$> filter (λ x, keep x.1.2 = true) (ts ≫= bnodes))).
Proof.
  revert st ts a. induction fuel as [|fuel IH]; intros st ts a Hts Hst Hf; [lia|].
  destruct st as [|s st], ts as [|t ts]; try done; cbn [visit_all].
  { csimpl. by rewrite app_nil_r. }
  csimpl in Hst. injection Hst as Hs Hst. apply Forall_cons in Hts as [(par & Ht) Hts].
  destruct t as [|s' l p d r]; [done|]. injection Hs as ->. destruct Ht as (Hs & Hl & Hr).
  rewrite Hs. cbn [mbind option_bind b_point docIDs b_left b_right].
  set (ts1 := match bptr l with Some _ => l :: ts | None => ts end).
  set (ts2 := match bptr r with Some _ => r :: ts1 | None => ts1 end).
  assert (ts2 ≫= bnodes = (bnodes r ++ bnodes l) ++ (ts ≫= bnodes)) as Hts2.
  { assert (∀ q qs, (match bptr q with Some _ => q :: qs | None => qs end) ≫= bnodes = bnodes q ++ (qs ≫= bnodes))
      as Hpush by (by intros [] ?).
    unfold ts2, ts1. by rewrite !Hpush, (assoc_L (++)). }
  rewrite (IH _ ts2).
  - rewrite Hts2. csimpl. rewrite filter_cons. cbn [fst snd].
    destruct (keep p) eqn:Hk.
    + rewrite decide_True by done. csimpl. by rewrite <-(assoc_L (++)).
    + rewrite decide_False by congruence. done.
  - unfold ts2, ts1. destruct l, r; cbn [bptr]; repeat apply Forall_cons_2; try done; by eexists.
  - unfold ts2, ts1. destruct l, r; cbn [bptr]; csimpl; by rewrite Hst.
  - rewrite Hts2. csimpl in Hf. rewrite !length_app in *. simpl in *. lia.
Qed.

(** ** Insertion *)
Fixpoint bput (e : point) (d : list D) (o : loc) (i : nat) t : btree :=
  match t with
  | BLf => BNd o BLf e d BLf
  | BNd a l p dd r =>
      if goes_left e p i then BNd a (bput e d o (S i) l) p dd r else BNd a l p dd (bput e d o (S i) r)
  end.

Lemma bnodes_bput e d o i t : bnodes (bput e d o i t) ≡ₚ (o, e, d) :: bnodes t.
Proof.
  revert i. induction t as [|a l IHl p dd r IHr]; intros i; simpl; [done|].
  destruct (goes_left e p i); simpl.
  - rewrite IHl. rewrite <-Permutation_middle. apply Permutation_swap.
  - rewrite IHr. simpl. apply Permutation_swap.
Qed.

Lemma bptr_bput e d o i t : t ≠ BLf → bptr (bput e d o i t) = bptr t.
Proof. destruct t; [done|]. intros _. simpl. by destruct (goes_left _ _ _). Qed.

Lemma NoDup_blocs_Nd a l p d r : NoDup (blocs (BNd a l p d r)) →
  a ∉ blocs l ∧ a ∉ blocs r ∧ NoDup (blocs l) ∧ NoDup (blocs r) ∧ (∀ x, x ∈ blocs r → x ∉ blocs l).
Proof.
  rewrite blocs_Nd, NoDup_cons, elem_of_app, NoDup_app. intros (? & ? & ? & ?). split_and!; auto.
Qed.

Lemma place_spec fuel hp par e d o s i t :
  brepr hp par t → NoDup (blocs t) → bptr t = Some s → o ∉ blocs t →
  hp !! o = Some (BNode e d None None None) → (bdepth t < fuel)%nat →
  ∃ hp', place fuel hp e o s i = Some hp' ∧ brepr hp' par (bput e d o i t) ∧
    ∀ x, x ≠ o → x ∉ blocs t → hp' !! x = hp !! x.
Proof.
  revert fuel hp par s i. induction t as [|a l IHl p dd r IHr]; intros fuel hp par s i; [done|].
  intros (Ha & Hl & Hr) Hnd [= <-] Ho Hho Hf. destruct fuel as [|fuel]; [lia|]. cbn [bdepth] in Hf.
  apply NoDup_blocs_Nd in Hnd as (Hal & Har & Hndl & Hndr & Hdis).
  rewrite blocs_Nd in Ho. apply not_elem_of_cons in Ho as [Hoa Ho]. apply not_elem_of_app in Ho as [Hor Hol].
  cbn [place bput]. rewrite Ha. cbn [mbind option_bind b_point b_left b_right].
  assert (∀ (f : bnode D → bnode D), ∃ hp', (hp ← bwrite hp a f; bwrite hp o (set_parent (Some a))) = Some hp' ∧
    hp' !! a = Some (f (BNode p dd (bptr l) (bptr r) par)) ∧
    hp' !! o = Some (BNode e d None None (Some a)) ∧
    ∀ x, x ≠ o → x ≠ a → hp' !! x = hp !! x) as Hlink.
  { intros f. unfold bwrite. rewrite Ha. cbn [mbind option_bind].
    rewrite lookup_insert_ne, Hho by done. cbn [mbind option_bind]. eexists. split; [done|]. split_and!.
    - rewrite lookup_insert_ne by done. by rewrite lookup_insert_eq.
    - by rewrite lookup_insert_eq.
    - intros x ??. by rewrite !lookup_insert_ne. }
  assert (∀ hp' q, (∀ x, x ≠ o → x ≠ a → hp' !! x = hp !! x) → o ∉ blocs q → a ∉ blocs q →
    brepr hp (Some a) q → brepr hp' (Some a) q) as Hkeep.
  { intros hp' q Hfr Hoq Haq. apply brepr_frame. intros x Hx. apply Hfr; by intros ->. }
  destruct (goes_left e p i).
  - destruct (bptr l) as [b|] eqn:Hb.
    + destruct (IHl fuel hp (Some a) b (S i)) as (hp' & -> & Hrep & Hfr); [done..|lia|].
      assert (l ≠ BLf) as Hne by by destruct l. exists hp'. split; [done|]. split.
      * split_and!; [rewrite bptr_bput, Hb by done; rewrite Hfr by done; by rewrite Ha|done|].
        eapply brepr_frame; [|exact Hr]. intros x Hx. apply Hfr; [by intros ->|auto].
      * intros x Hxo. rewrite blocs_Nd, not_elem_of_cons, not_elem_of_app. intros (? & ? & ?). auto.
    + destruct l; [|done]. destruct (Hlink (set_left (Some o))) as (hp' & -> & H1 & H2 & H3).
      exists hp'. split; [done|]. split.
      * split_and!; [exact H1|by split|by eapply Hkeep].
      * intros x Hxo. rewrite blocs_Nd, not_elem_of_cons. intros (? & ?). auto.
  - destruct (bptr r) as [b|] eqn:Hb.
    + destruct (IHr fuel hp (Some a) b (S i)) as (hp' & -> & Hrep & Hfr); [done..|lia|].
      assert (r ≠ BLf) as Hne by by destruct r. exists hp'. split; [done|]. split.
      * split_and!; [rewrite bptr_bput, Hb by done; rewrite Hfr by done; by rewrite Ha| |done].
        eapply brepr_frame; [|exact Hl]. intros x Hx. apply Hfr; [by intros ->|]. intros Hx'. by apply (Hdis x).
      * intros x Hxo. rewrite blocs_Nd, not_elem_of_cons, not_elem_of_app. intros (? & ? & ?). auto.
    + destruct r; [|done]. destruct (Hlink (set_right (Some o))) as (hp' & -> & H1 & H2 & H3).
      exists hp'. split; [done|]. split.
      * split_and!; [exact H1|by eapply Hkeep|by split].
      * intros x Hxo. rewrite blocs_Nd, not_elem_of_cons. intros (? & ?). auto.
Qed.

(** Adding documents to an existing node. *)
Fixpoint bupd (f : list D → list D) (o : loc) t : btree :=
  match t with
  | BLf => BLf
  | BNd a l p d r => BNd a (bupd f o l) p (if decide (a = o) then f d else d) (bupd f o r)
  end.

Lemma bnodes_bupd f o t :
  bnodes (bupd f o t) = (λ '(a, p, d), (a, p, if decide (a = o) then f d else d)) <$> bnodes t.
Proof. induction t as [|a l IHl p d r IHr]; csimpl; [done|]. by rewrite IHl, IHr, fmap_app. Qed.

Lemma bptr_bupd f o t : bptr (bupd f o t) = bptr t.
Proof. by destruct t. Qed.

Lemma bupd_fresh f o t : o ∉ blocs t → bupd f o t = t.
Proof.
  induction t as [|a l IHl p d r IHr]; [done|]. rewrite blocs_Nd, not_elem_of_cons, not_elem_of_app.
  intros (? & ? & ?). simpl. rewrite decide_False by congruence. by rewrite IHl, IHr.
Qed.

Lemma bwrite_spec hp par f o t :
  brepr hp par t → NoDup (blocs t) → o ∈ blocs t →
  ∃ hp', bwrite hp o (λ n, set_docIDs (f (docIDs n)) n) = Some hp' ∧ brepr hp' par (bupd f o t) ∧
    ∀ x, x ≠ o → hp' !! x = hp !! x.
Proof.
  intros Hrep Hnd Ho. destruct (brepr_in _ _ _ _ Hrep Ho) as [n Hn]. unfold bwrite. rewrite Hn. simpl.
  eexists. split; [done|]. split; [|intros x Hx; by rewrite lookup_insert_ne].
  set (hp' := <[o := _]> hp).
  assert (∀ par t, o ∉ blocs t → brepr hp par t → brepr hp' par t) as Hfr.
  { intros par' t' Ht'. apply brepr_frame. intros x Hx. apply lookup_insert_ne. by intros ->. }
  revert par Hrep Ho. induction t as [|a l IHl p d r IHr]; intros par Hrep Ho; [by apply elem_of_nil in Ho|].
  destruct Hrep as (Ha & Hl & Hr). apply NoDup_blocs_Nd in Hnd as (Hal & Har & Hndl & Hndr & Hdis).
  rewrite blocs_Nd, elem_of_cons, elem_of_app in Ho. cbn [bupd brepr]. rewrite !bptr_bupd.
  destruct (decide (a = o)) as [->|Hne].
  - rewrite Hn in Ha. injection Ha as ->. rewrite !bupd_fresh by done. split_and!; auto.
    unfold hp'. by rewrite lookup_insert_eq.
  - destruct Ho as [?|[Ho|Ho]]; [done|..].
    + rewrite (bupd_fresh f o l) by auto. split_and!; auto.
      unfold hp'. by rewrite lookup_insert_ne.
    + assert (o ∉ blocs r) by (intros ?; by apply (Hdis o)). rewrite (bupd_fresh f o r) by done. split_and!; auto.
      unfold hp'. by rewrite lookup_insert_ne.
Qed.

(** ** The index *)
Definition bkd_inv (tr : bkd D) t : Prop :=
  b_root tr = bptr t ∧ brepr (b_cells tr) None t ∧ NoDup (blocs t) ∧
  (∀ a, (b_next tr ≤ a)%positive → b_cells tr !! a = None) ∧
  (∀ k a, jm_get k (nodeMap tr) = Some a ↔ ∃ p d, (a, p, d) ∈ bnodes t ∧ getPointKey p = k).

(** Document [x] is filed at coordinates equal to those of [q]. *)
Definition located t (q : point) (x : D) : Prop :=
  ∃ a p d, (a, p, d) ∈ bnodes t ∧ getPointKey p = getPointKey q ∧ x ∈ d.

Lemma visit_tree_spec tr t keep :
  bkd_inv tr t →
  visit_tree tr keep = Some ((λ x, (x.1.2, x.2)) <$> filter (λ x, keep x.1.2 = true) (bnodes t)).
Proof.
  intros (Hroot & Hrep & Hnd & _). unfold visit_tree. rewrite Hroot.
  destruct t as [|a l p d r] eqn:Ht; [done|]. rewrite <-Ht in *. replace (bptr t) with (Some a) by by subst.
  rewrite (visit_all_spec _ _ _ _ [t]); csimpl.
  - by rewrite app_nil_r.
  - constructor; [by eexists|constructor].
  - by subst.
  - rewrite app_nil_r. pose proof (blocs_size _ _ _ Hrep Hnd). lia.
Qed.

Lemma bnodes_locs t a p d : (a, p, d) ∈ bnodes t → a ∈ blocs t.
Proof. intros Hin. apply list_elem_of_fmap. by exists (a, p, d). Qed.

Lemma bkd_insert_spec tr t e ds :
  bkd_inv tr t →
  ∃ tr' t', bkd_insert tr e ds = Some tr' ∧ bkd_inv tr' t' ∧
    ∀ q x, located t' q x ↔ located t q x ∨ (getPointKey q = getPointKey e ∧ x ∈ ds).
Proof.
  intros (Hroot & Hrep & Hnd & Hfr & Hmap). unfold bkd_insert.
  destruct (jm_get (getPointKey e) (nodeMap tr)) as [o|] eqn:Hk.
  - apply Hmap in Hk as (p0 & d0 & Hin & Hp0). pose proof (bnodes_locs _ _ _ _ Hin) as Ho.
    destruct (bwrite_spec (b_cells tr) None (set_add_all ds) o t) as (hp' & -> & Hrep' & Hfr'); [done..|].
    cbn [mbind option_bind]. eexists _, (bupd (set_add_all ds) o t). split; [done|]. split.
    + split_and!; cbn [b_root b_cells b_next nodeMap].
      * by rewrite bptr_bupd.
      * done.
      * unfold blocs in *. rewrite bnodes_bupd, <-list_fmap_compose.
        rewrite (list_fmap_ext _ (λ x, x.1.1)); [done|]. by intros ? [[? ?] ?].
      * intros a Ha. rewrite Hfr'; [by apply Hfr|]. intros ->.
        destruct (brepr_in _ _ _ _ Hrep Ho) as [? Hx]. by rewrite Hfr in Hx.
      * intros k a. rewrite Hmap, bnodes_bupd. setoid_rewrite list_elem_of_fmap. split.
        -- intros (p & d & Hin' & Hp). eexists p, _. split; [|done]. by exists (a, p, d).
        -- intros (p & d & ([[a' p'] d'] & [= -> -> ->] & Hin') & Hp). by exists p', d'.
    + intros q x. unfold located. rewrite bnodes_bupd. setoid_rewrite list_elem_of_fmap. split.
      * intros (a & p & d & ([[a' p'] d'] & [= -> -> ->] & Hin') & Hp & Hx).
        destruct (decide (a' = o)) as [->|]; [|left; by exists a', p', d'].
        rewrite elem_of_set_add_all in Hx. destruct Hx as [Hx|Hx]; [right|left; by exists o, p', d'].
        split; [|done]. assert (jm_get (getPointKey p') (nodeMap tr) = Some o) as H1 by (apply Hmap; eauto).
        assert ((o, p', d') = (o, p0, d0)) as [= -> ->].
        { unfold blocs in Hnd. apply list_elem_of_lookup in Hin as [i Hi], Hin' as [j Hj].
          assert (i = j) as ->.
          { eapply NoDup_lookup; [exact Hnd|..]; rewrite list_lookup_fmap; [by rewrite Hi|by rewrite Hj]. }
          congruence. }
        congruence.
      * intros [(a & p & d & Hin' & Hp & Hx)|[Hq Hx]].
        -- eexists a, p, _. split; [by exists (a, p, d)|]. split; [done|]. case_decide; [|done].
           apply elem_of_set_add_all. by right.
        -- eexists o, p0, _. split; [by exists (o, p0, d0)|]. split; [congruence|].
           rewrite decide_True by done. apply elem_of_set_add_all. by left.
  - set (o := b_next tr). set (hp := <[o := _]> (b_cells tr)).
    assert (o ∉ blocs t) as Ho.
    { intros Hin. destruct (brepr_in _ _ _ _ Hrep Hin) as [? Hx]. by rewrite Hfr in Hx by (unfold o; lia). }
    assert (∀ t' hp' rt, bnodes t' ≡ₚ (o, e, set_of ds) :: bnodes t → rt = bptr t' → brepr hp' None t' →
      (∀ x, x ≠ o → x ∉ blocs t → hp' !! x = b_cells tr !! x) →
      bkd_inv (Bkd hp' (Pos.succ o) rt (jm_set (getPointKey e) o (nodeMap tr))) t' ∧
      ∀ q x, located t' q x ↔ located t q x ∨ (getPointKey q = getPointKey e ∧ x ∈ ds)) as Hdone.
    { intros t' hp' rt Hp -> Hrep' Hfr'. split; [split_and!; cbn [b_root b_cells b_next nodeMap]|].
      - done.
      - done.
      - unfold blocs. rewrite Hp. csimpl. apply NoDup_cons. by split.
      - intros a Ha. rewrite Hfr'; [apply Hfr; unfold o in *; lia|unfold o in *; lia|].
        intros Hin. destruct (brepr_in _ _ _ _ Hrep Hin) as [? Hx]. rewrite Hfr in Hx by (unfold o in *; lia). done.
      - intros k a. rewrite jm_get_set. setoid_rewrite Hp. setoid_rewrite elem_of_cons.
        case_decide as Hke; [subst k|rewrite Hmap].
        + split; [intros [= <-]; exists e, (set_of ds); auto|].
          intros (p & d & [[= -> -> ->]|Hin] & Hpk); [done|]. exfalso.
          assert (jm_get (getPointKey e) (nodeMap tr) = Some a) by (apply Hmap; eauto). congruence.
        + split; [intros (p & d & ? & ?); exists p, d; auto|].
          intros (p & d & [[= -> -> ->]|Hin] & Hpk); [congruence|]. eauto.
      - intros q x. unfold located. setoid_rewrite Hp. setoid_rewrite elem_of_cons. split.
        + intros (a & p & d & [[= -> -> ->]|Hin] & Hpk & Hx); [|left; eauto 10]. right.
          rewrite elem_of_set_of in Hx. done.
        + intros [(a & p & d & Hin & Hpk & Hx)|[Hq Hx]]; [exists a, p, d; auto|].
          exists o, e, (set_of ds). split_and!; [by left|done|by apply elem_of_set_of]. }
    rewrite Hroot. destruct (bptr t) as [s|] eqn:Hs.
    + destruct (place_spec (S (size (b_cells tr))) hp None e (set_of ds) o s 0 t) as (hp' & -> & Hrep' & Hfr').
      * eapply brepr_frame; [|exact Hrep]. intros x Hx. apply lookup_insert_ne. by intros ->.
      * done.
      * done.
      * done.
      * unfold hp. by rewrite lookup_insert_eq.
      * pose proof (blocs_size _ _ _ Hrep Hnd). pose proof (bdepth_nodes t). lia.
      * cbn [mbind option_bind]. eexists _, (bput e (set_of ds) o 0 t). split; [done|].
        apply Hdone; [apply bnodes_bput|by rewrite bptr_bput by by destruct t|done|].
        intros x Hxo Hx. rewrite Hfr' by done. unfold hp. by rewrite lookup_insert_ne.
    + destruct t; [|done]. eexists _, (BNd o BLf e (set_of ds) BLf). split; [done|].
      apply Hdone; [done|done| |].
      * split_and!; [|done..]. unfold hp. by rewrite lookup_insert_eq.
      * intros x Hxo _. unfold hp. by rewrite lookup_insert_ne.
Qed.
End trees.
Arguments btree : clear implicits.

Section claims.
Context {D : Type} `{EqDecision D, MathOps}.
Implicit Types (t : btree D).

(** [p] is the point of a node. *)
Definition stored t (p : point) : Prop := ∃ a d, (a, p, d) ∈ bnodes t.

Lemma by_distance_elem dist asc e (l : list (hit D)) h : h ∈ by_distance dist asc e l ↔ h ∈ l.
Proof. unfold by_distance. by rewrite js_sort_perm. Qed.

Lemma kept_docs t (keep : point → bool) x :
  (∃ p d, (p, d) ∈ (λ x : loc * point * list D, (x.1.2, x.2)) <$> filter (λ x, keep x.1.2 = true) (bnodes t) ∧ x ∈ d) ↔
  ∃ p, stored t p ∧ keep p = true ∧ ∃ a d, (a, p, d) ∈ bnodes t ∧ x ∈ d.
Proof.
  setoid_rewrite list_elem_of_fmap. setoid_rewrite list_elem_of_filter. split.
  - intros (p & d & ([[a p'] d'] & [= -> ->] & Hk & Hin) & Hx). exists p'. unfold stored. eauto 10.
  - intros (p & _ & Hk & a & d & Hin & Hx). exists p, d. split; [|done]. by exists (a, p, d).
Qed.

(** C25. The geographic index files documents by coordinates and its queries
    are exhaustive: inserting documents at a point succeeds and adds exactly
    them there; a radius search then returns exactly the documents of the
    stored points at most (or, outside, more than) that far away, a polygon
    search exactly those of the points in (or outside) the polygon, in any
    order and with either distance formula. *)
Theorem bkd_insert_search (tr : bkd D) t e ds c rad (poly : list point) (inside prec : bool) (ord : option bool) :
  bkd_inv tr t →
  ∃ tr' t' hits hits', bkd_insert tr e ds = Some tr' ∧ bkd_inv tr' t' ∧
    (∀ q x, located t' q x ↔ located t q x ∨ (getPointKey q = getPointKey e ∧ x ∈ ds)) ∧
    searchByRadius tr' c rad inside ord prec = Some hits ∧
    (∀ x, (∃ p d, (p, d) ∈ hits ∧ x ∈ d) ↔
      ∃ p, stored t' p ∧ (if inside then leb (distance prec c p) rad else ltb rad (distance prec c p)) = true ∧
           ∃ a d, (a, p, d) ∈ bnodes t' ∧ x ∈ d) ∧
    searchByPolygon tr' poly inside ord prec = Some hits' ∧
    (∀ x, (∃ p d, (p, d) ∈ hits' ∧ x ∈ d) ↔
      ∃ p, stored t' p ∧ isPointInPolygon poly p = inside ∧ ∃ a d, (a, p, d) ∈ bnodes t' ∧ x ∈ d).
Proof.
  intros Hinv. destruct (bkd_insert_spec tr t e ds Hinv) as (tr' & t' & Hi & Hinv' & Hloc).
  exists tr', t'. unfold searchByRadius, searchByPolygon. rewrite !(visit_tree_spec tr' t' _ Hinv').
  cbn [mbind option_bind]. eexists _, _. split_and!; [done|done|done|done| |done|].
  - intros x. rewrite <-(kept_docs t' (λ p, if inside then leb (distance prec c p) rad else ltb rad (distance prec c p))).
    destruct ord; [by setoid_rewrite by_distance_elem|done].
  - intros x. setoid_rewrite <-(Bool.eqb_true_iff (isPointInPolygon poly _) inside).
    rewrite <-(kept_docs t' (λ p, Bool.eqb (isPointInPolygon poly p) inside)).
    destruct ord; [by setoid_rewrite by_distance_elem|done].
Qed.

Lemma new_bkd_inv : bkd_inv (new_bkd (D := D)) BLf.
Proof.
  split_and!; [done|done|constructor|done|]. intros k a. split; [done|].
  intros (? & ? & Hin & _). by apply elem_of_nil in Hin.
Qed.
End claims.

(** A square around the origin. *)
Definition square : list point :=
  [Point (num_of_Z (-5)) (num_of_Z (-5)); Point (num_of_Z 5) (num_of_Z (-5));
   Point (num_of_Z 5) (num_of_Z 5); Point (num_of_Z (-5)) (num_of_Z 5)].
Definition pt (x y : Z) : point := Point (num_of_Z x) (num_of_Z y).

(** Three points inserted one after the other, then the first one removed. *)
Definition geo1 : bkd N := default new_bkd (bkd_insert new_bkd (pt 0 0) [1%N]).
Definition geo2 : bkd N := default new_bkd (bkd_insert geo1 (pt (-1) 0) [2%N]).
Definition geo3 : bkd N := default new_bkd (bkd_insert geo2 (pt 1 0) [3%N]).
Definition geo4 : bkd N := default new_bkd (removeDocByID geo3 (pt 0 0) 1%N).

(** Removing the last document of a node with two children loses the right
    subtree: [deleteNode] puts one child in the place of the node and forgets
    the other, whose points the queries no longer reach although [contains]
    still knows them. *)
Theorem bkd_remove_loses_subtree `{MathOps} :
  bkd_insert new_bkd (pt 0 0) [1%N] = Some geo1 ∧ bkd_insert geo1 (pt (-1) 0) [2%N] = Some geo2 ∧
  bkd_insert geo2 (pt 1 0) [3%N] = Some geo3 ∧ removeDocByID geo3 (pt 0 0) 1%N = Some geo4 ∧
  searchByPolygon geo4 square true None false = Some [(pt (-1) 0, [2%N])] ∧
  bkd_contains geo4 (pt 1 0) = true.
Proof. split_and!; vm_compute; reflexivity. Qed.

(** ** Witness *)
Definition no_math : MathOps :=
  {| math_sin := λ x, x; math_cos := λ x, x; math_tan := λ x, x; math_atan := λ x, x;
     math_atan2 := λ x _, x; math_log := λ x, x |}.

Lemma bkd_insert_search_witness :
  ∃ tr hits, bkd_insert new_bkd (pt 1 1) [7%N] = Some tr ∧
    searchByPolygon (H := no_math) tr square true None false = Some hits.
Proof.
  destruct (bkd_insert_search (H := no_math) (new_bkd (D := N)) BLf (pt 1 1) [7%N] (pt 0 0) num_zero square true false None
    new_bkd_inv) as (tr & t & h1 & h2 & Hi & _ & _ & _ & _ & Hp & _).
  exists tr, h2. split; [exact Hi|exact Hp].
Defined.
