(* ===== verification/Vector.v ===== *)
(** * The vector index (class [be], function [Se]) and BM25 (function [ye]) *)

From Stdlib Require Import SpecFloat.
From S2P Require Import Prelude JSColl JSNum BKD.
Local Open Scope Z_scope.

(** A number stored in a [Float32Array]: rounded to single precision. *)
Definition to_float32 (x : number) : number :=
  match x with
  | S754_finite s m e =>
      match binary_normalize 24 128 (if s then Z.neg m else Z.pos m) e s with
      | S754_finite s m e => binary_normalize prec emax (if s then Z.neg m else Z.pos m) e s
      | y => y
      end
  | x => x
  end.

(** [e[r]]; reading past the end gives [undefined], NaN in arithmetic. *)
Definition elem (e : list number) (r : nat) : number := default S754_nan (e !! r).

(** [for (let r = 0; r < t; r++) n += e[r] * l[r]] *)
Definition dot_product (e l : list number) (t : nat) : number :=
  foldl (λ n r, num_add n (num_mul (elem e r) (elem l r))) num_zero (seq 0 t).

(** Function [Se]. *)
Definition getMagnitude (e : list number) (t : nat) : number := num_sqrt (dot_product e e t).

Section vector.
Context {D : Type} `{EqDecision D}.

Record vector_index := VectorIndex {
  v_size : nat; vectors : list (D * (number * list number)) }.

Definition new_vector (e : nat) : vector_index := VectorIndex e [].

Definition vector_add (vi : vector_index) (e : D) (t : list number) : vector_index :=
  let t := to_float32 <$> t in
  VectorIndex (v_size vi) (jm_set e (getMagnitude t (v_size vi), t) (vectors vi)).

Definition vector_remove (vi : vector_index) (e : D) : vector_index :=
  VectorIndex (v_size vi) (jm_delete e (vectors vi)).

(** The cosine similarity of the query to a stored vector. *)
Definition similarity (vi : vector_index) (e : list number) (v : number * list number) : number :=
  num_div (dot_product e v.2 (v_size vi)) (num_mul (getMagnitude e (v_size vi)) v.1).

(** [find(e, t, n)]: [t] is the threshold, [n] the set of documents to look at. *)
Definition vector_find (vi : vector_index) (e : list number) (t : number) (n : option (list D)) :
    list (D * number) :=
  let e := to_float32 <$> e in
  let a := match n with Some n => n | None => (vectors vi).*1 end in
  foldl (λ i t', match jm_get t' (vectors vi) with
                 | None => i
                 | Some v => let f := similarity vi e v in if leb t f then i ++ [(t', f)] else i
                 end) [] a.

Definition vector_toJSON (vi : vector_index) : nat * list (D * (number * list number)) :=
  (v_size vi, vectors vi).

Definition vector_fromJSON (e : nat * list (D * (number * list number))) : vector_index :=
  VectorIndex e.1 (foldl (λ m p, jm_set p.1 (p.2.1, to_float32 <$> p.2.2) m) [] e.2).

Lemma vector_find_elem vi e t n d f :
  (d, f) ∈ vector_find vi e t n ↔
  match n with Some n => d ∈ n | None => True end ∧
  ∃ v, jm_get d (vectors vi) = Some v ∧ f = similarity vi (to_float32 <$> e) v ∧ leb t f = true.
Proof.
  unfold vector_find. set (e' := to_float32 <$> e).
  assert (∀ a i, (d, f) ∈ foldl (λ i t', match jm_get t' (vectors vi) with
      | None => i
      | Some v => let f := similarity vi e' v in if leb t f then i ++ [(t', f)] else i end) i a ↔
    (d, f) ∈ i ∨ (d ∈ a ∧ ∃ v, jm_get d (vectors vi) = Some v ∧ f = similarity vi e' v ∧ leb t f = true)) as Hf.
  { induction a as [|x a IH]; intros i; cbn [foldl]; [set_solver|]. rewrite IH, elem_of_cons.
    destruct (jm_get x (vectors vi)) as [v|] eqn:Hx; cbn zeta.
    - destruct (leb t (similarity vi e' v)) eqn:Hl.
      + rewrite elem_of_app, list_elem_of_singleton. split.
        * intros [[?|[= -> ->]]|(? & ?)]; [by left| |by right; split; [right|]]. right. split; [by left|]. eauto.
        * intros [?|[[->|?] (v' & Hv' & -> & Hl')]]; [by do 2 left| |right; split; [done|]; eauto].
          left. right. congruence.
      + split; [intros [?|(? & ?)]; [by left|right; split; [by right|done]]|].
        intros [?|[[->|?] (v' & Hv' & -> & Hl')]]; [by left| |right; split; [done|]; eauto].
        congruence.
    - split; [intros [?|(? & ?)]; [by left|right; split; [by right|done]]|].
      intros [?|[[->|?] (v' & Hv' & ?)]]; [by left|congruence|right; split; [done|]; eauto]. }
  rewrite Hf. destruct n as [n|]; [set_solver|]. split.
  - intros [?|(_ & ?)]; [by apply elem_of_nil in H|done].
  - intros [_ (v & Hv & ?)]. right. split; [|eauto]. apply jm_get_Some_elem in Hv.
    apply list_elem_of_fmap. by exists (d, v).
Qed.
End vector.
Arguments vector_index : clear implicits.

(** Function [ye]: the BM25 weight of a term frequency. *)
Definition BM25 `{MathOps} (e t n r o k b d : number) : number :=
  let one := num_of_Z 1 in let half := num_dec 5 1 in
  num_div
    (num_mul (math_log (num_add one (num_div (num_add (num_sub n t) half) (num_add t half))))
             (num_add d (num_mul e (num_add k one))))
    (num_add e (num_mul k (num_add (num_sub one b) (num_div (num_mul b r) o)))).
