(* ===== verification/PT15.v ===== *)
(** * The positional text index (plugin pt15: functions [Jt], [Yt], [Ht], [Kt])

    A text property keeps 15 tables. A token of a text is filed, with all its
    prefixes, in the table for its relative position in the text: table 14 for
    the first tokens, table 0 for the last. Documents are internal ids. *)

From Stdlib Require Import SpecFloat.
From S2P Require Import Prelude JSColl JSNum.
Local Open Scope Z_scope.

Abbreviation slot := (list (jsstr * list Z)).
Abbreviation position_node := (list slot).

(** [[$t(), ..., $t()]] *)
Definition new_position : position_node := repeat [] 15.

(** Function [Yt]: the position class of token [e] of [t]. *)
Definition get_position (e t : nat) : nat := if (t <? 15)%nat then e else (15 * e / t)%nat.

(** The inner loop of [Jt]: from the whole token down to its first character. *)
Fixpoint insert_prefixes (o : slot) (n : jsstr) (e : nat) (r : Z) : slot :=
  match e with
  | O => o
  | S e' => let t := take e n in
            insert_prefixes (jm_set t (default [] (jm_get t o) ++ [r]) o) n e' r
  end.

(** The loop of [Jt] over the tokens [i] from index [e] on; [a] is their number.
    [None]: a table that does not exist. *)
Fixpoint insert_tokens (t : position_node) (i : list jsstr) (e a : nat) (r : Z) : option position_node :=
  match i with
  | [] => Some t
  | n :: i =>
      let k := (15 - get_position e a - 1)%nat in
      o ← t !! k;
      insert_tokens (<[k := insert_prefixes o n (length n) r]> t) i (S e) a r
  end.

(** Function [Jt] after tokenizing. *)
Definition insertString (t : position_node) (i : list jsstr) (r : Z) : option position_node :=
  insert_tokens t i 0 (length i) r.

(** Function [Kt]: [t.indexOf(r)] and [t.splice(e, 1)]. *)
Fixpoint remove_first (r : Z) (l : list Z) : list Z :=
  match l with
  | [] => []
  | x :: l => if decide (x = r) then l else x :: remove_first r l
  end.

Fixpoint remove_prefixes (o : slot) (n : jsstr) (e : nat) (r : Z) : slot :=
  match e with
  | O => o
  | S e' =>
      let t := take e n in
      let o := match jm_get t o with Some l => jm_set t (remove_first r l) o | None => o end in
      remove_prefixes o n e' r
  end.

Fixpoint remove_tokens (t : position_node) (i : list jsstr) (e a : nat) (r : Z) : option position_node :=
  match i with
  | [] => Some t
  | n :: i =>
      let k := (15 - get_position e a - 1)%nat in
      o ← t !! k;
      remove_tokens (<[k := remove_prefixes o n (length n) r]> t) i (S e) a r
  end.

Definition removeString (t : position_node) (i : list jsstr) (r : Z) : option position_node :=
  remove_tokens t i 0 (length i) r.

(** Function [Ht] after tokenizing: the scores of the documents. *)
Abbreviation scores := (list (Z * number)).

Definition add_score (i : scores) (s : Z) (x : number) : scores :=
  match jm_get s i with
  | Some v => jm_set s (num_add v x) i
  | None => jm_set s x i
  end.

Definition score_docs (i : scores) (n : list Z) (x : number) (o : option (list Z)) : scores :=
  foldl (λ i s, if match o with Some w => set_has s w | None => true end then add_score i s x else i) i n.

(** The 15 tables for one token, from table [t] on. *)
Fixpoint score_slots (i : scores) (n : list slot) (e : jsstr) (t : nat) (r : number) (o : option (list Z)) : scores :=
  match n with
  | [] => i
  | s :: n =>
      let i := match jm_get e s with
               | Some l => score_docs i l (num_mul (num_of_Z (Z.of_nat t)) r) o
               | None => i
               end in
      score_slots i n e (S t) r o
  end.

Definition searchString (s : list jsstr) (n : position_node) (r : number) (o : option (list Z)) : scores :=
  foldl (λ i e, score_slots i (take 15 n) e 0 r o) [] s.

(** ** Facts *)

(** The documents filed for a token in table [k]. *)
Definition entries_at (t : position_node) (k : nat) (p : jsstr) : list Z :=
  match t !! k with Some o => default [] (jm_get p o) | None => [] end.

Lemma get_position_bound e t : (e < t)%nat → (get_position e t < 15)%nat.
Proof.
  intros He. unfold get_position. destruct (Nat.ltb_spec t 15); [lia|].
  apply Nat.Div0.div_lt_upper_bound. lia.
Qed.

(** How often [p] is a non-empty prefix of length at most [e] of [n]: 0 or 1. *)
Definition prefix_count (p n : jsstr) (e : nat) : nat :=
  if bool_decide (p ≠ [] ∧ p `prefix_of` n ∧ (length p ≤ e)%nat) then 1%nat else 0%nat.

Lemma prefix_take (p n : jsstr) e : (e ≤ length n)%nat → p = take e n ↔ p `prefix_of` n ∧ length p = e.
Proof.
  intros He. split.
  - intros ->. split; [|rewrite length_take; lia]. exists (drop e n). by rewrite take_drop.
  - intros [[k ->] <-]. by rewrite take_app_length.
Qed.

Lemma prefix_count_S p n e :
  (S e ≤ length n)%nat →
  prefix_count p n (S e) = (prefix_count p n e + if decide (p = take (S e) n) then 1 else 0)%nat.
Proof.
  intros He. unfold prefix_count. pose proof (prefix_take p n (S e) He) as Hp.
  destruct (decide (p = take (S e) n)) as [Heq|Hne].
  - apply Hp in Heq as [Hpre Hlen]. rewrite bool_decide_eq_true_2, bool_decide_eq_false_2; [done|lia|].
    split_and!; [by intros ->|done|lia].
  - rewrite Nat.add_0_r.
    assert (bool_decide (p ≠ [] ∧ p `prefix_of` n ∧ (length p ≤ S e)%nat) =
            bool_decide (p ≠ [] ∧ p `prefix_of` n ∧ (length p ≤ e)%nat)) as ->; [|done].
    apply bool_decide_ext. split; [|naive_solver lia]. intros (H1 & H2 & H3). split_and!; [done..|].
    destruct (decide (length p = S e)); [|lia]. destruct Hne. by apply Hp.
Qed.

Lemma insert_prefixes_spec o n e r p :
  (e ≤ length n)%nat →
  default [] (jm_get p (insert_prefixes o n e r)) = default [] (jm_get p o) ++ replicate (prefix_count p n e) r.
Proof.
  revert o. induction e as [|e IH]; intros o He; cbn [insert_prefixes].
  { unfold prefix_count. rewrite bool_decide_eq_false_2; [by rewrite app_nil_r|].
    intros (Hp & _ & Hl). by destruct p; [|simpl in Hl; lia]. }
  rewrite IH by lia. rewrite jm_get_set, prefix_count_S by done.
  destruct (decide (p = take (S e) n)) as [->|].
  - cbn [from_option id]. rewrite <-(assoc_L (++)). f_equal. rewrite Nat.add_comm. done.
  - by rewrite Nat.add_0_r.
Qed.

(** The number of tokens from index [e] on that are filed for [p] in table [k]. *)
Fixpoint token_count (p : jsstr) (k : nat) (i : list jsstr) (e a : nat) : nat :=
  match i with
  | [] => 0
  | n :: i => ((if decide (k = 15 - get_position e a - 1)%nat then prefix_count p n (length n) else 0) +
               token_count p k i (S e) a)%nat
  end.

Lemma entries_at_insert t k k' o o' p :
  t !! k = Some o →
  entries_at (<[k := o']> t) k' p = if decide (k' = k) then default [] (jm_get p o') else entries_at t k' p.
Proof.
  intros Hk. unfold entries_at. pose proof (lookup_lt_Some _ _ _ Hk).
  destruct (decide (k' = k)) as [->|]; [by rewrite list_lookup_insert_eq|by rewrite list_lookup_insert_ne].
Qed.

Lemma insert_tokens_spec t i e a r :
  length t = 15%nat → (e + length i ≤ a)%nat →
  ∃ t', insert_tokens t i e a r = Some t' ∧ length t' = 15%nat ∧
    ∀ k p, entries_at t' k p = entries_at t k p ++ replicate (token_count p k i e a) r.
Proof.
  revert t e. induction i as [|n i IH]; intros t e Ht He; cbn [insert_tokens token_count].
  { exists t. split_and!; [done..|]. intros. by rewrite app_nil_r. }
  simpl in He. set (k := (15 - get_position e a - 1)%nat).
  destruct (lookup_lt_is_Some_2 t k) as [o Ho]; [unfold k; lia|]. rewrite Ho. cbn [mbind option_bind].
  destruct (IH (<[k := insert_prefixes o n (length n) r]> t) (S e)) as (t' & -> & Ht' & Hent);
    [by rewrite length_insert|lia|].
  exists t'. split_and!; [done..|]. intros k' p. rewrite Hent, (entries_at_insert t k k' o) by done.
  destruct (decide (k' = k)) as [->|].
  - rewrite insert_prefixes_spec, replicate_add, (assoc_L (++)) by done. unfold entries_at. by rewrite Ho.
  - done.
Qed.

Lemma remove_first_app r l m :
  r ∉ l → remove_first r (l ++ replicate m r) = l ++ replicate (pred m) r.
Proof.
  induction l as [|x l IH]; simpl; intros Hr.
  - destruct m; [done|]. simpl. by rewrite decide_True.
  - rewrite decide_False by (intros ->; apply Hr; by left). rewrite IH; [done|].
    intros ?. apply Hr. by right.
Qed.

Lemma remove_prefixes_spec o n e r p l m :
  (e ≤ length n)%nat → r ∉ l →
  default [] (jm_get p o) = l ++ replicate m r →
  default [] (jm_get p (remove_prefixes o n e r)) = l ++ replicate (m - prefix_count p n e) r.
Proof.
  intros He Hr. revert o m He. induction e as [|e IH]; intros o m He Hm; cbn [remove_prefixes].
  { unfold prefix_count. rewrite bool_decide_eq_false_2; [by rewrite Nat.sub_0_r|].
    intros (Hp & _ & Hl). by destruct p; [|simpl in Hl; lia]. }
  rewrite prefix_count_S by done.
  destruct (decide (p = take (S e) n)) as [->|Hne].
  - rewrite (IH _ (pred m)); [f_equal; f_equal; lia|lia|].
    destruct (jm_get (take (S e) n) o) as [x|] eqn:Hx; cbn [from_option id] in Hm.
    + rewrite jm_get_set_eq. cbn [from_option id]. rewrite Hm. by apply remove_first_app.
    + rewrite Hx. cbn [from_option id]. destruct l; [|done]. by destruct m.
  - rewrite Nat.add_0_r. apply IH; [lia|].
    destruct (jm_get (take (S e) n) o); [|done]. by rewrite jm_get_set_ne.
Qed.

Lemma remove_tokens_spec t i e a r :
  length t = 15%nat → (e + length i ≤ a)%nat →
  ∃ t', remove_tokens t i e a r = Some t' ∧ length t' = 15%nat ∧
    ∀ k p l m, r ∉ l → entries_at t k p = l ++ replicate m r →
      entries_at t' k p = l ++ replicate (m - token_count p k i e a) r.
Proof.
  revert t e. induction i as [|n i IH]; intros t e Ht He; cbn [remove_tokens token_count].
  { exists t. split_and!; [done..|]. intros. by rewrite Nat.sub_0_r. }
  simpl in He. set (k := (15 - get_position e a - 1)%nat).
  destruct (lookup_lt_is_Some_2 t k) as [o Ho]; [unfold k; lia|]. rewrite Ho. cbn [mbind option_bind].
  destruct (IH (<[k := remove_prefixes o n (length n) r]> t) (S e)) as (t' & -> & Ht' & Hent);
    [by rewrite length_insert|lia|].
  exists t'. split_and!; [done..|]. intros k' p l m Hr Hm.
  destruct (decide (k' = k)) as [->|Hne].
  - rewrite Nat.sub_add_distr. apply Hent; [done|].
    rewrite (entries_at_insert t k k o), decide_True by done.
    apply remove_prefixes_spec; [done..|]. unfold entries_at in Hm. by rewrite Ho in Hm.
  - cbn [Nat.add]. apply Hent; [done|]. by rewrite (entries_at_insert t k k' o), decide_False.
Qed.

(** ** What the search finds *)
Lemma add_score_dom i s x d : is_Some (jm_get d (add_score i s x)) ↔ d = s ∨ is_Some (jm_get d i).
Proof.
  assert (∀ v m, is_Some (if decide (d = s) then Some v else m : option number) ↔ d = s ∨ is_Some m) as Hif.
  { intros v m. destruct (decide (d = s)); naive_solver. }
  unfold add_score. destruct (jm_get s i); rewrite jm_get_set; apply Hif.
Qed.

Lemma score_docs_dom i n x o d :
  is_Some (jm_get d (score_docs i n x o)) ↔
  is_Some (jm_get d i) ∨ (d ∈ n ∧ match o with Some w => d ∈ w | None => True end).
Proof.
  unfold score_docs. revert i. induction n as [|s n IH]; intros i; cbn [foldl]; [set_solver|].
  rewrite IH, elem_of_cons. destruct o as [w|].
  - destruct (set_has s w) eqn:Hw.
    + apply set_has_spec in Hw. rewrite add_score_dom. naive_solver.
    + assert (s ∉ w) by (intros ?%set_has_spec; congruence). naive_solver.
  - rewrite add_score_dom. naive_solver.
Qed.

Lemma score_slots_dom i n e t r o d :
  is_Some (jm_get d (score_slots i n e t r o)) ↔
  is_Some (jm_get d i) ∨
  ((∃ s, s ∈ n ∧ d ∈ default [] (jm_get e s)) ∧ match o with Some w => d ∈ w | None => True end).
Proof.
  revert i t. induction n as [|s n IH]; intros i t; cbn [score_slots]; [set_solver|].
  rewrite IH. setoid_rewrite elem_of_cons. destruct (jm_get e s) as [l|] eqn:Hs.
  - rewrite score_docs_dom. split; [|intros [?|[(s' & [->|?] & Hd) ?]]].
    + intros [[?|[? ?]]|[(s' & ? & ?) ?]]; [by left|..]; right; (split; [|done]).
      * exists s. rewrite Hs. auto.
      * eauto.
    + by do 2 left.
    + rewrite Hs in Hd. auto.
    + right. eauto.
  - split; [intros [?|[(s' & ? & ?) ?]]; [by left|right; eauto]|].
    intros [?|[(s' & [->|?] & Hd) ?]]; [by left|rewrite Hs in Hd; by apply elem_of_nil in Hd|right; eauto].
Qed.

Lemma searchString_dom s n r o d :
  length n = 15%nat →
  is_Some (jm_get d (searchString s n r o)) ↔
  (∃ e k, e ∈ s ∧ d ∈ entries_at n k e) ∧ match o with Some w => d ∈ w | None => True end.
Proof.
  intros Hn. unfold searchString. rewrite firstn_all2 by lia.
  assert (∀ e, (∃ x, x ∈ n ∧ d ∈ default [] (jm_get e x)) ↔ ∃ k, d ∈ entries_at n k e) as Hent.
  { intros e. unfold entries_at. split.
    - intros (x & [k Hk]%list_elem_of_lookup & Hd). exists k. by rewrite Hk.
    - intros (k & Hd). destruct (n !! k) as [x|] eqn:Hk; [|by apply elem_of_nil in Hd].
      exists x. split; [by eapply list_elem_of_lookup_2|done]. }
  assert (∀ i, is_Some (jm_get d (foldl (λ i e, score_slots i n e 0 r o) i s)) ↔
    is_Some (jm_get d i) ∨ ((∃ e k, e ∈ s ∧ d ∈ entries_at n k e) ∧ match o with Some w => d ∈ w | None => True end)) as Hf.
  { induction s as [|e s IH]; intros i; cbn [foldl]; [set_solver|].
    rewrite IH, score_slots_dom, Hent. setoid_rewrite elem_of_cons. split.
    - intros [[?|[(k & ?) ?]]|[(e' & k & ? & ?) ?]]; [by left|..]; right; split; eauto 10.
    - intros [?|[(e' & k & [->|?] & ?) ?]]; [by do 2 left|left; right; eauto|right; eauto 10]. }
  rewrite Hf. split; [intros [[? ?]|?]; done|by right].
Qed.

Lemma token_count_pos p i e a :
  (e + length i ≤ a)%nat →
  (∃ k, (0 < token_count p k i e a)%nat) ↔ p ≠ [] ∧ ∃ n, n ∈ i ∧ p `prefix_of` n.
Proof.
  revert e. induction i as [|n i IH]; intros e He; cbn [token_count].
  { split; [intros (? & ?); lia|]. intros (_ & n & Hn & _). by apply elem_of_nil in Hn. }
  simpl in He. assert ((∃ k, (0 < token_count p k i (S e) a)%nat) ↔ p ≠ [] ∧ ∃ n, n ∈ i ∧ p `prefix_of` n) as IH'
    by (apply IH; lia). clear IH.
  assert ((0 < prefix_count p n (length n))%nat ↔ p ≠ [] ∧ p `prefix_of` n) as Hpc.
  { unfold prefix_count. case_bool_decide as Hb; [naive_solver lia|]. split; [lia|]. intros [H1 H2].
    destruct Hb. split_and!; [done..|]. by apply prefix_length. }
  setoid_rewrite elem_of_cons. split.
  - intros (k & Hk). destruct (decide (k = 15 - get_position e a - 1)%nat).
    + destruct (decide (0 < prefix_count p n (length n))%nat) as [Hp|Hp].
      * apply Hpc in Hp as [? ?]. eauto.
      * destruct (proj1 IH') as (? & n' & ? & ?); [exists k; lia|]. eauto.
    + destruct (proj1 IH') as (? & n' & ? & ?); [exists k; lia|]. eauto.
  - intros (Hp & n' & [->|Hn'] & Hpre).
    + exists (15 - get_position e a - 1)%nat. rewrite decide_True by done.
      assert (0 < prefix_count p n (length n))%nat by by apply Hpc. lia.
    + destruct (proj2 IH') as (k & Hk); [eauto|]. exists k. lia.
Qed.

(** C6. Positional indexing finds prefixes of words and nothing else: inserting
    the tokens of a text for a document always succeeds (every position falls
    into one of the 15 tables), and afterwards a search for tokens [s] scores
    a document exactly when it was scored before or it is this one and one of
    the query tokens is a non-empty prefix of one of its tokens, in both cases
    only if the filter lets it through. *)
Theorem pt15_insert_search (t : position_node) (i s : list jsstr) (r : Z) (boost : number) (o : option (list Z)) :
  length t = 15%nat →
  ∃ t', insertString t i r = Some t' ∧ length t' = 15%nat ∧
    ∀ d, is_Some (jm_get d (searchString s t' boost o)) ↔
      is_Some (jm_get d (searchString s t boost o)) ∨
      (d = r ∧ match o with Some w => r ∈ w | None => True end ∧
       ∃ e n, e ∈ s ∧ e ≠ [] ∧ n ∈ i ∧ e `prefix_of` n).
Proof.
  intros Ht. unfold insertString.
  destruct (insert_tokens_spec t i 0 (length i) r Ht) as (t' & Hins & Ht' & Hent); [lia|].
  exists t'. split_and!; [done..|]. intros d. rewrite !searchString_dom by done.
  setoid_rewrite Hent. setoid_rewrite elem_of_app. setoid_rewrite elem_of_replicate.
  pose proof (λ p, token_count_pos p i 0 (length i) ltac:(lia)) as Hpos. split.
  - intros [(e & k & He & [Hd|[-> Hk]]) Ho]; [left; eauto|]. right. split_and!; [done..|].
    destruct (proj1 (Hpos e)) as (? & n & ? & ?); [exists k; lia|]. eauto 10.
  - intros [[(e & k & ? & ?) Ho]|(-> & Ho & e & n & He & Hne & Hn & Hp)]; [split; eauto 10|].
    split; [|done]. destruct (proj2 (Hpos e)) as (k & Hk); [eauto|]. exists e, k. split; [done|]. right.
    split; [done|lia].
Qed.

(** Removing a text undoes inserting it: if the document was not in the
    tables before, then after inserting and removing the same tokens every
    table holds for every word exactly what it held. *)
Theorem pt15_insert_remove (t : position_node) (i : list jsstr) (r : Z) :
  length t = 15%nat → (∀ k p, r ∉ entries_at t k p) →
  ∃ t1 t2, insertString t i r = Some t1 ∧ removeString t1 i r = Some t2 ∧
    ∀ k p, entries_at t2 k p = entries_at t k p.
Proof.
  intros Ht Hr. unfold insertString, removeString.
  destruct (insert_tokens_spec t i 0 (length i) r Ht) as (t1 & Hins & Ht1 & Hent); [lia|].
  destruct (remove_tokens_spec t1 i 0 (length i) r Ht1) as (t2 & Hrem & _ & Hent2); [lia|].
  exists t1, t2. split_and!; [done..|]. intros k p.
  rewrite (Hent2 k p (entries_at t k p) (token_count p k i 0 (length i))); [|apply Hr|apply Hent].
  by rewrite Nat.sub_diag, app_nil_r.
Qed.

(** ** Witnesses *)
Lemma pt15_insert_search_witness :
  ∃ t, insertString new_position [js "hello"; js "world"] 1 = Some t ∧
    is_Some (jm_get 1 (searchString [js "wor"] t (num_of_Z 1) None)).
Proof.
  destruct (pt15_insert_search new_position [js "hello"; js "world"] [js "wor"] 1 (num_of_Z 1) None eq_refl)
    as (t & H1 & _ & H2).
  exists t. split; [exact H1|]. apply H2. right. split_and!; [done..|].
  exists (js "wor"), (js "world"). split_and!; [by left|done|by right; left|]. by exists (js "ld").
Defined.

Lemma pt15_insert_remove_witness :
  ∃ t1 t2, insertString new_position [js "hello"] 1 = Some t1 ∧ removeString t1 [js "hello"] 1 = Some t2 ∧
    entries_at t2 14 (js "he") = [].
Proof.
  destruct (pt15_insert_remove new_position [js "hello"] 1 eq_refl) as (t1 & t2 & H1 & H2 & H3).
  { intros k p. unfold entries_at. destruct (new_position !! k) as [o|] eqn:Hk; [|apply not_elem_of_nil].
    apply list_elem_of_lookup_2, list_elem_of_In, repeat_spec in Hk. subst o. apply not_elem_of_nil. }
  exists t1, t2. split_and!; [exact H1|exact H2|]. rewrite H3. reflexivity.
Defined.
