(* ===== verification/Schema.v ===== *)
(** * Schemas: property types, validation and document properties

    Functions [C], [z], [U], [B] (property types), [R] (validation of a
    document against the schema), [vt] (validation of one property), [k]
    (document ids), [S] and [w] (values at property paths) and [g] (generated
    ids). *)

From Stdlib Require Import SpecFloat.
From S2P Require Import Prelude JSColl JSNum JSValue.
Local Open Scope Z_scope.

(** The type of a property: a type name, or a nested schema. *)
Inductive schema_ty :=
  | SType (r : jsstr)
  | SNested (l : list (jsstr * schema_ty)).
Abbreviation schema := (list (jsstr * schema_ty)).

(** ** Property types *)
Definition all_digits (s : jsstr) : bool := forallb (λ c, (48 <=? c)%N && (c <=? 57)%N) s.

(** [/^vector\[\d+\]$/] *)
Definition vector_digits (r : jsstr) : option jsstr :=
  if decide (take 7 r = js "vector[") then
    match last (drop 7 r) with
    | Some c =>
        let d := take (length (drop 7 r) - 1) (drop 7 r) in
        if decide (c = 93%N) then if negb (bool_decide (d = [])) && all_digits d then Some d else None
        else None
    | None => None
    end
  else None.

(** [C]: is it a vector type? *)
Definition isVectorType (r : jsstr) : bool :=
  match vector_digits r with Some _ => true | None => false end.

(** Table [M]/function [z], table [L]/function [U]. *)
Definition inner_type (r : jsstr) : option string :=
  if decide (r = js "string[]") then Some "string"
  else if decide (r = js "number[]") then Some "number"
  else if decide (r = js "boolean[]") then Some "boolean"
  else if decide (r = js "enum[]") then Some "enum"
  else None.
Definition isArrayType (r : jsstr) : bool :=
  match inner_type r with Some _ => true | None => false end.

(** [Number(digits)] *)
Definition number_of_digits (s : jsstr) : Z :=
  foldl (λ a c, 10 * a + (Z.of_N c - 48)) 0 s.

(** [B]: the size of a vector type. *)
Definition getVectorSize (r : jsstr) : result Z :=
  match vector_digits r with
  | None => Throw (OramaError "INVALID_VECTOR_VALUE" [r])
  | Some d =>
      let t := number_of_digits d in
      if t <=? 0 then Throw (OramaError "INVALID_VECTOR_SIZE" [r]) else Ok t
  end.

(** ** Validation of a document, function [R] *)

Definition is_enum_value (v : jsval) : bool :=
  bool_decide (typeof v = "string") || bool_decide (typeof v = "number").

(** ['object' == typeof t && 'number' == typeof t.lon && 'number' == typeof t.lat] *)
Definition is_geopoint (t : jsval) : result bool :=
  if negb (bool_decide (typeof t = "object")) then Ok false
  else
    lon ← get_prop t (js "lon");
    if negb (bool_decide (typeof lon = "number")) then Ok false
    else lat ← get_prop t (js "lat"); Ok (bool_decide (typeof lat = "number")).

(** The index of the first element that fails the test. *)
Fixpoint first_bad (f : jsval → bool) (r : nat) (l : list jsval) : option nat :=
  match l with
  | [] => None
  | v :: l => if f v then first_bad f (S r) l else Some r
  end.

(** A vector type: building the message of an [undefined] length throws. *)
Definition check_vector (n : jsstr) (t : jsval) (r : jsstr) : result (option jsstr) :=
  e ← getVectorSize r;
  if match t with JArr l => Z.of_nat (length l) =? e | _ => false end then Ok None
  else
    len ← get_prop t (js "length");
    match len with
    | JUndef | JNull => Throw TypeError
    | _ => Throw (OramaError "INVALID_INPUT_VECTOR" [n])
    end.

(** A property [n] with value [t] (not [undefined]) of type name [r]: the path
    of what is wrong, if anything. *)
Definition check_named (n : jsstr) (t : jsval) (r : jsstr) : result (option jsstr) :=
  geo ← (if decide (r = js "geopoint") then is_geopoint t else Ok false : result bool);
  if (geo : bool) then Ok None
  else if decide (r = js "enum") then
    if is_enum_value t then Ok None else Ok (Some n)
  else
    match decide (r = js "enum[]"), t with
    | left _, JArr l => Ok ((λ i, n ++ dot :: nat_str i) <$> first_bad is_enum_value 0 l)
    | _, _ =>
        if isVectorType r then
          check_vector n t r
        else
          match inner_type r with
          | Some e =>
              match t with
              | JArr l => Ok ((λ i, n ++ dot :: nat_str i) <$>
                              first_bad (λ v, bool_decide (typeof v = e)) 0 l)
              | _ => Ok (Some n)
              end
          | None => if decide (js (typeof t) = r) then Ok None else Ok (Some n)
          end
    end.

(** One property; [go] is the loop of [R] over a nested schema. *)
Fixpoint check_prop (n : jsstr) (t : jsval) (r : schema_ty) : result (option jsstr) :=
  match r with
  | SType r => check_named n t r
  | SNested l =>
      if negb (truthy t) || negb (bool_decide (typeof t = "object")) then Ok (Some n)
      else
        e ← (fix go (l : schema) : result (option jsstr) :=
               match l with
               | [] => Ok None
               | (n, r) :: l =>
                   v ← get_prop t n;
                   res ← match v with JUndef => Ok None | _ => check_prop n v r end;
                   match res with Some p => Ok (Some p) | None => go l end
               end) l;
        match e with
        | Some ([] as p) => Ok None (* the empty path is falsy *)
        | Some p => Ok (Some (n ++ dot :: p))
        | None => Ok None
        end
  end.

(** Function [R]: the path of the first property that does not fit. *)
Fixpoint validateSchema (e : jsval) (t : schema) : result (option jsstr) :=
  match t with
  | [] => Ok None
  | (n, r) :: t =>
      v ← get_prop e n;
      res ← match v with JUndef => Ok None | _ => check_prop n v r end;
      match res with Some p => Ok (Some p) | None => validateSchema e t end
  end.

(** ** Validation of one value, function [vt] *)
Definition validateDocumentProperty (e : string) (t : jsstr) (n : jsstr) (r : jsval) : result unit :=
  geo ← (if decide (t = js "geopoint") then is_geopoint r else Ok false : result bool);
  if (geo : bool) then Ok tt
  else if (isVectorType t && isArray r) || (isArrayType t && isArray r) ||
          ((bool_decide (t = js "enum") || bool_decide (t = js "enum[]")) &&
           (bool_decide (e = "string") || bool_decide (e = "number"))) ||
          bool_decide (js e = t)
  then Ok tt
  else Throw (OramaError "INVALID_DOCUMENT_PROPERTY" [n; t; js e]).

(** ** Document ids, functions [g] and [k]

    [s] is the prefix chosen when the script is loaded and [i] the counter. *)
Definition uniqueId (s : jsstr) (i : nat) : jsstr * nat := (s ++ 45%N :: nat_str i, S i).

Definition getDocumentIndexId (s : jsstr) (i : nat) (e : jsval) : result (jsstr * nat) :=
  id ← get_prop e (js "id");
  if truthy id then
    match id with
    | JStr id => Ok (id, i)
    | _ => Throw (OramaError "DOCUMENT_ID_MUST_BE_STRING" [js (typeof id)])
    end
  else Ok (uniqueId s i).

(** ** Values at property paths, functions [S] and [w] *)
Definition is_point (i : jsval) : bool :=
  match i with
  | JObj o =>
      match jm_get (js "lat") o, jm_get (js "lon") o with
      | Some (JNum _), Some (JNum _) => true
      | _, _ => false
      end
  | _ => false
  end.

(** The loop over the steps [s] of one path, from value [i]. *)
Fixpoint walk_path (i : jsval) (s : list jsstr) : result jsval :=
  match s with
  | [] => Ok i
  | k :: s =>
      i ← get_prop i k;
      match i with
      | JNull | JArr _ => walk_path i s
      | JObj _ =>
          if is_point i then Ok i
          else match s with [] => Ok JUndef | _ => walk_path i s end
      | _ => match s with [] => Ok i | _ => Ok JUndef end
      end
  end.

(** The loop over the paths; [n] is the object built so far. *)
Fixpoint collect_properties (e : jsval) (t : list jsstr) (n : list (jsstr * jsval)) :
    result (list (jsstr * jsval)) :=
  match t with
  | [] => Ok n
  | r :: t =>
      i ← walk_path e (split_on dot r);
      collect_properties e t (match i with JUndef => n | _ => jm_set r i n end)
  end.

Definition getDocumentProperties (e : jsval) (t : list jsstr) : result (list (jsstr * jsval)) :=
  collect_properties e t [].

Definition getNested (e : jsval) (t : jsstr) : result jsval :=
  n ← getDocumentProperties e [t]; Ok (default JUndef (jm_get t n)).
