(* ===== verification/SchemaTheorems.v ===== *)
(** * Schema validation accepts exactly the documents of the declared types *)

From Stdlib Require Import SpecFloat.
From S2P Require Import Prelude JSColl JSNum JSValue Schema.
Local Open Scope Z_scope.

Lemma schema_ty_ind' (P : schema_ty → Prop) :
  (∀ r, P (SType r)) → (∀ l, Forall (λ p, P p.2) l → P (SNested l)) → ∀ r, P r.
Proof.
  intros H1 H2. fix IH 1. intros [r|l]; [apply H1|]. apply H2.
  induction l as [|p l IHl]; constructor; [apply IH|apply IHl].
Qed.

(** ** The types, declaratively *)
Definition array_of (P : jsval → Prop) (t : jsval) : Prop := ∃ l, t = JArr l ∧ Forall P l.

Definition value_ok (t : jsval) (r : jsstr) : Prop :=
  (r = js "geopoint" ∧ is_geopoint t = Ok true) ∨
  (r = js "enum" ∧ is_enum_value t = true) ∨
  (r = js "enum[]" ∧ array_of (λ v, is_enum_value v = true) t) ∨
  (∃ e, inner_type r = Some e ∧ r ≠ js "enum[]" ∧ array_of (λ v, typeof v = e) t) ∨
  (∃ n l, getVectorSize r = Ok n ∧ t = JArr l ∧ Z.of_nat (length l) = n) ∨
  js (typeof t) = r.

Inductive fits : jsval → schema_ty → Prop :=
  | fits_named t r : value_ok t r → fits t (SType r)
  | fits_nested t l :
      typeof t = "object" → t ≠ JNull →
      (∀ n r v, (n, r) ∈ l → get_prop t n = Ok v → v ≠ JUndef → fits v r) →
      fits t (SNested l).

(** Every declared property is absent or of its type. *)
Definition doc_fits (e : jsval) (s : schema) : Prop :=
  ∀ n r v, (n, r) ∈ s → get_prop e n = Ok v → v ≠ JUndef → fits v r.

(** No property of a nested schema has the empty name. *)
Inductive named : schema_ty → Prop :=
  | named_type r : named (SType r)
  | named_nested l : Forall (λ p, p.1 ≠ [] ∧ named p.2) l → named (SNested l).

Lemma first_bad_none f r l : first_bad f r l = None ↔ Forall (λ v, f v = true) l.
Proof.
  revert r. induction l as [|v l IH]; intros r; simpl; [by split; [constructor|]|].
  rewrite Forall_cons. destruct (f v); [rewrite IH|]; naive_solver.
Qed.

Lemma js_typeof t r :
  js (typeof t) = r →
  r ≠ js "geopoint" ∧ r ≠ js "enum" ∧ r ≠ js "enum[]" ∧ isVectorType r = false ∧ inner_type r = None.
Proof. intros <-. by destruct t. Qed.

Lemma vector_not_named r :
  isVectorType r = true →
  r ≠ js "geopoint" ∧ r ≠ js "enum" ∧ r ≠ js "enum[]" ∧ inner_type r = None.
Proof.
  intros Hv. assert (∀ s, isVectorType (js s) = false → r ≠ js s) as Hne by (intros s ? ->; congruence).
  split_and!; [by apply Hne..|]. unfold inner_type.
  rewrite !decide_False by by apply Hne. done.
Qed.

Lemma getVectorSize_vector r n : getVectorSize r = Ok n → isVectorType r = true.
Proof. unfold getVectorSize, isVectorType. by destruct (vector_digits r). Qed.

Lemma check_vector_spec n t r x :
  check_vector n t r = Ok x ↔ ∃ m l, getVectorSize r = Ok m ∧ t = JArr l ∧ Z.of_nat (length l) = m ∧ x = None.
Proof.
  unfold check_vector. destruct (getVectorSize r) as [m|]; cbn [mbind result_mbind]; [|naive_solver].
  destruct t as [| |b|y|s|l|o]; try (split; [|by intros (? & ? & _ & ? & _)]; cbn; by repeat case_match).
  destruct (Z.eqb_spec (Z.of_nat (length l)) m); naive_solver.
Qed.

Lemma check_named_spec n t r : check_named n t r = Ok None ↔ value_ok t r.
Proof.
  unfold check_named, value_ok. destruct (decide (r = js "geopoint")) as [->|Hgeo].
  { assert (js (typeof t) ≠ js "geopoint") as Ht by by destruct t.
    destruct (is_geopoint t) as [[]|err]; cbn [mbind result_mbind].
    - split; [by left|done].
    - split; [destruct t; vm_compute; discriminate|].
      intros [[_ ?]|[[? _]|[[? _]|[(e & ? & _)|[(m & l & ? & _)|?]]]]]; done.
    - split; [done|]. intros [[_ ?]|[[? _]|[[? _]|[(e & ? & _)|[(m & l & ? & _)|?]]]]]; done. }
  cbn [mbind result_mbind]. destruct (decide (r = js "enum")) as [->|Henum].
  { assert (js (typeof t) ≠ js "enum") as Ht by by destruct t.
    destruct (is_enum_value t); split; try done; [by right; left|].
    intros [[? _]|[[_ ?]|[[? _]|[(e & ? & _)|[(m & l & ? & _)|?]]]]]; done. }
  destruct (decide (r = js "enum[]")) as [->|Hea].
  { assert (js (typeof t) ≠ js "enum[]") as Ht by by destruct t.
    assert (value_ok t (js "enum[]") ↔ array_of (λ v, is_enum_value v = true) t) as Hiff.
    { unfold value_ok. split; [|by right; right; left].
      intros [[? _]|[[? _]|[[_ ?]|[(e & _ & ? & _)|[(m & l & ? & _)|?]]]]]; done. }
    change (_ ∨ _) with (value_ok t (js "enum[]")). rewrite Hiff. unfold array_of.
    destruct t as [| |b|x|s|l|o]; cbn;
      try (split; [done|by intros (? & ? & _)]).
    destruct (first_bad is_enum_value 0 l) eqn:Hf; cbn.
    - split; [done|]. intros (? & [= <-] & Hall). apply (first_bad_none _ 0) in Hall. congruence.
    - split; [|done]. intros _. exists l. split; [done|]. by apply (first_bad_none _ 0). }
  destruct (isVectorType r) eqn:Hv.
  { destruct (vector_not_named r Hv) as (_ & _ & _ & Hin).
    assert (js (typeof t) ≠ r) as Ht by (intros (_ & _ & _ & ? & _)%js_typeof; congruence).
    split.
    - intros (m & l & ? & ? & ? & _)%check_vector_spec. right; right; right; right; left. eauto.
    - intros [[? _]|[[? _]|[[? _]|[(e & ? & _)|[(m & l & Hm & -> & Hl)|?]]]]]; try congruence.
      apply check_vector_spec. by exists m, l. }
  destruct (inner_type r) as [e|] eqn:Hin.
  - assert (js (typeof t) ≠ r) as Ht by (intros (_ & _ & _ & _ & ?)%js_typeof; congruence).
    split.
    + destruct t as [| |b|x|s|l|o]; try done.
      destruct (first_bad _ 0 l) eqn:Hf; [done|]. intros _. right; right; right; left.
      exists e. split_and!; [done..|]. exists l. split; [done|].
      apply first_bad_none in Hf. eapply Forall_impl; [exact Hf|]. intros v. apply bool_decide_eq_true.
    + intros [[? _]|[[? _]|[[? _]|[(e' & [= <-] & _ & l & -> & Hl)|[(m & l & Hm & _)|?]]]]]; try congruence.
      * rewrite (proj2 (first_bad_none _ 0 l)); [done|].
        eapply Forall_impl; [exact Hl|]. intros v. by apply bool_decide_eq_true_2.
      * apply getVectorSize_vector in Hm. congruence.
  - destruct (decide (js (typeof t) = r)) as [Ht|Ht]; [split; [by do 5 right|done]|].
    split; [done|]. intros [[? _]|[[? _]|[[? _]|[(e' & ? & _)|[(m & l & Hm & _)|?]]]]]; try congruence.
    apply getVectorSize_vector in Hm. congruence.
Qed.

(** A property path that fails starts with the name of the property. *)
Lemma check_named_path n t r p : check_named n t r = Ok (Some p) → n `prefix_of` p.
Proof.
  unfold check_named. generalize (if decide (r = js "geopoint") then is_geopoint t else Ok false).
  intros [geo|]; cbn [mbind result_mbind]; [|done].
  assert (∀ o : option nat, Ok ((λ i, n ++ dot :: nat_str i) <$> o) = Ok (Some p) → n `prefix_of` p) as Hidx.
  { intros [i|]; [|done]. intros [= <-]. by apply prefix_app_r. }
  destruct geo; [done|]. destruct (decide (r = js "enum")).
  { destruct (is_enum_value t); [done|]. by intros [= ->]. }
  assert (∀ o, (if decide (js (typeof t) = r) then Ok None else Ok (Some n)) = Ok (Some o) → n `prefix_of` o) as Hty.
  { intros o. destruct (decide _); [done|]. by intros [= ->]. }
  assert (∀ o : result (option jsstr), o =
     (if isVectorType r then
       check_vector n t r
     else
       match inner_type r with
       | Some e => match t with
                   | JArr l => Ok ((λ i, n ++ dot :: nat_str i) <$> first_bad (λ v, bool_decide (typeof v = e)) 0 l)
                   | _ => Ok (Some n)
                   end
       | None => if decide (js (typeof t) = r) then Ok None else Ok (Some n)
       end) → o = Ok (Some p) → n `prefix_of` p) as Hrest.
  { intros o ->. destruct (isVectorType r).
    - by intros (? & ? & ? & ? & ? & ?)%check_vector_spec.
    - destruct (inner_type r); [|apply Hty]. destruct t; try (by intros [= ->]). apply Hidx. }
  destruct (decide (r = js "enum[]")); [destruct t; try (by eapply Hrest)|by eapply Hrest]. apply Hidx.
Qed.

Lemma check_prop_path n t r : n ≠ [] → check_prop n t r ≠ Ok (Some []).
Proof.
  intros Hn. destruct r as [r|l]; cbn [check_prop].
  - intros Hp%check_named_path. by apply prefix_nil_inv in Hp.
  - destruct (negb (truthy t) || _); [congruence|].
    match goal with |- context [mbind _ ?m] => destruct m as [[[|c p]|]|] end; try done.
    cbn [mbind result_mbind]. intros [= Hp]. by destruct n.
Qed.

(** ** The nested loop is the loop of [validateSchema] *)
Lemma check_nested n t l :
  check_prop n t (SNested l) =
    if negb (truthy t) || negb (bool_decide (typeof t = "object")) then Ok (Some n)
    else e ← validateSchema t l;
         match e with
         | Some [] => Ok None
         | Some p => Ok (Some (n ++ dot :: p))
         | None => Ok None
         end.
Proof.
  cbn [check_prop]. destruct (_ || _); [done|].
  match goal with |- mbind _ (?g l) = _ => assert (∀ l, g l = validateSchema t l) as Hg end; [|by rewrite Hg].
  induction l0 as [|[n0 r0] l0 IH]; [done|]. cbn [validateSchema].
  destruct (get_prop t n0) as [v|]; cbn [mbind result_mbind]; [|done].
  destruct (match v with JUndef => Ok None | _ => check_prop n0 v r0 end) as [[|]|]; done.
Qed.

Lemma validateSchema_path t l : Forall (λ p, p.1 ≠ []) l → validateSchema t l ≠ Ok (Some []).
Proof.
  induction 1 as [|[n r] l Hn Hl IH]; cbn [validateSchema]; [done|]. simpl in Hn.
  destruct (get_prop t n) as [v|]; cbn [mbind result_mbind]; [|done].
  assert (check_prop n v r ≠ Ok (Some [])) as Hp by by apply check_prop_path.
  destruct v; try done; destruct (check_prop n _ r) as [[|]|]; cbn [mbind result_mbind]; congruence.
Qed.

Lemma object_truthy t : typeof t = "object" ∧ t ≠ JNull ↔
  negb (truthy t) || negb (bool_decide (typeof t = "object")) = false.
Proof.
  destruct t; simpl; rewrite ?orb_true_r; split; try done; intros [? ?]; done.
Qed.

Lemma object_get t n : typeof t = "object" → t ≠ JNull → ∃ v, get_prop t n = Ok v.
Proof. destruct t; simpl; try done; intros; eauto. repeat case_match; eauto. Qed.

(** The loop, given the property for every entry. *)
Lemma validate_loop t l :
  typeof t = "object" → t ≠ JNull →
  Forall (λ p, ∀ n v, v ≠ JUndef → check_prop n v p.2 = Ok None ↔ fits v p.2) l →
  validateSchema t l = Ok None ↔ doc_fits t l.
Proof.
  intros Ht Hnn. unfold doc_fits. induction 1 as [|[n r] l Hr Hl IH]; cbn [validateSchema].
  { split; [|done]. intros _ ? ? ? Hin. by apply elem_of_nil in Hin. }
  destruct (object_get t n Ht Hnn) as [v Hv]. rewrite Hv. cbn [mbind result_mbind]. simpl in Hr.
  assert ((∀ n' r' v', (n', r') ∈ (n, r) :: l → get_prop t n' = Ok v' → v' ≠ JUndef → fits v' r') ↔
    (v ≠ JUndef → fits v r) ∧
    (∀ n' r' v', (n', r') ∈ l → get_prop t n' = Ok v' → v' ≠ JUndef → fits v' r')) as ->.
  { setoid_rewrite elem_of_cons. split; [naive_solver|]. intros [H1 H2] n' r' v' [[= -> ->]|?]; [|by eauto].
    rewrite Hv. intros [= <-]. done. }
  rewrite <-IH. clear IH.
  assert (∀ c, (v ≠ JUndef → fits v r) ↔ c = Ok None → (∃ p, c = Ok (Some p)) ∨ (∃ e, c = Throw e) ∨ c = Ok None →
    (res ← c; match res with Some p => Ok (Some p) | None => validateSchema t l end) = Ok None ↔
    (v ≠ JUndef → fits v r) ∧ validateSchema t l = Ok None) as Hc.
  { intros c Hc [(p & ->)|[(e & ->)| ->]]; cbn [mbind result_mbind]; naive_solver. }
  assert (∀ c : result (option jsstr), (∃ p, c = Ok (Some p)) ∨ (∃ e, c = Throw e) ∨ c = Ok None) as Hcases.
  { intros [[]|]; eauto. }
  destruct v; apply Hc; try apply Hcases; try (rewrite Hr by done; naive_solver). naive_solver.
Qed.

Lemma check_prop_spec n t r : named r → t ≠ JUndef → check_prop n t r = Ok None ↔ fits t r.
Proof.
  revert n t. induction r as [r|l IH] using schema_ty_ind'; intros n t Hr Ht.
  - cbn [check_prop]. rewrite check_named_spec. split; [by constructor|by inversion 1].
  - inversion Hr as [|? Hl]; subst. rewrite check_nested.
    destruct (negb (truthy t) || _) eqn:Ho.
    { split; [done|]. inversion 1 as [|? ? H1 H2]; subst.
      rewrite (proj1 (object_truthy t)) in Ho by done. done. }
    apply object_truthy in Ho as [Hobj Hnn].
    assert (validateSchema t l ≠ Ok (Some [])) as Hp.
    { apply validateSchema_path. eapply Forall_impl; [exact Hl|]. by intros ? [? _]. }
    assert (validateSchema t l = Ok None ↔ fits t (SNested l)) as <-.
    { rewrite validate_loop; [|done..|].
      - unfold doc_fits. split; [by constructor|by inversion 1].
      - rewrite Forall_forall in *. intros p Hin n' v Hv. apply IH; [done| |done]. by apply (Hl p). }
    destruct (validateSchema t l) as [[[|c p]|]|]; done.
Qed.

(** C18. Validation returns no path exactly when every property the schema
    declares is absent or has its declared type, at every level of nesting:
    strings, numbers and booleans by [typeof], arrays element-wise, enums as
    strings or numbers, geopoints with numeric coordinates, vectors of the
    declared size. (A nested property with an empty name is the exception:
    its path is falsy and is taken for success.) *)
Theorem validateSchema_spec (e : jsval) (s : schema) :
  typeof e = "object" → e ≠ JNull → Forall (λ p, named p.2) s →
  validateSchema e s = Ok None ↔ doc_fits e s.
Proof.
  intros He Hn Hs. apply validate_loop; [done..|]. eapply Forall_impl; [exact Hs|].
  intros p Hp n v Hv. by apply check_prop_spec.
Qed.

Lemma validateSchema_spec_witness :
  let e := JObj [(js "title", JStr (js "a")); (js "tags", JArr [JStr (js "b")])] in
  doc_fits e [(js "title", SType (js "string")); (js "tags", SType (js "string[]"))].
Proof.
  apply (validateSchema_spec (JObj [(js "title", JStr (js "a")); (js "tags", JArr [JStr (js "b")])]));
    [done|done|by repeat constructor|]. vm_compute. reflexivity.
Defined.

(** A value accepted by the schema check is accepted by the check of the
    properties taken out of the document. *)
Lemma value_ok_accepted t r n :
  t ≠ JNull → value_ok t r → validateDocumentProperty (typeof t) r n t = Ok tt.
Proof.
  intros Hnn Hv. unfold validateDocumentProperty.
  destruct (decide (r = js "geopoint")) as [->|Hgeo].
  - destruct Hv as [[_ ->]|[[? _]|[[? _]|[(e & ? & _)|[(m & l & ? & _)|?]]]]]; try done. by destruct t.
  - cbn [mbind result_mbind].
    destruct Hv as [[? _]|[[-> Hv]|[[-> (l & -> & _)]|[(e & He & _ & l & -> & _)|[(m & l & Hm & -> & _)|<-]]]]];
      try done.
    + match goal with |- (if ?b then _ else _) = _ => assert (b = true) as ->; [|done] end.
      apply orb_true_iff. left. apply orb_true_iff. right. apply andb_true_iff. by split.
    + unfold isArrayType. rewrite He. by rewrite orb_true_r.
    + by rewrite (getVectorSize_vector _ _ Hm).
    + rewrite (bool_decide_eq_true_2 (js (typeof t) = js (typeof t))) by done. by rewrite orb_true_r.
Qed.
