(* ===== verification/Store.v ===== *)
(** * Internal document ids and the documents store

    Functions [V], [F], [j], [W] (ids) and [$], [G], [J], [Y], [H], [K], [q],
    [X], [Z] (documents). The id store is one object shared by the index, the
    documents store and the sorter; operations that use it take it and return
    it. *)

From stdpp Require Import pretty.
From S2P Require Import Prelude JSColl JSNum JSValue.
Local Open Scope Z_scope.

(** ** Internal ids *)
Record ids := Ids { idToInternalId : list (jsstr * Z); internalIdToId : list jsstr }.

Definition new_ids : ids := Ids [] [].

(** An id as passed around: a document's string id or an internal number. *)
Inductive docref := RefStr (s : jsstr) | RefNum (n : Z).

Definition intern (e : ids) (t : jsstr) : ids * Z :=
  match jm_get t (idToInternalId e) with
  | Some n => if n =? 0 then
                let r := Z.of_nat (length (idToInternalId e)) + 1 in
                (Ids (jm_set t r (idToInternalId e)) (internalIdToId e ++ [t]), r)
              else (e, n)
  | None =>
      let r := Z.of_nat (length (idToInternalId e)) + 1 in
      (Ids (jm_set t r (idToInternalId e)) (internalIdToId e ++ [t]), r)
  end.

(** Function [V]. *)
Definition getInternalDocumentId (e : ids) (t : docref) : ids * Z :=
  match t with
  | RefStr t => intern e t
  | RefNum t => if Z.of_nat (length (internalIdToId e)) <? t then intern e (js (pretty t)) else (e, t)
  end.

(** Function [F]; below 1 the array read gives [undefined]. *)
Definition getDocumentIdFromInternalId (e : ids) (t : Z) : result (option jsstr) :=
  if Z.of_nat (length (internalIdToId e)) <? t then Throw (PlainError "Invalid internalId")
  else Ok (if t - 1 <? 0 then None else internalIdToId e !! Z.to_nat (t - 1)).

(** Functions [j] and [W]. *)
Definition ids_save (e : ids) : list jsstr := internalIdToId e.
Definition ids_load (n : list jsstr) : ids :=
  foldl (λ e r, Ids (jm_set r (Z.of_nat (length (internalIdToId e)) + 1) (idToInternalId e))
                    (internalIdToId e ++ [r])) new_ids n.

(** ** Documents *)
Record docs := Docs { docs_map : gmap Z jsval; docs_count : Z }.

Definition new_docs : docs := Docs ∅ 0.

Definition docs_get (i : ids) (e : docs) (t : docref) : ids * option jsval :=
  let '(i, n) := getInternalDocumentId i t in (i, docs_map e !! n).

Fixpoint docs_getMultiple (i : ids) (e : docs) (t : list docref) : ids * list (option jsval) :=
  match t with
  | [] => (i, [])
  | x :: t =>
      let '(i, r) := docs_get i e x in
      let '(i, rs) := docs_getMultiple i e t in (i, r :: rs)
  end.

(** [Object.keys(getAll(e))]: integer keys come in ascending order. *)
Definition docs_getAll (e : docs) : gmap Z jsval := docs_map e.
Definition docs_keys (e : docs) : list Z := merge_sort Z.le (map_to_list (docs_map e)).*1.

Definition docs_store (e : docs) (n : Z) (r : jsval) : docs * bool :=
  match docs_map e !! n with
  | None => (Docs (<[n := r]> (docs_map e)) (docs_count e + 1), true)
  | Some _ => (e, false)
  end.

Definition docs_remove (i : ids) (e : docs) (t : docref) : ids * docs * bool :=
  let '(i, n) := getInternalDocumentId i t in
  match docs_map e !! n with
  | None => (i, e, false)
  | Some _ => (i, Docs (delete n (docs_map e)) (docs_count e - 1), true)
  end.

Definition docs_save (e : docs) : gmap Z jsval * Z := (docs_map e, docs_count e).
Definition docs_load (t : gmap Z jsval * Z) : docs := Docs t.1 t.2.

(** ** Invariants *)

(** The two directions of the id store agree. *)
Definition ids_wf (e : ids) : Prop :=
  NoDup (internalIdToId e) ∧
  idToInternalId e = imap (λ k s, (s, Z.of_nat k + 1)) (internalIdToId e).

Definition docs_wf (e : docs) : Prop := docs_count e = Z.of_nat (size (docs_map e)).

Lemma ids_get l (t : jsstr) (o : nat) :
  NoDup l →
  jm_get t (imap (λ k s, (s, Z.of_nat (o + k) + 1)) l) =
    (λ p, Z.of_nat (o + p.1) + 1) <$> list_find (t =.) l.
Proof.
  revert o. induction l as [|s l IH]; intros o Hnd; [done|]. apply NoDup_cons in Hnd as [_ Hnd].
  cbn [imap jm_get list_find]. destruct (decide (t = s)) as [->|]; [done|].
  rewrite (imap_ext _ (λ k s, (s, Z.of_nat (S o + k) + 1))) by (intros; simpl; f_equal; lia).
  rewrite (IH (S o)) by done. rewrite <-option_fmap_compose. apply option_fmap_ext.
  intros [k x]. simpl. lia.
Qed.

Lemma ids_wf_get e t : ids_wf e →
  jm_get t (idToInternalId e) = (λ p, Z.of_nat p.1 + 1) <$> list_find (t =.) (internalIdToId e).
Proof. intros [Hnd ->]. by apply (ids_get _ t 0). Qed.

Lemma intern_cases e t :
  ids_wf e →
  (∃ k, internalIdToId e !! k = Some t ∧ intern e t = (e, Z.of_nat k + 1)) ∨
  (t ∉ internalIdToId e ∧
   intern e t = (Ids (idToInternalId e ++ [(t, Z.of_nat (length (internalIdToId e)) + 1)])
                     (internalIdToId e ++ [t]), Z.of_nat (length (internalIdToId e)) + 1)).
Proof.
  intros Hwf. unfold intern. rewrite ids_wf_get by done.
  assert (length (idToInternalId e) = length (internalIdToId e)) as Hlen.
  { destruct Hwf as [_ ->]. by rewrite length_imap. }
  destruct (list_find (t =.) (internalIdToId e)) as [[k s]|] eqn:Hf; simpl.
  - apply list_find_Some in Hf as (Hk & <- & _). left. exists k. split; [done|].
    destruct (Z.eqb_spec (Z.of_nat k + 1) 0); [lia|done].
  - apply list_find_None in Hf. rewrite Forall_forall in Hf. right.
    assert (t ∉ internalIdToId e) as Hni by (intros Hin; by apply (Hf t)).
    split; [done|]. rewrite Hlen, jm_set_app; [done|]. apply jm_get_None.
    rewrite ids_wf_get by done. rewrite (proj2 (list_find_None _ _)); [done|].
    by apply Forall_forall.
Qed.

Lemma intern_wf e t : ids_wf e → ids_wf (intern e t).1.
Proof.
  intros Hwf. destruct (intern_cases e t Hwf) as [(k & _ & ->)|[Hni ->]]; [done|].
  destruct Hwf as [Hnd He]. split; cbn [fst internalIdToId idToInternalId].
  - apply NoDup_app. split_and!; [done|set_solver|apply NoDup_singleton].
  - rewrite He, imap_app. f_equal. simpl. by rewrite Nat.add_0_r.
Qed.

(** Internal ids are a bijection with the document ids seen so far: asking
    for the id of a string gives it a positive number that leads back to the
    string, strings that have a number keep it, and two strings never share
    one. *)
Theorem internal_ids (e : ids) (t u : jsstr) :
  ids_wf e →
  let '(e', n) := getInternalDocumentId e (RefStr t) in
  ids_wf e' ∧ 1 ≤ n ∧ getDocumentIdFromInternalId e' n = Ok (Some t) ∧
  getInternalDocumentId e' (RefNum n) = (e', n) ∧
  (∀ k s, getDocumentIdFromInternalId e k = Ok (Some s) → getDocumentIdFromInternalId e' k = Ok (Some s)) ∧
  (t ≠ u → (getInternalDocumentId e' (RefStr u)).2 ≠ n).
Proof.
  intros Hwf. cbn [getInternalDocumentId]. pose proof (intern_wf e t Hwf) as Hwf'.
  destruct (intern e t) as [e' n] eqn:He. cbn [fst] in Hwf'.
  assert (internalIdToId e `prefix_of` internalIdToId e' ∧ 1 ≤ n ∧
          internalIdToId e' !! Z.to_nat (n - 1) = Some t ∧ n ≤ Z.of_nat (length (internalIdToId e'))) as (Hp & Hn & Ht & Hl).
  { destruct (intern_cases e t Hwf) as [(k & Hk & He')|[Hni He']]; rewrite He in He';
      injection He' as -> ->.
    - split_and!; [done|lia|by replace (Z.to_nat _) with k by lia|apply lookup_lt_Some in Hk; lia].
    - cbn [internalIdToId]. split_and!; [by apply prefix_app_r|lia| |rewrite length_app; simpl; lia].
      replace (Z.to_nat _) with (length (internalIdToId e)) by lia. by rewrite lookup_app_r, Nat.sub_diag by lia. }
  split_and!; [done|done|..].
  - unfold getDocumentIdFromInternalId. rewrite (proj2 (Z.ltb_ge _ n)), (proj2 (Z.ltb_ge _ 0)) by lia.
    by rewrite Ht.
  - by rewrite (proj2 (Z.ltb_ge _ n)) by lia.
  - intros k s. unfold getDocumentIdFromInternalId. destruct (Z.ltb_spec (Z.of_nat (length (internalIdToId e))) k); [done|].
    apply prefix_length in Hp as Hle. rewrite (proj2 (Z.ltb_ge _ k)) by lia.
    destruct (k - 1 <? 0); [done|]. intros [= Hs]. by rewrite (prefix_lookup_Some _ _ _ _ Hs Hp).
  - intros Hne. destruct (intern_cases e' u Hwf') as [(k & Hk & ->)|[Hni ->]]; cbn [snd].
    + intros <-. replace (Z.to_nat _) with k in Ht by lia. congruence.
    + lia.
Qed.

(** The array of ids saved restores the store. *)
Lemma ids_save_load e : ids_wf e → ids_load (ids_save e) = e.
Proof.
  destruct e as [m l]. intros [Hnd He]. unfold ids_load, ids_save. simpl in *. subst m.
  assert (∀ l1 l2, NoDup (l1 ++ l2) →
    foldl (λ e r, Ids (jm_set r (Z.of_nat (length (internalIdToId e)) + 1) (idToInternalId e))
                      (internalIdToId e ++ [r]))
      (Ids (imap (λ k s, (s, Z.of_nat k + 1)) l1) l1) l2 =
    Ids (imap (λ k s, (s, Z.of_nat k + 1)) (l1 ++ l2)) (l1 ++ l2)) as Hf; [|by apply (Hf [])].
  intros l1 l2. revert l1. induction l2 as [|s l2 IH]; intros l1 Hnd'; [by rewrite app_nil_r|].
  cbn [foldl internalIdToId idToInternalId]. rewrite jm_set_app.
  - specialize (IH (l1 ++ [s])). rewrite <-(assoc_L (++)) in IH. cbn [app] in IH. rewrite <-IH by done.
    f_equal. f_equal. rewrite imap_app. simpl. by rewrite Nat.add_0_r.
  - intros Hin. apply list_elem_of_fmap in Hin as ([s' z] & Hs & Hin). simpl in Hs. subst s'.
    apply elem_of_lookup_imap in Hin as (k & s' & [= -> _] & Hk).
    apply NoDup_app in Hnd' as (_ & Hd & _). apply (Hd s'); [by eapply list_elem_of_lookup_2|by left].
Qed.

(** The documents store counts its documents: storing succeeds exactly when
    the id is free and then adds the document, otherwise it changes nothing;
    removing takes exactly that document away. *)
Theorem docs_store_spec (i : ids) (e : docs) (n : Z) (r : jsval) (t : jsstr) :
  docs_wf e → ids_wf i →
  let '(e1, stored) := docs_store e n r in
  let '(i2, e2, removed) := docs_remove i e (RefStr t) in
  let m := (getInternalDocumentId i (RefStr t)).2 in
  docs_wf e1 ∧ docs_wf e2 ∧
  (stored = true ↔ docs_map e !! n = None) ∧
  docs_map e1 = (if stored then <[n := r]> (docs_map e) else docs_map e) ∧
  (removed = true ↔ is_Some (docs_map e !! m)) ∧
  docs_map e2 = delete m (docs_map e) ∧ ids_wf i2.
Proof.
  intros Hwf Hi. unfold docs_store, docs_remove, docs_wf in *. cbn [getInternalDocumentId].
  pose proof (intern_wf i t Hi) as Hi'. destruct (intern i t) as [i' m]. cbn [snd fst] in *.
  destruct (docs_map e !! n) as [d|] eqn:Hn, (docs_map e !! m) as [d'|] eqn:Hm; cbn [docs_map docs_count];
    split_and!; try done; try (split; [done|by intros []]); try (split; [by eauto|done]);
    rewrite ?map_size_insert_None, ?map_size_delete_Some, ?delete_id by eauto; try lia; try done.
  all: assert (size (docs_map e) ≠ 0)%nat by (eapply map_size_ne_0_lookup_2; eauto); lia.
Qed.

(** ** Witnesses *)
Lemma internal_ids_witness :
  let '(e', n) := getInternalDocumentId new_ids (RefStr (js "a")) in
  getDocumentIdFromInternalId e' n = Ok (Some (js "a")).
Proof.
  assert (ids_wf new_ids) as Hwf by (split; [constructor|done]).
  pose proof (internal_ids new_ids (js "a") (js "b") Hwf) as H.
  destruct (getInternalDocumentId new_ids (RefStr (js "a"))) as [e' n]. by destruct H as (_ & _ & ? & _).
Defined.

Lemma docs_store_spec_witness : docs_wf (docs_store new_docs 1 JNull).1.
Proof.
  assert (ids_wf new_ids) as Hwf by (split; [constructor|done]).
  pose proof (docs_store_spec new_ids new_docs 1 JNull (js "a") eq_refl Hwf) as H.
  destruct (docs_store new_docs 1 JNull), (docs_remove new_ids new_docs (RefStr (js "a"))) as [[??]?].
  by destruct H as (? & _).
Defined.
