(* ===== verification/Stemmer.v ===== *)
(** * The English stemmer (function [lt])

    Porter's algorithm as a sequence of regular expressions. Tests are run by
    a small matcher that lists every way to match; the captures of
    [/^(.+?)(a|b|...)c$/] are computed directly: the first group is the
    shortest beginning that leaves one of the endings. [.] matches anything
    but a line end. *)

From S2P Require Import Prelude JSColl.

(** ** Regular expressions *)
Inductive regex :=
  | Cls (f : N → bool)
  | Cat (a b : regex)
  | Many (f : N → bool)         (* a class, any number of times *)
  | Maybe (a : regex).

(** What can remain of the text after a match of the beginning. *)
Fixpoint rests (r : regex) (s : jsstr) : list jsstr :=
  match r with
  | Cls f => match s with c :: s => if f c then [s] else [] | [] => [] end
  | Cat a b => rests a s ≫= rests b
  | Many f => (fix many (s : jsstr) : list jsstr :=
                 s :: match s with c :: s => if f c then many s else [] | [] => [] end) s
  | Maybe a => rests a s ++ [s]
  end.

(** [/^r/.test(s)] and [/^r$/.test(s)] *)
Definition test (r : regex) (s : jsstr) : bool := (0 <? length (rests r s))%nat.
Definition test_whole (r : regex) (s : jsstr) : bool := bool_decide ([] ∈ rests r s).

Definition one_of (l : string) (c : N) : bool := bool_decide (c ∈ js l).
Definition none_of (l : string) (c : N) : bool := negb (one_of l c).

(** The character classes and sequences [nt], [rt], [ot] and the tests [st],
    [it], [at], [ct] made of them; the last one is the short syllable. *)
Definition nt : regex := Cls (one_of "aeiouy").
Definition rt : regex := Cat (Cls (none_of "aeiou")) (Many (none_of "aeiouy")).
Definition ot : regex := Cat nt (Many (one_of "aeiou")).
Definition st : regex := Cat (Maybe rt) (Cat ot rt).
Definition it : regex := Cat st (Maybe ot).
Definition at_ : regex := Cat st (Cat ot rt).
Definition ct : regex := Cat (Maybe rt) nt.
Definition short_syllable : regex := Cat rt (Cat nt (Cls (none_of "aeiouwxy"))).

(** ** Captures *)
Definition any_char (c : N) : bool := negb (bool_decide (c ∈ [10; 13; 8232; 8233]%N)).

(** [/^(.+?)(e1|e2|...)$/.exec(s)]: both groups; [before] is the part of the
    first group already passed. *)
Fixpoint capture_from (before s : jsstr) (endings : list jsstr) : option (jsstr * jsstr) :=
  match s with
  | [] => None
  | c :: s =>
      if any_char c then
        let t := before ++ [c] in
        if bool_decide (s ∈ endings) then Some (t, s) else capture_from t s endings
      else None
  end.
Definition capture (s : jsstr) (endings : list string) : option (jsstr * jsstr) := capture_from [] s (js <$> endings).

Definition ends_with (l e : jsstr) : bool := bool_decide (drop (length l - length e) l = e).

(** [e.replace(/.$/, '')] *)
Definition drop_last (s : jsstr) : jsstr :=
  match last s with Some c => if any_char c then removelast s else s | None => s end.

(** ** Endings and what replaces them *)
Definition et : list (string * string) :=
  [("ational", "ate"); ("tional", "tion"); ("enci", "ence"); ("anci", "ance"); ("izer", "ize"); ("bli", "ble"); ("alli", "al");
   ("entli", "ent"); ("eli", "e"); ("ousli", "ous"); ("ization", "ize"); ("ation", "ate"); ("ator", "ate"); ("alism", "al");
   ("iveness", "ive"); ("fulness", "ful"); ("ousness", "ous"); ("aliti", "al"); ("iviti", "ive"); ("biliti", "ble"); ("logi", "log")]%string.
Definition tt_ : list (string * string) :=
  [("icate", "ic"); ("ative", ""); ("alize", "al"); ("iciti", "ic"); ("ical", "ic"); ("ful", ""); ("ness", "")]%string.

(** [table[n]] *)
Definition replacement (table : list (string * string)) (n : jsstr) : jsstr :=
  default [] (jm_get n ((λ p, (js p.1, js p.2)) <$> table)).

(** ** The steps, in the order of the code *)

(** Plurals: [(.+?)(ss|i)es] and [(.+?)([^s])s]. *)
Definition step_plural (e : jsstr) : jsstr :=
  match capture e ["sses"; "ies"] with
  | Some (t, x) => t ++ take (length x - 2) x
  | None =>
      (* [(.+?)([^s])s$] has one way to match: all but the last two *)
      match last e with
      | Some 115%N =>
          let e' := removelast e in
          match last e' with
          | Some c => if negb (c =? 115)%N && (1 <? length e')%nat && forallb any_char (removelast e') then e' else e
          | None => e
          end
      | _ => e
      end
  end.

(** [eed], or [ed] and [ing] after a vowel. *)
Definition step_past (e : jsstr) : jsstr :=
  match capture e ["eed"] with
  | Some (t, _) => if test st t then drop_last e else e
  | None =>
      match capture e ["ed"; "ing"] with
      | Some (t, _) =>
          if test ct t then
            let e := t in
            if ends_with e (js "at") || ends_with e (js "bl") || ends_with e (js "iz") then e ++ js "e"
            else match last e, last (removelast e) with
                 | Some a, Some b => if (a =? b)%N && none_of "aeiouylsz" a then drop_last e
                                     else if test_whole short_syllable e then e ++ js "e" else e
                 | _, _ => if test_whole short_syllable e then e ++ js "e" else e
                 end
          else e
      | None => e
      end
  end.

Definition step_y (e : jsstr) : jsstr :=
  match capture e ["y"] with Some (t, _) => if test ct t then t ++ js "i" else e | None => e end.

Definition step_table (table : list (string * string)) (e : jsstr) : jsstr :=
  match capture e table.*1 with
  | Some (t, n) => if test st t then t ++ replacement table n else e
  | None => e
  end.

Definition suffixes : list string :=
  ["al"; "ance"; "ence"; "er"; "ic"; "able"; "ible"; "ant"; "ement"; "ment"; "ent"; "ou"; "ism"; "ate"; "iti"; "ous"; "ive"; "ize"]%string.

(** The second branch puts back neither the [s] nor the [t] before [ion]:
    [n[1] ?? '' + n[2] ?? ''] is [n[1]]. *)
Definition step_suffix (e : jsstr) : jsstr :=
  match capture e suffixes with
  | Some (t, _) => if test at_ t then t else e
  | None => match capture e ["sion"; "tion"] with
            | Some (t, _) => if test at_ t then t else e
            | None => e
            end
  end.

Definition step_e (e : jsstr) : jsstr :=
  match capture e ["e"] with
  | Some (t, _) => if test at_ t || (test_whole it t && negb (test_whole short_syllable t)) then t else e
  | None => e
  end.

Definition step_ll (e : jsstr) : jsstr := if ends_with e (js "ll") && test at_ e then drop_last e else e.

Definition stem_steps (e : jsstr) : jsstr :=
  step_ll (step_e (step_suffix (step_table tt_ (step_table et (step_y (step_past (step_plural e))))))).

(** A leading [y] is a consonant: it is [Y] meanwhile. *)
Definition stemmer (e : jsstr) : jsstr :=
  if (length e <? 3)%nat then e
  else match e with
       | 121%N :: e' => match stem_steps (89%N :: e') with _ :: e => 121%N :: e | [] => js "y" end
       | _ => stem_steps e
       end.

(** ** What stemming keeps *)
Lemma capture_from_spec before s endings t x :
  capture_from before s endings = Some (t, x) → before ++ s = t ++ x ∧ x ∈ endings ∧ (length before < length t)%nat.
Proof.
  revert before. induction s as [|c s IH]; intros before; cbn [capture_from]; [done|].
  destruct (any_char c); [|done]. case_bool_decide.
  - intros [= <- <-]. rewrite <-(assoc_L (++)), length_app. split_and!; [done..|simpl; lia].
  - intros (H1 & H2 & H3)%IH. rewrite length_app in H3. rewrite <-(assoc_L (++)) in H1. split_and!; [done..|simpl in H3; lia].
Qed.

Lemma capture_spec e endings t x : capture e endings = Some (t, x) → e = t ++ x ∧ t ≠ [] ∧ x ∈ js <$> endings.
Proof. intros (H & ? & ?)%capture_from_spec. change ([] ++ e) with e in H. split_and!; [done|by destruct t; [simpl in *; lia|]|done]. Qed.

(** A shorter word with the same first letter. *)
Definition shortens (e e' : jsstr) : Prop := (length e' <= length e)%nat ∧ head e' = head e.

#[global] Instance shortens_preorder : PreOrder shortens.
Proof. split; [by split|]. intros a b c [H1 H2] [H3 H4]. split; [lia|congruence]. Qed.

Lemma shortens_app t x y : t ≠ [] → (length y <= length x)%nat → shortens (t ++ x) (t ++ y).
Proof. intros Ht Hl. split; [rewrite !length_app; lia|by destruct t]. Qed.
Lemma shortens_prefix t x : t ≠ [] → shortens (t ++ x) t.
Proof. intros Ht. rewrite <-(app_nil_r t) at 2. apply shortens_app; [done|simpl; lia]. Qed.
Lemma shortens_removelast e : (1 < length e)%nat → shortens e (removelast e).
Proof.
  intros Hl. destruct e as [|a [|b e]]; simpl in *; [lia..|]. split; [|done]. simpl. rewrite Nat.succ_le_mono.
  assert (length (removelast (b :: e)) <= length (b :: e))%nat; [|simpl in *; lia]. clear. revert b.
  induction e as [|c e IH]; intros b; simpl in *; [lia|]. specialize (IH c). lia.
Qed.
Lemma shortens_drop_last e : (1 < length e)%nat → shortens e (drop_last e).
Proof. intros Hl. unfold drop_last. destruct (last e); [|done]. destruct (any_char _); [by apply shortens_removelast|done]. Qed.

(** Proves that a captured word is shortened. *)
Ltac captured Hc :=
  apply capture_spec in Hc as (-> & Hc & ?); first [reflexivity | by apply shortens_prefix | apply shortens_app; [done|]].

Lemma step_plural_short e : shortens e (step_plural e).
Proof.
  unfold step_plural. destruct (capture e _) as [[t x]|] eqn:Hc; [captured Hc; rewrite length_take; lia|].
  destruct (last e) as [c|] eqn:Hl; [|done].
  destruct (decide (c = 115%N)) as [->|Hne]; [|by repeat case_match].
  destruct (last (removelast e)) as [d|]; [|done]. destruct (_ && _) eqn:Hb; [|done]. bool_to_prop.
  apply shortens_removelast. destruct e as [|a [|b e]]; simpl in *; lia.
Qed.

Lemma ends_with_length l e : e ≠ [] → ends_with l e = true → (length e <= length l)%nat.
Proof.
  unfold ends_with. intros He Hb. bool_to_prop. apply (f_equal length) in Hb. rewrite length_drop in Hb.
  destruct e; [done|]. simpl in *. lia.
Qed.

Lemma step_past_short e : shortens e (step_past e).
Proof.
  unfold step_past. destruct (capture e ["eed"]) as [[t x]|] eqn:Hc.
  { destruct (test st t); [|done]. apply capture_spec in Hc as (-> & Ht & Hx). apply shortens_drop_last.
    apply list_elem_of_singleton in Hx as ->. rewrite length_app. simpl. lia. }
  clear Hc. destruct (capture e ["ed"; "ing"]) as [[t x]|] eqn:Hc; [|done]. destruct (test ct t); [|done].
  apply capture_spec in Hc as (-> & Ht & Hx).
  assert (shortens (t ++ x) (t ++ js "e")) as He.
  { apply shortens_app; [done|]. rewrite !fmap_cons, fmap_nil, !elem_of_cons, elem_of_nil in Hx. destruct Hx as [->|[->|[]]]; simpl; lia. }
  destruct (_ || _); [exact He|]. assert (shortens (t ++ x) t) as Hp by by apply shortens_prefix.
  destruct (last t) as [a|] eqn:Ha; [|by destruct (test_whole _ _)].
  destruct (last (removelast t)) as [b|] eqn:Hb; [|by destruct (test_whole _ _)].
  destruct (_ && _); [|by destruct (test_whole _ _)]. etrans; [exact Hp|]. apply shortens_drop_last.
  destruct t as [|? [|? ?]]; simpl in *; done || lia.
Qed.

Lemma step_y_short e : shortens e (step_y e).
Proof.
  unfold step_y. destruct (capture e _) as [[t x]|] eqn:Hc; [|done]. destruct (test ct t); [|done].
  apply capture_spec in Hc as (-> & Ht & ->%list_elem_of_singleton). by apply shortens_app.
Qed.

(** No ending is replaced by a longer one. *)
Definition shrinking (table : list (string * string)) : bool :=
  forallb (λ x, (length (replacement table x) <=? length x)%nat) (js <$> table.*1).
Lemma step_table_short table e : shrinking table = true → shortens e (step_table table e).
Proof.
  intros Hs. unfold step_table. destruct (capture e _) as [[t x]|] eqn:Hc; [|done]. destruct (test st t); [|done].
  apply capture_spec in Hc as (-> & Ht & Hx). apply shortens_app; [done|]. unfold shrinking in Hs. rewrite forallb_forall in Hs.
  apply Nat.leb_le, Hs. by apply list_elem_of_In.
Qed.

Lemma step_suffix_short e : shortens e (step_suffix e).
Proof.
  unfold step_suffix. destruct (capture e suffixes) as [[t x]|] eqn:Hc; [destruct (test at_ t); captured Hc|].
  clear Hc. destruct (capture e _) as [[t x]|] eqn:Hc; [destruct (test at_ t); captured Hc|done].
Qed.

Lemma step_e_short e : shortens e (step_e e).
Proof. unfold step_e. destruct (capture e _) as [[t x]|] eqn:Hc; [|done]. destruct (_ || _); captured Hc. Qed.

Lemma step_ll_short e : shortens e (step_ll e).
Proof.
  unfold step_ll. destruct (_ && _) eqn:Hb; [|done]. bool_to_prop. apply shortens_drop_last.
  pose proof (ends_with_length e (js "ll")) as Hl. simpl in Hl. apply Hl; done.
Qed.

Lemma stem_steps_short e : shortens e (stem_steps e).
Proof.
  unfold stem_steps. rewrite <-step_ll_short, <-step_e_short, <-step_suffix_short.
  etrans; [|by apply step_table_short]. etrans; [|by apply step_table_short]. by rewrite <-step_y_short, <-step_past_short, <-step_plural_short.
Qed.

(** C23. Stemming a word never makes it longer and keeps its first letter, so
    that no word is stemmed away; words of less than three letters stay as
    they are. *)
Theorem stemmer_shortens (e : jsstr) :
  (length (stemmer e) <= length e)%nat ∧ head (stemmer e) = head e ∧ ((length e < 3)%nat → stemmer e = e).
Proof.
  unfold stemmer. destruct (Nat.ltb_spec (length e) 3); [done|].
  assert (shortens e match e with 121%N :: e' => match stem_steps (89%N :: e') with _ :: e => 121%N :: e | [] => js "y" end | _ => stem_steps e end) as [H1 H2];
    [|by split_and!; [..|lia]].
  destruct e as [|c e]; [apply stem_steps_short|]. destruct (decide (c = 121%N)) as [->|Hne].
  - destruct (stem_steps_short (89%N :: e)) as [H1 H2]. destruct (stem_steps (89%N :: e)) as [|x s]; [done|]. by split.
  - pose proof (stem_steps_short (c :: e)). by repeat case_match.
Qed.

(** Endings in [sion] and [tion] lose their [s] or [t] with the [ion]; the
    algorithm the function follows takes the [ion] only. *)
Example adoption_stem : stemmer (js "adoption") = js "adop" ∧ stemmer (js "adopt") = js "adopt".
Proof. split; vm_compute; reflexivity. Qed.
