(* ===== verification/Tokenizer.v ===== *)
(** * The tokenizer (functions [ut], [ft] and [dt])

    The character classes of the languages and the Unicode case table are
    parameters: [is_sep lang c] tells whether [c] separates words in a
    language, [toLowerCase] is the string method. *)

From S2P Require Import Prelude JSColl Stemmer.
Local Open Scope Z_scope.

(** Table [Qe]: the letters 192 to 383 without their diacritics; 0 stands for
    [null]. *)
Definition DIACRITICS : list N :=
  [65; 65; 65; 65; 65; 65; 65; 67; 69; 69; 69; 69; 73; 73; 73; 73; 69; 78; 79; 79; 79; 79;
   79; 0; 79; 85; 85; 85; 85; 89; 80; 115; 97; 97; 97; 97; 97; 97; 97; 99; 101; 101; 101;
   101; 105; 105; 105; 105; 101; 110; 111; 111; 111; 111; 111; 0; 111; 117; 117; 117; 117;
   121; 112; 121; 65; 97; 65; 97; 65; 97; 67; 99; 67; 99; 67; 99; 67; 99; 68; 100; 68; 100;
   69; 101; 69; 101; 69; 101; 69; 101; 69; 101; 71; 103; 71; 103; 71; 103; 71; 103; 72;
   104; 72; 104; 73; 105; 73; 105; 73; 105; 73; 105; 73; 105; 73; 105; 74; 106; 75; 107;
   107; 76; 108; 76; 108; 76; 108; 76; 108; 76; 108; 78; 110; 78; 110; 78; 110; 110; 78;
   110; 79; 111; 79; 111; 79; 111; 79; 111; 82; 114; 82; 114; 82; 114; 83; 115; 83; 115;
   83; 115; 83; 115; 84; 116; 84; 116; 84; 116; 85; 117; 85; 117; 85; 117; 85; 117; 85;
   117; 85; 117; 87; 119; 89; 121; 89; 90; 122; 90; 122; 90; 122; 115]%N.

(** [n < 192 || n > 383 ? n : Qe[n - 192] || n] *)
Definition replace_char (n : N) : N :=
  if (n <? 192)%N || (383 <? n)%N then n
  else match DIACRITICS !! N.to_nat (n - 192) with
       | Some c => if (c =? 0)%N then n else c
       | None => n
       end.
Definition replaceDiacritics (e : jsstr) : jsstr := replace_char <$> e.

Definition colon : N := 58.

Section tokenizer.
Context (toLowerCase : jsstr → jsstr) (is_sep : jsstr → N → bool).

Record tokenizer := Tokenizer {
  tk_language : jsstr;
  tk_stemmer : option (jsstr → jsstr);
  stemmerSkipProperties : list jsstr;
  tokenizeSkipProperties : list jsstr;
  tk_stopWords : option (list jsstr);
  allowDuplicates : bool;
}.
Abbreviation cache := (list (jsstr * jsstr)).

(** ** normalizeToken, function [ut] *)

(** The value computed when it is not in the cache. *)
Definition normalize (tk : tokenizer) (e t : jsstr) : jsstr :=
  if match tk_stopWords tk with Some l => bool_decide (t ∈ l) | None => false end then []
  else
    let t := match tk_stemmer tk with
             | Some f => if set_has e (stemmerSkipProperties tk) then t else f t
             | None => t
             end in
    replaceDiacritics t.

Definition cache_key (tk : tokenizer) (e t : jsstr) : jsstr :=
  tk_language tk ++ colon :: e ++ colon :: t.

Definition normalizeToken (tk : tokenizer) (c : cache) (e t : jsstr) (n : bool) : cache * jsstr :=
  let r := cache_key tk e t in
  match (if n then jm_get r c else None) with
  | Some v => (c, v)
  | None => let v := normalize tk e t in ((if n then jm_set r v c else c), v)
  end.

Fixpoint normalize_all (tk : tokenizer) (c : cache) (e : jsstr) (l : list jsstr) (n : bool) :
    cache * list jsstr :=
  match l with
  | [] => (c, [])
  | t :: l =>
      let '(c, v) := normalizeToken tk c e t n in
      let '(c, vs) := normalize_all tk c e l n in (c, v :: vs)
  end.

(** ** tokenize, function [ft] *)

(** [e.split(re)] for a class of separators; runs of separators give empty
    words at most, which are dropped below. *)
Fixpoint split_words (sep : N → bool) (s : jsstr) : list jsstr :=
  match s with
  | [] => [[]]
  | x :: s =>
      if sep x then [] :: split_words sep s
      else match split_words sep s with
           | w :: ws => (x :: w) :: ws
           | [] => [[x]]
           end
  end.

(** [filter(Boolean)] *)
Definition nonempty (l : list jsstr) : list jsstr := filter (λ w, w ≠ []) l.

(** The two loops that drop empty words at the ends. *)
Fixpoint drop_front (l : list jsstr) : list jsstr :=
  match l with [] :: l => drop_front l | l => l end.
Definition trim (l : list jsstr) : list jsstr := drop_front (rev (drop_front (rev l))).

Definition tokenize (tk : tokenizer) (c : cache) (e : jsstr) (lang : option jsstr) (prop : option jsstr)
    (o : bool) : result (cache * list jsstr) :=
  if match lang with Some t => negb (bool_decide (t = [])) && negb (bool_decide (t = tk_language tk)) | None => false end
  then Throw (OramaError "LANGUAGE_NOT_SUPPORTED" [default [] lang])
  else
    let p := default [] prop in
    let '(c, i) :=
      if negb (bool_decide (p = [])) && set_has p (tokenizeSkipProperties tk)
      then let '(c, v) := normalizeToken tk c p e o in (c, [v])
      else let '(c, l) := normalize_all tk c p (split_words (is_sep (tk_language tk)) (toLowerCase e)) o in
           (c, nonempty l) in
    let a := trim i in
    Ok (c, if allowDuplicates tk then a else set_of a).

(** ** createTokenizer, function [dt] *)
Inductive stop_words_config :=
  | StopFalse                              (* [false] *)
  | StopDefault                            (* absent, or another falsy value *)
  | StopArray (l : list (option jsstr))    (* an array; [None] is an element that is no string *)
  | StopFun (l : option (list (option jsstr)))  (* what the function returns; [None]: no array *)
  | StopOther.
Inductive stemmer_config := StemNone | StemFun (f : jsstr → jsstr) | StemOther.

Record tokenizer_config := TokenizerConfig {
  c_language : jsstr;                  (* [''] when absent *)
  c_stemming : option bool;            (* [None] when absent *)
  c_stemmer : stemmer_config;
  c_stopWords : stop_words_config;
  c_stemmerSkip : list jsstr;
  c_tokenizeSkip : list jsstr;
  c_allowDuplicates : bool;
}.

Fixpoint all_strings (l : list (option jsstr)) : option (list jsstr) :=
  match l with
  | [] => Some []
  | Some s :: l => ss ← all_strings l; Some (s :: ss)
  | None :: _ => None
  end.

Definition bad_stop_words {A} : result A :=
  Throw (OramaError "CUSTOM_STOP_WORDS_MUST_BE_FUNCTION_OR_ARRAY" []).

Definition createTokenizer (langs : list jsstr) (e : tokenizer_config) :
    result tokenizer :=
  lang ← (if bool_decide (c_language e = []) then Ok (js "english")
          else if bool_decide (c_language e ∈ langs) then Ok (c_language e)
          else Throw (OramaError "LANGUAGE_NOT_SUPPORTED" [c_language e]));
  t ← (if match c_stemming e with
          | Some b => b
          | None => match c_stemmer e with StemNone => false | _ => true end
          end
       then match c_stemmer e with
            | StemFun f => Ok (Some f)
            | StemOther => Throw (OramaError "INVALID_STEMMER_FUNCTION_TYPE" [])
            | StemNone => if decide (lang = js "english") then Ok (Some stemmer)
                          else Throw (OramaError "MISSING_STEMMER" [lang])
            end
       else Ok None);
  n ← (match c_stopWords e with
       | StopFalse => Ok None
       | StopDefault => Ok (Some [])
       | StopArray l | StopFun (Some l) =>
           match all_strings l with Some ss => Ok (Some ss) | None => bad_stop_words end
       | StopFun None | StopOther => bad_stop_words
       end);
  Ok (Tokenizer lang t (set_of (c_stemmerSkip e)) (set_of (c_tokenizeSkip e)) n (c_allowDuplicates e)).
End tokenizer.

(** The separators of English text, [/[^A-Za-zàèéìòóù0-9_'-]+/gim]. *)
Definition english_sep (c : N) : bool :=
  negb (((65 <=? c)%N && (c <=? 90)%N) || ((97 <=? c)%N && (c <=? 122)%N) ||
        ((48 <=? c)%N && (c <=? 57)%N) || bool_decide (c ∈ [95; 39; 45]%N) ||
        bool_decide (c ∈ [224; 232; 233; 236; 242; 243; 249]%N) ||
        bool_decide (c ∈ [192; 200; 201; 204; 210; 211; 217]%N)).

(** [toLowerCase] on ASCII text. *)
Definition ascii_lower (s : jsstr) : jsstr :=
  (λ c, if (65 <=? c)%N && (c <=? 90)%N then (c + 32)%N else c) <$> s.

(** ** What it computes *)

Section facts.
Context (toLowerCase : jsstr → jsstr) (is_sep : jsstr → N → bool).
Implicit Types (tk : tokenizer).

(** The tokens of a text, without the cache. *)
Definition tokens_of tk (p e : jsstr) : list jsstr :=
  let a := nonempty (normalize tk p <$> split_words (is_sep (tk_language tk)) (toLowerCase e)) in
  if allowDuplicates tk then a else set_of a.

(** Every entry of the cache is the value of the token it is filed for. *)
Definition cache_ok tk (c : list (jsstr * jsstr)) : Prop :=
  ∀ e t v, colon ∉ t → jm_get (cache_key tk e t) c = Some v → v = normalize tk e t.

Lemma last_colon (e t e' t' : jsstr) :
  colon ∉ t → colon ∉ t' → e ++ colon :: t = e' ++ colon :: t' → e = e' ∧ t = t'.
Proof.
  intros Ht Ht'. revert e'. induction e as [|a e IH]; intros [|a' e']; simpl.
  - by intros [= ->].
  - intros [= <- ->]. destruct Ht. rewrite elem_of_app. right. by left.
  - intros [= -> <-]. destruct Ht'. rewrite elem_of_app. right. by left.
  - intros [= <- He]. by destruct (IH _ He) as [-> ->].
Qed.

Lemma cache_key_inj tk e t e' t' :
  colon ∉ t → colon ∉ t' → cache_key tk e t = cache_key tk e' t' → e = e' ∧ t = t'.
Proof.
  intros Ht Ht' Hk. unfold cache_key in Hk. apply app_inv_head in Hk. injection Hk as Hk. by apply last_colon.
Qed.

Lemma normalizeToken_ok tk c e t n :
  colon ∉ t → cache_ok tk c →
  ∃ c', normalizeToken tk c e t n = (c', normalize tk e t) ∧ cache_ok tk c'.
Proof.
  intros Ht Hc. unfold normalizeToken. destruct n.
  2: { exists c. done. }
  destruct (jm_get (cache_key tk e t) c) as [v|] eqn:Hg.
  - exists c. by rewrite (Hc e t v).
  - eexists. split; [done|]. intros e' t' v' Ht'. rewrite jm_get_set.
    case_decide as Hk; [|by apply Hc]. intros [= <-].
    destruct (cache_key_inj tk e' t' e t) as [-> ->]; done.
Qed.

Lemma normalize_all_ok tk c e l n :
  Forall (λ t, colon ∉ t) l → cache_ok tk c →
  ∃ c', normalize_all tk c e l n = (c', normalize tk e <$> l) ∧ cache_ok tk c'.
Proof.
  intros Hl. revert c. induction Hl as [|t l Ht _ IH]; intros c Hc; simpl; [by exists c|].
  destruct (normalizeToken_ok tk c e t n Ht Hc) as (c1 & -> & Hc1).
  destruct (IH c1 Hc1) as (c2 & -> & Hc2). by exists c2.
Qed.

Lemma split_words_clean sep s x : sep x = true → Forall (λ w, x ∉ w) (split_words sep s).
Proof.
  intros Hx. induction s as [|a s IH]; simpl; [repeat constructor; apply not_elem_of_nil|].
  destruct (sep a) eqn:Ha; [constructor; [apply not_elem_of_nil|done]|].
  destruct (split_words sep s) as [|w ws].
  - repeat constructor. rewrite list_elem_of_singleton. congruence.
  - apply Forall_cons in IH as [Hw Hws]. constructor; [|done].
    rewrite elem_of_cons. intros [->|?]; [congruence|done].
Qed.

Lemma drop_front_id l : Forall (λ w : jsstr, w ≠ []) l → drop_front l = l.
Proof. destruct 1 as [|w l Hw _]; [done|]. by destruct w. Qed.

Lemma trim_id l : Forall (λ w : jsstr, w ≠ []) l → trim l = l.
Proof.
  intros Hl. unfold trim. assert (Forall (λ w : jsstr, w ≠ []) (rev l)) by by apply Forall_rev.
  rewrite (drop_front_id (rev l)), rev_involutive by done. by apply drop_front_id.
Qed.

Lemma nonempty_spec l : Forall (λ w : jsstr, w ≠ []) (nonempty l).
Proof. apply Forall_forall. by intros w [? _]%list_elem_of_filter. Qed.

Lemma tokens_of_nonempty tk p e w : w ∈ tokens_of tk p e → w ≠ [].
Proof.
  unfold tokens_of. pose proof (nonempty_spec (normalize tk p <$> split_words (is_sep (tk_language tk)) (toLowerCase e))) as Hn.
  rewrite Forall_forall in Hn. destruct (allowDuplicates tk); rewrite ?elem_of_set_of; apply Hn.
Qed.

(** Tokenizing with any consistent cache. *)
Lemma tokenize_cached tk c e lang prop o :
  cache_ok tk c → is_sep (tk_language tk) colon = true →
  set_has (default [] prop) (tokenizeSkipProperties tk) = false →
  lang = None ∨ lang = Some (tk_language tk) →
  ∃ c', tokenize toLowerCase is_sep tk c e lang prop o = Ok (c', tokens_of tk (default [] prop) e) ∧
    cache_ok tk c' ∧ (∀ w, w ∈ tokens_of tk (default [] prop) e → w ≠ []) ∧
    (allowDuplicates tk = false → NoDup (tokens_of tk (default [] prop) e)).
Proof.
  intros Hc Hsep Hskip Hlang. unfold tokenize.
  assert (match lang with Some t => negb (bool_decide (t = [])) && negb (bool_decide (t = tk_language tk))
          | None => false end = false) as ->.
  { destruct Hlang as [-> | ->]; [done|]. rewrite (bool_decide_eq_true_2 (tk_language tk = tk_language tk)) by done. by rewrite andb_false_r. }
  rewrite Hskip, andb_false_r.
  destruct (normalize_all_ok tk c (default [] prop) (split_words (is_sep (tk_language tk)) (toLowerCase e)) o)
    as (c' & -> & Hc'); [by apply split_words_clean|done|].
  rewrite trim_id by apply nonempty_spec. exists c'. split_and!; [done|done|apply tokens_of_nonempty|].
  intros Hd. unfold tokens_of. rewrite Hd. apply NoDup_set_of.
Qed.

(** C22. The normalisation cache never changes what the tokenizer returns: for a
    property that is not kept whole, and a language in which a colon separates
    words, tokenizing gives the normalised, non-empty words of the text in
    order (without repetitions unless they are allowed), whatever texts were
    tokenized before, and leaves the cache consistent. *)
Theorem tokenize_spec tk c e lang prop o :
  cache_ok tk c → is_sep (tk_language tk) colon = true →
  set_has (default [] prop) (tokenizeSkipProperties tk) = false →
  lang = None ∨ lang = Some (tk_language tk) →
  ∃ c', tokenize toLowerCase is_sep tk c e lang prop o = Ok (c', tokens_of tk (default [] prop) e) ∧
    cache_ok tk c' ∧ (∀ w, w ∈ tokens_of tk (default [] prop) e → w ≠ []) ∧
    (allowDuplicates tk = false → NoDup (tokens_of tk (default [] prop) e)).
Proof. intros Hc Hsep Hskip Hlang. by apply tokenize_cached. Qed.
End facts.

Definition english : tokenizer := Tokenizer (js "english") None [] [] (Some []) false.

Lemma tokenize_spec_witness :
  ∃ c, tokenize ascii_lower (λ _, english_sep) english [] (js "Hello, brave new World: hello!") None None true =
       Ok (c, [js "hello"; js "brave"; js "new"; js "world"]).
Proof.
  destruct (tokenize_spec ascii_lower (λ _, english_sep) english [] (js "Hello, brave new World: hello!") None None true)
    as (c & Hc & _); [by intros ???|reflexivity|reflexivity|by left|].
  exists c. rewrite Hc. vm_compute. reflexivity.
Defined.
