(* ===== verification/Index.v ===== *)
(** * The index of a database (functions [Te], [Ne], [Ae], [_e], [De], [Ee], [xe], ...)

    The default index component: one search structure per property of the
    schema, the statistics BM25 needs, and the full-text search over the text
    properties. Values reach the index after validation; what a structure
    would do with a value of another type than its own is not modelled
    ([ill_typed]). *)

From Stdlib Require Import SpecFloat.
From stdpp Require Import pretty.
From S2P Require Import Prelude JSColl JSNum Utils JSValue AVL Flat Levenshtein Radix BKD Vector PT15 Schema Store Tokenizer.
Local Open Scope Z_scope.

(** ** Data *)
Inductive inode :=
  | NBool (n : bool_node Z)
  | NAVL (n : avl number Z)
  | NRadix (n : rnode Z)
  | NFlat (n : flat Z)
  | NBKD (n : bkd Z)
  | NPosition (n : position_node).

(** The name in the field [type]. *)
Definition itype (n : inode) : string :=
  match n with
  | NBool _ => "Bool" | NAVL _ => "AVL" | NRadix _ => "Radix"
  | NFlat _ => "Flat" | NBKD _ => "BKD" | NPosition _ => "Position"
  end.

(** A counter of [tokenOccurrences]: the words [Object.prototype] defines are
    never counted as numbers. *)
Inductive occurrences := OccNum (n : number) | OccOther.

Record index := Index {
  indexes : list (jsstr * (inode * bool));            (* node and [isArray] *)
  vectorIndexes : list (jsstr * vector_index Z);
  searchableProperties : list jsstr;
  searchablePropertiesWithTypes : list (jsstr * jsstr);
  frequencies : list (jsstr * list (Z * list (jsstr * number)));
  tokenOccurrences : list (jsstr * list (jsstr * occurrences));
  avgFieldLength : list (jsstr * number);
  fieldLengths : list (jsstr * list (Z * number));
}.

Definition empty_index : index := Index [] [] [] [] [] [] [] [].

Definition set_indexes v (i : index) : index :=
  Index v (vectorIndexes i) (searchableProperties i) (searchablePropertiesWithTypes i)
    (frequencies i) (tokenOccurrences i) (avgFieldLength i) (fieldLengths i).
Definition set_vectorIndexes v (i : index) : index :=
  Index (indexes i) v (searchableProperties i) (searchablePropertiesWithTypes i)
    (frequencies i) (tokenOccurrences i) (avgFieldLength i) (fieldLengths i).
Definition add_property n ty (i : index) : index :=
  Index (indexes i) (vectorIndexes i) (searchableProperties i ++ [n])
    (jm_set n ty (searchablePropertiesWithTypes i))
    (frequencies i) (tokenOccurrences i) (avgFieldLength i) (fieldLengths i).
Definition set_stats f o a l (i : index) : index :=
  Index (indexes i) (vectorIndexes i) (searchableProperties i) (searchablePropertiesWithTypes i) f o a l.

(** What an operation on the index works on: the shared id store, the
    tokenizer's cache and the index itself. *)
Record ist := Ist { st_ids : ids; st_cache : list (jsstr * jsstr); st_index : index }.
Definition on_index (f : index → index) (s : ist) : ist := Ist (st_ids s) (st_cache s) (f (st_index s)).

Definition ill_typed {A} : result A := Throw (PlainError "ill-typed value").

(** ** create, function [Te] *)

(** [`${o}${o ? '.' : ''}${s}`] *)
Definition path (o s : jsstr) : jsstr := match o with [] => s | _ => o ++ dot :: s end.

(** The structure for a type name, and whether it is an array type. *)
Definition node_for (positional : bool) (i : jsstr) : option (inode * bool) :=
  let e := bool_decide (91%N ∈ i) in
  if decide (i ∈ [js "boolean"; js "boolean[]"]) then Some (NBool new_bool, e)
  else if decide (i ∈ [js "number"; js "number[]"]) then Some (NAVL (new_avl num_zero []), e)
  else if decide (i ∈ [js "string"; js "string[]"]) then
    Some (if positional then NPosition new_position else NRadix new_radix, e)
  else if decide (i ∈ [js "enum"; js "enum[]"]) then Some (NFlat new_flat, e)
  else if decide (i = js "geopoint") then Some (NBKD new_bkd, e)
  else None.

(** One property [n] of type name [i]. *)
Definition create_property (positional : bool) (n i : jsstr) (r : index) : result index :=
  if isVectorType i then
    b ← getVectorSize i;
    let r := add_property n i r in
    Ok (set_vectorIndexes (jm_set n (new_vector (Z.to_nat b)) (vectorIndexes r)) r)
  else
    match node_for positional i with
    | None => Throw (if positional then PlainError "INVALID_SCHEMA_TYPE" else OramaError "INVALID_SCHEMA_TYPE" [i; n])
    | Some x =>
        let r := set_indexes (jm_set n x (indexes r)) r in
        let r := match x.1 with
                 | NRadix _ => set_stats (jm_set n [] (frequencies r)) (jm_set n [] (tokenOccurrences r))
                                 (jm_set n num_zero (avgFieldLength r)) (jm_set n [] (fieldLengths r)) r
                 | _ => r
                 end in
        Ok (add_property n i r)
    end.

Fixpoint create_entry (positional : bool) (o : jsstr) (s : jsstr) (i : schema_ty) (r : index) : result index :=
  let n := path o s in
  match i with
  | SType i => create_property positional n i r
  | SNested l =>
      (fix go (l : schema) (r : index) : result index :=
         match l with
         | [] => Ok r
         | (s, i) :: l => r ← create_entry positional n s i r; go l r
         end) l r
  end.

Fixpoint create_index (positional : bool) (n : schema) (r : index) : result index :=
  match n with
  | [] => Ok r
  | (s, i) :: n => r ← create_entry positional [] s i r; create_index positional n r
  end.

(** ** BM25 statistics, functions [we], [ve], [Ie], [Oe] *)

(** Property names of [Object.prototype]. *)
Definition inherited : list jsstr :=
  js <$> ["constructor"; "__defineGetter__"; "__defineSetter__"; "hasOwnProperty"; "__lookupGetter__";
          "__lookupSetter__"; "isPrototypeOf"; "propertyIsEnumerable"; "toString"; "valueOf";
          "__proto__"; "toLocaleString"].

Definition num_nat (n : nat) : number := num_of_Z (Z.of_nat n).

Definition insertDocumentScoreParameters (t : jsstr) (n : Z) (r : list jsstr) (o : Z) (e : index) : index :=
  let avg := default num_zero (jm_get t (avgFieldLength e)) in
  let avg := num_div (num_add (num_mul avg (num_of_Z (o - 1))) (num_nat (length r))) (num_of_Z o) in
  set_stats
    (jm_set t (jm_set n [] (default [] (jm_get t (frequencies e)))) (frequencies e))
    (tokenOccurrences e)
    (jm_set t avg (avgFieldLength e))
    (jm_set t (jm_set n (num_nat (length r)) (default [] (jm_get t (fieldLengths e)))) (fieldLengths e)) e.

Definition count_token (r : list jsstr) (o : jsstr) : nat := length (filter (λ e, e = o) r).

Definition insertTokenScoreParameters (t : jsstr) (n : Z) (r : list jsstr) (o : jsstr) (e : index) : index :=
  let a := num_div (num_nat (count_token r o)) (num_nat (length r)) in
  let fr := default [] (jm_get t (frequencies e)) in
  let occ := default [] (jm_get t (tokenOccurrences e)) in
  let v := match jm_get o occ with
           | Some (OccNum x) => OccNum (num_add x (num_of_Z 1))
           | Some OccOther => OccOther
           | None => if bool_decide (o ∈ inherited) then OccOther else OccNum (num_of_Z 1)
           end in
  set_stats
    (jm_set t (jm_set n (jm_set o a (default [] (jm_get n fr))) fr) (frequencies e))
    (jm_set t (jm_set o v occ) (tokenOccurrences e))
    (avgFieldLength e) (fieldLengths e) e.

Definition removeDocumentScoreParameters (t : jsstr) (n : Z) (r : Z) (e : index) : index :=
  let fl := default [] (jm_get t (fieldLengths e)) in
  let avg := default S754_nan (jm_get t (avgFieldLength e)) in
  let len := default S754_nan (jm_get n fl) in
  set_stats
    (jm_set t (jm_delete n (default [] (jm_get t (frequencies e)))) (frequencies e))
    (tokenOccurrences e)
    (if 1 <? r
     then jm_set t (num_div (num_sub (num_mul avg (num_of_Z r)) len) (num_of_Z (r - 1))) (avgFieldLength e)
     else jm_delete t (avgFieldLength e))
    (jm_set t (jm_delete n fl) (fieldLengths e)) e.

Definition removeTokenScoreParameters (t n : jsstr) (e : index) : index :=
  let occ := default [] (jm_get t (tokenOccurrences e)) in
  let v := match jm_get n occ with
           | Some (OccNum x) => OccNum (num_sub x (num_of_Z 1))
           | _ => OccNum S754_nan
           end in
  set_stats (frequencies e) (jm_set t (jm_set n v occ) (tokenOccurrences e)) (avgFieldLength e) (fieldLengths e) e.

(** ** Conversions of validated values *)
Definition as_enum (v : jsval) : option enum_key :=
  match v with JStr s => Some (KStr s) | JNum n => Some (KNum n) | _ => None end.
Definition as_point (v : jsval) : option point :=
  match v with
  | JObj o => match jm_get (js "lon") o, jm_get (js "lat") o with
              | Some (JNum x), Some (JNum y) => Some (Point x y)
              | _, _ => None
              end
  | _ => None
  end.
Fixpoint as_numbers (l : list jsval) : option (list number) :=
  match l with
  | [] => Some []
  | JNum n :: l => ns ← as_numbers l; Some (n :: ns)
  | _ => None
  end.

Definition of_option {A} (o : option A) : result A :=
  match o with Some a => Ok a | None => ill_typed end.

Section with_tokenizer.
Context (toLowerCase : jsstr → jsstr) (is_sep : jsstr → N → bool) (tk : tokenizer).

(** [s.tokenize(e, o, n, withCache)] *)
Definition m_tokenize (e : jsstr) (lang prop : option jsstr) (o : bool) : M ist (list jsstr) := λ s,
  match tokenize toLowerCase is_sep tk (st_cache s) e lang prop o with
  | Ok (c, l) => (Ist (st_ids s) c (st_index s), Ok l)
  | Throw x => (s, Throw x)
  end.

Definition put_node (n : jsstr) (x : inode) (b : bool) : M ist unit :=
  modify (on_index (λ i, set_indexes (jm_set n (x, b) (indexes i)) i)).

(** ** insert, function [Ne] *)

(** The closure [f]: file value [c] of property [n] for document [r]. *)
Definition insert_scalar (n : jsstr) (r : Z) (lang : option jsstr) (count threshold : Z) (c : jsval) : M ist unit :=
  e ← gets (λ s, jm_get n (indexes (st_index s)));
  match e with
  | None => throw TypeError
  | Some (NBool u, b) => put_node n (NBool (bool_insert u r (truthy c))) b
  | Some (NAVL u, b) =>
      c ← lift (match c with JNum c => Ok c | _ => ill_typed end);
      u ← lift (result_of_option TypeError (avl_insert u c r threshold));
      put_node n (NAVL u) b
  | Some (NRadix _, b) =>
      c ← lift (match c with JStr c => Ok c | _ => ill_typed end);
      a ← m_tokenize c lang (Some n) false;
      modify (on_index (insertDocumentScoreParameters n r a count));;
      mfor (λ o,
        modify (on_index (insertTokenScoreParameters n r a o));;
        e ← gets (λ s, jm_get n (indexes (st_index s)));
        match e with
        | Some (NRadix u, b) => u ← lift (result_of_option TypeError (radix_insert u o r)); put_node n (NRadix u) b
        | _ => throw TypeError
        end) a
  | Some (NFlat u, b) => k ← lift (of_option (as_enum c)); put_node n (NFlat (flat_insert u k r)) b
  | Some (NBKD u, b) =>
      p ← lift (of_option (as_point c));
      u ← lift (result_of_option TypeError (bkd_insert u p [r]));
      put_node n (NBKD u) b
  | Some (NPosition _, _) => mret tt
  end.

Definition insert_value (n : jsstr) (o : Z) (s : jsval) (i : jsstr) (lang : option jsstr) (l threshold : Z) : M ist unit :=
  if isVectorType i then
    v ← gets (λ s, jm_get n (vectorIndexes (st_index s)));
    match v, s with
    | Some v, JArr l =>
        ns ← lift (of_option (as_numbers l));
        modify (on_index (λ i, set_vectorIndexes (jm_set n (vector_add v o ns) (vectorIndexes i)) i))
    | None, _ => throw TypeError
    | _, _ => lift ill_typed
    end
  else if negb (isArrayType i) then insert_scalar n o lang l threshold s
  else match s with
       | JArr d => mfor (insert_scalar n o lang l threshold) d
       | _ => lift ill_typed
       end.

(** ** remove, functions [Ae] and [_e] *)
Definition remove_scalar (n : jsstr) (o : Z) (s : jsval) (i : jsstr) (lang : option jsstr) (l : Z) : M ist bool :=
  if isVectorType i then
    v ← gets (λ s, jm_get n (vectorIndexes (st_index s)));
    match v with
    | Some v => modify (on_index (λ i, set_vectorIndexes (jm_set n (vector_remove v o) (vectorIndexes i)) i));; mret true
    | None => throw TypeError
    end
  else
    e ← gets (λ s, jm_get n (indexes (st_index s)));
    match e with
    | None => throw TypeError
    | Some (NAVL f, b) =>
        k ← lift (match s with JNum c => Ok c | _ => ill_typed end);
        f ← lift (result_of_option TypeError (avl_removeDocument f k o));
        put_node n (NAVL f) b;; mret true
    | Some (NBool f, b) => put_node n (NBool (bool_delete f o (truthy s))) b;; mret true
    | Some (NRadix _, _) =>
        c ← lift (match s with JStr c => Ok c | _ => ill_typed end);
        a ← m_tokenize c lang (Some n) true;
        modify (on_index (removeDocumentScoreParameters n o l));;
        mfor (λ r,
          modify (on_index (removeTokenScoreParameters n r));;
          e ← gets (λ s, jm_get n (indexes (st_index s)));
          match e with
          | Some (NRadix u, b) =>
              '(u, _) ← lift (result_of_option TypeError (removeDocumentByWord u r o true)); put_node n (NRadix u) b
          | _ => throw TypeError
          end) a;;
        mret true
    | Some (NFlat f, b) =>
        k ← lift (of_option (as_enum s)); put_node n (NFlat (flat_removeDocument f o k)) b;; mret true
    | Some (NBKD f, b) =>
        p ← lift (of_option (as_point s));
        f ← lift (result_of_option TypeError (removeDocByID f p o));
        put_node n (NBKD f) b;; mret false
    | Some (NPosition _, _) => mret true
    end.

Definition remove_value (n : jsstr) (o : Z) (s : jsval) (i : jsstr) (lang : option jsstr) (l : Z) : M ist bool :=
  match inner_type i with
  | None => remove_scalar n o s i lang l
  | Some u =>
      match s with
      | JArr f => mfor (λ x, remove_scalar n o x (js u) lang l;; mret tt) f;; mret true
      | _ => lift ill_typed
      end
  end.

(** ** search, functions [De], [Ee] and [xe] *)
Record relevance := Relevance { bm_k : number; bm_b : number; bm_d : number }.

(** The state of a search: the scores and, per document and property, the
    number of words that matched. *)
Record search_state := SearchState {
  ss_scores : list (Z * number);
  ss_matches : list (Z * list (jsstr * nat));
}.

Context `{MathOps}.

(** The body of the loop of [De] for document [r]. *)
Definition score_document (e : index) (t n : jsstr) (o : Z) (s : relevance) (a : number) (r : Z)
    (st : search_state) : search_state :=
  let h := default [] (jm_get r (ss_matches st)) in
  let ms := jm_set r (jm_set t (S (default 0%nat (jm_get t h))) h) (ss_matches st) in
  let g := match jm_get n (default [] (jm_get t (tokenOccurrences e))) with Some (OccNum x) => x | _ => num_zero end in
  let tf := default num_zero (p ← jm_get r (default [] (jm_get t (frequencies e))); jm_get n p) in
  let d := default S754_nan (jm_get r (default [] (jm_get t (fieldLengths e)))) in
  let f := default S754_nan (jm_get t (avgFieldLength e)) in
  let m := num_mul (BM25 tf g (num_of_Z o) d f (bm_k s) (bm_b s) (bm_d s)) a in
  SearchState (add_score (ss_scores st) r m) ms.

Definition calculateResultScores (e : index) (t n : jsstr) (r : list Z) (o : Z) (s : relevance) (a : number)
    (c : option (list Z)) (st : search_state) : search_state :=
  foldl (λ st x, if match c with Some w => set_has x w | None => true end
                 then score_document e t n o s a x st else st) st r.

Fixpoint search_tokens (e : index) (t : rnode Z) (n : jsstr) (r : list jsstr) (o : bool) (s : Z) (a : number)
    (c : relevance) (l : Z) (u : option (list Z)) (st : search_state) : result search_state :=
  match r with
  | [] => Ok st
  | d :: r =>
      p ← result_of_option TypeError (radix_find t d o s);
      let st := foldl (λ st p, calculateResultScores e n p.1 p.2 l c a u st) st (obj_entries p) in
      search_tokens e t n r o s a c l u st
  end.

(** The loop of [xe] over the properties; [d] are the tokens, and an empty
    query gets the empty token in the first searched property. *)
Fixpoint search_properties (e : index) (t : jsstr) (d : list jsstr) (o : list jsstr) (s : bool) (i : Z)
    (a : list (jsstr * number)) (c : relevance) (l : Z) (u : option (list Z)) (st : search_state) :
    result search_state :=
  match o with
  | [] => Ok st
  | n :: o =>
      match jm_get n (indexes e) with
      | None => search_properties e t d o s i a c l u st
      | Some (NRadix r, _) =>
          let f := default (num_of_Z 1) (jm_get n a) in
          if leb f num_zero then Throw (OramaError "INVALID_BOOST_VALUE" [])
          else
            let d := match d, t with [], [] => [[]] | _, _ => d end in
            st ← search_tokens e r n d s i f c l u st;
            search_properties e t d o s i a c l u st
      | Some _ => Throw (OramaError "WRONG_SEARCH_PROPERTY_TYPE" [n])
      end
  end.

(** [(e, t) => t[1] - e[1]] *)
Definition by_score (e t : Z * number) : bool := negb (ltb num_zero (num_sub t.2 e.2)).

(** [l.slice(0, t)] *)
Definition slice_to {A} (t : Z) (l : list A) : list A :=
  if t <? 0 then take (Z.to_nat (Z.of_nat (length l) + t)) l else take (Z.to_nat t) l.

(** What is kept for a threshold: all, only the documents that match every
    word in one property, or those first and a share of the rest. *)
Definition apply_threshold (h : nat) (f : number) (m : list (Z * number)) (p : list (Z * list (jsstr * nat))) :
    list (Z * number) :=
  if (length m =? 0)%nat then []
  else if eqb (num_of_Z 1) f then m
  else
    let y := List.filter (λ x, match jm_get x.1 p with
                               | Some t => existsb (λ e, (e.2 =? h)%nat) t
                               | None => false
                               end) m in
    if eqb num_zero f then y
    else if (0 <? length y)%nat then
      let e := List.filter (λ x, negb (existsb (λ z, x.1 =? z.1) y)) m in
      y ++ slice_to (num_ceil (num_mul (num_nat (length e)) f)) e
    else m.

Definition index_search (t : jsstr) (r : option jsstr) (o : list jsstr) (s : bool) (i : Z)
    (a : list (jsstr * number)) (c : relevance) (l : Z) (u : option (list Z)) (f : number) :
    M ist (list (Z * number)) :=
  d ← m_tokenize t r None true;
  let h := match length d with O => 1%nat | n => n end in
  e ← gets st_index;
  st ← lift (search_properties e t d o s i a c l u (SearchState [] []));
  mret (apply_threshold h f (js_sort by_score (ss_scores st)) (ss_matches st)).
End with_tokenizer.
