(* ===== verification/Where.v ===== *)
(** * Filters (function [Pe]), saving and loading the index (functions [Me], [Le]) *)

From Stdlib Require Import SpecFloat.
From S2P Require Import Prelude JSColl JSNum Utils JSValue AVL Flat Levenshtein Radix BKD Vector PT15 Schema Store Tokenizer Index.
Local Open Scope Z_scope.

(** ** Function [Ce] and [ze]: adding the documents of hits and of words *)
Definition addGeoResult (e : list Z) (t : list (hit Z)) : list Z :=
  foldl (λ e h, set_add_all h.2 e) e t.
Definition addFindResult (e : list Z) (t : table Z) : list Z :=
  foldl (λ e p, set_add_all p.2 e) e (obj_entries t).

(** ** Intersection of the sets of all filters

    [native] tells whether [Set.prototype.intersection] exists. *)
Definition native_intersection (t n : list Z) : list Z :=
  if (length t <=? length n)%nat then filter (λ x, x ∈ n) t else filter (λ x, x ∈ t) n.

(** The index of a smallest set, [t = { index, size }]. *)
Fixpoint smallest (n : nat) (e : list (list Z)) (t : nat * nat) : nat * nat :=
  match e with
  | [] => t
  | x :: e => smallest (S n) e (if (length x <? t.2)%nat then (n, length x) else t)
  end.

(** The loops over the other sets. *)
Fixpoint intersect_others (native : bool) (r idx : nat) (n : list Z) (e : list (list Z)) : list Z :=
  match e with
  | [] => n
  | o :: e =>
      let n := if (r =? idx)%nat then n
               else if native then native_intersection n o
               else filter (λ x, x ∈ o) n in
      intersect_others native (S r) idx n e
  end.

Definition setIntersection (native : bool) (e : list (list Z)) : list Z :=
  match e with
  | [] => []
  | [x] => x
  | [t; n] =>
      if native then native_intersection t n
      else if (length t <? length n)%nat then filter (λ x, x ∈ n) t else filter (λ x, x ∈ t) n
  | x :: _ =>
      let t := smallest 1 (drop 1 e) (0%nat, length x) in
      intersect_others native 0 t.1 (default [] (e !! t.1)) e
  end.

(** ** Filter objects *)

(** [o[k]] where it may be missing. *)
Definition prop_or (o : jsval) (k : string) (d : jsval) : result jsval :=
  v ← get_prop o (js k); Ok (match v with JUndef => d | v => v end).

Definition as_number (v : jsval) : result number := match v with JNum n => Ok n | _ => ill_typed end.

Fixpoint as_points (l : list jsval) : option (list point) :=
  match l with
  | [] => Some []
  | v :: l => p ← as_point v; ps ← as_points l; Some (p :: ps)
  end.

(** [Object.keys(o)] of a filter value. *)
Definition object_keys (v : jsval) : result (list jsstr) :=
  match v with
  | JUndef | JNull => Throw TypeError
  | JObj o => Ok (obj_entries o).*1
  | JArr l => Ok (nat_str <$> seq 0 (length l))
  | JStr s => Ok (nat_str <$> seq 0 (length s))
  | _ => Ok []
  end.

Fixpoint as_enums (l : list jsval) : option (list enum_key) :=
  match l with
  | [] => Some []
  | v :: l => k ← as_enum v; ks ← as_enums l; Some (k :: ks)
  end.
Definition as_operand (v : jsval) : option operand :=
  match v with
  | JArr l => Many <$> as_enums l
  | v => One <$> as_enum v
  end.

(** The operation names of the flat index. *)
Definition flat_op (k : jsstr) : string :=
  if decide (k = js "eq") then "eq" else if decide (k = js "in") then "in"
  else if decide (k = js "nin") then "nin" else if decide (k = js "containsAll") then "containsAll"
  else if decide (k = js "containsAny") then "containsAny" else "".

Section where_.
Context (toLowerCase : jsstr → jsstr) (is_sep : jsstr → N → bool) (tk : tokenizer).
Context `{MathOps}.

(** The radius or polygon query of a geographic filter. *)
Definition filter_geo (a : bkd Z) (s : list Z) (o : jsval) : result (list Z) :=
  radius ← prop_in (js "radius") o;
  if (radius : bool) then
    v ← get_prop o (js "radius");
    t ← prop_or v "value" JUndef; t ← as_number t;
    n ← prop_or v "coordinates" JUndef; n ← of_option (as_point n);
    r ← prop_or v "unit" (JStr (js "m")); r ← match r with JStr r => Ok r | _ => ill_typed end;
    c ← prop_or v "inside" (JBool true);
    l ← prop_or v "highPrecision" (JBool false);
    u ← convertDistanceToMeters t r;
    f ← result_of_option TypeError (searchByRadius a n u (truthy c) (Some true) (truthy l));
    Ok (addGeoResult s f)
  else
    polygon ← prop_in (js "polygon") o;
    if (polygon : bool) then
      v ← get_prop o (js "polygon");
      t ← prop_or v "coordinates" JUndef;
      t ← match t with JArr l => of_option (as_points l) | _ => ill_typed end;
      n ← prop_or v "inside" (JBool true);
      r ← prop_or v "highPrecision" (JBool false);
      c ← result_of_option TypeError (searchByPolygon a t (truthy n) None (truthy r));
      Ok (addGeoResult s c)
    else Throw (PlainError "Invalid operation").

(** The numeric operations. *)
Definition filter_avl (a : avl number Z) (e : jsstr) (t : jsval) : result (list Z) :=
  let num f := t ← as_number t; result_of_option TypeError (f t) in
  if decide (e = js "gt") then num (λ t, greaterThan a t false)
  else if decide (e = js "gte") then num (λ t, greaterThan a t true)
  else if decide (e = js "lt") then num (λ t, lessThan a t false)
  else if decide (e = js "lte") then num (λ t, lessThan a t true)
  else if decide (e = js "eq") then num (λ t, s ← avl_find a t; Some (default [] s))
  else if decide (e = js "between") then
    match t with
    | JArr [x; y] => x ← as_number x; y ← as_number y; result_of_option TypeError (rangeSearch a x y)
    | _ => ill_typed
    end
  else Throw (OramaError "INVALID_FILTER_OPERATION" [e]).

(** The words of a text filter, one exact lookup after the other. *)
Definition filter_word (a : rnode Z) (r : option jsstr) (i : jsstr) (s : list Z) (e : jsval) : M ist (list Z) :=
  match e with
  | JStr e =>
      n ← m_tokenize toLowerCase is_sep tk e r (Some i) true;
      (fix go (n : list jsstr) (s : list Z) : M ist (list Z) :=
         match n with
         | [] => mret s
         | e :: n => t ← lift (result_of_option TypeError (radix_find a e true 0)); go n (addFindResult s t)
         end) n s
  | _ => lift ill_typed
  end.
Fixpoint filter_words (a : rnode Z) (r : option jsstr) (i : jsstr) (s : list Z) (l : list jsval) : M ist (list Z) :=
  match l with
  | [] => mret s
  | e :: l => s ← filter_word a r i s e; filter_words a r i s l
  end.

(** One filter: the documents it lets through, added to the set [s]. *)
Definition filter_property (r : option jsstr) (i : jsstr) (o : jsval) (s : list Z) : M ist (list Z) :=
  e ← gets (λ st, jm_get i (indexes (st_index st)));
  match e with
  | None => throw (OramaError "UNKNOWN_FILTER_PROPERTY" [i])
  | Some (NBool a, _) => mret (__union (Some s) (bool_docs a (truthy o)))
  | Some (NBKD a, _) => lift (filter_geo a s o)
  | Some (a, l) =>
      match a, o with
      | NRadix a, JStr _ => filter_words a r i s [o]
      | NRadix a, JArr os => filter_words a r i s os
      | _, _ =>
          u ← lift (object_keys o);
          if (1 <? length u)%nat then throw (OramaError "INVALID_FILTER_OPERATION" [nat_str (length u)])
          else
            match a with
            | NFlat a =>
                f ← lift (match u with
                          | [k] => v ← get_prop o k; v ← of_option (as_operand v); Ok [(flat_op k, v)]
                          | _ => Ok []
                          end);
                e ← lift (if (l : bool) then flat_filterArr a f else flat_filter a f);
                mret (__union (Some s) (set_of e))
            | NAVL a =>
                match u with
                | [k] => v ← lift (get_prop o k); n ← lift (filter_avl a k v); mret (__union (Some s) n)
                | _ => throw TypeError (* the message of an [undefined] operation *)
                end
            | _ => mret s
            end
      end
  end.

(** The loop over the filters; [s] holds the set of each property. *)
Fixpoint filter_properties (r : option jsstr) (n : list (jsstr * jsval)) (s : list (jsstr * list Z)) :
    M ist (list (jsstr * list Z)) :=
  match n with
  | [] => mret s
  | (i, o) :: n =>
      x ← filter_property r i o (default [] (jm_get i s));
      filter_properties r n (jm_set i x s)
  end.

(** Function [Pe]. *)
Definition searchByWhereClause (native : bool) (n : list (jsstr * jsval)) (r : option jsstr) : M ist (list Z) :=
  let o := obj_entries n in
  let s := foldl (λ e t, (t, []) :: e) [] o.*1 in
  s ← filter_properties r o s;
  mret (setIntersection native (obj_entries s).*2).
End where_.

(** ** Saving and loading *)
Inductive json_inode :=
  | JBoolNode (n : list Z * list Z)
  | JAVLNode (n : json_tree number Z)
  | JRadixNode (n : json_rnode Z)
  | JFlatNode (n : list (enum_key * list Z))
  | JBKDNode (n : option (@json_bnode Z))
  | JPositionNode (n : position_node).

Record json_index := JsonIndex {
  j_indexes : list (jsstr * (json_inode * bool));
  j_vectors : list (jsstr * (nat * list (Z * (number * list number))));
  j_rest : index;
}.

(** [node.toJSON()]; the tables of a positional node have no such method. *)
Definition node_to_json (n : inode) : option json_inode :=
  match n with
  | NBool n => Some (JBoolNode (bool_toJSON n))
  | NAVL n => JAVLNode <$> avl_toJSON n
  | NRadix n => Some (JRadixNode (radix_toJSON n))
  | NFlat n => Some (JFlatNode (flat_toJSON n))
  | NBKD n => JBKDNode <$> bkd_toJSON n
  | NPosition _ => None
  end.

Definition node_from_json (n : json_inode) : result inode :=
  match n with
  | JBoolNode n => Ok (NBool (bool_fromJSON n))
  | JAVLNode n => Ok (NAVL (avl_fromJSON n))
  | JRadixNode n => Ok (NRadix (radix_fromJSON n))
  | JFlatNode n => f ← flat_fromJSON (Some n); Ok (NFlat f)
  | JBKDNode n => Ok (NBKD (bkd_fromJSON n))
  | JPositionNode n => Ok (NPosition n)
  end.

(** Function [Le]. *)
Fixpoint save_nodes (l : list (jsstr * (inode * bool))) : option (list (jsstr * (json_inode * bool))) :=
  match l with
  | [] => Some []
  | (e, (n, b)) :: l => j ← node_to_json n; ns ← save_nodes l; Some ((e, (j, b)) :: ns)
  end.
Definition index_save (e : index) : option json_index :=
  u ← save_nodes (indexes e);
  Some (JsonIndex u ((λ p, (p.1, vector_toJSON p.2)) <$> vectorIndexes e) e).

(** Function [Me]. *)
Fixpoint load_nodes (l : list (jsstr * (json_inode * bool))) : result (list (jsstr * (inode * bool))) :=
  match l with
  | [] => Ok []
  | (e, (j, b)) :: l => n ← node_from_json j; ns ← load_nodes l; Ok ((e, (n, b)) :: ns)
  end.
Definition index_load (j : json_index) : result index :=
  u ← load_nodes (j_indexes j);
  Ok (set_vectorIndexes ((λ p, (p.1, vector_fromJSON p.2)) <$> j_vectors j) (set_indexes u (j_rest j))).
