(* ===== verification/WhereTheorems.v ===== *)
(** * Filters are conjunctions; what a threshold keeps *)

From Stdlib Require Import SpecFloat.
From stdpp Require Import pretty.
From S2P Require Import Prelude JSColl JSNum NumFacts Utils JSValue AVL Flat Levenshtein Radix BKD Vector PT15 Schema Store Tokenizer Index Where.
Local Open Scope Z_scope.

(** ** Intersections *)
Lemma native_intersection_spec t n x : x ∈ native_intersection t n ↔ x ∈ t ∧ x ∈ n.
Proof. unfold native_intersection. destruct (_ <=? _)%nat; rewrite list_elem_of_filter; tauto. Qed.

Lemma native_intersection_NoDup t n : NoDup t → NoDup n → NoDup (native_intersection t n).
Proof. intros. unfold native_intersection. destruct (_ <=? _)%nat; by apply NoDup_filter. Qed.

Lemma smallest_index e n t :
  (t.1 < n)%nat → (smallest n e t).1 = t.1 ∨ (n ≤ (smallest n e t).1 < n + length e)%nat.
Proof.
  revert n t. induction e as [|x e IH]; intros n t Ht; cbn [smallest length]; [by left|].
  destruct (_ <? _)%nat.
  - destruct (IH (S n) (n, length x)) as [-> | ?]; simpl; lia.
  - destruct (IH (S n) t) as [-> | ?]; lia.
Qed.

Lemma intersect_others_spec native r idx n e x :
  x ∈ intersect_others native r idx n e ↔ x ∈ n ∧ ∀ k o, e !! k = Some o → (r + k)%nat ≠ idx → x ∈ o.
Proof.
  revert r n. induction e as [|o e IH]; intros r n; cbn [intersect_others]; [naive_solver|].
  rewrite IH. assert ((∀ k o', (o :: e) !! k = Some o' → (r + k)%nat ≠ idx → x ∈ o') ↔
    (r ≠ idx → x ∈ o) ∧ ∀ k o', e !! k = Some o' → (S r + k)%nat ≠ idx → x ∈ o') as ->.
  { split.
    - intros Hk. split; [intros; apply (Hk 0%nat); [done|lia]|]. intros k o' Ho Hne. apply (Hk (S k)); [done|lia].
    - intros [H0 Hk] [|k] o' Ho Hne; simpl in Ho; [injection Ho as <-; apply H0; lia|]. apply (Hk k); [done|lia]. }
  destruct (Nat.eqb_spec r idx); [naive_solver|]. destruct native.
  - rewrite native_intersection_spec. naive_solver.
  - rewrite list_elem_of_filter. naive_solver.
Qed.

Lemma intersect_others_NoDup native r idx n e :
  NoDup n → Forall NoDup e → NoDup (intersect_others native r idx n e).
Proof.
  revert r n. induction e as [|o e IH]; intros r n Hn He; [done|]. apply Forall_cons in He as [Ho He].
  cbn [intersect_others]. apply IH; [|done]. destruct (_ =? _)%nat; [done|]. destruct native;
    [by apply native_intersection_NoDup|by apply NoDup_filter].
Qed.

(** The sets of several filters are intersected whatever their number, on
    engines with and without [Set.prototype.intersection]: an element is in
    the result exactly when there is a set and it is in all of them, once. *)
Theorem setIntersection_spec (native : bool) (e : list (list Z)) :
  Forall NoDup e →
  NoDup (setIntersection native e) ∧
  ∀ x, x ∈ setIntersection native e ↔ e ≠ [] ∧ ∀ s, s ∈ e → x ∈ s.
Proof.
  intros He. destruct e as [|a [|b [|c e]]].
  - split; [constructor|]. cbn. intros x. split; [intros Hx; by apply elem_of_nil in Hx|naive_solver].
  - apply Forall_cons in He as [Ha _]. split; [done|]. intros x. cbn [setIntersection]. setoid_rewrite list_elem_of_singleton. naive_solver.
  - apply Forall_cons in He as [Ha He]. apply Forall_cons in He as [Hb _]. cbn [setIntersection].
    assert (∀ x, (∀ s, s ∈ [a; b] → x ∈ s) ↔ x ∈ a ∧ x ∈ b) as Hab.
    { intros x. setoid_rewrite elem_of_cons. setoid_rewrite list_elem_of_singleton. naive_solver. }
    setoid_rewrite Hab. destruct native.
    + split; [by apply native_intersection_NoDup|]. intros x. rewrite native_intersection_spec. naive_solver.
    + destruct (_ <? _)%nat; (split; [by apply NoDup_filter|]); intros x; rewrite list_elem_of_filter; naive_solver.
  - set (l := a :: b :: c :: e) in *.
    assert (setIntersection native l =
      let t := smallest 1 (drop 1 l) (0%nat, length a) in
      intersect_others native 0 t.1 (default [] (l !! t.1)) l) as -> by done. cbn zeta.
    set (k := (smallest 1 (drop 1 l) (0%nat, length a)).1).
    assert (k < length l)%nat as Hk.
    { destruct (smallest_index (drop 1 l) 1 (0%nat, length a)) as [H|H]; [simpl; lia|..]; fold k in H.
      - rewrite H. unfold l. simpl. lia.
      - rewrite length_drop in H. unfold l in *. simpl in *. lia. }
    destruct (lookup_lt_is_Some_2 _ _ Hk) as [n Hn]. rewrite Hn. cbn [from_option id].
    split; [apply intersect_others_NoDup; [|done]; by eapply Forall_lookup_1|].
    intros x. rewrite intersect_others_spec. split.
    + intros [Hx Hall]. split; [done|]. intros s Hs. apply list_elem_of_lookup in Hs as [j Hj].
      destruct (decide (j = k)) as [->|]; [congruence|]. by apply (Hall j).
    + intros [_ Hall]. split; [apply Hall; by eapply list_elem_of_lookup_2|].
      intros j s Hj _. apply Hall. by eapply list_elem_of_lookup_2.
Qed.

Lemma setIntersection_spec_witness : 2 ∈ setIntersection false [[1; 2; 3]; [2; 4]; [5; 2; 1]].
Proof.
  apply (setIntersection_spec false [[1; 2; 3]; [2; 4]; [5; 2; 1]]).
  - repeat constructor; set_solver.
  - split; [done|]. intros s. rewrite !elem_of_cons, elem_of_nil. intros [->|[->|[->|[]]]]; set_solver.
Defined.

(** ** Thresholds *)

(** A document of which one property matches all [h] words. *)
Definition matches_all (h : nat) (p : list (Z * list (jsstr * nat))) (d : Z) : Prop :=
  ∃ l q, jm_get d p = Some l ∧ (q, h) ∈ l.

Lemma all_words_spec h p (x : Z * number) :
  match jm_get x.1 p with Some t => existsb (λ e, (e.2 =? h)%nat) t | None => false end = true ↔ matches_all h p x.1.
Proof.
  unfold matches_all. destruct (jm_get x.1 p) as [l|].
  - rewrite existsb_exists. setoid_rewrite <-list_elem_of_In. split.
    + intros ([q k] & Hin & Hk%Nat.eqb_eq). simpl in Hk. subst k. by exists l, q.
    + intros (l' & q & [= <-] & Hin). exists (q, h). by rewrite Nat.eqb_refl.
  - split; [done|]. by intros (? & ? & ? & _).
Qed.

Lemma elem_of_filterb {A} (f : A → bool) (l : list A) x : x ∈ List.filter f l ↔ x ∈ l ∧ f x = true.
Proof. rewrite !list_elem_of_In. apply filter_In. Qed.

Lemma slice_to_sub {A} t (l : list A) : slice_to t l `prefix_of` l.
Proof. unfold slice_to. destruct (t <? 0); eexists (drop _ l); by rewrite take_drop. Qed.

(** What the threshold of a text search keeps: with 1 every scored
    document; with 0 exactly those one of whose properties matches every
    word of the query; with a value in between the documents that match
    every word come first, followed by the best of the others (all of them
    when none matches every word). Nothing that was not scored is added. *)
Theorem threshold_spec (h : nat) (f : number) (m : list (Z * number)) (p : list (Z * list (jsstr * nat))) :
  (∀ x, x ∈ apply_threshold h f m p → x ∈ m) ∧
  (f = num_of_Z 1 → apply_threshold h f m p = m) ∧
  (f = num_zero → ∀ x, x ∈ apply_threshold h f m p ↔ x ∈ m ∧ matches_all h p x.1) ∧
  (eqb num_zero f = false → eqb (num_of_Z 1) f = false →
     (∀ x, x ∈ m → ¬ matches_all h p x.1) ∧ apply_threshold h f m p = m ∨
     ∃ y e, apply_threshold h f m p = y ++ e ∧ (∀ x, x ∈ y ↔ x ∈ m ∧ matches_all h p x.1) ∧
       ∀ x, x ∈ e → x ∈ m ∧ ¬ matches_all h p x.1).
Proof.
  unfold apply_threshold.
  set (y := List.filter (λ x : Z * number, match jm_get x.1 p with
    Some t => existsb (λ e, (e.2 =? h)%nat) t | None => false end) m).
  assert (∀ x, x ∈ y ↔ x ∈ m ∧ matches_all h p x.1) as Hy.
  { intros x. unfold y. by rewrite elem_of_filterb, all_words_spec. }
  set (e := List.filter (λ x : Z * number, negb (existsb (λ z, x.1 =? z.1) y)) m).
  assert (∀ x, x ∈ e → x ∈ m ∧ ¬ matches_all h p x.1) as He.
  { intros x. unfold e. rewrite elem_of_filterb. intros [Hx Hn]. split; [done|]. intros Hm.
    apply negb_true_iff in Hn. assert (existsb (λ z, x.1 =? z.1) y = true); [|congruence].
    apply existsb_exists. exists x. rewrite <-list_elem_of_In, Z.eqb_refl. split; [|done]. by apply Hy. }
  destruct (Nat.eqb_spec (length m) 0) as [Hm|Hm].
  { apply nil_length_inv in Hm as ->. split_and!; [done|done| |].
    - intros _ x. split; [intros Hx|intros [Hx _]]; by apply elem_of_nil in Hx.
    - intros _ _. left. split; [intros x Hx; by apply elem_of_nil in Hx|done]. }
  destruct (eqb (num_of_Z 1) f) eqn:H1.
  { split_and!; [done|done| |done]. intros ->. done. }
  destruct (eqb num_zero f) eqn:H0.
  { split_and!; [intros x Hx; by apply Hy|intros ->; done|done|done]. }
  split_and!; [|intros ->; done|intros ->; done|].
  - intros x. destruct (_ <? _)%nat; [|done]. rewrite elem_of_app. intros [Hx|Hx]; [by apply Hy|].
    apply He. destruct (slice_to_sub (num_ceil (num_mul (num_nat (length e)) f)) e) as [k Hk]. rewrite Hk.
    apply elem_of_app. by left.
  - intros _ _. destruct (Nat.ltb_spec 0 (length y)) as [Hl|Hl].
    + right. eexists y, _. split; [done|]. split; [done|]. intros x Hx. apply He.
      destruct (slice_to_sub (num_ceil (num_mul (num_nat (length e)) f)) e) as [k Hk]. rewrite Hk. apply elem_of_app. by left.
    + left. split; [|done]. intros x Hx Hm'. assert (x ∈ y) as Hxy by by apply Hy.
      destruct y; [by apply elem_of_nil in Hxy|simpl in Hl; lia].
Qed.
