(* ===== verification/Sorter.v ===== *)
(** * The sorter (functions [Ue], [Be], [je], [We], [Ge], [Je], [Ye], [He], ...)

    For each sortable property the sorter keeps the values of the documents in
    an array, sorted lazily, and the position of each document in it. *)

From Stdlib Require Import SpecFloat.
From S2P Require Import Prelude JSColl JSNum Utils JSValue Schema Store.
Local Open Scope Z_scope.

Record sort_data := SortData {
  sd_docs : list (Z * nat);               (* document to position *)
  orderedDocsToRemove : list Z;
  orderedDocs : list (Z * jsval);
  sd_type : jsstr;
}.

Record sorter := Sorter {
  so_language : jsstr;
  so_enabled : bool;
  isSorted : bool;
  sortableProperties : list jsstr;
  sortablePropertiesWithTypes : list (jsstr * jsstr);
  sorts : list (jsstr * sort_data);
}.

Definition set_sorts v (e : sorter) : sorter :=
  Sorter (so_language e) (so_enabled e) (isSorted e) (sortableProperties e) (sortablePropertiesWithTypes e) v.
Definition set_isSorted v (e : sorter) : sorter :=
  Sorter (so_language e) (so_enabled e) v (sortableProperties e) (sortablePropertiesWithTypes e) (sorts e).

(** ** create, functions [Ue] and [Be] *)
Definition unsorted_types : list jsstr :=
  js <$> ["geopoint"; "enum"; "enum[]"; "boolean[]"; "number[]"; "string[]"].

Definition sorter_path (o i : jsstr) : jsstr := match o with [] => i | _ => o ++ dot :: i end.

(** One property [n] of type name [a]. *)
Definition sorter_property (n a : jsstr) (s : sorter) : result sorter :=
  if isVectorType a then Ok s
  else if decide (a ∈ [js "boolean"; js "number"; js "string"]) then
    Ok (Sorter (so_language s) (so_enabled s) (isSorted s) (sortableProperties s ++ [n])
          (jm_set n a (sortablePropertiesWithTypes s)) (jm_set n (SortData [] [] [] a) (sorts s)))
  else if decide (a ∈ unsorted_types) then Ok s
  else Throw (OramaError "INVALID_SORT_SCHEMA_TYPE" [a; n]).

(** [{ ...a, ...b }] *)
Definition spread {V} (a b : list (jsstr * V)) : list (jsstr * V) := foldl (λ m p, jm_set p.1 p.2 m) a b.

Definition new_sorter (lang : jsstr) : sorter := Sorter lang true true [] [] [].

Fixpoint sorter_entry (lang : jsstr) (r : list jsstr) (o i : jsstr) (a : schema_ty) (s : sorter) : result sorter :=
  let n := sorter_path o i in
  if bool_decide (n ∈ r) then Ok s
  else match a with
       | SType a => sorter_property n a s
       | SNested l =>
           o ← (fix go (l : schema) (s : sorter) : result sorter :=
                  match l with
                  | [] => Ok s
                  | (i, a) :: l => s ← sorter_entry lang r n i a s; go l s
                  end) l (new_sorter lang);
           Ok (Sorter (so_language s) (so_enabled s) (isSorted s)
                 (sortableProperties s ++ sortableProperties o)
                 (spread (sortablePropertiesWithTypes s) (sortablePropertiesWithTypes o))
                 (spread (sorts s) (sorts o)))
       end.

Fixpoint sorter_entries (lang : jsstr) (n : schema) (r : list jsstr) (s : sorter) : result sorter :=
  match n with
  | [] => Ok s
  | (i, a) :: n => s ← sorter_entry lang r [] i a s; sorter_entries lang n r s
  end.

(** [enabled] is [false] only when the configuration says so; a disabled sorter
    is an object without [enabled]. *)
Definition sorter_create (lang : jsstr) (n : schema) (enabled : bool) (unsortable : list jsstr) : result sorter :=
  if enabled then sorter_entries lang n unsortable (new_sorter lang)
  else Ok (Sorter lang false true [] [] []).

(** ** Deferred removal, function [Je] *)
Definition ensurePropertyIsRemoved (t : jsstr) (e : sorter) : sorter :=
  match jm_get t (sorts e) with
  | None => e
  | Some n =>
      if (length (orderedDocsToRemove n) =? 0)%nat then e
      else set_sorts (jm_set t (SortData (sd_docs n) [] (filter (λ x, x.1 ∉ orderedDocsToRemove n) (orderedDocs n))
                                   (sd_type n)) (sorts e)) e
  end.

(** ** insert, function [je]; [o] is the internal id *)
Definition sorter_insert (t : jsstr) (o : Z) (r : jsval) (e : sorter) : result sorter :=
  if negb (so_enabled e) then Ok e
  else
    let e := set_isSorted false e in
    match jm_get t (sorts e) with
    | None => Throw TypeError
    | Some s =>
        let e := if set_has o (orderedDocsToRemove s) then ensurePropertyIsRemoved t e else e in
        match jm_get t (sorts e) with
        | None => Throw TypeError
        | Some s => Ok (set_sorts (jm_set t (SortData (jm_set o (length (orderedDocs s)) (sd_docs s))
                                                (orderedDocsToRemove s) (orderedDocs s ++ [(o, r)]) (sd_type s)) (sorts e)) e)
        end
    end.

(** ** remove, function [Ye]: position 0 is falsy *)
Definition sorter_remove (t : jsstr) (o : Z) (e : sorter) : result sorter :=
  if negb (so_enabled e) then Ok e
  else
    match jm_get t (sorts e) with
    | None => Throw TypeError
    | Some r =>
        match jm_get o (sd_docs r) with
        | Some (S _) => Ok (set_sorts (jm_set t (SortData (jm_delete o (sd_docs r)) (set_add o (orderedDocsToRemove r))
                                           (orderedDocs r) (sd_type r)) (sorts e)) e)
        | _ => Ok e
        end
    end.

Section sorting.
(** [a.localeCompare(b, locale)]: negative, zero or positive. *)
Context (localeCompare : jsstr → jsstr → jsstr → Z).

(** ** Comparators, functions [Ve], [Fe] and [$e]

    The boolean comparator looks only at its second argument, so the order of
    equal values is up to the sorting algorithm. *)
Definition value_le (lang ty : jsstr) (e t : Z * jsval) : bool :=
  if decide (ty = js "string") then
    match e.2, t.2 with JStr a, JStr b => localeCompare lang a b <=? 0 | _, _ => true end
  else if decide (ty = js "number") then
    match e.2, t.2 with JNum a, JNum b => negb (ltb num_zero (num_sub a b)) | _, _ => true end
  else if decide (ty = js "boolean") then truthy t.2
  else true.

(** Function [Ge]: sort one property and renumber its documents. *)
Definition number_docs (l : list (Z * jsval)) (d : list (Z * nat)) : list (Z * nat) :=
  foldl (λ d p, jm_set p.2 p.1 d) d (imap (λ k x, (k, x.1)) l).

Definition ensurePropertyIsSorted (t : jsstr) (e : sorter) : sorter :=
  match jm_get t (sorts e) with
  | None => e
  | Some n =>
      let l := js_sort (value_le (so_language e) (sd_type n)) (orderedDocs n) in
      set_sorts (jm_set t (SortData (number_docs l (sd_docs n)) (orderedDocsToRemove n) l (sd_type n)) (sorts e)) e
  end.

(** Function [We]. *)
Definition ensureIsSorted (e : sorter) : sorter :=
  if isSorted e || negb (so_enabled e) then e
  else set_isSorted true (foldl (λ e n, ensurePropertyIsSorted n e) e (obj_entries (sorts e)).*1).

(** Comparing two results by position: unknown documents come last. *)
Definition position_le (d : list (Z * nat)) (desc : bool) (t n : Z * number) : bool :=
  match jm_get t.1 d, jm_get n.1 d with
  | Some r, Some i => if desc then (i <=? r)%nat else (r <=? i)%nat
  | Some _, None => true
  | None, Some _ => false
  | None, None => true
  end.

(** ** sortBy, function [He] *)
Definition sortBy (e : sorter) (t : list (Z * number)) (r : jsstr) (desc : bool) : result (sorter * list (Z * number)) :=
  if negb (so_enabled e) then Throw (OramaError "SORT_DISABLED" [])
  else
    match jm_get r (sorts e) with
    | None => Throw (OramaError "UNABLE_TO_SORT_ON_UNKNOWN_FIELD" [r; join_str (js ", ") (sortableProperties e)])
    | Some _ =>
        let e := ensureIsSorted (ensurePropertyIsRemoved r e) in
        match jm_get r (sorts e) with
        | None => Throw TypeError
        | Some s => Ok (e, js_sort (position_le (sd_docs s) desc) t)
        end
    end.

(** ** Getters, saving and loading, functions [Ke], [qe], [Ze], [Xe] *)
Definition getSortableProperties (e : sorter) : list jsstr := if so_enabled e then sortableProperties e else [].
Definition getSortablePropertiesWithTypes (e : sorter) : list (jsstr * jsstr) :=
  if so_enabled e then sortablePropertiesWithTypes e else [].

Definition sorter_save (e : sorter) : sorter :=
  if negb (so_enabled e) then e
  else ensureIsSorted (foldl (λ e n, ensurePropertyIsRemoved n e) e (obj_entries (sorts e)).*1).

Definition sorter_load (n : sorter) : sorter :=
  if negb (so_enabled n) then n
  else set_sorts ((λ p, (p.1, SortData (sd_docs p.2) [] (orderedDocs p.2) (sd_type p.2))) <$> sorts n) n.
End sorting.

(** ** Facts *)
Lemma spread_get {V} (a b : list (jsstr * V)) k : jm_wf b → jm_get k (spread a b) = match jm_get k b with Some v => Some v | None => jm_get k a end.
Proof.
  unfold spread, jm_wf. revert a. induction b as [|[k' v] b IH]; intros a; csimpl; [done|].
  intros [Hk Hb]%NoDup_cons. rewrite IH by done. rewrite jm_get_set. destruct (decide (k = k')) as [->|]; [|done].
  by rewrite (proj2 (jm_get_None k' b) Hk).
Qed.

Section facts.
Context (localeCompare : jsstr → jsstr → jsstr → Z).

Lemma position_le_total d desc a b : position_le d desc a b = true ∨ position_le d desc b a = true.
Proof.
  unfold position_le. destruct (jm_get a.1 d) as [r|], (jm_get b.1 d) as [i|]; try (by left); try (by right).
  destruct desc; rewrite !Nat.leb_le; lia.
Qed.

Lemma position_le_trans d desc a b c :
  position_le d desc a b = true → position_le d desc b c = true → position_le d desc a c = true.
Proof.
  unfold position_le. destruct (jm_get a.1 d), (jm_get b.1 d), (jm_get c.1 d); try done.
  destruct desc; rewrite !Nat.leb_le; lia.
Qed.

(** Sorting results by a property reorders them and nothing else: the
    result is a permutation, ordered by the documents' positions in the
    property's sorted array (reversed for descending order), with documents
    that have no value at the end in either direction; it fails only when
    sorting is disabled or the property is not sortable. *)
Theorem sortBy_spec (e : sorter) (t : list (Z * number)) r (desc : bool) :
  match sortBy localeCompare e t r desc with
  | Ok (e', t') =>
      t' ≡ₚ t ∧ ∃ s, jm_get r (sorts e') = Some s ∧
        StronglySorted (λ a b,
          match jm_get a.1 (sd_docs s), jm_get b.1 (sd_docs s) with
          | Some x, Some y => if desc then (y ≤ x)%nat else (x ≤ y)%nat
          | None, Some _ => False
          | _, None => True
          end) t'
  | Throw x =>
      (so_enabled e = false ∧ x = OramaError "SORT_DISABLED" []) ∨
      (so_enabled e = true ∧ jm_get r (sorts e) = None ∧ 
       x = OramaError "UNABLE_TO_SORT_ON_UNKNOWN_FIELD" [r; join_str (js ", ") (sortableProperties e)])
  end.
Proof.
  unfold sortBy. destruct (so_enabled e) eqn:He; simpl; [|by left].
  destruct (jm_get r (sorts e)) as [s0|] eqn:Hr; [|by right].
  set (e1 := ensurePropertyIsRemoved r e).
  assert (∀ t e, is_Some (jm_get r (sorts e)) → is_Some (jm_get r (sorts (ensurePropertyIsSorted localeCompare t e)))) as Hkeep.
  { intros t' e' [s' Hs']. unfold ensurePropertyIsSorted. destruct (jm_get t' (sorts e')) as [n|]; [|by eauto].
    simpl. rewrite jm_get_set. case_decide; eauto. }
  assert (is_Some (jm_get r (sorts e1))) as H1.
  { unfold e1, ensurePropertyIsRemoved. rewrite Hr. destruct (_ =? _)%nat; [by rewrite Hr|]. simpl.
    rewrite jm_get_set_eq. eauto. }
  assert (is_Some (jm_get r (sorts (ensureIsSorted localeCompare e1)))) as [s Hs].
  { unfold ensureIsSorted. destruct (_ || _); [done|]. simpl. revert H1.
    generalize (obj_entries (sorts e1)).*1. intros l. generalize e1. induction l as [|n l IH]; intros e'; [done|].
    simpl. intros He'. apply IH. by apply Hkeep. }
  rewrite Hs. split; [apply js_sort_perm|]. exists s. split; [done|].
  pose proof (js_sort_sorted (position_le (sd_docs s) desc) t (position_le_total _ _) (position_le_trans _ _)) as Hsort.
  induction Hsort as [|a l Hl IH Hall]; constructor; [done|]. eapply Forall_impl; [exact Hall|].
  intros b. unfold position_le. destruct (jm_get a.1 (sd_docs s)), (jm_get b.1 (sd_docs s)); try done.
  destruct desc; apply Nat.leb_le.
Qed.
End facts.

(** Removing the document at position 0 from the sorter does nothing,
    because the code tests the position for truth; when the document is then
    inserted again with a new value, the old value stays in the array and can
    decide the order: here document 1 is replaced, its value going from 10 to
    1, document 2 has value 5, and ascending order puts document 2 first. *)
Theorem sorter_stale_value localeCompare :
  let lang := js "english" in let p := js "n" in
  ∃ s0 s1 s2 s3 s4 s5 t,
    sorter_create lang [(p, SType (js "number"))] true [] = Ok s0 ∧
    sorter_insert p 1 (JNum (num_of_Z 10)) s0 = Ok s1 ∧
    sorter_remove p 1 s1 = Ok s2 ∧ s2 = s1 ∧
    sorter_insert p 1 (JNum (num_of_Z 1)) s2 = Ok s3 ∧ sorter_insert p 2 (JNum (num_of_Z 5)) s3 = Ok s4 ∧
    sortBy localeCompare s4 [(1, num_zero); (2, num_zero)] p false = Ok (s5, t) ∧
    t = [(2, num_zero); (1, num_zero)].
Proof. do 7 eexists. repeat (split; [reflexivity|]). vm_compute. reflexivity. Qed.
