(* ===== verification/Database.v ===== *)
(** * The database: create, insert and full-text search

    Functions [pt], [bt], [Ot] and [It] (insertion), [Lt], [Ct], [Ft] (search)
    and [O]. A database is built from components; the index component is
    described by the record [index_component], of which the default index and
    the plugin pt15 are the two implementations. No hooks are installed, so
    the synchronous paths are the ones taken. *)

From Stdlib Require Import SpecFloat.
From stdpp Require Import pretty.
From S2P Require Import Prelude JSColl JSNum Utils JSValue AVL Flat Levenshtein Radix BKD Vector PT15 Schema Store Tokenizer Index Where Sorter.
Local Open Scope Z_scope.

(** The methods of [e.index] that a database calls. *)
Record index_component := IndexComponent {
  ic_create : schema → result index;
  ic_insert : jsstr → Z → jsval → jsstr → option jsstr → Z → Z → M ist unit;
  ic_remove : jsstr → Z → jsval → jsstr → option jsstr → Z → M ist bool;
  ic_search : jsstr → option jsstr → list jsstr → bool → Z → list (jsstr * number) → relevance → Z →
              option (list Z) → number → M ist (list (Z * number));
  ic_where : list (jsstr * jsval) → option jsstr → M ist (list Z);
}.

(** The default index component. *)
Definition default_index `{MathOps} (native : bool) (toLowerCase : jsstr → jsstr) (is_sep : jsstr → N → bool)
    (tk : tokenizer) : index_component := {|
  ic_create s := create_index false s empty_index;
  ic_insert := insert_value toLowerCase is_sep tk;
  ic_remove := remove_value toLowerCase is_sep tk;
  ic_search t r o s i a c l u f := index_search toLowerCase is_sep tk t r o s i a c l u f;
  ic_where n r := searchByWhereClause toLowerCase is_sep tk native n r;
|}.

(** ** The plugin pt15, function [qt] *)
Section pt15.
Context `{MathOps} (native : bool) (toLowerCase : jsstr → jsstr) (is_sep : jsstr → N → bool) (tk : tokenizer).

Definition is_text (i : jsstr) : bool := bool_decide (i ∈ [js "string"; js "string[]"]).

(** [Jt] and [Kt] for one string of property [n]; [upd] is the update of the
    tables for its tokens. *)
Definition pt15_string (upd : position_node → list jsstr → Z → option position_node)
    (n : jsstr) (r : Z) (lang : option jsstr) (v : jsval) : M ist unit :=
  match v with
  | JStr e =>
      i ← m_tokenize toLowerCase is_sep tk e lang (Some n) true;
      x ← gets (λ s, jm_get n (indexes (st_index s)));
      match x with
      | Some (NPosition t, b) =>
          t ← lift (result_of_option TypeError (upd t i r)); put_node n (NPosition t) b
      | _ => throw TypeError
      end
  | _ => lift ill_typed
  end.

Definition pt15_insert (n : jsstr) (o : Z) (s : jsval) (i : jsstr) (lang : option jsstr) (l threshold : Z) : M ist unit :=
  if negb (is_text i) then insert_value toLowerCase is_sep tk n o s i lang l 1
  else match s with
       | JArr d => mfor (pt15_string insertString n o lang) d
       | s => pt15_string insertString n o lang s
       end.

Definition pt15_remove (n : jsstr) (o : Z) (s : jsval) (i : jsstr) (lang : option jsstr) (l : Z) : M ist bool :=
  if negb (is_text i) then remove_value toLowerCase is_sep tk n o s i lang l
  else (match s with
        | JArr d => mfor (pt15_string removeString n o lang) d
        | s => pt15_string removeString n o lang s
        end);; mret true.

(** One property of the search: its scores. *)
Definition pt15_property (t : jsstr) (a : list (jsstr * number)) (u : option (list Z)) (s : jsstr) : M ist scores :=
  x ← gets (λ st, jm_get s (indexes (st_index st)));
  match x with
  | Some (NPosition n, _) =>
      toks ← m_tokenize toLowerCase is_sep tk t None None true;
      mret (searchString toks n (default (num_of_Z 1) (jm_get s a)) u)
  | _ => throw TypeError
  end.
Fixpoint pt15_properties (t : jsstr) (o : list jsstr) (a : list (jsstr * number)) (u : option (list Z)) :
    M ist (list scores) :=
  match o with
  | [] => mret []
  | s :: o => i ← pt15_property t a u s; f ← pt15_properties t o a u; mret (i :: f)
  end.

(** The first property with the most documents. *)
Fixpoint largest (r : nat) (f : list scores) (h : nat * nat) : nat :=
  match f with
  | [] => h.2
  | i :: f => largest (S r) f (if (h.1 <? length i)%nat then (length i, r) else h)
  end.

(** [for (let [e, n] of t) p.has(e) ? p.set(e, p.get(e) + n) : p.set(e, n)] *)
Definition merge_scores (p t : scores) : scores := foldl (λ p x, add_score p x.1 x.2) p t.

Definition pt15_merge (f : list scores) : result scores :=
  match f with
  | [] => Throw TypeError (* Array.from(undefined) *)
  | [x] => Ok x
  | x :: f' =>
      let id := largest 1 f' (length x, 0%nat) in
      Ok (foldl merge_scores (default [] (f !! id)) (delete id f))
  end.

(** [search]; the threshold is not a parameter of the plugin. *)
Definition pt15_search (t : jsstr) (r : option jsstr) (o : list jsstr) (s : bool) (i : Z)
    (a : list (jsstr * number)) (c : relevance) (l : Z) (u : option (list Z)) (threshold : number) : M ist scores :=
  if negb (i =? 0) then throw (PlainError "Tolerance not implemented yet")
  else if s then throw (PlainError "Exact not implemented yet")
  else f ← pt15_properties t o a u; lift (pt15_merge f).

(** [searchByWhereClause]: no filters on text. *)
Fixpoint has_position_filter (e : index) (n : list (jsstr * jsval)) : result bool :=
  match n with
  | [] => Ok false
  | (t, _) :: n =>
      match jm_get t (indexes e) with
      | None => Throw TypeError
      | Some (x, _) => b ← has_position_filter e n; Ok (bool_decide (itype x = "Position") || b)
      end
  end.

Definition pt15_where (n : list (jsstr * jsval)) (r : option jsstr) : M ist (list Z) :=
  e ← gets st_index;
  b ← lift (has_position_filter e (obj_entries n));
  if (b : bool) then throw (PlainError "String filters are not supported")
  else searchByWhereClause toLowerCase is_sep tk native n r.

(** Function [Gt]: a positional index for each text property; the text of the
    error names the property, which is left out. *)
Definition pt15_create_index (t : schema) : result index := create_index true t empty_index.

Definition pt15_index : index_component := {|
  ic_create := pt15_create_index;
  ic_insert := pt15_insert;
  ic_remove := pt15_remove;
  ic_search := pt15_search;
  ic_where := pt15_where;
|}.

(** [save] and [load]: the positional nodes are kept apart. *)
Definition is_position (p : jsstr * (inode * bool)) : bool := bool_decide (itype p.2.1 = "Position").
Definition pt15_save (e : index) : option (json_index * list (jsstr * (inode * bool))) :=
  let n := List.filter (λ p, negb (is_position p)) (obj_entries (indexes e)) in
  j ← index_save (set_indexes n e);
  Some (j, List.filter is_position (obj_entries (indexes e))).
Definition pt15_load (t : json_index * list (jsstr * (inode * bool))) : result index :=
  n ← index_load t.1;
  Ok (set_indexes (spread (spread [] t.2) (indexes n)) n).
End pt15.

(** ** The database *)
Record db := Db {
  db_schema : schema;
  db_ist : ist;                     (* id store, tokenizer cache, index *)
  db_docs : docs;
  db_sorting : sorter;
  db_counter : nat;                 (* the counter of [g] *)
  db_props : option (list jsstr);   (* [caches.propertiesToSearch] *)
}.
Definition set_ist v (e : db) : db := Db (db_schema e) v (db_docs e) (db_sorting e) (db_counter e) (db_props e).
Definition set_docs_store v (e : db) : db := Db (db_schema e) (db_ist e) v (db_sorting e) (db_counter e) (db_props e).
Definition set_sorting v (e : db) : db := Db (db_schema e) (db_ist e) (db_docs e) v (db_counter e) (db_props e).
Definition set_counter v (e : db) : db := Db (db_schema e) (db_ist e) (db_docs e) (db_sorting e) v (db_props e).
Definition set_props v (e : db) : db := Db (db_schema e) (db_ist e) (db_docs e) (db_sorting e) (db_counter e) v.

(** Running an operation of the index component. *)
Definition in_index {A} (m : M ist A) : M db A := λ e,
  let '(s, r) := m (db_ist e) in (set_ist s e, r).

(** [V(e.internalDocumentIDStore, a)] *)
Definition m_intern (a : docref) : M db Z := λ e,
  let '(i, n) := getInternalDocumentId (st_ids (db_ist e)) a in
  (set_ist (Ist i (st_cache (db_ist e)) (st_index (db_ist e))) e, Ok n).

(** [documentsStore.get(docs, a)] *)
Definition m_get_doc (a : docref) : M db (option jsval) :=
  n ← m_intern a; gets (λ e, docs_map (db_docs e) !! n).

Section database.
Context (ic : index_component) (uid : jsstr) (localeCompare : jsstr → jsstr → jsstr → Z).

(** ** create, function [pt], for a given tokenizer language *)
Definition create_db (counter : nat) (e : schema) (lang : jsstr) (sort_enabled : bool) (unsortable : list jsstr) :
    result db :=
  i ← ic_create ic e;
  s ← sorter_create lang e sort_enabled unsortable;
  Ok (Db e (Ist new_ids [] i) new_docs s counter None).

(** ** insert, function [bt] *)

(** The check of the extracted properties. *)
Fixpoint check_properties (f : list (jsstr * jsstr)) (d : list (jsstr * jsval)) : result unit :=
  match d with
  | [] => Ok tt
  | (e, t) :: d => validateDocumentProperty (typeof t) (default [] (jm_get e f)) e t;; check_properties f d
  end.

(** The loop over the searchable properties. *)
Fixpoint index_properties (t : jsstr) (r : list (jsstr * jsval)) (o : Z) (lang : option jsstr) (threshold : Z)
    (n : list jsstr) : M db unit :=
  match n with
  | [] => mret tt
  | i :: n =>
      match jm_get i r with
      | None | Some JUndef => index_properties t r o lang threshold n
      | Some v =>
          c ← gets (λ e, default [] (jm_get i (searchablePropertiesWithTypes (st_index (db_ist e)))));
          l ← m_intern (RefStr t);
          in_index (ic_insert ic i l v c lang o threshold);;
          index_properties t r o lang threshold n
      end
  end.

(** The loop over the sortable properties. *)
Fixpoint sort_properties (t : jsstr) (l : list (jsstr * jsval)) (c : list jsstr) : M db unit :=
  match c with
  | [] => mret tt
  | n :: c =>
      match jm_get n l with
      | None | Some JUndef => sort_properties t l c
      | Some r =>
          o ← m_intern (RefStr t);
          s ← gets db_sorting;
          s ← lift (sorter_insert n o r s);
          modify (set_sorting s);;
          sort_properties t l c
      end
  end.

(** What follows the storing of document [t] under the id [a]. *)
Definition index_document (t : jsval) (a : jsstr) (n : option jsstr) (threshold : Z) : M db unit :=
  l ← gets (λ e, docs_count (db_docs e));
  u ← gets (λ e, searchableProperties (st_index (db_ist e)));
  f ← gets (λ e, searchablePropertiesWithTypes (st_index (db_ist e)));
  d ← lift (getDocumentProperties t u);
  lift (check_properties f (obj_entries d));;
  index_properties a d l n threshold u;;
  c ← gets (λ e, getSortableProperties (db_sorting e));
  l ← lift (getDocumentProperties t c);
  sort_properties a l c.

Definition insert (t : jsval) (n : option jsstr) (threshold : Z) : M db jsstr :=
  sch ← gets db_schema;
  s ← lift (validateSchema t sch);
  match s with
  | Some (c :: p) => throw (OramaError "SCHEMA_VALIDATION_FAILURE" [c :: p])
  | _ =>
      i ← gets db_counter;
      '(a, i) ← lift (getDocumentIndexId uid i t);
      modify (set_counter i);;
      c ← m_intern (RefStr a);
      stored ← gets (λ e, docs_store (db_docs e) c t);
      if negb stored.2 then throw (OramaError "DOCUMENT_ALREADY_EXISTS" [a])
      else (
        modify (set_docs_store stored.1);;
        index_document t a n threshold;;
        mret a)
  end.

(** ** insertMultiple, functions [Ot] and [It] *)
Fixpoint insert_batch (l : list jsval) (n : option jsstr) (threshold : Z) : M db (list jsstr) :=
  match l with
  | [] => mret []
  | t :: l => a ← insert t n threshold; r ← insert_batch l n threshold; mret (a :: r)
  end.

(** The loop over the batches of [n] documents; [None] of [fuel]: more batches
    than documents cannot occur. *)
Fixpoint insert_batches (fuel : nat) (n a : nat) (t : list jsval) (r : option jsstr) : M db (list jsstr) :=
  match fuel with
  | O => mret []
  | S fuel =>
      let s := take n (drop (a * n) t) in
      if (length s =? 0)%nat then mret []
      else
        i ← insert_batch s r (Z.of_nat (length s));
        i' ← insert_batches fuel n (S a) t r;
        mret (i ++ i')
  end.

Definition insertMultiple (t : list jsval) (n : nat) (r : option jsstr) : M db (list jsstr) :=
  insert_batches (S (length t)) n 0 t r.

(** ** search *)
Record search_params := SearchParams {
  sp_term : jsstr;
  sp_properties : option (list jsstr);     (* [None]: absent or '*' *)
  sp_star : bool;                          (* '*' was given *)
  sp_where : list (jsstr * jsval);
  sp_exact : bool;
  sp_tolerance : Z;
  sp_boost : list (jsstr * number);
  sp_relevance : relevance;
  sp_threshold : option number;
  sp_sortBy : option (jsstr * bool);       (* property, descending *)
  sp_limit : nat;
  sp_offset : nat;
  sp_includeVectors : bool;
  sp_preflight : bool;
}.

Record found_doc := FoundDoc { fd_id : option jsstr; fd_score : number; fd_document : option jsval }.

(** The text properties, computed once. *)
Definition properties_to_search : M db (list jsstr) :=
  p ← gets db_props;
  match p with
  | Some i => mret i
  | None =>
      i ← gets (λ e, let s := st_index (db_ist e) in
                     List.filter (λ p, startsWith (default [] (jm_get p (searchablePropertiesWithTypes s))) (js "string"))
                       (searchableProperties s));
      modify (set_props (Some i));;
      mret i
  end.

(** Function [Lt]: the ids and scores of the matching documents. *)
Definition innerFullTextSearch (t : search_params) (n : option jsstr) : M db (list (Z * number)) :=
  i ← properties_to_search;
  i ← match sp_properties t with
      | Some o => match List.filter (λ e, negb (bool_decide (e ∈ i))) o with
                  | e :: _ => throw (OramaError "UNKNOWN_INDEX" [e; join_str (js ", ") i])
                  | [] => mret (List.filter (λ e, bool_decide (e ∈ o)) i)
                  end
      | None => mret i
      end;
  a ← (if (0 <? length (sp_where t))%nat then a ← in_index (ic_where ic (sp_where t) n); mret (Some a) else mret None);
  if negb (bool_decide (sp_term t = [])) || sp_star t || bool_decide (is_Some (sp_properties t)) then
    o ← gets (λ e, docs_count (db_docs e));
    in_index (ic_search ic (sp_term t) n i (sp_exact t) (sp_tolerance t) (sp_boost t) (sp_relevance t) o a
                (default (num_of_Z 1) (sp_threshold t)))
  else
    match a with
    | Some a => mret ((λ e, (e, num_zero)) <$> a)
    | None => gets (λ e, (λ k, (k, num_zero)) <$> docs_keys (db_docs e))
    end.

(** Function [Ft]: the documents of one page; a document that was seen is
    skipped. *)
Fixpoint fetchDocuments (t : list (Z * number)) (i : list Z) : M db (list found_doc) :=
  match t with
  | [] => mret []
  | (r, c) :: t =>
      if set_has r i then fetchDocuments t i
      else
        d ← m_get_doc (RefNum r);
        s ← gets (λ e, st_ids (db_ist e));
        id ← lift (getDocumentIdFromInternalId s r);
        l ← fetchDocuments t (set_add r i);
        mret (FoundDoc id c d :: l)
  end.

(** Function [O]: [null] in place of the vectors, in the stored documents
    themselves; the values on the way to a vector are objects. *)
Fixpoint set_null (v : jsval) (p : list jsstr) : jsval :=
  match v with
  | JObj o =>
      match p with
      | [] => v
      | [r] => JObj (jm_set r JNull o)
      | k :: p =>
          let x := match jm_get k o with None | Some JUndef | Some JNull => JObj [] | Some x => x end in
          JObj (jm_set k (set_null x p) o)
      end
  | v => v
  end.
Definition remove_vectors (v : jsval) (t : list jsstr) : jsval :=
  foldl (λ v p, set_null v (split_on dot p)) v t.

(** [{ ...e.document }]; a missing document becomes an empty object. *)
Definition copy_document (h : found_doc) : found_doc :=
  FoundDoc (fd_id h) (fd_score h) (Some (default (JObj []) (fd_document h))).

Fixpoint removeVectorsFromHits (hits : list (Z * found_doc)) (t : list jsstr) : M db (list found_doc) :=
  match hits with
  | [] => mret []
  | (k, h) :: hits =>
      match fd_document h with
      | None => throw TypeError
      | Some d =>
          let d := remove_vectors d t in
          modify (λ e, set_docs_store (Docs (<[k := d]> (docs_map (db_docs e))) (docs_count (db_docs e))) e);;
          l ← removeVectorsFromHits hits t;
          mret (FoundDoc (fd_id h) (fd_score h) (Some d) :: l)
      end
  end.

(** Function [Ct] without facets, groups, [distinctOn] and a comparator of the
    caller: the hits of a page and the number of results. *)
Definition fullTextSearch (t : search_params) (n : option jsstr) : M db (list found_doc * nat) :=
  o ← gets (λ e, (vectorIndexes (st_index (db_ist e))).*1);
  d ← innerFullTextSearch t n;
  d ← match sp_sortBy t with
      | Some (p, desc) =>
          s ← gets db_sorting;
          '(s, d) ← lift (sortBy localeCompare s d p desc);
          modify (set_sorting s);; mret d
      | None => mret (js_sort sortTokenScorePredicate d)
      end;
  if sp_preflight t then mret ([], length d)
  else
    let page := take (sp_limit t) (drop (sp_offset t) d) in
    f ← fetchDocuments page [];
    if sp_includeVectors t then mret (f, length d)
    else if (length o =? 0)%nat then mret (copy_document <$> f, length d)
    else
      f ← removeVectorsFromHits (zip (set_of page.*1) f) o;
      mret (f, length d).
End database.
