(* ===== verification/TextIndex.v ===== *)
(** * What a database may expect of an index of texts

    The interface [TextIndex] between the database and its index component,
    for schemas of strings and string arrays, and the proof that the plugin
    pt15 implements it. *)

From Stdlib Require Import SpecFloat.
From stdpp Require Import pretty.
From S2P Require Import Prelude JSColl JSNum NumFacts Utils JSValue AVL Flat Levenshtein Radix BKD Vector PT15 Schema Store Tokenizer Index Where Sorter Database.
Local Open Scope Z_scope.

(** ** Text schemas and text documents *)

(** The type name of a text property; [b]: an array of strings. *)
Definition text_type (b : bool) : jsstr := js (if b then "string[]" else "string").
Definition text_schema (ps : list (jsstr * bool)) : schema := (λ p, (p.1, SType (text_type p.2))) <$> ps.

(** Plain property names: different, not empty, without dots. *)
Definition plain_names (ps : list (jsstr * bool)) : Prop :=
  NoDup ps.*1 ∧ Forall (λ p, p ≠ [] ∧ dot ∉ p) ps.*1.

(** The texts in a value. *)
Definition texts (v : jsval) : list jsstr :=
  match v with
  | JStr s => [s]
  | JArr l => flat_map (λ v, match v with JStr s => [s] | _ => [] end) l
  | _ => []
  end.
Definition text_value (b : bool) (v : jsval) : Prop :=
  if b then ∃ l, v = JArr (JStr <$> l) else ∃ s, v = JStr s.

Lemma text_type_inj b b' : text_type b = text_type b' → b = b'.
Proof. by destruct b, b'. Qed.

Lemma texts_arr l : texts (JArr (JStr <$> l)) = l.
Proof. cbn [texts]. induction l as [|s l IH]; [done|]. rewrite fmap_cons. cbn [flat_map app]. by rewrite IH. Qed.

(** ** The interface *)

(** The words filed: per property and document. *)
Abbreviation words := (jsstr → Z → list jsstr).
Definition no_words : words := λ _ _, [].
Definition add_words (F : words) (p : jsstr) (d : Z) (w : list jsstr) : words :=
  λ p' d', if decide (p' = p ∧ d' = d) then F p d ++ w else F p' d'.

(** Document [d] has a word in a property of [o] that a word of [q] is the
    beginning of. *)
Definition matches (F : words) (o : list jsstr) (q : list jsstr) (d : Z) : Prop :=
  ∃ p e n, p ∈ o ∧ e ∈ q ∧ e ≠ [] ∧ n ∈ F p d ∧ e `prefix_of` n.

Definition with_ids (i : ids) (s : ist) : ist := Ist i (st_cache s) (st_index s).

(** Scores that can be compared, and weights that keep them so. *)
Definition scores_ok (l : scores) : Prop := Forall (λ x, nonneg x.2) l.
Definition weight (x : number) : Prop := nonneg x ∧ x ≠ num_infinity.
Definition weights (boost : list (jsstr * number)) : Prop := ∀ p x, jm_get p boost = Some x → weight x.

Section interface.
Context (toLowerCase : jsstr → jsstr) (is_sep : jsstr → N → bool) (tk : tokenizer).

Definition value_words (p : jsstr) (v : jsval) : list jsstr :=
  texts v ≫= tokens_of toLowerCase is_sep tk p.

Class TextIndex (ic : index_component) (ps : list (jsstr * bool)) (Rep : ist → words → Prop) := {
  ti_create : ∃ i, ic_create ic (text_schema ps) = Ok i ∧ Rep (Ist new_ids [] i) no_words;
  ti_ids s F i : Rep s F → Rep (with_ids i s) F;
  ti_ext s F G : (∀ p d, F p d = G p d) → Rep s F → Rep s G;
  ti_properties s F : Rep s F →
    searchableProperties (st_index s) = ps.*1 ∧
    (∀ p b, (p, b) ∈ ps → jm_get p (searchablePropertiesWithTypes (st_index s)) = Some (text_type b)) ∧
    vectorIndexes (st_index s) = [];
  ti_insert s F p b d v count threshold : Rep s F → (p, b) ∈ ps → text_value b v →
    ∃ s', ic_insert ic p d v (text_type b) None count threshold s = (s', Ok tt) ∧
      st_ids s' = st_ids s ∧ Rep s' (add_words F p d (value_words p v));
  ti_search s F t o boost rel count threshold : Rep s F → o ≠ [] → (∀ p, p ∈ o → p ∈ ps.*1) → weights boost →
    ∃ s' l, ic_search ic t None o false 0 boost rel count None threshold s = (s', Ok l) ∧
      st_ids s' = st_ids s ∧ Rep s' F ∧ jm_wf l ∧ scores_ok l ∧
      ∀ d, is_Some (jm_get d l) ↔ matches F o (tokens_of toLowerCase is_sep tk [] t) d;
}.
End interface.
Arguments ti_create {_ _ _ _ _ _ _}.
Arguments ti_ids {_ _ _ _ _ _ _}.
Arguments ti_ext {_ _ _ _ _ _ _}.
Arguments ti_properties {_ _ _ _ _ _ _}.
Arguments ti_insert {_ _ _ _ _ _ _}.
Arguments ti_search {_ _ _ _ _ _ _}.

(** ** Scores *)
Lemma add_score_wf i d x : jm_wf i → jm_wf (add_score i d x).
Proof. intros. unfold add_score. destruct (jm_get d i); by apply jm_wf_set. Qed.

Lemma score_docs_wf i n x o : jm_wf i → jm_wf (score_docs i n x o).
Proof.
  unfold score_docs. revert i. induction n as [|d n IH]; intros i Hi; [done|]. cbn [foldl]. apply IH.
  destruct (match o with Some w => set_has d w | None => true end); [by apply add_score_wf|done].
Qed.

Lemma score_slots_wf i n e t r o : jm_wf i → jm_wf (score_slots i n e t r o).
Proof.
  revert i t. induction n as [|d n IH]; intros i t Hi; [done|]. cbn [score_slots]. apply IH.
  destruct (jm_get e d); [by apply score_docs_wf|done].
Qed.

Lemma searchString_wf q n r o : jm_wf (searchString q n r o).
Proof.
  unfold searchString. assert (∀ i, jm_wf i → jm_wf (foldl (λ i e, score_slots i (take 15 n) e 0 r o) i q)) as Hf.
  { induction q as [|e q IH]; intros i Hi; [done|]. cbn [foldl]. apply IH. by apply score_slots_wf. }
  apply Hf. constructor.
Qed.

Lemma add_score_ok i d x : scores_ok i → nonneg x → scores_ok (add_score i d x).
Proof.
  unfold scores_ok. intros Hi Hx.
  assert (∀ y, nonneg y → Forall (λ x, nonneg x.2) (jm_set d y i)) as Hset.
  { intros y Hy. clear Hx. induction Hi as [|[k v] i Hk Hi IH]; cbn [jm_set]; [by repeat constructor|].
    case_decide; by constructor. }
  unfold add_score. destruct (jm_get d i) as [v|] eqn:Hv; [|by apply Hset]. apply Hset, num_add_nonneg; [|done].
  apply jm_get_Some_elem in Hv. rewrite Forall_forall in Hi. by apply (Hi (d, v)).
Qed.

Lemma searchString_ok q n r o : weight r → scores_ok (searchString q n r o).
Proof.
  intros [Hr Hri]. unfold searchString.
  assert (∀ n i x, scores_ok i → nonneg x → scores_ok (score_docs i n x o)) as Hdocs.
  { intros l. unfold score_docs. induction l as [|d l IH]; intros i x Hi Hx; [done|]. cbn [foldl]. apply IH; [|done].
    destruct (match o with Some w => set_has d w | None => true end); [by apply add_score_ok|done]. }
  assert (∀ n i e t, (t + length n ≤ 15)%nat → scores_ok i → scores_ok (score_slots i n e t r o)) as Hslots.
  { intros l. induction l as [|x l IH]; intros i e t Ht Hi; [done|]. cbn [score_slots]. simpl in Ht.
    apply IH; [lia|]. destruct (jm_get e x); [|done]. apply Hdocs; [done|].
    apply num_mul_nonneg; [apply num_of_Z_nonneg; lia|done| |done].
    do 15 (destruct t as [|t]; [vm_compute; discriminate|]). lia. }
  assert (∀ q i, scores_ok i → scores_ok (foldl (λ i e, score_slots i (take 15 n) e 0 r o) i q)) as Hf.
  { intros l. induction l as [|e l IH]; intros i Hi; [done|]. cbn [foldl]. apply IH, Hslots; [|done].
    rewrite length_take. lia. }
  apply Hf. constructor.
Qed.

Lemma merge_scores_ok p t : scores_ok p → scores_ok t → scores_ok (merge_scores p t).
Proof.
  unfold merge_scores, scores_ok. intros Hp Ht. revert p Hp. induction Ht as [|x t Hx Ht IH]; intros p Hp; [done|].
  cbn [foldl]. apply IH. by apply add_score_ok.
Qed.

Lemma merge_scores_dom p t d :
  is_Some (jm_get d (merge_scores p t)) ↔ is_Some (jm_get d p) ∨ d ∈ t.*1.
Proof.
  unfold merge_scores. revert p. induction t as [|x t IH]; intros p; cbn [foldl]; [set_solver|].
  rewrite IH, add_score_dom, fmap_cons, elem_of_cons. tauto.
Qed.

Lemma merge_scores_wf p t : jm_wf p → jm_wf (merge_scores p t).
Proof. unfold merge_scores. revert p. induction t as [|x t IH]; intros p Hp; [done|]. apply IH, add_score_wf, Hp. Qed.

Lemma jm_get_is_Some {V} d (m : list (Z * V)) : is_Some (jm_get d m) ↔ d ∈ m.*1.
Proof.
  destruct (jm_get d m) as [v|] eqn:Hd.
  - split; [|by eauto]. intros _. apply jm_get_Some_elem in Hd. apply list_elem_of_fmap. by exists (d, v).
  - apply jm_get_None in Hd. split; [by intros []|done].
Qed.

Lemma largest_bound f r (h : nat * nat) : (h.2 < r)%nat → (largest r f h < r + length f)%nat.
Proof.
  revert r h. induction f as [|i f IH]; intros r h Hh; cbn [largest length]; [lia|].
  apply (Nat.lt_le_trans _ (S r + length f)); [|lia]. apply IH. destruct (_ <? _)%nat; simpl; lia.
Qed.

(** Merging the scores of the properties keeps exactly their documents. *)
Lemma pt15_merge_spec f :
  f ≠ [] → Forall (λ x, jm_wf x ∧ scores_ok x) f →
  ∃ l, pt15_merge f = Ok l ∧ (jm_wf l ∧ scores_ok l) ∧ ∀ d, is_Some (jm_get d l) ↔ ∃ x, x ∈ f ∧ is_Some (jm_get d x).
Proof.
  intros Hne Hwf. destruct f as [|x f]; [done|]. unfold pt15_merge. destruct f as [|y f].
  { exists x. apply Forall_cons in Hwf as [[? ?] _]. split_and!; [done..|]. intros d.
    setoid_rewrite list_elem_of_singleton. naive_solver. }
  set (id := largest 1 (y :: f) (length x, 0%nat)).
  assert (id < length (x :: y :: f))%nat as Hid by (apply (largest_bound (y :: f) 1); simpl; lia).
  destruct (lookup_lt_is_Some_2 _ _ Hid) as [z Hz]. rewrite Hz. cbn [from_option id].
  pose proof (delete_Permutation _ _ _ Hz) as Hperm. generalize dependent (delete id (x :: y :: f)).
  intros g Hperm. rewrite Hperm in Hwf. apply Forall_cons in Hwf as [Hz' Hg].
  exists (foldl merge_scores z g). split; [done|].
  assert (∀ d, (∃ x', x' ∈ x :: y :: f ∧ is_Some (jm_get d x')) ↔ is_Some (jm_get d z) ∨ ∃ x', x' ∈ g ∧ is_Some (jm_get d x')) as Hiff.
  { intros d. setoid_rewrite Hperm. setoid_rewrite elem_of_cons. naive_solver. }
  setoid_rewrite Hiff. clear -Hz' Hg. revert z Hz'. induction Hg as [|t g Ht Hg IH]; intros z Hz; cbn [foldl].
  - split; [done|]. intros d. set_solver.
  - destruct (IH (merge_scores z t)) as [H1 H2];
    [destruct Hz, Ht; split; [by apply merge_scores_wf|by apply merge_scores_ok]|]. split; [done|].
    intros d. rewrite H2, merge_scores_dom, <-jm_get_is_Some. setoid_rewrite elem_of_cons. naive_solver.
Qed.

(** ** The positional index implements it *)
Section pt15.
Context `{MathOps} (native : bool) (toLowerCase : jsstr → jsstr) (is_sep : jsstr → N → bool) (tk : tokenizer).
Context (Hsep : is_sep (tk_language tk) colon = true) (Hskip : tokenizeSkipProperties tk = []).
Context (ps : list (jsstr * bool)) (Hps : plain_names ps).
Implicit Types (F : words).

(** The tables of one property hold, for every document, the beginnings of its
    words. *)
Definition holds (t : position_node) (f : Z → list jsstr) : Prop :=
  length t = 15%nat ∧
  ∀ d e, (∃ k, d ∈ entries_at t k e) ↔ e ≠ [] ∧ ∃ n, n ∈ f d ∧ e `prefix_of` n.

Record pt15_rep (s : ist) F : Prop := {
  rep_cache : cache_ok tk (st_cache s);
  rep_props : searchableProperties (st_index s) = ps.*1;
  rep_types : ∀ p b, (p, b) ∈ ps → jm_get p (searchablePropertiesWithTypes (st_index s)) = Some (text_type b);
  rep_vectors : vectorIndexes (st_index s) = [];
  rep_nodes : ∀ p b, (p, b) ∈ ps → ∃ t, jm_get p (indexes (st_index s)) = Some (NPosition t, b) ∧ holds t (F p);
  rep_only : jm_wf (indexes (st_index s)) ∧ ∀ p, p ∈ (indexes (st_index s)).*1 → p ∈ ps.*1;
}.

Lemma names_inj p b b' : (p, b) ∈ ps → (p, b') ∈ ps → b = b'.
Proof.
  destruct Hps as [Hnd _]. intros H1 H2. destruct (list_elem_of_lookup_1 _ _ H1) as [i Hi].
  destruct (list_elem_of_lookup_1 _ _ H2) as [j Hj].
  assert (i = j) as ->; [|congruence].
  eapply NoDup_lookup; [exact Hnd|..]; rewrite list_lookup_fmap; [rewrite Hi|rewrite Hj]; done.
Qed.

Lemma m_tokenize_run s e p o :
  cache_ok tk (st_cache s) →
  ∃ c, m_tokenize toLowerCase is_sep tk e None p o s =
         (Ist (st_ids s) c (st_index s), Ok (tokens_of toLowerCase is_sep tk (default [] p) e)) ∧ cache_ok tk c.
Proof.
  intros Hc. unfold m_tokenize.
  destruct (tokenize_cached toLowerCase is_sep tk (st_cache s) e None p o) as (c & -> & Hc' & _);
    [done|done|by rewrite Hskip|by left|]. by exists c.
Qed.

Lemma holds_insert t f i d :
  holds t f →
  ∃ t', insertString t i d = Some t' ∧ holds t' (λ d', if decide (d' = d) then f d ++ i else f d').
Proof.
  intros [Ht Hf]. unfold insertString.
  destruct (insert_tokens_spec t i 0 (length i) d Ht) as (t' & -> & Ht' & Hent); [lia|].
  exists t'. split; [done|]. split; [done|]. intros d' e. setoid_rewrite Hent. setoid_rewrite elem_of_app.
  setoid_rewrite elem_of_replicate. pose proof (token_count_pos e i 0 (length i) ltac:(lia)) as Hpos.
  specialize (Hf d' e). split.
  - intros (k & [Hk|[-> Hk]]).
    + destruct (proj1 Hf) as (? & n & Hn & ?); [by exists k|]. split; [done|]. exists n. split; [|done].
      destruct (decide (d' = d)) as [->|]; [apply elem_of_app; by left|done].
    + destruct (proj1 Hpos) as (? & n & ? & ?); [exists k; lia|]. rewrite decide_True by done.
      split; [done|]. exists n. rewrite elem_of_app. auto.
  - intros (He & n & Hn & Hpre). destruct (decide (d' = d)) as [->|].
    + apply elem_of_app in Hn as [Hn|Hn].
      * destruct (proj2 Hf) as (k & ?); [eauto|]. exists k. by left.
      * destruct (proj2 Hpos) as (k & ?); [eauto|]. exists k. right. split; [done|lia].
    + destruct (proj2 Hf) as (k & ?); [eauto|]. exists k. by left.
Qed.

Lemma holds_ext t f g : (∀ d, f d = g d) → holds t f → holds t g.
Proof. intros Hfg [Ht Hf]. split; [done|]. intros d e. by rewrite <-Hfg, Hf. Qed.

(** One string of a property. *)
Lemma pt15_string_run s F p b d x :
  pt15_rep s F → (p, b) ∈ ps →
  ∃ s', pt15_string toLowerCase is_sep tk insertString p d None (JStr x) s = (s', Ok tt) ∧
    st_ids s' = st_ids s ∧ pt15_rep s' (add_words F p d (tokens_of toLowerCase is_sep tk p x)).
Proof.
  intros Hs Hp. unfold pt15_string.
  destruct (m_tokenize_run s x (Some p) true (rep_cache _ _ Hs)) as (c & Htok & Hc).
  destruct (rep_nodes _ _ Hs p b Hp) as (t & Ht & Hh).
  destruct (holds_insert t (F p) (tokens_of toLowerCase is_sep tk p x) d Hh) as (t' & Hins & Hh').
  unfold mbind at 1, M_mbind. rewrite Htok. cbn [from_option id]. unfold mbind at 1, M_mbind, gets.
  cbn [st_index]. rewrite Ht. unfold lift, mbind, M_mbind. rewrite Hins. cbn [result_of_option].
  unfold put_node, modify, on_index. cbn [st_ids st_cache st_index].
  eexists. split; [done|]. cbn [st_ids]. split; [done|].
  split; cbn [st_cache st_index set_indexes searchableProperties searchablePropertiesWithTypes vectorIndexes indexes];
    try apply Hs; [done| |].
  2:{ destruct (rep_only _ _ Hs) as [Hwf Hk]. split; [by apply jm_wf_set|]. intros q. rewrite jm_set_keys, elem_of_set_add.
      intros [->|Hq]; [apply list_elem_of_fmap; by exists (p, b)|by apply Hk]. }
  intros p' b' Hp'. rewrite jm_get_set. destruct (decide (p' = p)) as [->|Hne].
  - assert (b' = b) as -> by by eapply names_inj. exists t'. split; [done|].
    eapply holds_ext; [|exact Hh']. intros d'. unfold add_words. simpl.
    destruct (decide (d' = d)) as [->|]; [by rewrite decide_True|by rewrite decide_False by naive_solver].
  - destruct (rep_nodes _ _ Hs p' b' Hp') as (u & Hu & Hhu). exists u. split; [done|].
    eapply holds_ext; [|exact Hhu]. intros d'. unfold add_words. by rewrite decide_False by naive_solver.
Qed.

Lemma add_words_nil F p d p' d' : add_words F p d [] p' d' = F p' d'.
Proof. unfold add_words. case_decide as Hd; [|done]. destruct Hd as [-> ->]. by rewrite app_nil_r. Qed.

Lemma add_words_app F p d w1 w2 p' d' :
  add_words (add_words F p d w1) p d w2 p' d' = add_words F p d (w1 ++ w2) p' d'.
Proof.
  unfold add_words. case_decide; [|done]. rewrite decide_True by done. by rewrite (assoc_L (++)).
Qed.

Lemma pt15_rep_ext s F G : (∀ p d, F p d = G p d) → pt15_rep s F → pt15_rep s G.
Proof.
  intros HFG Hs. split; try apply Hs. intros p b Hp. destruct (rep_nodes _ _ Hs p b Hp) as (t & Ht & Hh).
  exists t. split; [done|]. apply (holds_ext t (F p)); [intros; apply HFG|done].
Qed.

Lemma pt15_strings_run l s F p b d :
  pt15_rep s F → (p, b) ∈ ps →
  ∃ s', mfor (pt15_string toLowerCase is_sep tk insertString p d None) (JStr <$> l) s = (s', Ok tt) ∧
    st_ids s' = st_ids s ∧ pt15_rep s' (add_words F p d (l ≫= tokens_of toLowerCase is_sep tk p)).
Proof.
  revert s F. induction l as [|x l IH]; intros s F Hs Hp.
  { exists s. split_and!; [done..|]. eapply pt15_rep_ext; [|exact Hs]. intros. symmetry. apply add_words_nil. }
  rewrite fmap_cons. cbn [mfor]. destruct (pt15_string_run s F p b d x Hs Hp) as (s1 & Hr1 & Hi1 & Hs1).
  unfold mbind at 1, M_mbind. rewrite Hr1. destruct (IH s1 _ Hs1 Hp) as (s2 & Hr2 & Hi2 & Hs2).
  exists s2. split_and!; [exact Hr2|congruence|]. eapply pt15_rep_ext; [|exact Hs2]. intros p' d'.
  rewrite add_words_app. done.
Qed.

Lemma pt15_insert_run s F p b d v count threshold :
  pt15_rep s F → (p, b) ∈ ps → text_value b v →
  ∃ s', pt15_insert toLowerCase is_sep tk p d v (text_type b) None count threshold s = (s', Ok tt) ∧
    st_ids s' = st_ids s ∧ pt15_rep s' (add_words F p d (value_words toLowerCase is_sep tk p v)).
Proof.
  intros Hs Hp Hv. unfold pt15_insert, value_words.
  assert (is_text (text_type b) = true) as -> by by destruct b. cbn [negb].
  destruct b; simpl in Hv; destruct Hv as [x ->].
  - rewrite texts_arr. by eapply pt15_strings_run.
  - cbn [texts]. destruct (pt15_string_run s F p false d x Hs Hp) as (s' & Hr & Hi & Hs').
    exists s'. split_and!; [done..|]. eapply pt15_rep_ext; [|exact Hs']. intros. cbn [mbind list_bind].
    by rewrite app_nil_r.
Qed.

(** ** Creation *)
Lemma create_text_property p b r :
  create_property true p (text_type b) r =
    Ok (add_property p (text_type b) (set_indexes (jm_set p (NPosition new_position, b) (indexes r)) r)).
Proof. by destruct b. Qed.

Lemma create_text_index l r :
  NoDup (searchableProperties r ++ l.*1) → Forall (λ p, p ≠ []) l.*1 →
  ∃ i, create_index true (text_schema l) r = Ok i ∧
    searchableProperties i = searchableProperties r ++ l.*1 ∧ vectorIndexes i = vectorIndexes r ∧
    (∀ p, p ∉ l.*1 → jm_get p (indexes i) = jm_get p (indexes r) ∧
       jm_get p (searchablePropertiesWithTypes i) = jm_get p (searchablePropertiesWithTypes r)) ∧
    ∀ p b, (p, b) ∈ l → jm_get p (indexes i) = Some (NPosition new_position, b) ∧
       jm_get p (searchablePropertiesWithTypes i) = Some (text_type b).
Proof.
  revert r. induction l as [|[p b] l IH]; intros r Hnd Hne.
  { exists r. rewrite app_nil_r. split_and!; [done..|]. intros ? ? Hin. by apply elem_of_nil in Hin. }
  unfold text_schema. rewrite fmap_cons. cbn [create_index create_entry fst snd path].
  rewrite create_text_property. cbn [mbind result_mbind]. rewrite fmap_cons in Hnd, Hne. cbn [fst] in Hnd, Hne.
  apply Forall_cons in Hne as [Hp Hne].
  match goal with |- context [create_index true _ ?r1] => destruct (IH r1) as (i & Hi & Hs & Hv & Hout & Hin) end;
    [cbn [add_property searchableProperties set_indexes]; by rewrite <-(assoc_L (++))|done|].
  cbn [add_property searchableProperties set_indexes vectorIndexes indexes searchablePropertiesWithTypes] in *.
  assert (p ∉ l.*1) as Hpl.
  { apply NoDup_app in Hnd as (_ & _ & Hnd). by apply NoDup_cons in Hnd as [? _]. }
  exists i. split_and!; [exact Hi| |done|..].
  - by rewrite Hs, <-(assoc_L (++)).
  - intros q Hq. rewrite fmap_cons in Hq. cbn [fst] in Hq. destruct (Hout q) as [-> ->]; [set_solver|].
    rewrite !jm_get_set_ne by set_solver. done.
  - intros q b' Hq. apply elem_of_cons in Hq as [[= -> ->]|Hq]; [|by apply Hin].
    destruct (Hout p Hpl) as [-> ->]. by rewrite !jm_get_set_eq.
Qed.

(** It creates a node per property and no other. *)
Lemma create_text_keys l r i :
  create_index true (text_schema l) r = Ok i → jm_wf (indexes r) →
  jm_wf (indexes i) ∧ ∀ p, p ∈ (indexes i).*1 → p ∈ (indexes r).*1 ∨ p ∈ l.*1.
Proof.
  revert r. induction l as [|[p b] l IH]; intros r; unfold text_schema.
  - intros [= <-] Hr. split; [done|by left].
  - rewrite fmap_cons. cbn [create_index create_entry fst snd path]. intros Hi Hr. revert Hi.
    change (path [] p) with p. rewrite create_text_property. cbn [mbind result_mbind]. intros Hi.
    destruct (IH _ Hi) as [Hwf Hk]; [cbn [add_property indexes set_indexes]; by apply jm_wf_set|]. split; [done|].
    intros q [Hq|Hq]%Hk; [|right; rewrite fmap_cons; by right]. cbn [add_property indexes set_indexes] in Hq.
    rewrite jm_set_keys, elem_of_set_add in Hq. destruct Hq as [->|]; [right; rewrite fmap_cons; by left|by left].
Qed.

Lemma new_position_entries k e : entries_at new_position k e = [].
Proof.
  unfold entries_at. destruct (new_position !! k) as [o|] eqn:Hk; [|done].
  by apply list_elem_of_lookup_2, list_elem_of_In, repeat_spec in Hk as ->.
Qed.

Lemma pt15_create :
  ∃ i, create_index true (text_schema ps) empty_index = Ok i ∧ pt15_rep (Ist new_ids [] i) no_words.
Proof.
  destruct Hps as [Hnd Hall].
  destruct (create_text_index ps empty_index) as (i & Hi & Hs & Hv & _ & Hin); [done| |].
  { eapply Forall_impl; [exact Hall|]. by intros ? []. }
  exists i. split; [done|].
  destruct (create_text_keys _ _ _ Hi) as [Hwf Hk]; [apply NoDup_nil_2|].
  split; cbn [st_cache st_index]; [by intros ???|done|..|done| |split; [done|intros p [Hp|]%Hk; [by apply not_elem_of_nil in Hp|done]]].
  - intros p b Hp. by apply Hin.
  - intros p b Hp. exists new_position. split; [by apply Hin|]. split; [done|]. intros d e.
    setoid_rewrite new_position_entries. unfold no_words. set_solver.
Qed.

(** ** Search *)
Lemma pt15_property_run s F t boost p :
  pt15_rep s F → p ∈ ps.*1 → weights boost →
  ∃ s' l, pt15_property toLowerCase is_sep tk t boost None p s = (s', Ok l) ∧ st_ids s' = st_ids s ∧
    st_index s' = st_index s ∧ pt15_rep s' F ∧ (jm_wf l ∧ scores_ok l) ∧
    ∀ d, is_Some (jm_get d l) ↔ matches F [p] (tokens_of toLowerCase is_sep tk [] t) d.
Proof.
  intros Hs Hp Hw. apply list_elem_of_fmap in Hp as ([p' b] & -> & Hp). cbn [fst].
  destruct (rep_nodes _ _ Hs p' b Hp) as (n & Hn & Hlen & Hh).
  destruct (m_tokenize_run s t None true (rep_cache _ _ Hs)) as (c & Htok & Hc).
  unfold pt15_property. unfold mbind at 1, M_mbind, gets. rewrite Hn. unfold mbind, M_mbind. rewrite Htok.
  do 2 eexists. split; [done|]. cbn [st_ids st_index]. split_and!; [done|done|..].
  - destruct Hs. by split.
  - apply searchString_wf.
  - apply searchString_ok.
    destruct (jm_get p' boost) as [x|] eqn:Hx; [by apply (Hw p')|]. split; [by apply num_of_Z_nonneg|vm_compute; discriminate].
  - intros d. rewrite searchString_dom by done. unfold matches. cbn [from_option id]. split.
    + intros [(e & k & He & Hd) _]. destruct (proj1 (Hh d e)) as (? & m & ? & ?); [eauto|].
      exists p', e, m. split_and!; [by left|done..].
    + intros (q & e & m & Hq & He & Hne & Hm & Hpre). apply list_elem_of_singleton in Hq as ->.
      split; [|done]. destruct (proj2 (Hh d e)) as (k & ?); [eauto|]. by exists e, k.
Qed.

Lemma pt15_properties_run o s F t boost :
  pt15_rep s F → (∀ p, p ∈ o → p ∈ ps.*1) → weights boost →
  ∃ s' f, pt15_properties toLowerCase is_sep tk t o boost None s = (s', Ok f) ∧ st_ids s' = st_ids s ∧
    pt15_rep s' F ∧ length f = length o ∧ Forall (λ x, jm_wf x ∧ scores_ok x) f ∧
    ∀ d, (∃ x, x ∈ f ∧ is_Some (jm_get d x)) ↔ matches F o (tokens_of toLowerCase is_sep tk [] t) d.
Proof.
  revert s. induction o as [|p o IH]; intros s Hs Hsub Hb.
  { exists s, []. split_and!; [done..|constructor|]. unfold matches. set_solver. }
  cbn [pt15_properties]. destruct (pt15_property_run s F t boost p Hs) as (s1 & l & H1 & Hi1 & _ & Hs1 & Hwf & Hl);
    [apply Hsub; by left|done|].
  destruct (IH s1 Hs1) as (s2 & f & H2 & Hi2 & Hs2 & Hlen & Hall & Hf); [intros; apply Hsub; by right|done|].
  unfold mbind, M_mbind. rewrite H1, H2. exists s2, (l :: f). split_and!; [done|congruence|done|simpl; congruence|by constructor|].
  intros d. setoid_rewrite elem_of_cons. specialize (Hl d). specialize (Hf d). unfold matches in *.
  setoid_rewrite elem_of_cons. setoid_rewrite list_elem_of_singleton in Hl. naive_solver.
Qed.

Lemma pt15_search_run s F t o boost rel count threshold :
  pt15_rep s F → o ≠ [] → (∀ p, p ∈ o → p ∈ ps.*1) → weights boost →
  ∃ s' l, pt15_search toLowerCase is_sep tk t None o false 0 boost rel count None threshold s = (s', Ok l) ∧
    st_ids s' = st_ids s ∧ pt15_rep s' F ∧ jm_wf l ∧ scores_ok l ∧
    ∀ d, is_Some (jm_get d l) ↔ matches F o (tokens_of toLowerCase is_sep tk [] t) d.
Proof.
  intros Hs Ho Hsub Hb. unfold pt15_search. cbn [Z.eqb negb].
  destruct (pt15_properties_run o s F t boost Hs Hsub Hb) as (s' & f & Hf & Hi & Hs' & Hlen & Hwf & Hdom).
  destruct (pt15_merge_spec f) as (l & Hl & [Hlwf Hlok] & Hld); [by destruct f, o|done|].
  unfold mbind, M_mbind, lift. rewrite Hf, Hl. exists s', l. split_and!; [done..|]. intros d. by rewrite Hld, Hdom.
Qed.

(** The plugin keeps the promises of a text index. *)
#[export] Instance pt15_text_index :
  TextIndex toLowerCase is_sep tk (pt15_index native toLowerCase is_sep tk) ps pt15_rep.
Proof.
  split.
  - apply pt15_create.
  - intros s F i Hs. destruct Hs. by split.
  - intros s F G. apply pt15_rep_ext.
  - intros s F Hs. split_and!; apply Hs.
  - intros. by apply pt15_insert_run.
  - intros. by apply pt15_search_run.
Qed.
End pt15.
