(* ===== verification/DatabaseTheorems.v ===== *)
(** * A database over a text index

    Insertion, batches, search and pages of results, proved for any index
    component that keeps the promises of [TextIndex]. Documents carry no id of
    their own, so the database makes the ids. *)

From Stdlib Require Import SpecFloat.
From stdpp Require Import pretty.
From S2P Require Import Prelude JSColl JSNum NumFacts Utils JSValue AVL Flat Levenshtein Radix BKD Vector PT15 Schema SchemaTheorems Store Tokenizer Index Where Sorter Database TextIndex.
Local Open Scope Z_scope.

(** ** Documents *)

(** The value of property [p] of document [v]. *)
Definition field (v : jsval) (p : jsstr) : jsval :=
  match v with JObj o => default JUndef (jm_get p o) | _ => JUndef end.

(** An object without an id whose declared properties are absent or texts. *)
Definition text_document (ps : list (jsstr * bool)) (v : jsval) : Prop :=
  (∃ o, v = JObj o) ∧ truthy (field v (js "id")) = false ∧
  ∀ p b, (p, b) ∈ ps → field v p = JUndef ∨ text_value b (field v p).

#[global] Instance undefined_dec (v : jsval) : Decision (v = JUndef).
Proof. by destruct v; (by left) || right. Defined.

Section documents.
Context (ps : list (jsstr * bool)) (Hps : plain_names ps).

Lemma field_get v p : text_document ps v → get_prop v p = Ok (field v p).
Proof. by intros [[o ->] _]. Qed.

Lemma check_text p b v : text_value b v → check_prop p v (SType (text_type b)) = Ok None.
Proof.
  destruct b; intros [x ->]; [|reflexivity].
  assert (first_bad (λ v, bool_decide (typeof v = "string")) 0 (JStr <$> x) = None) as Hf.
  { apply first_bad_none, Forall_fmap, Forall_true. done. }
  change (check_prop p (JArr (JStr <$> x)) (SType (text_type true))) with
    (Ok ((λ i, p ++ dot :: nat_str i) <$> first_bad (λ v, bool_decide (typeof v = "string")) 0 (JStr <$> x))).
  by rewrite Hf.
Qed.

Lemma text_document_valid v : text_document ps v → validateSchema v (text_schema ps) = Ok None.
Proof.
  intros Hv. assert (∀ p b, (p, b) ∈ ps → field v p = JUndef ∨ text_value b (field v p)) as Hf by apply Hv.
  unfold text_schema. clear Hps. induction ps as [|[p b] l IH]; [done|].
  rewrite fmap_cons. cbn [validateSchema fst snd].
  assert (get_prop v p = Ok (field v p)) as -> by (by destruct Hv as [[o ->] _]). cbn [mbind result_mbind].
  destruct (Hf p b) as [Hu|Ht]; [by left| |].
  - rewrite Hu. cbn [mbind result_mbind]. apply IH; [|intros; apply Hf; by right].
    destruct Hv as (? & ? & _). split_and!; [done..|]. intros; apply Hf; by right.
  - assert (∀ k : result (option jsstr), (match field v p with JUndef => Ok None | _ => k end) = k) as Hm.
    { intros k. destruct b, Ht as [? ->]; done. }
    rewrite Hm, check_text by done. cbn [mbind result_mbind]. apply IH; [|intros; apply Hf; by right].
    destruct Hv as (? & ? & _). split_and!; [done..|]. intros; apply Hf; by right.
Qed.

Lemma plain_split p : dot ∉ p → split_on dot p = [p].
Proof. intros. by apply (split_join dot [p]); [done|constructor]. Qed.

Lemma walk_field v p b : text_document ps v → (p, b) ∈ ps → walk_path v (split_on dot p) = Ok (field v p).
Proof.
  intros Hv Hp. destruct Hps as [_ Hall]. rewrite plain_split.
  2:{ rewrite Forall_forall in Hall. apply (Hall p). apply list_elem_of_fmap. by exists (p, b). }
  cbn [walk_path]. rewrite field_get by done. cbn [mbind result_mbind].
  destruct Hv as (_ & _ & Hf). destruct (Hf p b Hp) as [->|Ht]; [done|]. destruct b, Ht as [? ->]; done.
Qed.

(** The properties taken out of a text document. *)
Lemma collect_fields v t n :
  text_document ps v → (∀ p, p ∈ t → p ∈ ps.*1) → jm_wf n →
  ∃ n', collect_properties v t n = Ok n' ∧ jm_wf n' ∧
    ∀ p, jm_get p n' = if decide (p ∈ t ∧ field v p ≠ JUndef) then Some (field v p) else jm_get p n.
Proof.
  intros Hv. revert n. induction t as [|q t IH]; intros n Ht Hn.
  { exists n. split_and!; [done..|]. intros p. rewrite decide_False; [done|]. intros [Hin _]. by apply elem_of_nil in Hin. }
  cbn [collect_properties]. destruct (proj1 (list_elem_of_fmap _ _ _) (Ht q ltac:(by left))) as ([q' b] & -> & Hq).
  cbn [fst]. rewrite (walk_field v q' b) by done. cbn [mbind result_mbind].
  set (n1 := match field v q' with JUndef => n | _ => jm_set q' (field v q') n end).
  assert (jm_wf n1 ∧ ∀ p, jm_get p n1 = if decide (p = q' ∧ field v p ≠ JUndef) then Some (field v p) else jm_get p n) as [Hw1 Hg1].
  { destruct (decide (field v q' = JUndef)) as [Hu|Hu].
    - subst n1. rewrite Hu. split; [done|]. intros p. by rewrite decide_False by naive_solver.
    - assert (n1 = jm_set q' (field v q') n) as -> by (subst n1; by destruct (field v q')).
      split; [by apply jm_wf_set|]. intros p. rewrite jm_get_set.
      destruct (decide (p = q')) as [->|]; [by rewrite decide_True|by rewrite decide_False by naive_solver]. }
  destruct (IH n1) as (n' & -> & Hw & Hg); [intros; apply Ht; by right|done|].
  exists n'. split_and!; [done..|]. intros p. rewrite Hg, Hg1.
  repeat case_decide; try done; exfalso; rewrite elem_of_cons in *; naive_solver.
Qed.

Lemma check_collected v f n :
  text_document ps v → (∀ p b, (p, b) ∈ ps → jm_get p f = Some (text_type b)) →
  (∀ p x, (p, x) ∈ n → p ∈ ps.*1 ∧ x = field v p ∧ x ≠ JUndef) → check_properties f n = Ok tt.
Proof.
  intros Hv Hf Hn. induction n as [|[p x] n IH]; [done|]. cbn [check_properties].
  destruct (Hn p x) as (Hp & -> & Hu); [by left|]. apply list_elem_of_fmap in Hp as ([p' b] & -> & Hp). cbn [fst] in *.
  rewrite (Hf p' b) by done. cbn [from_option id].
  assert (validateDocumentProperty (typeof (field v p')) (text_type b) p' (field v p') = Ok tt) as ->.
  { destruct Hv as (_ & _ & Hv). destruct (Hv p' b Hp) as [?|Ht]; [done|]. destruct b, Ht as [? ->]; done. }
  cbn [mbind result_mbind]. apply IH. intros; apply Hn; by right.
Qed.
End documents.

(** ** Ranking *)

(** [a] may come before [b] in the results: by score, highest first, then by
    id. *)
Definition ranked (a b : Z * number) : Prop :=
  ltb b.2 a.2 = true ∨ (eqb a.2 b.2 = true ∧ a.1 ≤ b.1).

Section ranking.
Implicit Types (a b c : Z * number).
Abbreviation num_of x := (Num x.2 (nonneg_not_nan x.2 ltac:(assumption))).

Lemma predicate_ranked a b : nonneg a.2 → nonneg b.2 → sortTokenScorePredicate a b = true ↔ ranked a b.
Proof.
  intros Ha Hb. unfold sortTokenScorePredicate, ranked. rewrite sub_sign by done.
  change (eqb b.2 a.2) with (eqb (K:=num) (num_of b) (num_of a)). change (eqb a.2 b.2) with (eqb (K:=num) (num_of a) (num_of b)).
  change (ltb a.2 b.2) with (ltb (K:=num) (num_of a) (num_of b)). change (ltb b.2 a.2) with (ltb (K:=num) (num_of b) (num_of a)).
  rewrite (eqb_sym (num_of b)). destruct (eqb (K:=num) (num_of a) (num_of b)) eqn:He.
  - rewrite eqb_spec in He. apply andb_true_iff in He as [_ He]. apply negb_true_iff in He. rewrite He, Z.leb_le. naive_solver.
  - rewrite eqb_spec in He. destruct (ltb (K:=num) (num_of a) (num_of b)) eqn:H1, (ltb (K:=num) (num_of b) (num_of a)) eqn:H2; try done.
    + apply ltb_asym in H1. congruence.
    + split; [done|]. intros [?|[? _]]; done.
    + split; [by left|done].
Qed.

Lemma ranked_total a b : nonneg a.2 → nonneg b.2 → ranked a b ∨ ranked b a.
Proof.
  intros Ha Hb. unfold ranked.
  change (eqb b.2 a.2) with (eqb (K:=num) (num_of b) (num_of a)). change (eqb a.2 b.2) with (eqb (K:=num) (num_of a) (num_of b)).
  change (ltb a.2 b.2) with (ltb (K:=num) (num_of a) (num_of b)). change (ltb b.2 a.2) with (ltb (K:=num) (num_of b) (num_of a)).
  rewrite !eqb_spec.
  destruct (ltb (K:=num) (num_of a) (num_of b)) eqn:H1, (ltb (K:=num) (num_of b) (num_of a)) eqn:H2; auto.
  destruct (Z.le_ge_cases a.1 b.1); auto.
Qed.

Lemma ranked_trans a b c : nonneg a.2 → nonneg b.2 → nonneg c.2 → ranked a b → ranked b c → ranked a c.
Proof.
  intros Ha Hb Hc. unfold ranked.
  change (ltb b.2 a.2) with (ltb (K:=num) (num_of b) (num_of a)). change (ltb c.2 a.2) with (ltb (K:=num) (num_of c) (num_of a)).
  change (ltb c.2 b.2) with (ltb (K:=num) (num_of c) (num_of b)). change (eqb a.2 b.2) with (eqb (K:=num) (num_of a) (num_of b)).
  change (eqb b.2 c.2) with (eqb (K:=num) (num_of b) (num_of c)). change (eqb a.2 c.2) with (eqb (K:=num) (num_of a) (num_of c)).
  intros [Hab|[Hab Hi]] [Hbc|[Hbc Hj]].
  - left. by eapply ltb_trans.
  - left. by rewrite <-(ltb_eqb_l _ _ _ Hbc).
  - left. by rewrite (ltb_eqb_r _ _ _ Hab).
  - right. split; [by eapply eqb_trans|lia].
Qed.

(** Sorting by the comparator ranks the results. *)
Lemma sort_ranked (l : scores) : scores_ok l → StronglySorted ranked (js_sort sortTokenScorePredicate l).
Proof.
  intros Hl. pose proof (js_sort_sorted_on sortTokenScorePredicate (λ x, nonneg x.2)) as Hs.
  assert (StronglySorted (λ a b, sortTokenScorePredicate a b = true) (js_sort sortTokenScorePredicate l)) as Hsort.
  { apply Hs; [..|done].
    - intros a b Ha Hb. rewrite !predicate_ranked by done. by apply ranked_total.
    - intros a b c Ha Hb Hc. rewrite !predicate_ranked by done. by apply ranked_trans. }
  assert (Forall (λ x, nonneg x.2) (js_sort sortTokenScorePredicate l)) as Hok by by rewrite js_sort_perm.
  induction Hsort as [|a l' Hl' IH Hall]; [constructor|]. apply Forall_cons in Hok as [Ha Hok].
  constructor; [by apply IH|]. rewrite Forall_forall in *. intros b Hb. apply predicate_ranked; auto.
Qed.
End ranking.

(** ** The database *)
Section database.
Context (toLowerCase : jsstr → jsstr) (is_sep : jsstr → N → bool) (tk : tokenizer).
Context (ps : list (jsstr * bool)) (Hps : plain_names ps).
Context (ic : index_component) (Rep : ist → words → Prop) `{!TextIndex toLowerCase is_sep tk ic ps Rep}.
Context (uid : jsstr).

(** What is filed after the documents [ds], numbered from 1. *)
Definition filed (ds : list jsval) : words := λ p d,
  if decide (p ∈ ps.*1 ∧ 1 ≤ d) then
    match ds !! Z.to_nat (d - 1) with
    | Some v => value_words toLowerCase is_sep tk p (field v p)
    | None => []
    end
  else [].

Definition made_id (c : nat) : jsstr := (uniqueId uid c).1.

(** What the sorter must know for inserting. *)
Definition sorting_ok (s : sorter) : Prop :=
  ∀ p, p ∈ getSortableProperties s → p ∈ ps.*1 ∧ is_Some (jm_get p (sorts s)).

(** The database holds the documents [ds]; [c] is the counter it started from. *)
Record db_rep (c : nat) (e : db) (ds : list jsval) : Prop := {
  dr_schema : db_schema e = text_schema ps;
  dr_index : Rep (db_ist e) (filed ds);
  dr_ids : ids_wf (st_ids (db_ist e));
  dr_names : internalIdToId (st_ids (db_ist e)) = (λ k, made_id (c + k)) <$> seq 0 (length ds);
  dr_docs : ∀ z, docs_map (db_docs e) !! z = if decide (1 ≤ z) then ds !! Z.to_nat (z - 1) else None;
  dr_count : docs_count (db_docs e) = Z.of_nat (length ds);
  dr_counter : db_counter e = (c + length ds)%nat;
  dr_sorting : sorting_ok (db_sorting e);
  dr_cached : db_props e = None ∨ db_props e = Some ps.*1;
}.


Lemma made_id_inj c c' : made_id c = made_id c' → c = c'.
Proof.
  unfold made_id, uniqueId, nat_str. cbn [fst]. intros [=Hs]%(app_inv_head uid). apply js_inj in Hs.
  by apply (inj pretty) in Hs.
Qed.

Lemma made_id_truthy c : made_id c ≠ [].
Proof. unfold made_id, uniqueId. cbn [fst]. by destruct uid. Qed.

(** [V] on an id that has a number. *)
Lemma m_intern_known a z e :
  ids_wf (st_ids (db_ist e)) → 1 ≤ z → internalIdToId (st_ids (db_ist e)) !! Z.to_nat (z - 1) = Some a →
  m_intern (RefStr a) e = (e, Ok z).
Proof.
  intros Hwf Hz Ha. unfold m_intern. cbn [getInternalDocumentId].
  destruct (intern_cases (st_ids (db_ist e)) a Hwf) as [(k & Hk & ->)|[Hni _]].
  - assert (k = Z.to_nat (z - 1)) as ->.
    { destruct Hwf as [Hnd _]. by eapply NoDup_lookup. }
    rewrite Z2Nat.id by lia. replace (z - 1 + 1) with z by lia. by destruct e as [? [] ? ? ? ?].
  - destruct Hni. by eapply list_elem_of_lookup_2.
Qed.

Definition file_words (F : words) (r : list (jsstr * jsval)) (z : Z) (n : list jsstr) : words := λ p d,
  if decide (p ∈ n ∧ d = z) then F p d ++ value_words toLowerCase is_sep tk p (default JUndef (jm_get p r)) else F p d.

(** The loop that files the properties of a document. *)
Lemma index_properties_run a z r count threshold n e F :
  Rep (db_ist e) F → ids_wf (st_ids (db_ist e)) → 1 ≤ z →
  internalIdToId (st_ids (db_ist e)) !! Z.to_nat (z - 1) = Some a →
  NoDup n → (∀ p, p ∈ n → p ∈ ps.*1) →
  (∀ p b v, (p, b) ∈ ps → jm_get p r = Some v → text_value b v) →
  ∃ s, index_properties ic a r count None threshold n e = (set_ist s e, Ok tt) ∧
    st_ids s = st_ids (db_ist e) ∧ Rep s (file_words F r z n).
Proof.
  intros HF Hwf Hz Ha Hnd Hn Hr. revert e F HF Hwf Ha Hnd. induction n as [|p n IH]; intros e F HF Hwf Ha Hnd.
  { exists (db_ist e). cbn [index_properties]. split_and!; [by destruct e|done|].
    apply (ti_ext _ F); [|done]. intros p d. unfold file_words. rewrite decide_False; [done|].
    intros [Hin _]. by apply elem_of_nil in Hin. }
  apply NoDup_cons in Hnd as [Hpn Hnd]. cbn [index_properties].
  destruct (jm_get p r) as [v|] eqn:Hv.
  - destruct (proj1 (list_elem_of_fmap _ _ _) (Hn p ltac:(by left))) as ([p' b] & -> & Hp). cbn [fst] in *.
    pose proof (Hr p' b v Hp Hv) as Ht.
    assert (∀ A (x y : A), match v with JUndef => x | _ => y end = y) as Hm by (intros; by destruct b, Ht as [? ->]).
    rewrite Hm. unfold mbind at 1, M_mbind, gets.
    destruct (ti_properties (db_ist e) F HF) as (_ & Hty & _). rewrite (Hty p' b Hp). cbn [from_option id].
    unfold mbind at 1, M_mbind. rewrite (m_intern_known a z) by done.
    unfold mbind at 1, M_mbind. unfold in_index at 1.
    destruct (ti_insert (db_ist e) F p' b z v count threshold HF Hp Ht) as (s & -> & Hi & Hs).
    destruct (IH ltac:(intros; apply Hn; by right) (set_ist s e) _ Hs) as (s' & -> & Hi' & Hs'); cbn [set_ist db_ist];
      [by rewrite Hi|by rewrite Hi|done|].
    exists s'. split_and!; [done|cbn [set_ist db_ist] in Hi'; congruence|]. refine (ti_ext _ _ _ _ Hs').
    intros q d. unfold file_words, add_words.
    destruct (decide (q = p' ∧ d = z)) as [[-> ->]|Hne].
    + rewrite decide_False by naive_solver. rewrite decide_True by (split; [by left|done]). by rewrite Hv.
    + repeat case_decide; try done; exfalso; rewrite elem_of_cons in *; naive_solver.
  - destruct (IH ltac:(intros; apply Hn; by right) e F HF Hwf Ha Hnd) as (s & -> & Hi & Hs).
    exists s. split_and!; [done..|]. refine (ti_ext _ _ _ _ Hs).
    intros q d. unfold file_words. destruct (decide (q = p)) as [->|Hne].
    + rewrite decide_False by naive_solver. case_decide; [|done]. rewrite Hv. unfold value_words. simpl.
      by rewrite app_nil_r.
    + repeat case_decide; try done; exfalso; rewrite elem_of_cons in *; naive_solver.
Qed.

(** The loop that hands the sortable properties to the sorter. *)
Lemma sort_properties_run a z r c e :
  ids_wf (st_ids (db_ist e)) → 1 ≤ z → internalIdToId (st_ids (db_ist e)) !! Z.to_nat (z - 1) = Some a →
  (∀ p, p ∈ c → is_Some (jm_get p (sorts (db_sorting e)))) →
  ∃ s, sort_properties a r c e = (set_sorting s e, Ok tt) ∧
    getSortableProperties s = getSortableProperties (db_sorting e) ∧
    ∀ p, is_Some (jm_get p (sorts (db_sorting e))) → is_Some (jm_get p (sorts s)).
Proof.
  intros Hwf Hz Ha. revert e Hwf Ha. induction c as [|p c IH]; intros e Hwf Ha Hc.
  { exists (db_sorting e). split_and!; [by destruct e|done|done]. }
  cbn [sort_properties]. assert (∀ q, q ∈ c → is_Some (jm_get q (sorts (db_sorting e)))) as Hc' by (intros; apply Hc; by right).
  assert (∃ s, sort_properties a r c e = (set_sorting s e, Ok tt) ∧
    getSortableProperties s = getSortableProperties (db_sorting e) ∧
    ∀ q, is_Some (jm_get q (sorts (db_sorting e))) → is_Some (jm_get q (sorts s))) as Hskip by by apply IH.
  assert (∀ v, ∃ s, sorter_insert p z v (db_sorting e) = Ok s ∧
    getSortableProperties s = getSortableProperties (db_sorting e) ∧
    ∀ q, is_Some (jm_get q (sorts (db_sorting e))) → is_Some (jm_get q (sorts s))) as Hins.
  { intros v. unfold sorter_insert. destruct (so_enabled (db_sorting e)) eqn:He; cbn [negb]; [|by eexists].
    destruct (Hc p ltac:(by left)) as [x Hx]. cbn [set_isSorted sorts]. rewrite Hx.
    set (e1 := set_isSorted false (db_sorting e)).
    set (e2 := if set_has z (orderedDocsToRemove x) then ensurePropertyIsRemoved p e1 else e1).
    assert (getSortableProperties e2 = getSortableProperties (db_sorting e) ∧ so_enabled e2 = true ∧
      is_Some (jm_get p (sorts e2)) ∧
      ∀ q, is_Some (jm_get q (sorts (db_sorting e))) → is_Some (jm_get q (sorts e2))) as (Hg & He2 & [y Hy] & Hk).
    { subst e2 e1. unfold ensurePropertyIsRemoved. cbn [set_isSorted sorts]. rewrite Hx.
      repeat case_match; (split_and!; [done|done| |]); cbn [set_sorts set_isSorted sorts]; try done; rewrite ?jm_get_set_eq; eauto.
      intros q Hq. rewrite jm_get_set. case_decide; eauto. }
    rewrite Hy. eexists. split_and!; [done| |].
    - unfold getSortableProperties in *. cbn [set_sorts so_enabled sortableProperties]. by rewrite Hg.
    - intros q Hq. cbn [set_sorts sorts]. rewrite jm_get_set. case_decide; eauto. }
  destruct (jm_get p r) as [v|]; [|done].
  assert (∃ s, (o ← m_intern (RefStr a); s ← gets db_sorting; s ← lift (sorter_insert p o v s);
     modify (set_sorting s);; sort_properties a r c) e = (set_sorting s e, Ok tt) ∧
    getSortableProperties s = getSortableProperties (db_sorting e) ∧
    ∀ q, is_Some (jm_get q (sorts (db_sorting e))) → is_Some (jm_get q (sorts s))) as Hput.
  { destruct (Hins v) as (s & Hs & Hg & Hk). unfold mbind, M_mbind, gets, lift, modify.
    rewrite (m_intern_known a z) by done. rewrite Hs.
    destruct (IH (set_sorting s e)) as (s' & Hrun & Hg' & Hk'); [done|done| |].
    { intros q Hq. cbn [set_sorting db_sorting]. by apply Hk, Hc'. }
    exists s'. cbn [set_sorting db_sorting] in *. rewrite Hrun. split_and!; [done|congruence|]. intros q Hq. by apply Hk', Hk. }
  destruct v; done.
Qed.

(** The id of a new document is new, and gets the next number. *)
Lemma m_intern_new c e ds :
  db_rep c e ds →
  ∃ i, m_intern (RefStr (made_id (c + length ds))) e =
         (set_ist (with_ids i (db_ist e)) e, Ok (Z.of_nat (length ds) + 1)) ∧
    ids_wf i ∧ internalIdToId i = (λ k, made_id (c + k)) <$> seq 0 (S (length ds)).
Proof.
  intros He. unfold m_intern. cbn [getInternalDocumentId].
  pose proof (intern_wf (st_ids (db_ist e)) (made_id (c + length ds)) (dr_ids _ _ _ He)) as Hwf.
  destruct (intern_cases (st_ids (db_ist e)) (made_id (c + length ds)) (dr_ids _ _ _ He)) as [(k & Hk & _)|[_ Hi]].
  - exfalso. rewrite (dr_names _ _ _ He), list_lookup_fmap in Hk.
    destruct (seq 0 (length ds) !! k) as [j|] eqn:Hj; [|done]. apply lookup_seq in Hj as [-> Hlt].
    simpl in Hk. injection Hk as Hk%made_id_inj. lia.
  - rewrite Hi in *. cbn [fst] in Hwf. eexists. split; [|split; [exact Hwf|]].
    + f_equal. f_equal. rewrite (dr_names _ _ _ He), length_fmap, length_seq. done.
    + cbn [internalIdToId]. rewrite (dr_names _ _ _ He), seq_S, fmap_app. done.
Qed.

Lemma filed_snoc ds v r p d :
  (∀ p, jm_get p r = if decide (p ∈ ps.*1 ∧ field v p ≠ JUndef) then Some (field v p) else None) →
  file_words (filed ds) r (Z.of_nat (length ds) + 1) ps.*1 p d = filed (ds ++ [v]) p d.
Proof.
  intros Hr. unfold file_words, filed. destruct (decide (p ∈ ps.*1)) as [Hp|Hp].
  2:{ by rewrite !decide_False by naive_solver. }
  destruct (decide (d = Z.of_nat (length ds) + 1)) as [->|Hd].
  - rewrite !decide_True by (split; [done|lia]).
    replace (Z.to_nat _) with (length ds) by lia. rewrite lookup_ge_None_2 by done. rewrite lookup_app_r, Nat.sub_diag by done.
    cbn [app]. change ([v] !! 0%nat) with (Some v). cbn iota. rewrite Hr. case_decide as Hu; [done|].
    assert (field v p = JUndef) as ->; [|done]. destruct (decide (field v p = JUndef)); naive_solver.
  - rewrite (decide_False (P := p ∈ ps.*1 ∧ d = _)) by naive_solver. case_decide as Hdec; [|done].
    destruct (decide (d ≤ Z.of_nat (length ds))).
    + rewrite lookup_app_l by lia. done.
    + rewrite !lookup_ge_None_2; [done|rewrite length_app; simpl; lia|lia].
Qed.

(** Indexing a stored document. *)
Lemma index_document_run e ds v a threshold :
  text_document ps v → Rep (db_ist e) (filed ds) → ids_wf (st_ids (db_ist e)) →
  internalIdToId (st_ids (db_ist e)) !! length ds = Some a → sorting_ok (db_sorting e) →
  ∃ s s', index_document ic v a None threshold e = (set_sorting s' (set_ist s e), Ok tt) ∧
    st_ids s = st_ids (db_ist e) ∧ Rep s (filed (ds ++ [v])) ∧ sorting_ok s'.
Proof.
  intros Hv Hrep Hwf Ha Hsort. unfold index_document. set (z := Z.of_nat (length ds) + 1).
  assert (1 ≤ z ∧ Z.to_nat (z - 1) = length ds) as [Hz Hzn] by lia. rewrite <-Hzn in Ha.
  unfold mbind at 1, M_mbind, gets at 1. unfold mbind at 1, M_mbind, gets at 1.
  destruct (ti_properties _ _ Hrep) as (Hsp & Hty & _). rewrite Hsp.
  unfold mbind at 1, M_mbind, gets at 1. unfold mbind at 1, M_mbind, lift at 1.
  destruct (collect_fields ps Hps v ps.*1 [] Hv) as (r & Hcol & Hrwf & Hr); [done|constructor|].
  unfold getDocumentProperties. rewrite Hcol.
  assert (∀ p x, jm_get p r = Some x → p ∈ ps.*1 ∧ x = field v p ∧ x ≠ JUndef) as Hrin.
  { intros p x. rewrite Hr. case_decide as Hd; [|done]. intros [= <-]. naive_solver. }
  unfold mbind at 1, M_mbind, lift at 1. rewrite (check_collected ps v); [|done|done|].
  2:{ intros p x Hin. apply Hrin. apply jm_get_elem; [done|]. by rewrite <-(obj_entries_perm r). }
  destruct (index_properties_run a z r (docs_count (db_docs e)) threshold ps.*1 e (filed ds) Hrep Hwf Hz Ha)
    as (s & Hrun & Hsi & Hs); [by destruct Hps|done|..].
  { intros p b x Hp Hx. destruct (Hrin p x Hx) as (_ & -> & Hu). destruct Hv as (_ & _ & Hv). by destruct (Hv p b Hp). }
  unfold mbind at 1, M_mbind. rewrite Hrun. unfold mbind at 1, M_mbind, gets at 1. unfold mbind at 1, M_mbind, lift at 1.
  set (e4 := set_ist s e). set (sp := getSortableProperties (db_sorting e4)).
  destruct (collect_fields ps Hps v sp [] Hv) as (r' & -> & _); [by intros p Hp; apply Hsort|constructor|].
  destruct (sort_properties_run a z r' sp e4) as (s' & -> & Hsg & Hsk);
    [change (st_ids (db_ist e4)) with (st_ids s); by rewrite Hsi|lia|
     change (st_ids (db_ist e4)) with (st_ids s); by rewrite Hsi|by intros p Hp; apply Hsort|].
  exists s, s'. split_and!; [done|done|refine (ti_ext _ _ _ _ Hs); intros; by apply filed_snoc|].
  intros p. rewrite Hsg. intros Hp. destruct (Hsort p Hp). split; [done|]. by apply Hsk.
Qed.

(** Inserting a text document always succeeds and files it after the others. *)
Lemma insert_run c e ds v threshold :
  db_rep c e ds → text_document ps v →
  ∃ e', insert ic uid v None threshold e = (e', Ok (made_id (c + length ds))) ∧ db_rep c e' (ds ++ [v]).
Proof.
  intros He Hv. unfold insert. set (a := made_id (c + length ds)).
  destruct (m_intern_new c e ds He) as (i & Hint & Hwf & Hnames). fold a in Hint.
  unfold mbind at 1, M_mbind, gets at 1. rewrite (dr_schema _ _ _ He).
  unfold mbind at 1, M_mbind, lift at 1. rewrite (text_document_valid ps v Hv).
  unfold mbind at 1, M_mbind, gets at 1. unfold mbind at 1, M_mbind, lift at 1.
  assert (getDocumentIndexId uid (db_counter e) v = Ok (a, S (db_counter e))) as ->.
  { unfold getDocumentIndexId. rewrite (field_get ps v) by done. cbn [mbind result_mbind].
    destruct Hv as (_ & -> & _). unfold a, made_id. rewrite <-(dr_counter _ _ _ He). done. }
  unfold mbind at 1, M_mbind, modify at 1. set (e1 := set_counter (S (db_counter e)) e).
  assert (m_intern (RefStr a) e1 = (set_ist (with_ids i (db_ist e)) e1, Ok (Z.of_nat (length ds) + 1))) as Hint1.
  { revert Hint. unfold m_intern. cbn [db_ist e1 set_counter].
    destruct (getInternalDocumentId _ _) as [i' n]. intros [= <- <-]. done. }
  unfold mbind at 1, M_mbind. rewrite Hint1. set (e2 := set_ist _ e1).
  unfold mbind at 1, M_mbind, gets at 1. unfold docs_store.
  cbn [e2 set_ist e1 set_counter db_docs]. rewrite (dr_docs _ _ _ He), decide_True by lia.
  replace (Z.to_nat _) with (length ds) by lia. rewrite lookup_ge_None_2 by done. cbn [snd fst negb].
  unfold mbind at 1, M_mbind, modify at 1. set (e3 := set_docs_store _ _).
  assert (∀ p, p ∈ getSortableProperties (db_sorting e3) → p ∈ ps.*1 ∧ is_Some (jm_get p (sorts (db_sorting e3)))) as Hso by apply He.
  destruct (index_document_run e3 ds v a threshold Hv) as (s & s' & Hrun & Hsi & Hs & Hs'); [|done| |done|].
  { subst e3. cbn [set_docs_store db_ist e1 set_counter]. apply ti_ids, (dr_index _ _ _ He). }
  { change (st_ids (db_ist e3)) with i. by rewrite Hnames, list_lookup_fmap, lookup_seq_lt by lia. }
  unfold mbind at 1, M_mbind. rewrite Hrun. eexists. split; [done|].
  split; cbn [set_sorting set_ist e3 set_docs_store e1 set_counter db_schema db_ist db_docs db_sorting db_props];
    rewrite ?Hsi; try done; try apply He.
  - change (st_ids (db_ist e3)) with i. rewrite Hnames, length_app. do 2 f_equal. simpl. lia.
  - intros z. cbn [docs_map]. destruct (decide (z = Z.of_nat (length ds) + 1)) as [->|Hne].
    + rewrite lookup_insert_eq, decide_True by lia. replace (Z.to_nat _) with (length ds) by lia.
      by rewrite lookup_app_r, Nat.sub_diag by done.
    + rewrite lookup_insert_ne by done. rewrite (dr_docs _ _ _ He). case_decide; [|done].
      destruct (decide (z ≤ Z.of_nat (length ds))); [by rewrite lookup_app_l by lia|].
      rewrite !lookup_ge_None_2; [done|rewrite length_app; simpl; lia|lia].
  - cbn [docs_count]. rewrite (dr_count _ _ _ He), length_app. simpl. lia.
  - change (S (db_counter e) = (c + length (ds ++ [v]))%nat). rewrite (dr_counter _ _ _ He), length_app. simpl. lia.
Qed.

(** ** Batches *)
Definition made_ids (c : nat) (n : nat) : list jsstr := (λ k, made_id (c + k)) <$> seq 0 n.

Lemma made_ids_app c n m : made_ids c (n + m) = made_ids c n ++ made_ids (c + n) m.
Proof.
  unfold made_ids. rewrite seq_app, fmap_app. f_equal.
  rewrite (Nat.add_comm 0 n), <-(fmap_add_seq n 0 m), <-list_fmap_compose.
  apply list_fmap_ext. intros ???. simpl. f_equal. lia.
Qed.

Lemma insert_batch_run c e ds l threshold :
  db_rep c e ds → Forall (text_document ps) l →
  ∃ e', insert_batch ic uid l None threshold e = (e', Ok (made_ids (c + length ds) (length l))) ∧ db_rep c e' (ds ++ l).
Proof.
  intros He Hl. revert e ds He. induction Hl as [|v l Hv Hl IH]; intros e ds He.
  { exists e. rewrite app_nil_r. done. }
  cbn [insert_batch]. destruct (insert_run c e ds v threshold He Hv) as (e1 & H1 & He1).
  destruct (IH e1 _ He1) as (e2 & H2 & He2). unfold mbind, M_mbind. rewrite H1, H2.
  exists e2. split; [|by rewrite <-(assoc_L (++)) in He2].
  assert (made_ids (c + length ds) (length (v :: l)) =
    made_id (c + length ds) :: made_ids (c + length (ds ++ [v])) (length l)) as ->; [|done].
  change (length (v :: l)) with (1 + length l)%nat. rewrite made_ids_app. unfold made_ids at 1. cbn [seq].
  rewrite length_app. change (length [v]) with 1%nat. rewrite Nat.add_assoc. by rewrite fmap_cons, Nat.add_0_r.
Qed.

Lemma insert_batches_run fuel n a c e ds l :
  (0 < n)%nat → (length l < fuel + a * n)%nat → db_rep c e ds → Forall (text_document ps) l →
  ∃ e', insert_batches ic uid fuel n a l None e =
      (e', Ok (made_ids (c + length ds) (length (drop (a * n) l)))) ∧ db_rep c e' (ds ++ drop (a * n) l).
Proof.
  intros Hn Hf He Hl. revert a e ds Hf He. induction fuel as [|fuel IH]; intros a e ds Hf He; cbn [insert_batches].
  { rewrite drop_ge by lia. exists e. rewrite app_nil_r. done. }
  set (s := take n (drop (a * n) l)). destruct (Nat.eqb_spec (length s) 0) as [Hs|Hs].
  { assert (drop (a * n) l = []) as ->.
    { apply nil_length_inv. unfold s in Hs. rewrite length_take in Hs. lia. }
    exists e. rewrite app_nil_r. done. }
  assert (drop (a * n) l = s ++ drop (S a * n) l) as Hsplit.
  { unfold s. replace (S a * n)%nat with (a * n + n)%nat by lia. by rewrite <-drop_drop, take_drop. }
  assert (Forall (text_document ps) s) as Hsl by (by apply Forall_take, Forall_drop).
  destruct (insert_batch_run c e ds s (Z.of_nat (length s)) He Hsl) as (e1 & H1 & He1).
  destruct (IH (S a) e1 (ds ++ s)) as (e2 & H2 & He2); [lia|done|].
  unfold mbind, M_mbind. rewrite H1, H2. exists e2. rewrite Hsplit, (length_app s), made_ids_app, (assoc_L (++)). split; [|done].
  by rewrite (length_app ds), Nat.add_assoc.
Qed.

(** ** Creation *)
Lemma sorter_entries_run lang l r :
  (∀ p, p ∈ sortableProperties r → is_Some (jm_get p (sorts r))) →
  ∃ s, sorter_entries lang (text_schema l) [] r = Ok s ∧ so_enabled s = so_enabled r ∧
    ∀ p, p ∈ sortableProperties s →
      (p ∈ sortableProperties r ∨ p ∈ l.*1) ∧ is_Some (jm_get p (sorts s)).
Proof.
  revert r. induction l as [|[p b] l IH]; intros r Hr.
  { exists r. split_and!; [done..|]. intros q Hq. split; [by left|by apply Hr]. }
  unfold text_schema. rewrite fmap_cons. fold (text_schema l). cbn [sorter_entries sorter_entry fst snd sorter_path].
  rewrite bool_decide_eq_false_2 by apply not_elem_of_nil.
  destruct b.
  - change (sorter_property p (text_type true) r) with (Ok r : result sorter). cbn [mbind result_mbind].
    destruct (IH r Hr) as (s & -> & He & Hs). exists s. split_and!; [done..|]. intros q Hq.
    destruct (Hs q Hq) as [[?|?] ?]; (split; [|done]); [by left|right; rewrite fmap_cons; by right].
  - set (r1 := Sorter (so_language r) (so_enabled r) (isSorted r) (sortableProperties r ++ [p])
      (jm_set p (text_type false) (sortablePropertiesWithTypes r)) (jm_set p (SortData [] [] [] (text_type false)) (sorts r))).
    change (sorter_property p (text_type false) r) with (Ok r1). cbn [mbind result_mbind].
    destruct (IH r1) as (s & -> & He & Hs).
    { cbn [r1 sortableProperties sorts]. intros q. rewrite elem_of_app, list_elem_of_singleton, jm_get_set.
      intros [Hq| ->]; [|by rewrite decide_True]. case_decide; [by eauto|by apply Hr]. }
    exists s. split_and!; [done..|]. intros q Hq. destruct (Hs q Hq) as [[Hq'|?] ?]; (split; [|done]).
    + cbn [r1 sortableProperties] in Hq'. rewrite elem_of_app, list_elem_of_singleton in Hq'.
      rewrite fmap_cons, elem_of_cons. naive_solver.
    + right. rewrite fmap_cons. by right.
Qed.

Lemma create_run c lang :
  ∃ e, create_db ic c (text_schema ps) lang true [] = Ok e ∧ db_rep c e [].
Proof.
  unfold create_db. destruct ti_create as (i & -> & Hi). cbn [mbind result_mbind].
  unfold sorter_create. destruct (sorter_entries_run lang ps (new_sorter lang)) as (s & -> & He & Hs).
  { intros p Hp. by apply elem_of_nil in Hp. }
  cbn [mbind result_mbind]. eexists. split; [done|]. split; cbn [db_schema db_ist db_docs db_sorting db_counter db_props st_ids]; try done.
  - refine (ti_ext _ _ _ _ Hi). intros p d. unfold filed, no_words. case_decide; [|done]. by rewrite lookup_nil.
  - by split; [constructor|].
  - intros z. cbn [docs_map new_docs]. rewrite lookup_empty. case_decide; [by rewrite lookup_nil|done].
  - intros p Hp. unfold getSortableProperties in Hp. cbn [new_sorter so_enabled] in He. rewrite He in Hp.
    destruct (Hs p Hp) as [[Hin|?] ?]; [by apply elem_of_nil in Hin|done].
  - by left.
Qed.

(** ** Search *)

(** A query of texts: a term over all properties, no filters. *)
Record text_query (t : search_params) : Prop := {
  tq_properties : sp_properties t = None;
  tq_star : sp_star t = true;
  tq_where : sp_where t = [];
  tq_exact : sp_exact t = false;
  tq_tolerance : sp_tolerance t = 0;
  tq_boost : weights (sp_boost t);
}.

(** The documents that match. *)
Definition found (ds : list jsval) (term : jsstr) : Z → Prop :=
  matches (filed ds) ps.*1 (tokens_of toLowerCase is_sep tk [] term).

Lemma found_bound ds term d : found ds term d → 1 ≤ d ≤ Z.of_nat (length ds).
Proof.
  intros (p & e & n & _ & _ & _ & Hn & _). unfold filed in Hn. case_decide as Hd; [|by apply elem_of_nil in Hn].
  destruct Hd as [_ Hd]. destruct (ds !! Z.to_nat (d - 1)) as [v|] eqn:Hv; [|by apply elem_of_nil in Hn].
  apply lookup_lt_Some in Hv. lia.
Qed.

Lemma text_properties_filter s F :
  Rep s F →
  List.filter (λ p, startsWith (default [] (jm_get p (searchablePropertiesWithTypes (st_index s)))) (js "string"))
    (searchableProperties (st_index s)) = ps.*1.
Proof.
  intros Hs. destruct (ti_properties s F Hs) as (-> & Hty & _).
  assert (∀ l, (∀ p, p ∈ l → p ∈ ps.*1) → List.filter (λ p, startsWith (default [] (jm_get p
    (searchablePropertiesWithTypes (st_index s)))) (js "string")) l = l) as Hf; [|by apply Hf].
  induction l as [|p l IH]; intros Hl; [done|]. cbn [List.filter].
  destruct (proj1 (list_elem_of_fmap _ _ _) (Hl p ltac:(by left))) as ([q b] & -> & Hq). cbn [fst].
  rewrite (Hty q b Hq). cbn [from_option id].
  assert (startsWith (text_type b) (js "string") = true) as -> by by destruct b. f_equal. apply IH. intros; apply Hl; by right.
Qed.

Lemma properties_run c e ds :
  db_rep c e ds → ∃ e', properties_to_search e = (e', Ok ps.*1) ∧ db_rep c e' ds ∧ db_ist e' = db_ist e.
Proof.
  intros He. unfold properties_to_search, mbind, M_mbind, gets.
  destruct (dr_cached _ _ _ He) as [Hc|Hc]; rewrite Hc.
  - rewrite (text_properties_filter _ _ (dr_index _ _ _ He)). unfold modify. eexists. split; [done|].
    split; [|done]. destruct He. split; try done. by right.
  - by exists e.
Qed.

Lemma inner_search_run c e ds t :
  db_rep c e ds → ps ≠ [] → text_query t →
  ∃ e' l, innerFullTextSearch ic t None e = (e', Ok l) ∧ db_rep c e' ds ∧ jm_wf l ∧ scores_ok l ∧
    (∀ d, is_Some (jm_get d l) ↔ found ds (sp_term t) d) ∧
    (ic_search ic (sp_term t) None ps.*1 false 0 (sp_boost t) (sp_relevance t) (Z.of_nat (length ds)) None
      (default (num_of_Z 1) (sp_threshold t)) (db_ist e)).2 = Ok l.
Proof.
  intros He Hne Ht. unfold innerFullTextSearch.
  destruct (properties_run c e ds He) as (e1 & H1 & He1 & Hi1).
  unfold mbind at 1, M_mbind. rewrite H1, (tq_properties _ Ht). unfold mbind at 1, M_mbind. unfold mret at 1, M_mret at 1.
  unfold mbind at 1, M_mbind. rewrite (tq_where _ Ht). cbn [length Nat.ltb Nat.leb]. unfold mret at 1, M_mret at 1.
  rewrite (tq_star _ Ht), orb_true_r. cbn [orb]. unfold mbind, M_mbind, gets. unfold in_index.
  rewrite (tq_exact _ Ht), (tq_tolerance _ Ht).
  destruct (ti_search (db_ist e1) (filed ds) (sp_term t) ps.*1 (sp_boost t) (sp_relevance t) (docs_count (db_docs e1))
    (default (num_of_Z 1) (sp_threshold t))) as (s & l & Hrun & Hids & Hs & Hwf & Hok & Hdom);
    [apply He1|by destruct ps|done|apply Ht|].
  rewrite Hrun. exists (set_ist s e1), l. split_and!; [done| |done|done|done|].
  2:{ by rewrite <-Hi1, <-(dr_count _ _ _ He1), Hrun. }
  destruct He1. split; cbn [set_ist db_schema db_ist db_docs db_sorting db_counter db_props]; rewrite ?Hids; done.
Qed.

(** The page of results read from the store. *)
Definition hit_of (c : nat) (ds : list jsval) (x : Z * number) : found_doc :=
  FoundDoc (Some (made_id (c + Z.to_nat (x.1 - 1)))) x.2 (ds !! Z.to_nat (x.1 - 1)).

Lemma fetch_run c e ds l seen :
  db_rep c e ds → NoDup l.*1 → (∀ d, d ∈ l.*1 → 1 ≤ d ≤ Z.of_nat (length ds) ∧ d ∉ seen) →
  fetchDocuments l seen e = (e, Ok (hit_of c ds <$> l)).
Proof.
  intros He. revert seen. induction l as [|[d x] l IH]; intros seen Hnd Hl; [done|].
  rewrite fmap_cons in Hnd, Hl. cbn [fst] in Hnd, Hl. apply NoDup_cons in Hnd as [Hdl Hnd].
  destruct (Hl d ltac:(by left)) as [Hd Hseen]. cbn [fetchDocuments].
  assert (set_has d seen = false) as ->.
  { destruct (set_has d seen) eqn:Hb; [|done]. by apply set_has_spec in Hb. }
  assert (length (internalIdToId (st_ids (db_ist e))) = length ds) as Hlen.
  { by rewrite (dr_names _ _ _ He), length_fmap, length_seq. }
  assert (m_get_doc (RefNum d) e = (e, Ok (ds !! Z.to_nat (d - 1)))) as Hget.
  { unfold m_get_doc, mbind, M_mbind, m_intern. cbn [getInternalDocumentId]. rewrite Hlen.
    rewrite (proj2 (Z.ltb_ge _ d)) by lia. unfold gets. cbn [set_ist db_docs].
    rewrite (dr_docs _ _ _ He), decide_True by lia. by destruct e as [? [] ? ? ? ?]. }
  unfold mbind at 1, M_mbind. rewrite Hget. unfold mbind at 1, M_mbind, gets at 1.
  unfold mbind at 1, M_mbind, lift at 1. unfold getDocumentIdFromInternalId. rewrite Hlen.
  rewrite (proj2 (Z.ltb_ge _ d)), (proj2 (Z.ltb_ge _ 0)) by lia.
  assert (internalIdToId (st_ids (db_ist e)) !! Z.to_nat (d - 1) = Some (made_id (c + Z.to_nat (d - 1)))) as Hid.
  { rewrite (dr_names _ _ _ He), list_lookup_fmap, lookup_seq_lt by lia. done. }
  rewrite Hid. unfold mbind at 1, M_mbind. rewrite IH; [done|done|].
  intros d' Hd'. destruct (Hl d' ltac:(by right)) as [? ?]. split; [done|]. rewrite elem_of_set_add. naive_solver.
Qed.

Lemma js_sort_keys (l : scores) : (js_sort sortTokenScorePredicate l).*1 ≡ₚ l.*1.
Proof. by rewrite js_sort_perm. Qed.

Lemma copy_hits c ds (l : list (Z * number)) :
  (∀ d, d ∈ l.*1 → 1 ≤ d ≤ Z.of_nat (length ds)) → copy_document <$> (hit_of c ds <$> l) = hit_of c ds <$> l.
Proof.
  intros Hl. rewrite <-list_fmap_compose. apply list_fmap_ext. intros i [d x] Hd. cbn. unfold copy_document, hit_of. cbn [fd_document fd_id fd_score fst snd].
  destruct (lookup_lt_is_Some_2 ds (Z.to_nat (d - 1))) as [v Hv]; [|by rewrite Hv].
  assert (1 ≤ d ≤ Z.of_nat (length ds)); [|lia]. apply Hl, list_elem_of_fmap. exists (d, x). split; [done|]. by eapply list_elem_of_lookup_2.
Qed.

(** The same query for another page. *)
Definition with_page (limit offset : nat) (t : search_params) : search_params :=
  SearchParams (sp_term t) (sp_properties t) (sp_star t) (sp_where t) (sp_exact t) (sp_tolerance t) (sp_boost t)
    (sp_relevance t) (sp_threshold t) (sp_sortBy t) limit offset (sp_includeVectors t) (sp_preflight t).

(** The ranking the scores [l] found give, and the page cut out of it. *)
Definition ranking_of (l : scores) : scores := js_sort sortTokenScorePredicate l.

Lemma rank_spec l t ds :
  jm_wf l → scores_ok l → (∀ d, is_Some (jm_get d l) ↔ found ds t d) →
  NoDup (ranking_of l).*1 ∧ StronglySorted ranked (ranking_of l) ∧ ∀ d, d ∈ (ranking_of l).*1 ↔ found ds t d.
Proof.
  intros Hwf Hok Hdom. pose proof (js_sort_keys l) as Hk. fold (ranking_of l) in Hk.
  split_and!; [by rewrite Hk|by apply sort_ranked|]. intros d. by rewrite Hk, <-jm_get_is_Some.
Qed.

Lemma page_run localeCompare c e e1 ds t l limit offset :
  db_rep c e ds → innerFullTextSearch ic t None e = (e1, Ok l) → db_rep c e1 ds → sp_sortBy t = None → sp_preflight t = false →
  jm_wf l → scores_ok l → (∀ d, is_Some (jm_get d l) ↔ found ds (sp_term t) d) →
  fullTextSearch ic localeCompare (with_page limit offset t) None e =
    (e1, Ok (hit_of c ds <$> take limit (drop offset (ranking_of l)), length (ranking_of l))).
Proof.
  intros He Hl He1 Hsort Hpre Hwf Hok Hdom.
  destruct (ti_properties _ _ (dr_index _ _ _ He)) as (_ & _ & Hvec).
  destruct (rank_spec l (sp_term t) ds Hwf Hok Hdom) as (Hnd & _ & Hin).
  unfold fullTextSearch. unfold mbind at 1, M_mbind, gets at 1. rewrite Hvec. cbn [fmap list_fmap].
  change (innerFullTextSearch ic (with_page limit offset t)) with (innerFullTextSearch ic t).
  unfold mbind at 1, M_mbind. rewrite Hl. cbn [with_page sp_sortBy sp_preflight sp_limit sp_offset]. rewrite Hsort, Hpre.
  unfold mbind at 1, M_mbind. unfold mret at 1, M_mret at 1. fold (ranking_of l).
  set (page := take limit (drop offset (ranking_of l))).
  assert (page.*1 `sublist_of` (ranking_of l).*1) as Hsub.
  { apply (fmap_sublist fst). unfold page. etrans; [apply sublist_take|apply sublist_drop]. }
  unfold mbind at 1, M_mbind. rewrite (fetch_run c e1 ds page []); [|done|by eapply sublist_NoDup|].
  2:{ intros d Hd. split; [|apply not_elem_of_nil]. apply (found_bound _ (sp_term t)), Hin. by eapply elem_of_sublist. }
  cbn [length Nat.eqb]. rewrite (copy_hits c ds page).
  - by destruct (sp_includeVectors _).
  - intros d Hd. apply (found_bound _ (sp_term t)), Hin. by eapply elem_of_sublist.
Qed.

(** A query determines a ranking of the documents found; every page is cut out
    of it. *)
Lemma search_run localeCompare c e ds t :
  db_rep c e ds → ps ≠ [] → text_query t → sp_sortBy t = None → sp_preflight t = false →
  ∃ e' r, db_rep c e' ds ∧
    NoDup r.*1 ∧ StronglySorted ranked r ∧ (∀ d, d ∈ r.*1 ↔ found ds (sp_term t) d) ∧
    ∀ limit offset, fullTextSearch ic localeCompare (with_page limit offset t) None e =
      (e', Ok (hit_of c ds <$> take limit (drop offset r), length r)).
Proof.
  intros He Hne Ht Hsort Hpre.
  destruct (inner_search_run c e ds t He Hne Ht) as (e1 & l & Hl & He1 & Hwf & Hok & Hdom & _).
  destruct (rank_spec l (sp_term t) ds Hwf Hok Hdom) as (? & ? & ?).
  exists e1, (ranking_of l). split_and!; [done..|]. intros. by apply page_run.
Qed.
End database.
