(* ===== verification/Adapter.v ===== *)
(** * The search adapter of the site

    Functions [on]/[sn] (init) and [an]/[cn] (search) of search-orama.js, the
    transpiled search-orama-esm.mjs: the schema of the pages, the plugin pt15,
    the parameters of a query. The steps are in sequence: the database is
    created, filled without a pause, and announced; that the generators the
    functions are compiled to do the same is proved in AdapterGenerator.v. *)

From Stdlib Require Import SpecFloat.
From stdpp Require Import pretty.
From S2P Require Import Prelude JSColl JSNum Utils JSValue AVL Flat Levenshtein Radix BKD Vector PT15 Schema Store Tokenizer Index Where Sorter Database.
Local Open Scope Z_scope.

(** The supported languages. *)
Definition languages : list jsstr := js <$>
  ["arabic"; "armenian"; "bulgarian"; "danish"; "dutch"; "english"; "finnish"; "french"; "german";
   "greek"; "hungarian"; "indian"; "indonesian"; "irish"; "italian"; "lithuanian"; "nepali";
   "norwegian"; "portuguese"; "romanian"; "russian"; "serbian"; "slovenian"; "spanish"; "swedish";
   "tamil"; "turkish"; "ukrainian"; "sanskrit"].

(** Functions [pt] and [dt]: the tokenizer of a database created without one. *)
Definition tokenizer_for (lang : jsstr) : result tokenizer :=
  createTokenizer languages (TokenizerConfig lang None StemNone StopDefault [] [] false).

Definition pages_schema : schema :=
  [(js "title", SType (js "string")); (js "content", SType (js "string")); (js "uri", SType (js "string"));
   (js "breadcrumb", SType (js "string")); (js "description", SType (js "string")); (js "tags", SType (js "string[]"))].

(** Table [zt]. *)
Definition default_relevance : relevance := Relevance (num_dec 12 1) (num_dec 75 2) (num_dec 5 1).

(** The parameters of [search(term)]. *)
Definition adapter_params (term : jsstr) : search_params := {|
  sp_term := term;
  sp_properties := None; sp_star := true;
  sp_where := []; sp_exact := false; sp_tolerance := 0;
  sp_boost := [(js "tags", num_dec 18 1); (js "title", num_dec 15 1);
               (js "description", num_dec 13 1); (js "breadcrumb", num_dec 12 1)];
  sp_relevance := default_relevance;
  sp_threshold := Some num_zero;
  sp_sortBy := None;
  sp_limit := 99; sp_offset := 0;
  sp_includeVectors := false; sp_preflight := false;
|}.

(** What the script keeps: the database, and the flag it sets when the engine
    is ready; the interface's [executeInitialSearch] is called then. *)
Record adapter := Adapter { rn : option db; isSearchEngineReady : bool }.
Definition new_adapter : adapter := Adapter None false.
Definition set_rn v (a : adapter) : adapter := Adapter v (isSearchEngineReady a).
Definition set_ready v (a : adapter) : adapter := Adapter (rn a) v.

Definition with_db {A} (m : M db A) : M adapter A := λ a,
  match rn a with
  | None => (a, Throw TypeError)
  | Some e => let '(e, r) := m e in (set_rn (Some e) a, r)
  end.

(** A result of the search: the words to highlight and the page. *)
Record search_result := SearchResult { sr_matches : list jsstr; sr_page : option jsval }.

Definition space : N := 32.

(** The separators of the only language used. *)
Definition page_sep (lang : jsstr) : N → bool := english_sep.

Section adapter.
Context `{MathOps} (native : bool) (toLowerCase : jsstr → jsstr).
Context (uid : jsstr) (localeCompare : jsstr → jsstr → jsstr → Z).

(** [initIndex(index)]; [c] is the counter of ids when the script runs. *)
Definition init_index (c : nat) (t : list jsval) : M adapter unit :=
  tk ← lift (tokenizer_for (js "english"));
  let ic := pt15_index native toLowerCase page_sep tk in
  e ← lift (create_db ic c pages_schema (tk_language tk) true []);
  modify (set_rn (Some e));;
  with_db (insertMultiple ic uid t 1000 None);;
  modify (set_ready true).

(** [search(term)] *)
Definition search (t : jsstr) : M adapter (list search_result) :=
  tk ← lift (tokenizer_for (js "english"));
  n ← with_db (fullTextSearch (pt15_index native toLowerCase page_sep tk) localeCompare (adapter_params t) None);
  mret ((λ e, SearchResult (t :: split_on space t) (fd_document e)) <$> n.1).
End adapter.
