(* ===== verification/AdapterTheorems.v ===== *)
(** * Searching the pages of the site, end to end *)

From Stdlib Require Import SpecFloat.
From stdpp Require Import pretty.
From S2P Require Import Prelude JSColl JSNum NumFacts Utils JSValue AVL Flat Levenshtein Radix BKD Vector PT15 Schema SchemaTheorems Store Tokenizer BKDTheorems Index Where Sorter Database TextIndex DatabaseTheorems Adapter.
Local Open Scope Z_scope.

(** The properties of a page; [true]: an array of strings. *)
Definition page_properties : list (jsstr * bool) :=
  [(js "title", false); (js "content", false); (js "uri", false);
   (js "breadcrumb", false); (js "description", false); (js "tags", true)].

(** A page of the index the site generates: an object without an id. *)
Abbreviation page := (text_document page_properties).

Definition page_tokenizer : tokenizer := Tokenizer (js "english") None [] [] (Some []) false.

Lemma page_names : plain_names page_properties.
Proof.
  split.
  - apply (bool_decide_unpack _). vm_compute. done.
  - apply (bool_decide_unpack _). vm_compute. done.
Qed.

Lemma english_tokenizer : tokenizer_for (js "english") = Ok page_tokenizer.
Proof. vm_compute. reflexivity. Qed.

Lemma pages_text_schema : pages_schema = text_schema page_properties.
Proof. reflexivity. Qed.

Lemma adapter_weights term : weights (sp_boost (adapter_params term)).
Proof.
  assert (∀ l : list number, Forall (λ x, match x with
    | S754_finite false m e => canonical_mantissa prec emax m e | _ => false end = true) l → Forall weight l) as Hw.
  { intros l Hl. eapply Forall_impl; [exact Hl|]. intros [| | |[] m e]; try done. intros Hc.
    split; [|done]. constructor. by apply canonical_bool. }
  intros p x Hx. apply jm_get_Some_elem in Hx.
  assert (Forall weight (sp_boost (adapter_params term)).*2) as Hall.
  { apply Hw. repeat constructor; vm_compute; done. }
  rewrite Forall_forall in Hall. apply Hall. apply list_elem_of_fmap. by exists (p, x).
Qed.

(** ** What answers a term *)
Section answers.
Context (toLowerCase : jsstr → jsstr).
Abbreviation tokens := (tokens_of toLowerCase page_sep page_tokenizer).

(** Page [d] (counted from 1) has in one of its properties a word that starts
    with a word of the query. *)
Definition page_matches (ds : list jsval) (term : jsstr) (d : Z) : Prop :=
  1 ≤ d ∧ ∃ v p x w q, ds !! Z.to_nat (d - 1) = Some v ∧ p ∈ page_properties.*1 ∧ x ∈ texts (field v p) ∧
    w ∈ tokens p x ∧ q ∈ tokens [] term ∧ q `prefix_of` w.

(** The keywords of a term. *)
Definition keywords (term : jsstr) : list jsstr := tokens [] term.
(** Keyword [q] is found in page [d]: a word of one of its properties starts
    with it. *)
Definition keyword_found (ds : list jsval) (d : Z) (q : jsstr) : Prop :=
  ∃ v p x w, ds !! Z.to_nat (d - 1) = Some v ∧ p ∈ page_properties.*1 ∧ x ∈ texts (field v p) ∧ w ∈ tokens p x ∧ q `prefix_of` w.
Lemma keyword_found_iff ds d q :
  keyword_found ds d q ↔ from_option (λ v,
    Exists (λ p, Exists (λ x, Exists (λ w, q `prefix_of` w) (tokens p x)) (texts (field v p))) page_properties.*1) False
    (ds !! Z.to_nat (d - 1)).
Proof.
  unfold keyword_found. destruct (ds !! Z.to_nat (d - 1)) as [v|]; cbn [from_option]; [|naive_solver].
  rewrite Exists_exists. setoid_rewrite Exists_exists. setoid_rewrite Exists_exists. naive_solver.
Qed.
#[global] Instance keyword_found_dec ds d q : Decision (keyword_found ds d q).
Proof.
  apply (decide_iff _ _ (iff_sym (keyword_found_iff ds d q))). destruct (ds !! Z.to_nat (d - 1)); cbn [from_option]; apply _.
Defined.
Definition some_keyword ds term d : Prop := 1 ≤ d ∧ ∃ q, q ∈ keywords term ∧ keyword_found ds d q.
Definition all_keywords ds term d : Prop := 1 ≤ d ∧ keywords term ≠ [] ∧ Forall (keyword_found ds d) (keywords term).

(** A list of pages with their scores answers a term: best first and without
    repetitions, it has every page in which all keywords are found, and no page
    in which none is. *)
Record answers (ds : list jsval) (term : jsstr) (r : scores) : Prop := Answers {
  an_NoDup : NoDup r.*1;
  an_sorted : StronglySorted ranked r;
  an_all d : all_keywords ds term d → d ∈ r.*1;
  an_some d : d ∈ r.*1 → some_keyword ds term d;
}.

Lemma page_keyword ds term d : page_matches ds term d ↔ some_keyword ds term d.
Proof. unfold page_matches, some_keyword, keyword_found. naive_solver. Qed.
Lemma all_some ds term d : all_keywords ds term d → some_keyword ds term d.
Proof.
  intros (Hd & Hne & Hall). split; [done|]. destruct (keywords term) as [|q qs]; [done|]. apply Forall_cons in Hall as [Hq _].
  exists q. split; [by left|done].
Qed.
Lemma matches_answers ds term r :
  NoDup r.*1 → StronglySorted ranked r → (∀ d, d ∈ r.*1 ↔ page_matches ds term d) → answers ds term r.
Proof.
  intros Hn Hs Hin. split; [done..| |]; intros d Hd.
  - by apply Hin, page_keyword, all_some.
  - by apply page_keyword, Hin.
Qed.
(** Of one keyword, it has exactly the pages in which this is found. *)
Lemma answers_one ds term q r d :
  answers ds term r → keywords term = [q] → d ∈ r.*1 ↔ 1 ≤ d ∧ keyword_found ds d q.
Proof.
  intros [_ _ Hall Hsome] Hq. split.
  - intros (Hd & q' & Hq' & Hf)%Hsome. rewrite Hq in Hq'. apply list_elem_of_singleton in Hq' as ->. done.
  - intros [Hd Hf]. apply Hall. split; [done|]. rewrite Hq. split; [done|by apply Forall_singleton].
Qed.
End answers.

Section search.
Context `{MathOps} (native : bool) (toLowerCase : jsstr → jsstr).
Context (uid : jsstr) (localeCompare : jsstr → jsstr → jsstr → Z).
Abbreviation ic := (pt15_index native toLowerCase page_sep page_tokenizer).
Abbreviation rep := (db_rep toLowerCase page_sep page_tokenizer page_properties
  (pt15_rep page_tokenizer page_properties) uid).
Abbreviation tokens := (tokens_of toLowerCase page_sep page_tokenizer).

#[local] Instance pages_index :
  TextIndex toLowerCase page_sep page_tokenizer ic page_properties (pt15_rep page_tokenizer page_properties).
Proof. by apply pt15_text_index; [..|apply page_names]. Qed.

Lemma found_page ds term d :
  found toLowerCase page_sep page_tokenizer page_properties ds term d ↔ page_matches toLowerCase ds term d.
Proof.
  unfold found, matches, page_matches, filed. split.
  - intros (p & e & n & Hp & He & _ & Hn & Hpre). case_decide as Hd; [|by apply elem_of_nil in Hn].
    destruct Hd as [_ Hd]. split; [done|].
    destruct (ds !! Z.to_nat (d - 1)) as [v|]; [|by apply elem_of_nil in Hn].
    unfold value_words in Hn. apply list_elem_of_bind in Hn as (x & Hn & Hx). by exists v, p, x, n, e.
  - intros (Hd & v & p & x & w & q & Hv & Hp & Hx & Hw & Hq & Hpre).
    exists p, q, w. rewrite decide_True, Hv by done. split_and!; try done.
    + by eapply tokens_of_nonempty.
    + unfold value_words. apply list_elem_of_bind. by exists x.
Qed.

(** The adapter holds the pages. *)
Definition holds_pages (c : nat) (a : adapter) (ds : list jsval) : Prop :=
  ∃ e, a = Adapter (Some e) true ∧ rep c e ds.

Lemma init_run c ds :
  Forall page ds →
  ∃ a, init_index native toLowerCase uid c ds new_adapter = (a, Ok tt) ∧ holds_pages c a ds.
Proof.
  intros Hds. unfold init_index. unfold mbind at 1, M_mbind, lift at 1.
  rewrite english_tokenizer.
  destruct (create_run toLowerCase page_sep page_tokenizer page_properties ic _ uid c (tk_language page_tokenizer)) as (e & He & Hrep).
  unfold mbind at 1, M_mbind, lift at 1. rewrite pages_text_schema, He.
  unfold mbind at 1, M_mbind, modify at 1. unfold mbind at 1, M_mbind, with_db. cbn [rn set_rn new_adapter].
  unfold insertMultiple.
  destruct (insert_batches_run toLowerCase page_sep page_tokenizer page_properties page_names ic _ uid
    (S (length ds)) 1000 0 c e [] ds) as (e' & -> & He'); [lia|lia|done|done|].
  unfold modify. eexists. split; [done|]. exists e'. split; [done|].
  change (0 * 1000)%nat with 0%nat in He'. by rewrite drop_0 in He'.
Qed.

Lemma search_holds c a ds term :
  holds_pages c a ds →
  ∃ a' r, search native toLowerCase localeCompare term a =
      (a', Ok ((λ x, SearchResult (term :: split_on space term) (ds !! Z.to_nat (x.1 - 1))) <$> take 99 r)) ∧
    holds_pages c a' ds ∧
    NoDup r.*1 ∧ StronglySorted ranked r ∧ (∀ d, d ∈ r.*1 ↔ page_matches toLowerCase ds term d).
Proof.
  intros (e & -> & He). unfold search. unfold mbind at 1, M_mbind, lift at 1.
  rewrite english_tokenizer.
  unfold mbind, M_mbind, with_db. cbn [rn].
  destruct (search_run toLowerCase page_sep page_tokenizer page_properties page_names ic _ uid localeCompare c e ds (adapter_params term))
    as (e' & r & He' & Hnd & Hsort & Hin & Hpages); [done|done| |done|done|].
  { split; try done. apply adapter_weights. }
  change (fullTextSearch ic localeCompare (adapter_params term) None e) with
    (fullTextSearch ic localeCompare (with_page 99 0 (adapter_params term)) None e). rewrite Hpages.
  exists (Adapter (Some e') true), r. split_and!; [|by exists e'|done|done|].
  - cbn [fst]. unfold mret, M_mret, set_rn. cbn [isSearchEngineReady]. f_equal. f_equal.
    rewrite drop_0, <-list_fmap_compose. done.
  - intros d. by rewrite Hin, found_page.
Qed.

(** One search after the other. *)
Definition searched (a a' : adapter) : Prop :=
  ∃ term, a' = (search native toLowerCase localeCompare term a).1.

Lemma searched_holds c a a1 ds : rtc searched a a1 → holds_pages c a ds → holds_pages c a1 ds.
Proof.
  intros Hr. induction Hr as [|x y z [t ->] _ IH]; [done|]. intros Hx. apply IH.
  destruct (search_holds c x ds t Hx) as (a' & r & -> & Ha' & _). exact Ha'.
Qed.

(** C1. The site search answers. Given any list of pages (objects without an
    id whose declared properties are absent, strings, or for tags arrays of
    strings), loading them succeeds and announces the engine; after that, and
    after any number of searches, searching for any term succeeds and lists the
    first 99 of the pages that answer it, the best score first and pages of
    equal score in the order of the index, none twice: every page in which all
    keywords of the term are found, none in which no keyword is, and for a term
    of one keyword therefore exactly the pages in which that is found. (Of
    several keywords see [search_any_keyword].) *)
Theorem site_search (c : nat) (ds : list jsval) :
  Forall page ds →
  ∃ a, init_index native toLowerCase uid c ds new_adapter = (a, Ok tt) ∧ isSearchEngineReady a = true ∧
    ∀ a1 term, rtc searched a a1 →
      ∃ a2 r, search native toLowerCase localeCompare term a1 =
        (a2, Ok ((λ x, SearchResult (term :: split_on space term) (ds !! Z.to_nat (x.1 - 1))) <$> take 99 r)) ∧
        answers toLowerCase ds term r ∧
        (∀ q, keywords toLowerCase term = [q] → ∀ d, d ∈ r.*1 ↔ 1 ≤ d ∧ keyword_found toLowerCase ds d q).
Proof.
  intros Hds. destruct (init_run c ds Hds) as (a & Hinit & Ha). exists a. split; [exact Hinit|]. split; [by destruct Ha as (? & -> & _)|].
  intros a1 term Hr. pose proof (searched_holds c a a1 ds Hr Ha) as Ha1.
  destruct (search_holds c a1 ds term Ha1) as (a2 & r & Hs & _ & Hnd & Hsort & Hin). exists a2, r.
  pose proof (matches_answers toLowerCase ds term r Hnd Hsort Hin) as Hans. split; [exact Hs|]. split; [exact Hans|].
  intros q Hq d. exact (answers_one toLowerCase ds term q r d Hans Hq).
Qed.

(** Where the search does not keep its word: the adapter passes [threshold: 0], meant to show only results where all keywords were found,
    but the search of the plugin has no such parameter. Whatever pages were
    loaded and searches made, a page in which one keyword of the term is found
    is among those that are ranked, even when another is not. *)
Theorem search_any_keyword (c : nat) (ds : list jsval) (a a1 : adapter) (term q q' : jsstr) (d : Z) :
  Forall page ds → init_index native toLowerCase uid c ds new_adapter = (a, Ok tt) → rtc searched a a1 →
  1 ≤ d → q ∈ keywords toLowerCase term → keyword_found toLowerCase ds d q → q' ∈ keywords toLowerCase term → ¬ keyword_found toLowerCase ds d q' →
  sp_threshold (adapter_params term) = Some num_zero ∧ ¬ all_keywords toLowerCase ds term d ∧
  ∃ a2 r, search native toLowerCase localeCompare term a1 =
      (a2, Ok ((λ x, SearchResult (term :: split_on space term) (ds !! Z.to_nat (x.1 - 1))) <$> take 99 r)) ∧
    StronglySorted ranked r ∧ d ∈ r.*1.
Proof.
  intros Hds Hinit Hr Hd Hq Hfq Hq' Hfq'. split; [done|]. split.
  { intros (_ & _ & Hall). rewrite Forall_forall in Hall. by apply Hfq', Hall. }
  destruct (init_run c ds Hds) as (a' & Ha' & Ha). rewrite Hinit in Ha'. injection Ha' as <-.
  destruct (search_holds c a1 ds term) as (a2 & r & Hs & _ & _ & Hsort & Hin); [exact (searched_holds c a a1 ds Hr Ha)|].
  exists a2, r. split; [exact Hs|]. split; [exact Hsort|]. apply (Hin d), (page_keyword toLowerCase ds term d). split; [exact Hd|]. exists q. split; [exact Hq|exact Hfq].
Qed.
End search.

(** ** Examples *)
Definition sample_page (title uri : string) : jsval :=
  JObj [(js "title", JStr (js title)); (js "content", JStr (js "some text")); (js "uri", JStr (js uri));
        (js "tags", JArr [JStr (js "docs")])].

Definition no_locale (lang a b : jsstr) : Z := 0.

Lemma sample_page_ok title uri : page (sample_page title uri).
Proof.
  split_and!; [by eexists|done|]. intros p b Hp. unfold page_properties in Hp. rewrite !elem_of_cons, elem_of_nil in Hp.
  assert (text_value true (JArr [JStr (js "docs")])) by by exists [js "docs"].
  destruct Hp as [[= -> ->]|[[= -> ->]|[[= -> ->]|[[= -> ->]|[[= -> ->]|[[= -> ->]|[]]]]]]];
    first [by left|right; by eexists|by right].
Qed.

Lemma site_search_witness :
  let ds := [sample_page "Getting Started" "intro"; sample_page "Reference" "ref"] in
  ∃ a a2 (r : scores), init_index (H := no_math) true ascii_lower (js "1") 0 ds new_adapter = (a, Ok tt) ∧
    search (H := no_math) true ascii_lower no_locale (js "start") a =
      (a2, Ok ((λ x, SearchResult (js "start" :: split_on space (js "start")) (ds !! Z.to_nat (x.1 - 1))) <$> take 99 r)) ∧
    1 ∈ r.*1 ∧ ¬ 2 ∈ r.*1.
Proof.
  set (ds := [sample_page "Getting Started" "intro"; sample_page "Reference" "ref"]).
  destruct (site_search (H := no_math) true ascii_lower (js "1") no_locale 0 ds) as (a & Ha & _ & Hs).
  { apply Forall_cons; split; [apply sample_page_ok|]. apply Forall_cons; split; [apply sample_page_ok|by apply Forall_nil]. }
  destruct (Hs a (js "start") ltac:(reflexivity)) as (a2 & r & Hr & _ & Hin). specialize (Hin (js "start") ltac:(vm_compute; reflexivity)).
  exists a, a2, r. split; [exact Ha|]. split; [exact Hr|]. split.
  - apply Hin. split; [lia|]. apply (bool_decide_unpack _). vm_compute. done.
  - intros [_ H2]%Hin. revert H2. change (¬ keyword_found ascii_lower ds 2 (js "start")). apply (bool_decide_unpack _). vm_compute. done.
Defined.

(** Of two pages each has one of two keywords; both are listed. *)
Lemma search_any_keyword_witness :
  let ds := [sample_page "alpha" "a"; sample_page "beta" "b"] in
  let a := (init_index (H := no_math) true ascii_lower (js "1") 0 ds new_adapter).1 in
  ¬ all_keywords ascii_lower ds (js "alpha beta") 1 ∧
  ∃ a2 (r : scores), search (H := no_math) true ascii_lower no_locale (js "alpha beta") a =
      (a2, Ok ((λ x, SearchResult (js "alpha beta" :: split_on space (js "alpha beta")) (ds !! Z.to_nat (x.1 - 1))) <$> take 99 r)) ∧
    1 ∈ r.*1.
Proof.
  set (ds := [sample_page "alpha" "a"; sample_page "beta" "b"]).
  set (a := (init_index (H := no_math) true ascii_lower (js "1") 0 ds new_adapter).1).
  destruct (search_any_keyword (H := no_math) true ascii_lower (js "1") no_locale 0 ds a a (js "alpha beta") (js "alpha") (js "beta") 1)
    as (_ & Hall & a2 & r & Hr & _ & Hin).
  - apply Forall_cons; split; [apply sample_page_ok|]. apply Forall_cons; split; [apply sample_page_ok|by apply Forall_nil].
  - vm_compute. reflexivity.
  - reflexivity.
  - lia.
  - apply (bool_decide_unpack _). vm_compute. done.
  - apply (bool_decide_unpack _). vm_compute. done.
  - apply (bool_decide_unpack _). vm_compute. done.
  - apply (bool_decide_unpack _). vm_compute. done.
  - split; [exact Hall|]. exists a2, r. split; [exact Hr|exact Hin].
Defined.
