(* ===== verification/DatabaseClaims.v ===== *)
(** * What a database promises, and where it does not keep its word *)

From Stdlib Require Import SpecFloat.
From stdpp Require Import pretty.
From S2P Require Import Prelude JSColl JSNum NumFacts Utils JSValue AVL Flat Levenshtein Radix BKD BKDTheorems Vector PT15 Schema Store Tokenizer Index Where Sorter Database TextIndex DatabaseTheorems Adapter AdapterTheorems.
Local Open Scope Z_scope.

Section claims.
Context (toLowerCase : jsstr → jsstr) (is_sep : jsstr → N → bool) (tk : tokenizer).
Context (ps : list (jsstr * bool)) (Hps : plain_names ps).
Context (ic : index_component) (Rep : ist → words → Prop) `{!TextIndex toLowerCase is_sep tk ic ps Rep}.
Context (uid : jsstr).

(** C4. Inserting many documents does not depend on how they are batched: for
    every positive batch size, all of them are inserted, in order, after the
    documents already there, and get the next ids. *)
Theorem insertMultiple_spec (c n : nat) (e : db) (ds l : list jsval) :
  (0 < n)%nat → db_rep toLowerCase is_sep tk ps Rep uid c e ds → Forall (text_document ps) l →
  ∃ e', insertMultiple ic uid l n None e = (e', Ok (made_ids uid (c + length ds) (length l))) ∧
    db_rep toLowerCase is_sep tk ps Rep uid c e' (ds ++ l).
Proof.
  intros Hn He Hl. unfold insertMultiple.
  destruct (insert_batches_run toLowerCase is_sep tk ps Hps ic Rep uid (S (length l)) n 0 c e ds l) as (e' & H1 & H2);
    [done|lia|done|done|].
  exists e'. by rewrite Nat.mul_0_l, drop_0 in H1, H2.
Qed.

(** C3. Pages of results are cut out of one ranking: a query determines a
    ranking of exactly the documents that match, best first, and for every
    limit and offset the search returns that part of it, each hit with its
    id, score and document, and the number of all results. *)
Theorem search_pages localeCompare (c : nat) (e : db) (ds : list jsval) (t : search_params) :
  db_rep toLowerCase is_sep tk ps Rep uid c e ds → ps ≠ [] → text_query t →
  sp_sortBy t = None → sp_preflight t = false →
  ∃ e' r, db_rep toLowerCase is_sep tk ps Rep uid c e' ds ∧ NoDup r.*1 ∧ StronglySorted ranked r ∧
    (∀ d, d ∈ r.*1 ↔ found toLowerCase is_sep tk ps ds (sp_term t) d) ∧
    ∀ limit offset, fullTextSearch ic localeCompare (with_page limit offset t) None e =
      (e', Ok (hit_of uid c ds <$> take limit (drop offset r), length r)).
Proof. intros. by apply (search_run toLowerCase is_sep tk ps Hps ic Rep). Qed.
End claims.

(** ** Witnesses *)
Definition sample_index : index_component := pt15_index (H := no_math) true ascii_lower page_sep page_tokenizer.
#[export] Instance sample_text_index :
  TextIndex ascii_lower page_sep page_tokenizer sample_index page_properties (pt15_rep page_tokenizer page_properties).
Proof. by apply pt15_text_index; [..|apply page_names]. Qed.

Lemma insertMultiple_spec_witness :
  ∃ e e', create_db sample_index 0 pages_schema (js "english") true [] = Ok e ∧
    insertMultiple sample_index (js "1") [sample_page "a" "b"; sample_page "c" "d"] 1 None e =
      (e', Ok (made_ids (js "1") 0 2)).
Proof.
  destruct (create_run ascii_lower page_sep page_tokenizer page_properties sample_index (pt15_rep page_tokenizer page_properties) (js "1") 0 (js "english"))
    as (e & He & Hrep). rewrite <-pages_text_schema in He.
  assert (Forall page [sample_page "a" "b"; sample_page "c" "d"]) as Hds.
  { apply Forall_cons; split; [apply sample_page_ok|]. apply Forall_cons; split; [apply sample_page_ok|by apply Forall_nil]. }
  pose proof (insertMultiple_spec ascii_lower page_sep page_tokenizer page_properties page_names sample_index
    (pt15_rep page_tokenizer page_properties) (js "1") 0 1 e [] _ Nat.lt_0_1 Hrep Hds) as (e' & H & _).
  exists e, e'. split; [exact He|exact H].
Defined.

Lemma search_pages_witness :
  ∃ e e' r, create_db sample_index 0 pages_schema (js "english") true [] = Ok e ∧
    fullTextSearch sample_index no_locale (adapter_params (js "x")) None e = (e', Ok ([], r)).
Proof.
  destruct (create_run ascii_lower page_sep page_tokenizer page_properties sample_index (pt15_rep page_tokenizer page_properties) (js "1") 0 (js "english"))
    as (e & He & Hrep). rewrite <-pages_text_schema in He.
  assert (text_query (adapter_params (js "x"))) as Hq by (split; try reflexivity; apply adapter_weights).
  pose proof (search_pages ascii_lower page_sep page_tokenizer page_properties page_names sample_index
    (pt15_rep page_tokenizer page_properties) (js "1") no_locale 0 e [] (adapter_params (js "x")) Hrep ltac:(discriminate) Hq
    eq_refl eq_refl) as (e' & r & _ & _ & _ & Hin & Hpage).
  assert (r = []) as ->.
  { destruct r as [|[d x] r]; [done|]. assert (1 ≤ d ≤ 0) as ?; [|lia].
    apply (found_bound ascii_lower page_sep page_tokenizer page_properties [] (js "x") d), Hin. by left. }
  exists e, e', 0%nat. split; [exact He|]. exact (Hpage 99%nat 0%nat).
Defined.

(** ** Examples with the default index *)
Definition plain_index `{MathOps} : index_component := default_index true ascii_lower page_sep page_tokenizer.

Definition result_after {A} (r : result db) (m : M db A) : result A :=
  match r with Ok e => (m e).2 | Throw x => Throw x end.

(** An insertion that fails leaves its document behind, for one: the text is
    refused because of its language only after the document was stored, so the
    document is in the store though it is not indexed, and inserting it again
    in the right language fails because its id is taken. *)
Theorem insert_not_atomic `{MathOps} uid :
  let doc := JObj [(js "id", JStr (js "7")); (js "title", JStr (js "hello"))] in
  let new := create_db plain_index 0 [(js "title", SType (js "string"))] (js "english") true [] in
  let first := insert plain_index uid doc (Some (js "italian")) 1 in
  result_after new first = Throw (OramaError "LANGUAGE_NOT_SUPPORTED" [js "italian"]) ∧
  match new with
  | Ok e => docs_map (db_docs (first e).1) !! 1 = Some doc ∧ docs_count (db_docs (first e).1) = 1 ∧
      (insert plain_index uid doc None 1 (first e).1).2 = Throw (OramaError "DOCUMENT_ALREADY_EXISTS" [js "7"])
  | Throw _ => False
  end.
Proof. vm_compute. repeat split. Qed.

Definition vector_params (include : bool) : search_params := {|
  sp_term := js "hello"; sp_properties := None; sp_star := true; sp_where := []; sp_exact := false; sp_tolerance := 0;
  sp_boost := []; sp_relevance := default_relevance; sp_threshold := None; sp_sortBy := None;
  sp_limit := 10; sp_offset := 0; sp_includeVectors := include; sp_preflight := false |}.

(** A search that hides the vectors of its hits erases them from the stored
    documents: the first search, without [includeVectors], answers with null
    in place of the vector, as it should, but a later search that asks for
    the vectors gets null, too. *)
Theorem search_erases_vectors `{MathOps} uid localeCompare :
  let vec := JArr [JNum (num_of_Z 1); JNum (num_of_Z 2)] in
  let doc v := JObj [(js "id", JStr (js "7")); (js "title", JStr (js "hello")); (js "emb", v)] in
  let search b := fullTextSearch plain_index localeCompare (vector_params b) None in
  match create_db plain_index 0 [(js "title", SType (js "string")); (js "emb", SType (js "vector[2]"))] (js "english") true [] with
  | Ok e =>
      let e := (insert plain_index uid (doc vec) None 1 e).1 in
      let found r := match r with Ok (l, _) => map fd_document l | Throw _ => [] end in
      found (search true e).2 = [Some (doc vec)] ∧ found (search false e).2 = [Some (doc JNull)] ∧
      found (search true (search false e).1).2 = [Some (doc JNull)]
  | Throw _ => False
  end.
Proof. vm_compute. repeat split. Qed.

(** A database of the plugin without text properties cannot be searched:
    the merge of no scores reads a property of [undefined]. *)
Theorem pt15_needs_text `{MathOps} localeCompare :
  let ic := pt15_index true ascii_lower page_sep page_tokenizer in
  result_after (create_db ic 0 [(js "size", SType (js "number"))] (js "english") true [])
    (fullTextSearch ic localeCompare (adapter_params (js "x")) None) = Throw TypeError.
Proof. vm_compute. reflexivity. Qed.
