(* ===== verification/Facets.v ===== *)
(** * Facets of search results (functions [Dt], [Et], [xt], [_t], [Nt], [At])

    A facet counts the values of one property over the documents found. The
    counts are kept in a plain object, so a value with the name of a property
    of [Object.prototype] is not counted as a number ([FOther]). *)

From Stdlib Require Import SpecFloat.
From S2P Require Import Prelude JSColl JSNum NumFacts Utils JSValue Schema Index.
Local Open Scope Z_scope.

Inductive fcount := FNum (n : nat) | FOther.

(** What a facet asks for. *)
Record facet_config := FacetConfig {
  fc_ranges : option (list (number * number));   (* from and to *)
  fc_sort : jsstr;                               (* 'desc' when absent *)
  fc_offset : nat;                               (* 0 when absent *)
  fc_limit : nat;                                (* 10 when absent *)
}.
Record facet := Facet { f_count : nat; f_values : list (jsstr * fcount) }.

Section facets.
(** [Number.prototype.toString] and [String.prototype.toLowerCase]. *)
Context (num_str : number → jsstr) (toLowerCase : jsstr → jsstr).

(** [`${t.from}-${t.to}`] *)
Definition range_key (t : number * number) : jsstr := num_str t.1 ++ 45%N :: num_str t.2.

Definition in_range (r : jsval) (o : number * number) : bool :=
  match r with JNum r => leb o.1 r && leb r o.2 | _ => false end.

(** Function [Et]: the ranges a number falls into; [n] holds the ranges already
    counted for the document, when it has several numbers. *)
Fixpoint count_ranges (e : list (number * number)) (r : jsval) (t : list (jsstr * fcount)) (n : option (list jsstr)) :
    list (jsstr * fcount) * option (list jsstr) :=
  match e with
  | [] => (t, n)
  | o :: e =>
      let k := range_key o in
      if match n with Some n => set_has k n | None => false end then count_ranges e r t n
      else if in_range r o then
        match jm_get k t with
        | None => count_ranges e r (jm_set k (FNum 1) t) n
        | Some c => count_ranges e r (jm_set k (match c with FNum c => FNum (S c) | FOther => FOther end) t) (set_add k <$> n)
        end
      else count_ranges e r t n
  end.

(** [t?.toString() ?? r] for a scalar *)
Definition value_key (t : string) (v : jsval) : result jsstr :=
  match v with
  | JUndef | JNull => Ok (if decide (t = "boolean") then js "false" else [])
  | JBool b => Ok (js (if b then "true" else "false"))
  | JNum n => Ok (num_str n)
  | JStr s => Ok s
  | _ => ill_typed
  end.

(** [e[o] = (e[o] ?? 0) + 1] *)
Definition bump (o : jsstr) (e : list (jsstr * fcount)) : list (jsstr * fcount) :=
  jm_set o match jm_get o e with
           | Some (FNum c) => FNum (S c)
           | Some FOther => FOther
           | None => if bool_decide (o ∈ inherited) then FOther else FNum 1
           end e.

(** Function [xt]. *)
Definition count_value (t : string) (v : jsval) (e : list (jsstr * fcount)) (n : option (list jsstr)) :
    result (list (jsstr * fcount) * option (list jsstr)) :=
  o ← value_key t v;
  if match n with Some n => set_has o n | None => false end then Ok (e, n)
  else Ok (bump o e, set_add o <$> n).

(** The loops over the elements of an array property. *)
Fixpoint count_numbers (ranges : list (number * number)) (o : list jsval) (t : list (jsstr * fcount)) (n : option (list jsstr)) :
    list (jsstr * fcount) :=
  match o with
  | [] => t
  | e :: o => let '(t, n) := count_ranges ranges e t n in count_numbers ranges o t n
  end.
Fixpoint count_elements (ty : string) (o : list jsval) (t : list (jsstr * fcount)) (n : option (list jsstr)) :
    result (list (jsstr * fcount)) :=
  match o with
  | [] => Ok t
  | e :: o => '(t, n) ← count_value ty e t n; count_elements ty o t n
  end.

(** The elements of what a [for of] runs over. *)
Definition elements_of (o : jsval) : result (list jsval) :=
  match o with
  | JArr l => Ok l
  | JStr _ => ill_typed
  | _ => Throw TypeError
  end.

(** The [switch] of [Dt]: value [o] of a property of type [s]. *)
Definition count_property (s : option jsstr) (cfg : facet_config) (o : jsval) (i : list (jsstr * fcount)) :
    result (list (jsstr * fcount)) :=
  match s with
  | None => Throw TypeError (* the message for an [undefined] type *)
  | Some s =>
      if decide (s = js "number") then
        r ← result_of_option TypeError (fc_ranges cfg); Ok (count_ranges r o i None).1
      else if decide (s = js "number[]") then
        l ← elements_of o;
        match l with
        | [] => Ok i
        | _ => r ← result_of_option TypeError (fc_ranges cfg); Ok (count_numbers r l i (Some []))
        end
      else if decide (s ∈ [js "boolean"; js "enum"; js "string"]) then
        '(i, _) ← count_value (if decide (s = js "boolean") then "boolean" else "string") o i None; Ok i
      else if decide (s ∈ [js "boolean[]"; js "enum[]"; js "string[]"]) then
        l ← elements_of o;
        count_elements (if decide (s = js "boolean[]") then "boolean" else "string") l i (Some [])
      else Throw (OramaError "FACET_NOT_SUPPORTED" [s])
  end.

(** The counts a facet starts with: the ranges of a number. *)
Definition initial_values (s : option jsstr) (cfg : facet_config) : result (list (jsstr * fcount)) :=
  if decide (s = Some (js "number")) then
    r ← result_of_option TypeError (fc_ranges cfg);
    Ok (foldl (λ m t, jm_set (range_key t) (FNum 0) m) [] r)
  else Ok [].

(** [e.includes('.') ? w(t, e) : t[e]] *)
Definition facet_value (t : jsval) (e : jsstr) : result jsval :=
  if bool_decide (dot ∈ e) then getNested t e else get_prop t e.

Fixpoint initial_facets (a : list (jsstr * jsstr)) (n : list (jsstr * facet_config)) : result (list (jsstr * list (jsstr * fcount))) :=
  match n with
  | [] => Ok []
  | (e, cfg) :: n => v ← initial_values (jm_get e a) cfg; r ← initial_facets a n; Ok ((e, v) :: r)
  end.

(** One document, all facets. *)
Fixpoint count_document (a : list (jsstr * jsstr)) (n : list (jsstr * facet_config)) (t : jsval)
    (r : list (jsstr * list (jsstr * fcount))) : result (list (jsstr * list (jsstr * fcount))) :=
  match n with
  | [] => Ok r
  | (e, cfg) :: n =>
      o ← facet_value t e;
      i ← count_property (jm_get e a) cfg o (default [] (jm_get e r));
      count_document a n t (jm_set e i r)
  end.
Fixpoint count_documents (a : list (jsstr * jsstr)) (n : list (jsstr * facet_config)) (s : list jsval)
    (r : list (jsstr * list (jsstr * fcount))) : result (list (jsstr * list (jsstr * fcount))) :=
  match s with
  | [] => Ok r
  | t :: s => r ← count_document a n t r; count_documents a n s r
  end.

(** Functions [Nt], [At] and [_t]; a difference that is no number keeps the
    order. *)
Definition facet_le (asc : bool) (e t : jsstr * fcount) : bool :=
  match e.2, t.2 with
  | FNum a, FNum b => if asc then (a <=? b)%nat else (b <=? a)%nat
  | _, _ => true
  end.

(** [l.slice(from, to)] for two non-negative bounds *)
Definition slice {A} (from to : nat) (l : list A) : list A := drop from (take to l).

(** The last loop of [Dt]. *)
Definition finish_facet (s : option jsstr) (cfg : facet_config) (v : list (jsstr * fcount)) : facet :=
  Facet (length v)
    (if decide (s = Some (js "string")) then
       foldl (λ m p, jm_set p.1 p.2 m) []
         (slice (fc_offset cfg) (fc_limit cfg)
            (js_sort (facet_le (bool_decide (toLowerCase (fc_sort cfg) = js "asc"))) (obj_entries v)))
     else v).

(** Function [Dt]: documents [s], property types [a], facets [n] in the order
    of their enumeration. *)
Definition getFacets (a : list (jsstr * jsstr)) (s : list jsval) (n : list (jsstr * facet_config)) :
    result (list (jsstr * facet)) :=
  let n := obj_entries n in
  r ← initial_facets a n;
  r ← count_documents a n s r;
  Ok ((λ p, (p.1, finish_facet (jm_get p.1 a) p.2 (default [] (jm_get p.1 r)))) <$> n).
End facets.

(** ** What a facet counts *)

(** How many elements satisfy a boolean test. *)
Definition countb {A} (f : A → bool) (l : list A) : nat := length (List.filter f l).

Lemma countb_cons {A} (f : A → bool) x l : countb f (x :: l) = ((if f x then 1 else 0) + countb f l)%nat.
Proof. unfold countb. simpl. by destruct (f x). Qed.

Section facts.
Context (num_str : number → jsstr) (toLowerCase : jsstr → jsstr).

(** ** One facet does not disturb another *)

(** The counts of one property over the documents. *)
Fixpoint tally (s : option jsstr) (cfg : facet_config) (e : jsstr) (docs : list jsval) (i : list (jsstr * fcount)) :
    result (list (jsstr * fcount)) :=
  match docs with
  | [] => Ok i
  | t :: docs => o ← facet_value t e; i ← count_property num_str s cfg o i; tally s cfg e docs i
  end.

Lemma count_document_other a n t r r' e :
  count_document num_str a n t r = Ok r' → e ∉ n.*1 → jm_get e r' = jm_get e r.
Proof.
  revert r. induction n as [|[e' cfg] n IH]; intros r; cbn [count_document]; [by intros [= ->]|].
  rewrite fmap_cons, not_elem_of_cons. cbn [fst]. destruct (facet_value t e'); cbn [mbind result_mbind]; [|done].
  destruct (count_property _ _ _ _ _); cbn [mbind result_mbind]; [|done]. intros Hr [Hne Hn].
  rewrite (IH _ Hr Hn). by apply jm_get_set_ne.
Qed.

Lemma count_document_one a n t r r' e cfg :
  count_document num_str a n t r = Ok r' → NoDup n.*1 → (e, cfg) ∈ n →
  ∃ o i, facet_value t e = Ok o ∧ count_property num_str (jm_get e a) cfg o (default [] (jm_get e r)) = Ok i ∧
    jm_get e r' = Some i.
Proof.
  revert r. induction n as [|[e' cfg'] n IH]; intros r; [intros _ _ Hin; by apply elem_of_nil in Hin|].
  cbn [count_document]. rewrite fmap_cons, NoDup_cons. cbn [fst].
  destruct (facet_value t e') as [o|] eqn:Ho; cbn [mbind result_mbind]; [|done].
  destruct (count_property _ _ _ _ _) as [i|] eqn:Hi; cbn [mbind result_mbind]; [|done]. intros Hr [Hne Hnd].
  rewrite elem_of_cons. intros [[= -> ->]|Hin].
  - exists o, i. split_and!; [done|done|]. rewrite (count_document_other _ _ _ _ _ _ Hr Hne). apply jm_get_set_eq.
  - destruct (IH _ Hr Hnd Hin) as (o' & i' & Ho' & Hi' & Hr'). exists o', i'. split_and!; [done| |done].
    rewrite jm_get_set_ne in Hi'; [done|]. intros ->. apply Hne. apply list_elem_of_fmap. by exists (e', cfg).
Qed.

Lemma count_documents_one a n s r r' e cfg :
  count_documents num_str a n s r = Ok r' → NoDup n.*1 → (e, cfg) ∈ n → is_Some (jm_get e r) →
  ∃ i, jm_get e r' = Some i ∧ tally (jm_get e a) cfg e s (default [] (jm_get e r)) = Ok i.
Proof.
  intros Hr Hnd Hin. revert r Hr. induction s as [|t s IH]; intros r; cbn [count_documents tally].
  { intros [= ->] [i Hi]. exists i. by rewrite Hi. }
  destruct (count_document num_str a n t r) as [r1|] eqn:H1; cbn [mbind result_mbind]; [|done]. intros Hr _.
  destruct (count_document_one _ _ _ _ _ _ _ H1 Hnd Hin) as (o & i & -> & Hi & Hr1). cbn [mbind result_mbind].
  rewrite Hi. cbn [mbind result_mbind]. destruct (IH _ Hr) as (i' & Hi' & Ht); [eauto|]. rewrite Hr1 in Ht. eauto.
Qed.

Lemma initial_facets_get a n r e cfg :
  initial_facets num_str a n = Ok r → NoDup n.*1 → (e, cfg) ∈ n →
  ∃ v, initial_values num_str (jm_get e a) cfg = Ok v ∧ jm_get e r = Some v.
Proof.
  revert r. induction n as [|[e' cfg'] n IH]; intros r; [intros _ _ Hin; by apply elem_of_nil in Hin|].
  cbn [initial_facets]. rewrite fmap_cons, NoDup_cons. cbn [fst].
  destruct (initial_values num_str (jm_get e' a) cfg') as [v|] eqn:Hv; cbn [mbind result_mbind]; [|done].
  destruct (initial_facets num_str a n) as [r'|]; cbn [mbind result_mbind]; [|done]. intros [= <-] [Hne Hnd].
  rewrite elem_of_cons. cbn [jm_get]. intros [[= -> ->]|Hin].
  - exists v. by rewrite decide_True.
  - destruct (IH _ eq_refl Hnd Hin) as (v' & ? & ?). exists v'. split; [done|]. rewrite decide_False; [done|].
    intros ->. apply Hne. apply list_elem_of_fmap. by exists (e', cfg).
Qed.

(** What [Dt] returns for one facet. *)
Lemma getFacets_one a s n r e cfg :
  getFacets num_str toLowerCase a s n = Ok r → NoDup n.*1 → (e, cfg) ∈ n →
  ∃ v i, initial_values num_str (jm_get e a) cfg = Ok v ∧ tally (jm_get e a) cfg e s v = Ok i ∧
    (e, finish_facet toLowerCase (jm_get e a) cfg i) ∈ r.
Proof.
  intros Hr Hnd Hin. unfold getFacets in Hr. set (n' := obj_entries n) in Hr.
  assert (NoDup n'.*1 ∧ (e, cfg) ∈ n') as [Hnd' Hin'] by (unfold n'; rewrite obj_entries_perm; done).
  destruct (initial_facets num_str a n') as [r0|] eqn:H0; cbn [mbind result_mbind] in Hr; [|done].
  destruct (count_documents num_str a n' s r0) as [r1|] eqn:H1; cbn [mbind result_mbind] in Hr; [|done].
  injection Hr as <-. destruct (initial_facets_get _ _ _ _ _ H0 Hnd' Hin') as (v & Hv & Hr0).
  destruct (count_documents_one _ _ _ _ _ _ _ H1 Hnd' Hin') as (i & Hi & Ht); [eauto|].
  rewrite Hr0 in Ht. exists v, i. split_and!; [done|done|]. apply list_elem_of_fmap. exists (e, cfg).
  cbn [fst snd]. by rewrite Hi.
Qed.

(** ** Values *)
Definition tally_keys (i : list (jsstr * fcount)) (ks : list jsstr) : list (jsstr * fcount) := foldl (λ i k, bump k i) i ks.

Lemma tally_keys_get i ks k :
  k ∉ inherited → jm_get k i ≠ Some FOther →
  jm_get k (tally_keys i ks) =
    match jm_get k i, countb (λ k', bool_decide (k' = k)) ks with
    | None, O => None
    | Some (FNum c), m => Some (FNum (c + m))
    | None, m => Some (FNum m)
    | Some FOther, _ => Some FOther
    end.
Proof.
  intros Hk. unfold tally_keys. revert i. induction ks as [|k' ks IH]; intros i Hi; cbn [foldl].
  { destruct (jm_get k i) as [[c|]|]; cbn; [by rewrite Nat.add_0_r|done|done]. }
  rewrite countb_cons. destruct (decide (k' = k)) as [->|Hne].
  - rewrite (bool_decide_eq_true_2 (k = k)) by done.
    assert (jm_get k (bump k i) = Some (match jm_get k i with Some (FNum c) => FNum (S c) | Some FOther => FOther | None => FNum 1 end)) as Hb.
    { unfold bump. rewrite jm_get_set_eq. destruct (jm_get k i) as [[c|]|]; [done..|]. by rewrite bool_decide_eq_false_2. }
    rewrite IH, Hb by (rewrite Hb; by destruct (jm_get k i) as [[c|]|]).
    destruct (jm_get k i) as [[c|]|]; [|done|done]. f_equal. f_equal. lia.
  - assert (jm_get k (bump k' i) = jm_get k i) as Hb by (unfold bump; by apply jm_get_set_ne).
    rewrite IH, Hb by (by rewrite Hb). by rewrite (bool_decide_eq_false_2 (k' = k)).
Qed.

Definition scalar_kind (s : jsstr) : string := if decide (s = js "boolean") then "boolean" else "string".

(** The key of the value of property [e] of document [t]. *)
Definition doc_key (s e : jsstr) (t : jsval) : result jsstr := v ← facet_value t e; value_key num_str (scalar_kind s) v.

Lemma tally_scalar s cfg e docs i i' :
  s ∈ [js "boolean"; js "enum"; js "string"] → tally (Some s) cfg e docs i = Ok i' →
  ∃ ks, Forall2 (λ t k, doc_key s e t = Ok k) docs ks ∧ i' = tally_keys i ks.
Proof.
  intros Hs. revert i. induction docs as [|t docs IH]; intros i; cbn [tally].
  { intros [= <-]. exists []. split; [constructor|done]. }
  destruct (facet_value t e) as [o|] eqn:Ho; cbn [mbind result_mbind]; [|done].
  assert (count_property num_str (Some s) cfg o i =
    ('(i, _) ← count_value num_str (scalar_kind s) o i None; Ok i)) as ->.
  { unfold count_property, scalar_kind. rewrite (decide_False (P := s = js "number")), (decide_False (P := s = js "number[]")).
    - by rewrite decide_True.
    - intros ->. rewrite !elem_of_cons, elem_of_nil in Hs. destruct Hs as [Hs|[Hs|[Hs|[]]]]; by vm_compute in Hs.
    - intros ->. rewrite !elem_of_cons, elem_of_nil in Hs. destruct Hs as [Hs|[Hs|[Hs|[]]]]; by vm_compute in Hs. }
  unfold count_value. destruct (value_key num_str (scalar_kind s) o) as [k|] eqn:Hk; cbn [mbind result_mbind]; [|done].
  intros Ht. destruct (IH _ Ht) as (ks & Hks & ->). exists (k :: ks). split; [|done]. constructor; [|done].
  unfold doc_key. by rewrite Ho.
Qed.

(** A facet over an enum or boolean property counts documents: whatever
    other facets are computed with it, for every value that is not the name
    of an inherited property the facet has the number of the documents found
    that have it (a missing boolean counts as false, a missing enum as the
    empty string), and no entry when there are none. *)
Theorem facet_counts a docs n r (e : jsstr) cfg s :
  getFacets num_str toLowerCase a docs n = Ok r → NoDup n.*1 → (e, cfg) ∈ n →
  jm_get e a = Some s → s = js "enum" ∨ s = js "boolean" →
  ∃ f ks, (e, f) ∈ r ∧ Forall2 (λ t k, doc_key s e t = Ok k) docs ks ∧
    ∀ k, k ∉ inherited → jm_get k (f_values f) =
      match countb (λ k', bool_decide (k' = k)) ks with O => None | m => Some (FNum m) end.
Proof.
  intros Hr Hnd Hin Hs Hty. destruct (getFacets_one _ _ _ _ _ _ Hr Hnd Hin) as (v & i & Hv & Ht & Hf).
  rewrite Hs in *. assert (v = []) as ->.
  { unfold initial_values in Hv. rewrite decide_False in Hv; [by injection Hv as <-|]. intros [= ->]. by destruct Hty. }
  destruct (tally_scalar s cfg e docs [] i) as (ks & Hks & ->); [|done|].
  { rewrite !elem_of_cons. destruct Hty; auto. }
  eexists _, ks. split_and!; [exact Hf|done|]. intros k Hk. cbn [finish_facet f_values].
  rewrite decide_False by (intros [= ->]; by destruct Hty). by rewrite tally_keys_get.
Qed.

(** ** Ranges *)
Lemma count_ranges_get e r t k c :
  NoDup (range_key num_str <$> e) → jm_get k t = Some (FNum c) →
  jm_get k (count_ranges num_str e r t None).1 =
    Some (FNum (c + if existsb (λ o, bool_decide (range_key num_str o = k) && in_range r o) e then 1 else 0)).
Proof.
  revert t c. induction e as [|o e IH]; intros t c; cbn [count_ranges existsb].
  { intros _ Hk. by rewrite Nat.add_0_r. }
  rewrite fmap_cons, NoDup_cons. intros [Hni Hnd] Hk.
  destruct (in_range r o) eqn:Hr; rewrite ?andb_true_r, ?andb_false_r; [|by apply IH].
  destruct (decide (range_key num_str o = k)) as [<-|Hne].
  - rewrite (bool_decide_eq_true_2 (range_key num_str o = _)) by done. rewrite Hk. cbn [orb].
    rewrite (IH _ (S c)); [|done|by rewrite jm_get_set_eq].
    assert (existsb (λ o0, bool_decide (range_key num_str o0 = range_key num_str o) && in_range r o0) e = false) as ->.
    { apply not_true_iff_false. rewrite existsb_exists. intros (o' & Hin & Hb). apply andb_true_iff in Hb as [Hb _].
      apply bool_decide_eq_true in Hb. apply Hni. apply list_elem_of_fmap. exists o'. split; [done|]. by apply list_elem_of_In. }
    f_equal. f_equal. lia.
  - rewrite (bool_decide_eq_false_2 (range_key num_str o = k)) by done. cbn [orb].
    destruct (jm_get (range_key num_str o) t); (rewrite (IH _ c); [done|done|by rewrite jm_get_set_ne]).
Qed.

Lemma ranges_start ranges o :
  o ∈ ranges → jm_get (range_key num_str o) (foldl (λ m t, jm_set (range_key num_str t) (FNum 0) m) [] ranges) = Some (FNum 0).
Proof.
  assert (∀ l m k, jm_get k m = Some (FNum 0) ∨ k ∈ (range_key num_str <$> l) →
    jm_get k (foldl (λ m t, jm_set (range_key num_str t) (FNum 0) m) m l) = Some (FNum 0)) as Hl.
  { induction l as [|x l IH]; intros m k; cbn [foldl]; [intros [?|Hk]; [done|by apply elem_of_nil in Hk]|].
    rewrite fmap_cons, elem_of_cons. intros Hk. apply IH. rewrite jm_get_set.
    destruct (decide (k = range_key num_str x)); [by left|naive_solver]. }
  intros Ho. apply Hl. right. by apply list_elem_of_fmap_2.
Qed.

(** With different labels, a label finds its range. *)
Lemma range_hit ranges x o :
  NoDup (range_key num_str <$> ranges) → o ∈ ranges →
  existsb (λ o', bool_decide (range_key num_str o' = range_key num_str o) && in_range x o') ranges = in_range x o.
Proof.
  intros Hks Ho. apply Bool.eq_iff_eq_true. rewrite existsb_exists. setoid_rewrite <-list_elem_of_In. split.
  - intros (o' & Hin & Hb). apply andb_true_iff in Hb as [Hb Hx]. apply bool_decide_eq_true in Hb.
    assert (o' = o) as ->; [|done].
    destruct (proj1 (list_elem_of_lookup _ _) Hin) as [k1 Hk1]. destruct (proj1 (list_elem_of_lookup _ _) Ho) as [k2 Hk2].
    assert (k1 = k2) as ->; [|congruence].
    eapply NoDup_lookup; [exact Hks|..]; rewrite list_lookup_fmap; [by rewrite Hk1|rewrite Hk2; cbn [fmap option_fmap option_map]; by rewrite Hb].
  - intros Hx. exists o. by rewrite bool_decide_eq_true_2, Hx.
Qed.

Lemma tally_ranges cfg e ranges docs i i' (c : number * number → nat) :
  fc_ranges cfg = Some ranges → NoDup (range_key num_str <$> ranges) →
  (∀ o, o ∈ ranges → jm_get (range_key num_str o) i = Some (FNum (c o))) →
  tally (Some (js "number")) cfg e docs i = Ok i' →
  ∃ vs, Forall2 (λ t v, facet_value t e = Ok v) docs vs ∧
    ∀ o, o ∈ ranges → jm_get (range_key num_str o) i' = Some (FNum (c o + countb (λ v, in_range v o) vs)).
Proof.
  intros Hrs Hks. revert i c. induction docs as [|t docs IH]; intros i c Hi; cbn [tally].
  { intros [= <-]. exists []. split; [constructor|]. intros o Ho. rewrite Hi by done. f_equal. f_equal. cbn. lia. }
  destruct (facet_value t e) as [x|] eqn:Hx; cbn [mbind result_mbind]; [|done].
  unfold count_property. rewrite decide_True, Hrs by done. cbn [result_of_option mbind result_mbind]. intros Ht.
  destruct (IH (count_ranges num_str ranges x i None).1 (λ o, (c o + if in_range x o then 1 else 0)%nat)) as (vs & Hvs & Hi');
    [|done|].
  - intros o Ho. rewrite (count_ranges_get ranges x i _ (c o)), range_hit by auto. done.
  - exists (x :: vs). split; [by constructor|]. intros o Ho. rewrite (Hi' o Ho), countb_cons. f_equal. f_equal. lia.
Qed.

(** A facet over a number counts documents by ranges: for ranges with
    different labels, each range has the number of the documents found whose
    number lies between its bounds, both included, ranges without a document
    being listed with zero and documents without a number in none. *)
Theorem facet_ranges a docs n r (e : jsstr) cfg ranges :
  getFacets num_str toLowerCase a docs n = Ok r → NoDup n.*1 → (e, cfg) ∈ n →
  jm_get e a = Some (js "number") → fc_ranges cfg = Some ranges → NoDup (range_key num_str <$> ranges) →
  ∃ f vs, (e, f) ∈ r ∧ Forall2 (λ t v, facet_value t e = Ok v) docs vs ∧
    ∀ o, o ∈ ranges → jm_get (range_key num_str o) (f_values f) = Some (FNum (countb (λ v, in_range v o) vs)).
Proof.
  intros Hr Hnd Hin Hs Hrs Hks. destruct (getFacets_one _ _ _ _ _ _ Hr Hnd Hin) as (v & i & Hv & Ht & Hf).
  rewrite Hs in *. unfold initial_values in Hv. rewrite decide_True, Hrs in Hv by done.
  cbn [result_of_option mbind result_mbind] in Hv. injection Hv as <-.
  destruct (tally_ranges cfg e ranges docs _ i (λ _, 0%nat) Hrs Hks (ranges_start ranges) Ht) as (vs & Hvs & Hi).
  eexists _, vs. split_and!; [exact Hf|done|].
  intros o Ho. cbn [finish_facet f_values]. rewrite decide_False by done. by rewrite Hi.
Qed.
End facts.

(** ** Witnesses and examples *)
Definition no_num (n : number) : jsstr := [].
Definition cfg_default : facet_config := FacetConfig None (js "desc") 0 10.

Lemma facet_counts_witness :
  let doc s := JObj [(js "kind", JStr (js s))] in
  ∃ f, getFacets no_num id [(js "kind", js "enum")] [doc "a"; doc "b"; doc "a"] [(js "kind", cfg_default)] = Ok [(js "kind", f)] ∧
    jm_get (js "a") (f_values f) = Some (FNum 2).
Proof.
  set (docs := [JObj [(js "kind", JStr (js "a"))]; JObj [(js "kind", JStr (js "b"))]; JObj [(js "kind", JStr (js "a"))]]).
  assert (getFacets no_num id [(js "kind", js "enum")] docs [(js "kind", cfg_default)] =
    Ok [(js "kind", Facet 2 [(js "a", FNum 2); (js "b", FNum 1)])]) as Hr by (vm_compute; reflexivity).
  destruct (facet_counts no_num id [(js "kind", js "enum")] docs [(js "kind", cfg_default)] _ (js "kind") cfg_default (js "enum") Hr)
    as (f & ks & Hf & Hks & Hc).
  - apply NoDup_singleton.
  - by left.
  - reflexivity.
  - by left.
  - exists f. apply list_elem_of_singleton in Hf. split; [rewrite <-Hf in Hr; exact Hr|].
    rewrite Hc by (apply (bool_decide_unpack _); vm_compute; done).
    assert (ks = [js "a"; js "b"; js "a"]) as ->; [|vm_compute; reflexivity].
    inversion Hks as [|? k1 ? ? H1 Hks1]; subst. inversion Hks1 as [|? k2 ? ? H2 Hks2]; subst.
    inversion Hks2 as [|? k3 ? ? H3 Hks3]; subst. inversion Hks3; subst.
    vm_compute in H1, H2, H3. injection H1 as <-. injection H2 as <-. injection H3 as <-. reflexivity.
Defined.

(** A label that tells the ranges of the example apart. *)
Definition sign_str (n : number) : jsstr := js (if leb n num_zero then "low" else "high").

Lemma facet_ranges_witness :
  let doc n := JObj [(js "size", JNum (num_of_Z n))] in
  let ranges := [(num_of_Z (-5), num_zero); (num_of_Z 1, num_of_Z 5)] in
  let cfg := FacetConfig (Some ranges) (js "desc") 0 10 in
  ∃ r f, getFacets sign_str id [(js "size", js "number")] [doc 3; doc 4; doc (-1)] [(js "size", cfg)] = Ok r ∧
    (js "size", f) ∈ r ∧ is_Some (jm_get (js "high-high") (f_values f)).
Proof.
  set (ranges := [(num_of_Z (-5), num_zero); (num_of_Z 1, num_of_Z 5)]).
  set (cfg := FacetConfig (Some ranges) (js "desc") 0 10).
  set (docs := [JObj [(js "size", JNum (num_of_Z 3))]; JObj [(js "size", JNum (num_of_Z 4))]; JObj [(js "size", JNum (num_of_Z (-1)))]]).
  destruct (getFacets sign_str id [(js "size", js "number")] docs [(js "size", cfg)]) as [r|] eqn:Hr; [|by vm_compute in Hr].
  destruct (facet_ranges sign_str id [(js "size", js "number")] docs [(js "size", cfg)] r (js "size") cfg ranges Hr)
    as (f & vs & Hf & _ & Hc).
  - apply NoDup_singleton.
  - by left.
  - reflexivity.
  - reflexivity.
  - apply (bool_decide_unpack _). vm_compute. done.
  - exists r, f. split; [exact Hr|]. split; [exact Hf|].
    change (js "high-high") with (range_key sign_str (num_of_Z 1, num_of_Z 5)). rewrite Hc by (right; by left). by eexists.
Defined.

(** The code reads [offset] and [limit] as the two ends of a slice: a facet
    page that starts at or after its length is empty. *)
Theorem facet_page_empty toLowerCase cfg v :
  (fc_limit cfg ≤ fc_offset cfg)%nat → f_values (finish_facet toLowerCase (Some (js "string")) cfg v) = [].
Proof.
  intros Hle. unfold finish_facet. rewrite decide_True by done. cbn [f_values]. unfold slice.
  rewrite drop_ge; [done|]. rewrite length_take. lia.
Qed.

(** A facet over an array property fails when a document has no such array. *)
Theorem facet_missing_array num_str toLowerCase :
  getFacets num_str toLowerCase [(js "tags", js "string[]")] [JObj []] [(js "tags", cfg_default)] = Throw TypeError.
Proof. reflexivity. Qed.
