(* ===== verification/Groups.v ===== *)
(** * Groups of search results (functions [Rt] and [Mt])

    Results are grouped by the values of one or more properties; for every
    combination of values that occurs, the group holds the positions of its
    documents in the results. *)

From Stdlib Require Import SpecFloat.
From S2P Require Import Prelude JSColl JSNum Utils JSValue Schema Index.
Local Open Scope Z_scope.

(** A value results are grouped by. *)
Inductive gval := GStr (s : jsstr) | GNum (n : number) | GBool (b : bool).
#[global] Instance gval_eq_dec : EqDecision gval.
Proof. solve_decision. Defined.

(** A scalar as an element of a [Set], which holds no negative zero. *)
Definition as_gval (v : jsval) : result gval :=
  match v with
  | JStr s => Ok (GStr s)
  | JNum (S754_zero _) => Ok (GNum num_zero)
  | JNum n => Ok (GNum n)
  | JBool b => Ok (GBool b)
  | _ => ill_typed
  end.

(** Table [kt]. *)
Definition groupable : list jsstr := js <$> ["string"; "number"; "boolean"].

(** Function [Mt]: all ways to choose an element of each list; for no list the
    recursion of the code does not end. *)
Fixpoint combinations {A} (e : list (list A)) : result (list (list A)) :=
  match e with
  | [] => Throw (PlainError "Maximum call stack size exceeded")
  | [n] => Ok ((λ x, [x]) <$> n)
  | n :: e => r ← combinations e; Ok (n ≫= λ x, (λ t, x :: t) <$> r)
  end.

Section groups.
Context (num_str : number → jsstr).

(** A value as a property name. *)
Definition gkey (v : gval) : jsstr :=
  match v with
  | GStr s => s
  | GNum n => num_str n
  | GBool b => js (if b then "true" else "false")
  end.

(** The checks of the properties. *)
Fixpoint check_groups (s : list (jsstr * jsstr)) (r : list jsstr) : result unit :=
  match r with
  | [] => Ok tt
  | t :: r =>
      match jm_get t s with
      | None => Throw (OramaError "UNKNOWN_GROUP_BY_PROPERTY" [t])
      | Some ty => if bool_decide (ty ∈ groupable) then check_groups s r
                   else Throw (OramaError "INVALID_GROUP_BY_PROPERTY" [t; join_str (js ", ") groupable; ty])
      end
  end.

(** [perValue] of one property and the set of its values. *)
Record per_value := PerValue { pv_indexes : list (jsstr * list nat); pv_values : list gval }.

(** The document at position [e]; [l] is the limit per value, if any. *)
Definition add_to_groups (l : option nat) (e : nat) (t : jsstr) (doc : jsval) (n : per_value) : result per_value :=
  r ← getNested doc t;
  match r with
  | JUndef => Ok n
  | _ =>
      v ← as_gval r;
      let s := gkey v in
      match jm_get s (pv_indexes n) with
      | None => if bool_decide (s ∈ inherited) then Throw TypeError
                else Ok (PerValue (jm_set s [e] (pv_indexes n)) (set_add v (pv_values n)))
      | Some i =>
          if match l with Some l => (l <=? length i)%nat | None => false end then Ok n
          else Ok (PerValue (jm_set s (i ++ [e]) (pv_indexes n)) (set_add v (pv_values n)))
      end
  end.

Fixpoint group_property (l : option nat) (e : nat) (t : jsstr) (docs : list jsval) (n : per_value) : result per_value :=
  match docs with
  | [] => Ok n
  | doc :: docs => n ← add_to_groups l e t doc n; group_property l (S e) t docs n
  end.

Fixpoint group_properties (l : option nat) (r : list jsstr) (docs : list jsval) : result (list per_value) :=
  match r with
  | [] => Ok []
  | t :: r => n ← group_property l 0 t docs (PerValue [] []); ns ← group_properties l r docs; Ok (n :: ns)
  end.

(** The positions of one combination of values. *)
Definition group_indexes (f : list per_value) (t : list gval) : list nat :=
  js_sort Nat.leb (intersect (zip_with (λ n v, default [] (jm_get (gkey v) (pv_indexes n))) f t)).

(** The combinations that occur, with their positions. *)
Definition nonempty_groups (f : list per_value) (d : list (list gval)) : list (list gval * list nat) :=
  List.filter (λ p, negb (length p.2 =? 0)%nat) ((λ t, (t, group_indexes f t)) <$> d).

Definition find_groups (s : list (jsstr * jsstr)) (r : list jsstr) (maxResult : nat) (docs : list jsval) :
    result (list (list gval * list nat)) :=
  check_groups s r;;
  f ← group_properties (match maxResult with O => None | m => Some m end) r docs;
  d ← combinations (pv_values <$> f);
  Ok (nonempty_groups f d).

(** Reducing the members of each group; table [Pt] is the default: an array of
    the members. *)
Section reduce.
Context {H R : Type} (reducer : list gval → R → H → nat → R) (getInitialValue : nat → R).

Fixpoint reduce_members (values : list gval) (k : nat) (l : list H) (t : R) : R :=
  match l with
  | [] => t
  | n :: l => reduce_members values (S k) l (reducer values t n k)
  end.

(** Function [Rt]; [a] are the hits. *)
Definition getGroups (s : list (jsstr * jsstr)) (r : list jsstr) (maxResult : nat) (docs : list jsval) (a : list H) :
    result (list (list gval * R)) :=
  p ← find_groups s r maxResult docs;
  Ok (fmap (M := list) (λ g : list gval * list nat,
    (g.1, reduce_members g.1 0 (omap (M := list) (λ e, a !! e) g.2) (getInitialValue (length g.2)))) p).
End reduce.

Definition default_reducer {H} (values : list gval) (t : list (option H)) (n : H) (r : nat) : list (option H) :=
  <[r := Some n]> t.
Definition default_initial {H} (e : nat) : list (option H) := replicate e None.
End groups.
