(* ===== verification/GroupsTheorems.v ===== *)
(** * Groups are the classes of documents with equal values *)

From Stdlib Require Import SpecFloat.
From S2P Require Import Prelude JSColl JSNum Utils JSValue Schema Index Groups.
Local Open Scope Z_scope.

(** ** Combinations *)
Lemma combinations_elem {A} (e d : list (list A)) t :
  combinations e = Ok d → t ∈ d ↔ Forall2 (λ x n, x ∈ n) t e.
Proof.
  revert d t. induction e as [|n e IH]; intros d t; [done|]. destruct e as [|n' e].
  - cbn. intros [= <-]. rewrite list_elem_of_fmap. split.
    + intros (x & -> & Hx). repeat constructor. done.
    + inversion 1 as [|x ? l ? Hx Hl]; subst. inversion Hl; subst. by exists x.
  - remember (n' :: e) as e' eqn:He'.
    assert (combinations (n :: e') = (r ← combinations e'; Ok (n ≫= λ x, (λ t, x :: t) <$> r))) as -> by by subst.
    destruct (combinations e') as [r|] eqn:Hr; cbn [mbind result_mbind]; [|done]. intros [= <-].
    rewrite list_elem_of_bind. setoid_rewrite list_elem_of_fmap. split.
    + intros (x & (t' & -> & Ht') & Hx). constructor; [done|]. by apply (IH r).
    + inversion 1 as [|x ? l ? Hx Hl]; subst. exists x. split; [|done]. exists l. split; [done|]. by apply (IH r).
Qed.

Lemma combinations_NoDup {A} (e d : list (list A)) :
  combinations e = Ok d → Forall NoDup e → NoDup d.
Proof.
  revert d. induction e as [|n e IH]; intros d; [done|]. rewrite Forall_cons. intros Hd [Hn He].
  destruct e as [|n' e].
  - cbn in Hd. injection Hd as <-. apply NoDup_fmap_2; [by intros ?? [= ->]|done].
  - remember (n' :: e) as e' eqn:He'.
    assert (combinations (n :: e') = (r ← combinations e'; Ok (n ≫= λ x, (λ t, x :: t) <$> r))) as Hc by by subst.
    rewrite Hc in Hd. destruct (combinations e') as [r|] eqn:Hr; cbn [mbind result_mbind] in Hd; [|done].
    injection Hd as <-. specialize (IH r eq_refl He). clear -Hn IH.
    induction Hn as [|x n Hx Hn IHn]; [constructor|]. rewrite bind_cons. apply NoDup_app. split_and!; [|..|done].
    + apply NoDup_fmap_2; [by intros ?? [= ->]|done].
    + intros t Ht Hin. apply list_elem_of_fmap in Ht as (l & -> & _). apply list_elem_of_bind in Hin as (y & Hy & Hyn).
      apply list_elem_of_fmap in Hy as (l' & [= <- _] & _). done.
Qed.

Lemma sort_nat_sorted l : StronglySorted (λ a b, (a ≤ b)%nat) (js_sort Nat.leb l).
Proof.
  assert (StronglySorted (λ a b, Nat.leb a b = true) (js_sort Nat.leb l)) as Hs.
  { apply js_sort_sorted; intros a b; [|intros c; rewrite !Nat.leb_le; lia].
    destruct (Nat.le_ge_cases a b); [left|right]; by apply Nat.leb_le. }
  induction Hs as [|a l' Hs IH Ha]; constructor; [done|].
  eapply Forall_impl; [exact Ha|]. intros b. apply Nat.leb_le.
Qed.

Section facts.
Context (num_str : number → jsstr).

(** ** The values of documents *)
Definition doc_value (t : jsstr) (doc : jsval) : result (option gval) :=
  r ← getNested doc t;
  match r with JUndef => Ok None | _ => v ← as_gval r; Ok (Some v) end.

Definition has_value (t : jsstr) (doc : jsval) (v : gval) : Prop := doc_value t doc = Ok (Some v).

(** The positions, from [e] on, of the documents whose value has key [s]. *)
Fixpoint positions (t s : jsstr) (e : nat) (docs : list jsval) : list nat :=
  match docs with
  | [] => []
  | doc :: docs =>
      match doc_value t doc with
      | Ok (Some v) => if decide (gkey num_str v = s) then e :: positions t s (S e) docs else positions t s (S e) docs
      | _ => positions t s (S e) docs
      end
  end.

Lemma positions_elem t s e docs k :
  k ∈ positions t s e docs ↔ ∃ i doc v, k = (e + i)%nat ∧ docs !! i = Some doc ∧ has_value t doc v ∧ gkey num_str v = s.
Proof.
  unfold has_value. revert e. induction docs as [|doc docs IH]; intros e; cbn [positions].
  { split; [intros Hk; by apply elem_of_nil in Hk|]. by intros (i & ? & ? & _ & ? & _). }
  assert ((∃ i doc0 v, k = (e + i)%nat ∧ (doc :: docs) !! i = Some doc0 ∧ doc_value t doc0 = Ok (Some v) ∧ gkey num_str v = s) ↔
    (k = e ∧ ∃ v, doc_value t doc = Ok (Some v) ∧ gkey num_str v = s) ∨ k ∈ positions t s (S e) docs) as ->.
  { rewrite IH. split.
    - intros ([|i] & doc0 & v & -> & Hi & Hv & Hs); simpl in Hi.
      + injection Hi as <-. left. split; [lia|eauto].
      + right. exists i, doc0, v. split_and!; [lia|done..].
    - intros [[-> (v & Hv & Hs)]|(i & doc0 & v & -> & Hi & Hv & Hs)].
      + exists 0%nat, doc, v. split_and!; [lia|done..].
      + exists (S i), doc0, v. split_and!; [lia|done..]. }
  destruct (doc_value t doc) as [[v|]|] eqn:Hd; [destruct (decide (gkey num_str v = s)) as [Hs|Hs]|..]; rewrite ?elem_of_cons.
  - split; [intros [->|]; [left; split; [done|by exists v]|by right]|intros [[-> _]|]; [by left|by right]].
  - split; [by right|]. intros [(_ & w & [= <-] & ?)|]; done.
  - split; [by right|]. intros [(_ & w & ? & ?)|]; done.
  - split; [by right|]. intros [(_ & w & ? & ?)|]; done.
Qed.

Lemma positions_NoDup t s e docs : NoDup (positions t s e docs).
Proof.
  revert e. induction docs as [|doc docs IH]; intros e; cbn [positions]; [constructor|].
  assert (e ∉ positions t s (S e) docs) by (rewrite positions_elem; intros (i & ? & ? & ? & _); lia).
  destruct (doc_value t doc) as [[v|]|]; [destruct (decide _)|..]; [constructor|..]; auto.
Qed.

(** ** One property *)
Lemma add_to_groups_value e t doc n n' :
  add_to_groups num_str None e t doc n = Ok n' →
  match doc_value t doc with
  | Ok None => n' = n
  | Ok (Some v) => pv_values n' = set_add v (pv_values n) ∧
      ∀ s, default [] (jm_get s (pv_indexes n')) = default [] (jm_get s (pv_indexes n)) ++ if decide (gkey num_str v = s) then [e] else []
  | Throw _ => False
  end.
Proof.
  unfold add_to_groups, doc_value. destruct (getNested doc t) as [r|]; cbn [mbind result_mbind]; [|done].
  assert (∀ (x : result per_value) (y : result (option gval)) (P : result (option gval) → Prop),
    (r = JUndef → P (Ok None)) → (r ≠ JUndef → P y) → P (match r with JUndef => Ok None | _ => y end)) as Hm.
  { intros x y P H1 H2. destruct r; auto. }
  destruct (as_gval r) as [v|] eqn:Hv; cbn [mbind result_mbind].
  - assert (r ≠ JUndef) as Hr by by intros ->.
    assert (∀ A (x y : A), match r with JUndef => x | _ => y end = y) as -> by (intros; by destruct r).
    assert (∀ A (x y : A), match r with JUndef => x | _ => y end = y) as -> by (intros; by destruct r).
    destruct (jm_get (gkey num_str v) (pv_indexes n)) as [i|] eqn:Hi; [|destruct (bool_decide _); [done|]];
      intros [= <-]; cbn [pv_indexes pv_values]; (split; [done|]); intros s; rewrite jm_get_set;
      destruct (decide (s = gkey num_str v)) as [->|]; rewrite ?decide_True, ?decide_False, ?app_nil_r by congruence; try done.
    all: by rewrite Hi.
  - destruct r; try done. by intros [= <-].
Qed.

Lemma group_property_spec e t docs n n' :
  group_property num_str None e t docs n = Ok n' →
  (∀ v, v ∈ pv_values n' ↔ v ∈ pv_values n ∨ ∃ doc, doc ∈ docs ∧ has_value t doc v) ∧
  (∀ s, default [] (jm_get s (pv_indexes n')) = default [] (jm_get s (pv_indexes n)) ++ positions t s e docs) ∧
  (NoDup (pv_values n) → NoDup (pv_values n')).
Proof.
  revert e n. induction docs as [|doc docs IH]; intros e n; cbn [group_property].
  { intros [= <-]. split_and!; [|intros; by rewrite app_nil_r|done]. intros v. split; [by left|].
    intros [?|(? & Hin & _)]; [done|by apply elem_of_nil in Hin]. }
  destruct (add_to_groups num_str None e t doc n) as [n1|] eqn:H1; cbn [mbind result_mbind]; [|done].
  intros Hr. destruct (IH _ _ Hr) as (Hv & Hs & Hnd). apply add_to_groups_value in H1. cbn [positions]. unfold has_value.
  setoid_rewrite elem_of_cons. unfold has_value in Hv.
  destruct (doc_value t doc) as [[v|]|] eqn:Hd; [|subst n1|done].
  - destruct H1 as [Hv1 Hs1]. split_and!.
    + intros w. rewrite Hv, Hv1, elem_of_set_add. split.
      * intros [[->|?]|(d & ? & ?)]; [right; exists doc; split; [by left|done]|by left|].
        right. exists d. split; [by right|done].
      * intros [?|(d & [->|?] & ?)]; [by left; right| |].
        -- left. left. congruence.
        -- right. by exists d.
    + intros s. rewrite Hs, Hs1, <-(assoc_L (++)). f_equal. by destruct (decide (gkey num_str v = s)).
    + intros ?. apply Hnd. rewrite Hv1. by apply NoDup_set_add.
  - split_and!; [|done|done]. intros w. rewrite Hv. split.
    + intros [?|(d & ? & ?)]; [by left|]. right. exists d. split; [by right|done].
    + intros [?|(d & [->|?] & ?)]; [by left|congruence|]. right. by exists d.
Qed.

Lemma group_properties_spec r docs f :
  group_properties num_str None r docs = Ok f →
  Forall2 (λ t n, group_property num_str None 0 t docs (PerValue [] []) = Ok n) r f.
Proof.
  revert f. induction r as [|t r IH]; intros f; cbn [group_properties]; [intros [= <-]; constructor|].
  destruct (group_property num_str None 0 t docs _) as [n|] eqn:Hn; cbn [mbind result_mbind]; [|done].
  destruct (group_properties num_str None r docs) as [ns|]; cbn [mbind result_mbind]; [|done].
  intros [= <-]. constructor; auto.
Qed.

(** Values of a property with the same name are equal. *)
Definition keys_tell (r : list jsstr) (docs : list jsval) : Prop :=
  ∀ t d d' v w, t ∈ r → d ∈ docs → d' ∈ docs → has_value t d v → has_value t d' w →
    gkey num_str v = gkey num_str w → v = w.

Definition has_values (r : list jsstr) (doc : jsval) (vs : list gval) : Prop := Forall2 (λ t v, has_value t doc v) r vs.

Lemma group_indexes_spec r docs f vs k :
  r ≠ [] → keys_tell r docs →
  Forall2 (λ t n, group_property num_str None 0 t docs (PerValue [] []) = Ok n) r f →
  Forall2 (λ x n, x ∈ n) vs (pv_values <$> f) →
  k ∈ group_indexes num_str f vs ↔ ∃ doc, docs !! k = Some doc ∧ has_values r doc vs.
Proof.
  intros Hr Hk Hf Hvs. unfold group_indexes. rewrite js_sort_perm, (proj1 (intersect_elem _)).
  assert (zip_with (λ n v, default [] (jm_get (gkey num_str v) (pv_indexes n))) f vs ≠ []) as Hne.
  { destruct Hf; [done|]. cbn in Hvs. inversion Hvs; subst. done. }
  assert ((∀ l, l ∈ zip_with (λ n v, default [] (jm_get (gkey num_str v) (pv_indexes n))) f vs → k ∈ l) ↔
    Forall2 (λ t v, ∃ doc, docs !! k = Some doc ∧ has_value t doc v) r vs) as ->.
  { clear Hne Hr. revert vs Hvs. induction Hf as [|t n r f Hn Hf IH]; intros vs Hvs; cbn in Hvs; inversion Hvs as [|v ? vs' ? Hv Hvs']; subst.
    { split; [constructor|]. intros _ l Hl. by apply elem_of_nil in Hl. }
    cbn [zip_with]. setoid_rewrite elem_of_cons.
    assert (Forall2 (λ t v, ∃ doc, docs !! k = Some doc ∧ has_value t doc v) (t :: r) (v :: vs') ↔
      (∃ doc, docs !! k = Some doc ∧ has_value t doc v) ∧ Forall2 (λ t v, ∃ doc, docs !! k = Some doc ∧ has_value t doc v) r vs') as ->.
    { split; [by inversion 1|by intros []; constructor]. }
    rewrite <-IH by (try done; intros ?????? ; apply Hk; by right).
    destruct (group_property_spec _ _ _ _ _ Hn) as (Hval & Hpos & _).
    assert (k ∈ default [] (jm_get (gkey num_str v) (pv_indexes n)) ↔ ∃ doc, docs !! k = Some doc ∧ has_value t doc v) as Hkv.
    { rewrite Hpos. cbn [pv_indexes jm_get from_option app]. rewrite positions_elem.
      apply Hval in Hv as [Hv|(d & Hd & Hv)]; [by apply elem_of_nil in Hv|]. split.
      - intros (i & doc & w & -> & Hi & Hw & Hs). exists doc. split; [done|].
        rewrite (Hk t d doc v w); [done|by left|done|by eapply list_elem_of_lookup_2|done..].
      - intros (doc & Hdoc & Hv'). exists k, doc, v. done. }
    naive_solver. }
  unfold has_values. split.
  - intros [_ Hall]. destruct (docs !! k) as [doc|] eqn:Hd.
    + exists doc. split; [done|]. eapply Forall2_impl; [exact Hall|]. intros t v (d & [= <-] & ?). done.
    + destruct Hall as [|t v ? ? (d & ? & _)]; done.
  - intros (doc & Hd & Hall). split; [done|]. eapply Forall2_impl; [exact Hall|]. intros t v Hv. by exists doc.
Qed.

(** C38. Grouping without a limit yields the classes of results with equal
    values: no combination of values is listed twice, each listed group is
    not empty, sorted, and holds exactly the positions of the documents with
    these values for all properties, and every document that has values for
    all properties is in the group of its values. *)
Theorem groups_spec (s : list (jsstr * jsstr)) (r : list jsstr) (docs : list jsval) (p : list (list gval * list nat)) :
  find_groups num_str s r 0 docs = Ok p → keys_tell r docs →
  NoDup p.*1 ∧
  (∀ vs idx, (vs, idx) ∈ p → idx ≠ [] ∧ StronglySorted (λ a b, (a ≤ b)%nat) idx ∧
     ∀ k, k ∈ idx ↔ ∃ doc, docs !! k = Some doc ∧ has_values r doc vs) ∧
  (∀ k doc vs, docs !! k = Some doc → has_values r doc vs → ∃ idx, (vs, idx) ∈ p ∧ k ∈ idx).
Proof.
  intros Hp Hkeys. unfold find_groups in Hp. destruct (check_groups s r); cbn [mbind result_mbind] in Hp; [|done].
  destruct (group_properties num_str None r docs) as [f|] eqn:Hf; cbn [mbind result_mbind] in Hp; [|done].
  destruct (combinations (pv_values <$> f)) as [d|] eqn:Hd; cbn [mbind result_mbind] in Hp; [|done].
  injection Hp as <-. apply group_properties_spec in Hf.
  assert (r ≠ []) as Hr by (intros ->; inversion Hf; by subst).
  assert (∀ vs, vs ∈ d ↔ Forall2 (λ x n, x ∈ n) vs (pv_values <$> f)) as Hin by (intros; by apply combinations_elem).
  assert (∀ vs k, vs ∈ d → k ∈ group_indexes num_str f vs ↔ ∃ doc, docs !! k = Some doc ∧ has_values r doc vs) as Hidx.
  { intros vs k Hvs. apply group_indexes_spec; [done..|]. by apply Hin. }
  assert (∀ vs idx, (vs, idx) ∈ nonempty_groups num_str f d ↔ vs ∈ d ∧ idx = group_indexes num_str f vs ∧ idx ≠ []) as Hg.
  { intros vs idx. unfold nonempty_groups. rewrite list_elem_of_In, filter_In, <-list_elem_of_In, list_elem_of_fmap. cbn [snd].
    assert (negb (length idx =? 0)%nat = true ↔ idx ≠ []) as -> by (by destruct idx). naive_solver. }
  split_and!.
  - unfold nonempty_groups. assert (NoDup d) as Hnd.
    { apply (combinations_NoDup (pv_values <$> f)); [done|]. clear -Hf. induction Hf as [|t n r f Hn Hf IH]; cbn; constructor; [|done].
      apply (group_property_spec _ _ _ _ _ Hn). constructor. }
    clear -Hnd. induction Hnd as [|vs d Hvs Hnd IH]; cbn; [constructor|].
    destruct (negb _); cbn; [|done]. constructor; [|done]. intros Hin.
    apply list_elem_of_fmap in Hin as ([vs' idx] & Heq & Hin). cbn in Heq. subst vs'.
    rewrite list_elem_of_In, filter_In, <-list_elem_of_In, list_elem_of_fmap in Hin. destruct Hin as [(? & [= <- _] & ?) _]. done.
  - intros vs idx (Hvs & -> & Hne)%Hg. split_and!; [done| |intros; by apply Hidx].
    apply sort_nat_sorted.
  - intros k doc vs Hk Hvs. assert (vs ∈ d) as Hvd.
    { apply Hin. clear -Hf Hk Hvs. revert vs Hvs. induction Hf as [|t n r f Hn Hf IH]; intros vs Hvs; inversion Hvs; subst; cbn; constructor; [|by apply IH].
      apply (group_property_spec _ _ _ _ _ Hn). right. exists doc. split; [by eapply list_elem_of_lookup_2|done]. }
    assert (k ∈ group_indexes num_str f vs) as Hki by (apply Hidx; [done|by exists doc]).
    exists (group_indexes num_str f vs). split; [|done]. apply Hg. split_and!; [done|done|]. intros He. rewrite He in Hki. by apply elem_of_nil in Hki.
Qed.
End facts.

Lemma groups_spec_witness :
  let doc s b := JObj [(js "kind", JStr (js s)); (js "open", JBool b)] in
  let docs := [doc "a" true; doc "b" true; doc "a" false; doc "a" true] in
  let keys := [js "kind"; js "open"] in
  ∃ p, find_groups (λ _, []) [(js "kind", js "string"); (js "open", js "boolean")] keys 0 docs = Ok p ∧ NoDup p.*1 ∧
    ([GStr (js "a"); GBool true], [0; 3]%nat) ∈ p.
Proof.
  set (doc := λ s b, JObj [(js "kind", JStr (js s)); (js "open", JBool b)]).
  set (docs := [doc "a" true; doc "b" true; doc "a" false; doc "a" true]).
  set (keys := [js "kind"; js "open"]). set (types := [(js "kind", js "string"); (js "open", js "boolean")]).
  assert (find_groups (λ _, []) types keys 0 docs = Ok
    [([GStr (js "a"); GBool true], [0; 3]%nat); ([GStr (js "a"); GBool false], [2]%nat);
     ([GStr (js "b"); GBool true], [1]%nat)]) as Hp by (vm_compute; reflexivity).
  assert (∀ d, d ∈ docs → ∃ s b, doc_value (js "kind") d = Ok (Some (GStr s)) ∧ doc_value (js "open") d = Ok (Some (GBool b))) as Hd.
  { intros d Hd. unfold docs in Hd. repeat (apply elem_of_cons in Hd as [->|Hd]); [..|by apply elem_of_nil in Hd].
    all: vm_compute; by eexists _, _. }
  pose proof (groups_spec (λ _, []) types keys docs _ Hp) as Hg.
  eexists. split; [exact Hp|]. split; [apply Hg|by left].
  intros t d d' v w Ht Hin Hin' Hv Hw. unfold has_value in *.
  destruct (Hd d Hin) as (s & b & Hs & Hb), (Hd d' Hin') as (s' & b' & Hs' & Hb').
  repeat (apply elem_of_cons in Ht as [->|Ht]); [..|by apply elem_of_nil in Ht].
  - rewrite Hs in Hv. rewrite Hs' in Hw. injection Hv as <-. injection Hw as <-. cbn. by intros ->.
  - rewrite Hb in Hv. rewrite Hb' in Hw. injection Hv as <-. injection Hw as <-. by destruct b, b'.
Defined.
