(* ===== verification/Search.v ===== *)
(** * Search modes: full text with facets, groups and distinct values,
    vector, hybrid (functions [Ct], [Ut], [Bt], [jt], [Wt], [Vt])

    [Database.fullTextSearch] is the part of [Ct] that pages through results;
    here is the whole of it, next to the other two modes, over the same
    database. A comparator given by the caller is a parameter, as the
    reduction of groups is. *)

From Stdlib Require Import SpecFloat.
From S2P Require Import Prelude JSColl JSNum Utils JSValue Vector Schema Store Index Sorter Database Facets Groups.
Local Open Scope Z_scope.

(** [t.groupBy] with its reduction. *)
Record group_by (R : Type) := GroupBy {
  gb_properties : list jsstr;
  gb_maxResult : nat;                                  (* 0 when absent *)
  gb_reducer : list gval → R → found_doc → nat → R;
  gb_initial : nat → R;
}.
Arguments GroupBy {R}. Arguments gb_properties {R}. Arguments gb_maxResult {R}.
Arguments gb_reducer {R}. Arguments gb_initial {R}.

(** A result with its document, as a comparator of the caller sees it. *)
Definition ranked_doc : Type := (Z * number) * option jsval.

(** The parameters next to [search_params]. *)
Record more_params (R : Type) := MoreParams {
  mp_mode : option jsstr;
  mp_vector : option (list (jsstr * jsval));
  mp_similarity : option number;
  mp_hybridWeights : option (number * number);         (* text and vector *)
  mp_distinctOn : option jsstr;
  mp_facets : list (jsstr * facet_config);
  mp_groupBy : option (group_by R);
  mp_compare : option (ranked_doc → ranked_doc → bool);
}.
Arguments MoreParams {R}. Arguments mp_mode {R}. Arguments mp_vector {R}. Arguments mp_similarity {R}.
Arguments mp_hybridWeights {R}. Arguments mp_distinctOn {R}. Arguments mp_facets {R}.
Arguments mp_groupBy {R}. Arguments mp_compare {R}.

Record search_results (R : Type) := SearchResults {
  sr_count : nat;
  sr_hits : list found_doc;
  sr_facets : option (list (jsstr * facet));
  sr_groups : option (list (list gval * R));
}.
Arguments SearchResults {R}. Arguments sr_count {R}. Arguments sr_hits {R}.
Arguments sr_facets {R}. Arguments sr_groups {R}.

(** [documentsStore.getMultiple(docs, t)] *)
Definition m_getMultiple (t : list docref) : M db (list (option jsval)) := λ e,
  let '(i, l) := docs_getMultiple (st_ids (db_ist e)) (db_docs e) t in
  (set_ist (Ist i (st_cache (db_ist e)) (st_index (db_ist e))) e, Ok l).

(** [F(e.internalDocumentIDStore, t)] for every result *)
Fixpoint m_ids (t : list (Z * number)) : M db (list jsstr) :=
  match t with
  | [] => mret []
  | (n, _) :: t =>
      s ← gets (λ e, st_ids (db_ist e));
      id ← lift (getDocumentIdFromInternalId s n);
      id ← lift (of_option id);
      l ← m_ids t; mret (id :: l)
  end.

Definition property_types : M db (list (jsstr * jsstr)) :=
  gets (λ e, searchablePropertiesWithTypes (st_index (db_ist e))).

Section search.
Context (ic : index_component) (localeCompare : jsstr → jsstr → jsstr → Z).
Context (num_str : number → jsstr) (toLowerCase : jsstr → jsstr).

(** [Dt(e, d, t.facets)] *)
Definition m_facets (d : list (Z * number)) (n : list (jsstr * facet_config)) : M db (option (list (jsstr * facet))) :=
  match n with
  | [] => mret None
  | _ =>
      s ← m_getMultiple (RefNum <$> d.*1);
      a ← property_types;
      r ← lift (getFacets num_str toLowerCase a (default JUndef <$> s) n); mret (Some r)
  end.

(** [Rt(e, d, t.groupBy)] *)
Definition m_groups {R} (d : list (Z * number)) (g : option (group_by R)) : M db (option (list (list gval * R))) :=
  match g with
  | None => mret None
  | Some g =>
      s ← property_types;
      lift (check_groups s (gb_properties g));;
      i ← m_ids d;
      a ← m_getMultiple (RefStr <$> i);
      let hits := zip_with (λ i p, FoundDoc (Some i) p.1 p.2) i (zip d.*2 a) in
      r ← lift (getGroups num_str (gb_reducer g) (gb_initial g) s (gb_properties g) (gb_maxResult g)
                  (default JUndef <$> a) hits);
      mret (Some r)
  end.

(** ** Full text *)

(** The value of [distinctOn] as a key of a [Map]; an object or array is equal
    to no other. *)
Inductive dkey := DVal (g : gval) | DNull.
#[global] Instance dkey_eq_dec : EqDecision dkey.
Proof. solve_decision. Defined.
Definition distinct_key (g : jsval) : option dkey :=
  match g with
  | JNull => Some DNull
  | _ => match as_gval g with Ok v => Some (DVal v) | Throw _ => None end
  end.
Definition key_seen (k : option dkey) (i : list dkey) : bool :=
  match k with Some k => set_has k i | None => false end.
Definition key_add (k : option dkey) (i : list dkey) : list dkey :=
  match k with Some k => set_add k i | None => i end.

(** The loop of [distinctOn]: [n] results to skip, [r] to return, [i] the
    values seen, [c] the documents returned, [u] the number of values seen. *)
Fixpoint fetchDistinct (n r : nat) (o : jsstr) (t : list (Z * number)) (i : list dkey) (c : list Z) (u : nat) :
    M db (list (Z * found_doc)) :=
  match t with
  | [] => mret []
  | (d, h) :: t =>
      if set_has d c then fetchDistinct n r o t i c u
      else
        p ← m_get_doc (RefNum d);
        g ← lift (getNested (default JUndef p) o);
        match g with
        | JUndef => fetchDistinct n r o t i c u
        | _ =>
            let k := distinct_key g in
            if key_seen k i then fetchDistinct n r o t i c u
            else
              let i := key_add k i in
              let u := S u in
              if (u <=? n)%nat then fetchDistinct n r o t i c u
              else
                s ← gets (λ e, st_ids (db_ist e));
                id ← lift (getDocumentIdFromInternalId s d);
                let hit := (d, FoundDoc id h p) in
                if (n + r <=? u)%nat then mret [hit]
                else l ← fetchDistinct n r o t i (set_add d c) u; mret (hit :: l)
        end
  end.

(** The three orders of the results. *)
Definition sort_results {R} (t : search_params) (x : more_params R) (d : list (Z * number)) : M db (list (Z * number)) :=
  match mp_compare x, sp_sortBy t with
  | Some le, _ => s ← m_getMultiple (RefNum <$> d.*1); mret (js_sort le (zip d s)).*1
  | None, Some (p, desc) =>
      s ← gets db_sorting;
      '(s, d) ← lift (sortBy localeCompare s d p desc);
      modify (set_sorting s);; mret d
  | None, None => mret (js_sort sortTokenScorePredicate d)
  end.

(** The hits of a page, without their vectors unless asked for. *)
Definition page_hits {R} (t : search_params) (x : more_params R) (d : list (Z * number)) : M db (list (Z * found_doc)) :=
  match mp_distinctOn x with
  | Some c => fetchDistinct (sp_offset t) (sp_limit t) c d [] [] 0
  | None =>
      let page := take (sp_limit t) (drop (sp_offset t) d) in
      f ← fetchDocuments page []; mret (zip (set_of page.*1) f)
  end.
Definition hide_vectors (show : bool) (o : list jsstr) (f : list (Z * found_doc)) : M db (list found_doc) :=
  if show then mret f.*2
  else if (length o =? 0)%nat then mret (copy_document <$> f.*2) else removeVectorsFromHits f o.

(** Function [Ct]. *)
Definition search_fulltext {R} (t : search_params) (x : more_params R) (n : option jsstr) : M db (search_results R) :=
  o ← gets (λ e, (vectorIndexes (st_index (db_ist e))).*1);
  d ← innerFullTextSearch ic t n;
  d ← sort_results t x d;
  hits ← (if sp_preflight t then mret [] else f ← page_hits t x d; hide_vectors (sp_includeVectors t) o f);
  f ← m_facets d (mp_facets x);
  g ← m_groups d (mp_groupBy x);
  mret (SearchResults (length d) hits f g).

(** ** Vectors, function [Ut] *)
Definition innerVectorSearch {R} (t : search_params) (x : more_params R) (n : option jsstr) : M db (list (Z * number)) :=
  match mp_vector x with
  | None => throw TypeError
  | Some r =>
      if negb (jm_has (js "value") r) || negb (jm_has (js "property") r)
      then throw (OramaError "INVALID_VECTOR_INPUT" [join_str (js ", ") r.*1])
      else
        match jm_get (js "property") r, jm_get (js "value") r with
        | Some (JStr p), Some v =>
            o ← gets (λ e, jm_get p (vectorIndexes (st_index (db_ist e))));
            o ← lift (result_of_option TypeError o);
            v ← lift (match v with
                      | JArr l => of_option (as_numbers l)
                      | JUndef | JNull => Throw TypeError
                      | _ => ill_typed
                      end);
            if negb (length v =? v_size o)%nat
            then throw (OramaError "INVALID_INPUT_VECTOR" [p; nat_str (v_size o); nat_str (length v)])
            else
              a ← (if (0 <? length (sp_where t))%nat
                   then a ← in_index (ic_where ic (sp_where t) n); mret (Some a) else mret None);
              mret (vector_find o v (default (num_dec 8 1) (mp_similarity x)) a)
        | _, _ => lift ill_typed
        end
  end.

(** The page of the vector mode; hiding a vector writes [null] into the
    property of the stored document that has the vector's name. *)
Fixpoint vector_hits (i : jsstr) (a : bool) (o : list (Z * number)) : M db (list found_doc) :=
  match o with
  | [] => mret []
  | (n, score) :: o =>
      r ← gets (λ e, docs_map (db_docs e) !! n);
      match r with
      | None => vector_hits i a o
      | Some r =>
          let r := if a then r else match r with JObj f => JObj (jm_set i JNull f) | r => r end in
          modify (λ e, set_docs_store (Docs (<[n := r]> (docs_map (db_docs e))) (docs_count (db_docs e))) e);;
          s ← gets (λ e, st_ids (db_ist e));
          id ← lift (getDocumentIdFromInternalId s n);
          l ← vector_hits i a o;
          mret (FoundDoc id score (Some r) :: l)
      end
  end.

(** The vector mode is given no language: its default is used. *)
Definition search_vector {R} (t : search_params) (x : more_params R) : M db (search_results R) :=
  o ← innerVectorSearch t x (Some (js "english"));
  let o := js_sort sortTokenScorePredicate o in
  s ← m_facets o (mp_facets x);
  i ← lift (of_option (r ← mp_vector x; v ← jm_get (js "property") r; match v with JStr i => Some i | _ => None end));
  u ← vector_hits i (sp_includeVectors t) (take (sp_limit t) (drop (sp_offset t) o));
  f ← m_groups o (mp_groupBy x);
  mret (SearchResults (length o) u (Some (default [] s)) (Some (default [] f))).

(** ** Hybrid, functions [Bt], [jt], [Wt] *)

(** [Math.max.apply(Math, l)] *)
Definition num_max (a b : number) : number :=
  match a, b with
  | S754_nan, _ | _, S754_nan => S754_nan
  | S754_zero s, S754_zero s' => S754_zero (s && s')
  | _, _ => if leb b a then a else b
  end.
Definition js_max (l : list number) : number := foldl num_max num_neg_infinity l.

Definition extractScore (e : Z * number) : number := e.2.
Definition normalizeScore (e t : number) : number := num_div e t.

(** Scores by their share of the largest. *)
Definition minMaxScoreNormalization (e : list (Z * number)) : list (Z * number) :=
  let t := js_max (extractScore <$> e) in (λ p, (p.1, num_div p.2 t)) <$> e.

Definition hybrid_weights (r : option (number * number)) : number * number :=
  match r with
  | Some (text, vector) => if truthy (JNum text) && truthy (JNum vector) then (text, vector) else (num_dec 5 1, num_dec 5 1)
  | None => (num_dec 5 1, num_dec 5 1)
  end.
Definition hybrid_score (w : number * number) (n r : number) : number :=
  num_add (num_mul n w.1) (num_mul r w.2).

(** The two lists merged into one map. *)
Definition text_scores (w : number * number) (e : list (Z * number)) : list (Z * number) :=
  let o := js_max (extractScore <$> e) in
  foldl (λ l p, jm_set p.1 (hybrid_score w (normalizeScore p.2 o) num_zero) l) [] e.
Definition add_vector_scores (w : number * number) (t l : list (Z * number)) : list (Z * number) :=
  let s := js_max (extractScore <$> t) in
  foldl (λ l p, jm_set p.1 (num_add (default num_zero (jm_get p.1 l)) (hybrid_score w num_zero (normalizeScore p.2 s))) l) l t.
Definition mergeAndRankResults (e t : list (Z * number)) (r : option (number * number)) : list (Z * number) :=
  let w := hybrid_weights r in
  js_sort by_score (add_vector_scores w t (text_scores w e)).

Definition innerHybridSearch {R} (t : search_params) (x : more_params R) (n : option jsstr) : M db (list (Z * number)) :=
  r ← innerFullTextSearch ic t n;
  o ← innerVectorSearch t x n;
  mret (mergeAndRankResults (minMaxScoreNormalization r) o (mp_hybridWeights x)).

Definition search_hybrid {R} (t : search_params) (x : more_params R) (n : option jsstr) : M db (search_results R) :=
  o ← innerHybridSearch t x n;
  s ← m_facets o (mp_facets x);
  i ← m_groups o (mp_groupBy x);
  let page := take (sp_limit t) (drop (sp_offset t) o) in
  f ← fetchDocuments page [];
  v ← gets (λ e, (vectorIndexes (st_index (db_ist e))).*1);
  l ← hide_vectors (sp_includeVectors t) v (zip (set_of page.*1) f);
  mret (SearchResults (length o) l s i).

(** Function [Vt]. *)
Definition searchDocuments {R} (t : search_params) (x : more_params R) (n : option jsstr) : M db (search_results R) :=
  let r := default (js "fulltext") (mp_mode x) in
  if decide (r = js "fulltext") then search_fulltext t x n
  else if decide (r = js "vector") then search_vector t x
  else if decide (r = js "hybrid") then search_hybrid t x n
  else throw (OramaError "INVALID_SEARCH_MODE" [r]).
End search.
