(* ===== verification/SearchTheorems.v ===== *)
(** * What the search modes return *)

From Stdlib Require Import SpecFloat.
From S2P Require Import Prelude JSColl JSNum NumFacts Utils JSValue Vector Schema Store Index Sorter Database BKD BKDTheorems Tokenizer TextIndex DatabaseTheorems Adapter AdapterTheorems Facets Groups Search.
Local Open Scope Z_scope.

(** ** Full text without the other parameters is the paging of the database *)
Definition plain_params {R} : more_params R := MoreParams None None None None None [] None None.

(** A page has as many hits as distinct documents. *)
Lemma fetch_length t i e e' f :
  fetchDocuments t i e = (e', Ok f) → (length (set_add_all t.*1 i) = length i + length f)%nat.
Proof.
  revert i e e' f. induction t as [|[r c] t IH]; intros i e e' f; cbn [fetchDocuments].
  { intros [= <- <-]. cbn. lia. }
  rewrite fmap_cons. change (set_add_all ((r, c).1 :: t.*1) i) with (set_add_all t.*1 (set_add r i)).
  destruct (set_has r i) eqn:Hr; [apply set_has_spec in Hr; rewrite set_add_present by done; apply IH|].
  unfold mbind, M_mbind, gets, lift. destruct (m_get_doc _ _) as [e1 [d|]]; [|done].
  destruct (getDocumentIdFromInternalId _ _); [|done].
  destruct (fetchDocuments t (set_add r i) e1) as [e2 [l|]] eqn:Hl; [|done]. intros [= <- <-].
  rewrite (IH _ _ _ _ Hl). unfold set_add. rewrite Hr, length_app. cbn. lia.
Qed.

Lemma search_fulltext_plain R ic localeCompare num_str toLowerCase t n e :
  search_fulltext ic localeCompare num_str toLowerCase t (plain_params (R := R)) n e =
  match fullTextSearch ic localeCompare t n e with
  | (e', Ok (h, c)) => (e', Ok (SearchResults c h None None))
  | (e', Throw x) => (e', Throw x)
  end.
Proof.
  assert (∀ (d : list (Z * number)) o e, let page := take (sp_limit t) (drop (sp_offset t) d) in
    (f ← (f ← fetchDocuments page []; mret (zip (set_of page.*1) f)); hide_vectors (sp_includeVectors t) o f) e =
    (f ← fetchDocuments page []; if sp_includeVectors t then mret f
      else if (length o =? 0)%nat then mret (copy_document <$> f)
      else removeVectorsFromHits (zip (set_of page.*1) f) o) e) as Hpage.
  { intros d o e0 page. unfold hide_vectors. rewrite !M_bind_eq.
    destruct (fetchDocuments page [] e0) as [e2 [f|]] eqn:Hf; [|done]. cbn.
    rewrite snd_zip; [done|]. apply fetch_length in Hf. unfold set_of. cbn in Hf. lia. }
  unfold search_fulltext, fullTextSearch, sort_results, page_hits. cbn [mp_compare mp_distinctOn mp_facets mp_groupBy plain_params].
  rewrite !M_bind_eq. cbn [gets]. set (o := (vectorIndexes _).*1).
  rewrite !M_bind_eq. destruct (innerFullTextSearch ic t n e) as [e1 [d|x]]; [|done].
  rewrite !M_bind_eq.
  match goal with |- context [match ?m e1 with _ => _ end] => destruct (m e1) as [e2 [d'|]]; [|done] end.
  rewrite M_bind_eq. specialize (Hpage d' o e2). destruct (sp_preflight t); [done|]. cbv zeta in Hpage |- *.
  rewrite Hpage, !M_bind_eq. destruct (fetchDocuments _ _ _) as [e3 [f|]]; [|done].
  destruct (sp_includeVectors t); [done|]. destruct (_ =? _)%nat; [done|].
  rewrite M_bind_eq. by destruct (removeVectorsFromHits _ _ _) as [? []].
Qed.

(** ** Hybrid *)
Lemma text_scores_map w e :
  NoDup e.*1 →
  text_scores w e = (λ p, (p.1, hybrid_score w (normalizeScore p.2 (js_max (extractScore <$> e))) num_zero)) <$> e.
Proof.
  intros Hnd. unfold text_scores. set (o := js_max _). set (h := λ p : Z * number, (p.1, hybrid_score w (normalizeScore p.2 o) num_zero)).
  transitivity (foldl (λ t p, jm_set p.1 p.2 t) [] (h <$> e)).
  - unfold h. clearbody o. clear. generalize (@nil (Z * number)) as l. induction e as [|p e IH]; intros l; [done|]. cbn. apply IH.
  - apply jm_set_fold. unfold jm_wf. rewrite app_nil_l, <-list_fmap_compose. exact Hnd.
Qed.

(** Adding to scores, document by document. *)
Lemma add_scores_spec (f : number → number) (t l : list (Z * number)) :
  NoDup t.*1 →
  (foldl (λ l p, jm_set p.1 (num_add (default num_zero (jm_get p.1 l)) (f p.2)) l) l t).*1 = set_add_all t.*1 l.*1 ∧
  ∀ d, jm_get d (foldl (λ l p, jm_set p.1 (num_add (default num_zero (jm_get p.1 l)) (f p.2)) l) l t) =
    match jm_get d t with
    | Some y => Some (num_add (default num_zero (jm_get d l)) (f y))
    | None => jm_get d l
    end.
Proof.
  revert l. induction t as [|[k y] t IH]; intros l; [done|]. rewrite fmap_cons. intros [Hk Hnd]%NoDup_cons.
  cbn [foldl fst snd] in Hk |- *. destruct (IH (jm_set k (num_add (default num_zero (jm_get k l)) (f y)) l) Hnd) as [Hkeys Hget].
  split; [rewrite Hkeys, jm_set_keys; done|]. intros d. rewrite Hget, jm_get_set. cbn [jm_get].
  destruct (decide (d = k)) as [->|].
  - rewrite (proj2 (jm_get_None k t)) by done. done.
  - done.
Qed.

(** The score of a document found by text, by vector, or both. *)
Definition merged_score (w : number * number) (e t : list (Z * number)) (d : Z) : option number :=
  let text := (λ x, hybrid_score w (normalizeScore x (js_max (extractScore <$> e))) num_zero) <$> jm_get d e in
  match jm_get d t with
  | Some y => Some (num_add (default num_zero text) (hybrid_score w num_zero (normalizeScore y (js_max (extractScore <$> t)))))
  | None => text
  end.

Lemma jm_get_map (g : number → number) (e : list (Z * number)) d :
  jm_get d ((λ p, (p.1, g p.2)) <$> e) = g <$> jm_get d e.
Proof. induction e as [|[k x] e IH]; [done|]. csimpl. by destruct (decide (d = k)). Qed.

Lemma merged_spec w e t :
  NoDup e.*1 → NoDup t.*1 →
  let r := add_vector_scores w t (text_scores w e) in
  NoDup r.*1 ∧ (∀ d, d ∈ r.*1 ↔ d ∈ e.*1 ∨ d ∈ t.*1) ∧ ∀ d, jm_get d r = merged_score w e t d.
Proof.
  intros He Ht r. unfold r, add_vector_scores, merged_score. rewrite text_scores_map by done.
  set (h := λ x : number, hybrid_score w (normalizeScore x (js_max (extractScore <$> e))) num_zero).
  set (l := (λ p : Z * number, (p.1, hybrid_score w (normalizeScore p.2 (js_max (extractScore <$> e))) num_zero)) <$> e).
  assert (l.*1 = e.*1) as Hl by (unfold l; by rewrite <-list_fmap_compose).
  destruct (add_scores_spec (λ y, hybrid_score w num_zero (normalizeScore y (js_max (extractScore <$> t)))) t l Ht) as [Hk Hg].
  split_and!.
  - rewrite Hk, Hl. by apply NoDup_set_add_all.
  - intros d. rewrite Hk, Hl, elem_of_set_add_all. tauto.
  - intros d. rewrite Hg. unfold l. by rewrite (jm_get_map h).
Qed.

Lemma by_score_sorted l :
  Forall (λ p, nonneg p.2) l → StronglySorted (λ a b, by_score a b = true) (js_sort by_score l).
Proof.
  intros Hl. apply (js_sort_sorted_on by_score (λ p, nonneg p.2)); [..|done]; unfold by_score.
  - intros a b Ha Hb. rewrite !sub_sign, !negb_true_iff by done.
    pose proof (ltb_asym (Num a.2 (nonneg_not_nan _ Ha)) (Num b.2 (nonneg_not_nan _ Hb))) as H1. cbn in H1.
    destruct (SFltb a.2 b.2) eqn:H2; [right; by apply H1|by left].
  - intros a b c Ha Hb Hc. rewrite !sub_sign, !negb_true_iff by done. intros H1 H2.
    pose proof (ltb_split (Num a.2 (nonneg_not_nan _ Ha)) (Num b.2 (nonneg_not_nan _ Hb)) (Num c.2 (nonneg_not_nan _ Hc))) as H3.
    cbn in H1, H2, H3 |- *. destruct (SFltb a.2 c.2); [|done]. destruct (H3 eq_refl); congruence.
Qed.

(** C19. The hybrid mode merges the two searches: its results are exactly the
    documents found by text or by vector, each once; the score of a document
    is the weighted sum of its share of the best text score and its share of
    the best vector score, a search that did not find it adding nothing; and
    the results are in the order of their scores. *)
Theorem hybrid_merge (e t : list (Z * number)) (r : option (number * number)) :
  NoDup e.*1 → NoDup t.*1 →
  let l := mergeAndRankResults e t r in
  NoDup l.*1 ∧ (∀ d, d ∈ l.*1 ↔ d ∈ e.*1 ∨ d ∈ t.*1) ∧
  (∀ d s, (d, s) ∈ l ↔ merged_score (hybrid_weights r) e t d = Some s) ∧
  (Forall (λ p, nonneg p.2) l → StronglySorted (λ a b, by_score a b = true) l).
Proof.
  intros He Ht l. unfold l, mergeAndRankResults. destruct (merged_spec (hybrid_weights r) e t He Ht) as (Hnd & Hin & Hget).
  set (m := add_vector_scores _ _ _) in *. split_and!.
  - by rewrite js_sort_perm.
  - intros d. by rewrite js_sort_perm.
  - intros d s. rewrite js_sort_perm, <-Hget. by rewrite jm_get_elem.
  - intros Hl. apply by_score_sorted. by rewrite js_sort_perm in Hl.
Qed.

Lemma hybrid_merge_witness :
  let e := [(1, num_of_Z 4); (2, num_of_Z 2)] in
  let t := [(2, num_dec 9 1); (3, num_dec 8 1)] in
  NoDup (mergeAndRankResults e t None).*1 ∧ (mergeAndRankResults e t None).*1 = [2; 1; 3].
Proof.
  set (e := [(1, num_of_Z 4); (2, num_of_Z 2)]). set (t := [(2, num_dec 9 1); (3, num_dec 8 1)]). cbv zeta. split.
  - apply (hybrid_merge e t None); (repeat constructor; rewrite ?elem_of_cons, elem_of_nil; naive_solver).
  - vm_compute. reflexivity.
Defined.

(** ** Hybrid without a term *)
Lemma sort_all_tied {A} (le : A → A → bool) (l : list A) :
  (∀ a b, a ∈ l → b ∈ l → le a b = true) → js_sort le l = l.
Proof.
  intros Hl. induction l as [|x l IH]; [done|].
  change (js_sort le (x :: l)) with (sort_insert le x (js_sort le l)). rewrite IH by (intros; apply Hl; by right).
  destruct l as [|y l]; [done|]. cbn [sort_insert]. rewrite Hl; [done|by left|by right; left].
Qed.

Lemma js_max_zeros (l : list Z) :
  js_max (extractScore <$> ((λ k, (k, num_zero)) <$> l)) = match l with [] => num_neg_infinity | _ => num_zero end.
Proof.
  unfold js_max. destruct l as [|k l]; [done|]. rewrite !fmap_cons. cbn [foldl].
  change (num_max num_neg_infinity (extractScore (k, num_zero))) with num_zero.
  induction l as [|k' l IH]; [done|]. rewrite !fmap_cons. exact IH.
Qed.

Lemma zero_shares (l : list Z) :
  minMaxScoreNormalization ((λ k, (k, num_zero)) <$> l) = (λ k, (k, S754_nan)) <$> l.
Proof.
  unfold minMaxScoreNormalization. rewrite js_max_zeros. destruct l as [|k l]; [done|].
  by rewrite <-list_fmap_compose.
Qed.

Lemma jm_all_equal (v : number) (m : list (Z * number)) :
  (∀ d x, (d, x) ∈ m → x = v) → m = (λ k, (k, v)) <$> m.*1.
Proof.
  induction m as [|[k x] m IH]; intros Hm; [done|]. csimpl. f_equal; [|apply IH; intros d y Hy; apply (Hm d); by right].
  f_equal. apply (Hm k). by left.
Qed.

(** Without text scores the text's shares are 0 / 0, which is NaN for every
    document, and a vector score added to NaN is NaN: the results are all
    documents in the order of the store, whatever the vector. *)
Theorem hybrid_no_term (l : list Z) (t : list (Z * number)) (r : option (number * number)) :
  NoDup l → NoDup t.*1 → (∀ d, d ∈ t.*1 → d ∈ l) →
  mergeAndRankResults (minMaxScoreNormalization ((λ k, (k, num_zero)) <$> l)) t r = (λ k, (k, S754_nan)) <$> l.
Proof.
  intros Hl Ht Hsub. rewrite zero_shares. unfold mergeAndRankResults.
  set (e := (λ k, (k, S754_nan)) <$> l). assert (e.*1 = l) as He.
  { unfold e. rewrite <-list_fmap_compose. clear. induction l; csimpl; congruence. }
  destruct (merged_spec (hybrid_weights r) e t) as (Hnd & Hin & Hget); [by rewrite He|done|].
  set (m := add_vector_scores _ _ _) in *.
  assert (m.*1 = l) as Hm.
  { unfold m, add_vector_scores.
    destruct (add_scores_spec (λ y, hybrid_score (hybrid_weights r) num_zero (normalizeScore y (js_max (extractScore <$> t)))) t
      (text_scores (hybrid_weights r) e) Ht) as [-> _].
    rewrite text_scores_map by by rewrite He. rewrite <-list_fmap_compose.
    change (fst ∘ _) with (fst : Z * number → Z). rewrite He. by apply set_add_all_subset. }
  assert (∀ d x, (d, x) ∈ m → x = S754_nan) as Hnan.
  { intros d x Hx. assert (d ∈ l) as Hd by (rewrite <-Hm; apply list_elem_of_fmap; by exists (d, x)).
    apply jm_get_elem in Hx; [|done]. rewrite Hget in Hx. unfold merged_score in Hx.
    assert (jm_get d e = Some S754_nan) as Hde.
    { apply jm_get_elem; [unfold jm_wf; by rewrite He|]. apply list_elem_of_fmap. by exists d. }
    rewrite Hde in Hx. destruct (jm_get d t); injection Hx as <-; reflexivity. }
  rewrite (jm_all_equal S754_nan m Hnan) at 1. rewrite Hm. apply sort_all_tied.
  intros a b (k & -> & _)%list_elem_of_fmap (k' & -> & _)%list_elem_of_fmap. reflexivity.
Qed.

(** What [innerHybridSearch] gets from the text search when no term, property
    or filter is given. *)
Lemma inner_search_no_term ic t n e :
  sp_term t = [] → sp_star t = false → sp_properties t = None → sp_where t = [] →
  ∃ ps, innerFullTextSearch ic t n e = (set_props ps e, Ok ((λ k, (k, num_zero)) <$> docs_keys (db_docs e))).
Proof.
  intros Ht Hs Hp Hw. unfold innerFullTextSearch. rewrite Ht, Hs, Hp, Hw. rewrite M_bind_eq.
  assert (∃ ps i, properties_to_search e = (set_props ps e, Ok i)) as (ps & i & ->).
  { unfold properties_to_search. rewrite M_bind_eq. cbn [gets]. destruct (db_props e) as [i|] eqn:Hi.
    - exists (Some i), i. unfold mret, M_mret, set_props. rewrite <-Hi. by destruct e.
    - eexists _, _. reflexivity. }
  exists ps. reflexivity.
Qed.

(** ** Distinct values *)
Section distinct.
Context (e : db) (o : jsstr).

Definition stored_doc (d : Z) : option jsval := docs_map (db_docs e) !! d.
Definition value_of (d : Z) : result jsval := getNested (default JUndef (stored_doc d)) o.

(** The results with a value not seen before, for [seen] values. *)
Fixpoint representatives (seen : list dkey) (l : list (Z * number)) : list (Z * number) :=
  match l with
  | [] => []
  | p :: l =>
      match value_of p.1 with
      | Throw _ | Ok JUndef => representatives seen l
      | Ok g =>
          if key_seen (distinct_key g) seen then representatives seen l
          else p :: representatives (key_add (distinct_key g) seen) l
      end
  end.

(** A result that is stored, has an id and whose value can be read. *)
Definition readable (d : Z) : Prop :=
  1 ≤ d ≤ Z.of_nat (length (internalIdToId (st_ids (db_ist e)))) ∧ ∃ g, value_of d = Ok g.

Definition result_hit (p : Z * number) : Z * found_doc :=
  (p.1, FoundDoc (internalIdToId (st_ids (db_ist e)) !! Z.to_nat (p.1 - 1)) p.2 (stored_doc p.1)).

Lemma read_stored d : readable d → m_get_doc (RefNum d) e = (e, Ok (stored_doc d)).
Proof.
  intros [Hd _]. unfold m_get_doc, m_intern. rewrite M_bind_eq. cbn [getInternalDocumentId].
  rewrite (proj2 (Z.ltb_ge _ d)) by lia. unfold gets, set_ist, stored_doc. by destruct e as [? [] ? ? ? ?].
Qed.

Lemma undef_match {A} (g : jsval) (x y : A) :
  match g with JUndef => x | _ => y end = if bool_decide (typeof g = "undefined"%string) then x else y.
Proof. by destruct g. Qed.

Lemma distinct_run n r l i c u :
  (0 < r)%nat → (u < n + r)%nat → NoDup l.*1 → (∀ d, d ∈ l.*1 → readable d ∧ d ∉ c) →
  fetchDistinct n r o l i c u e = (e, Ok (result_hit <$> take (n + r - (n `max` u)) (drop (n - u) (representatives i l)))).
Proof.
  intros Hr. revert i c u. induction l as [|[d h] l IH]; intros i c u Hu Hnd Hl; cbn [fetchDistinct representatives].
  { by rewrite drop_nil, take_nil. }
  rewrite fmap_cons in Hnd, Hl. cbn [fst] in Hnd, Hl |- *. apply NoDup_cons in Hnd as [Hdl Hnd].
  destruct (Hl d ltac:(by left)) as [Hd Hc].
  assert (∀ d', d' ∈ l.*1 → readable d' ∧ d' ∉ c) as Hl' by (intros; apply Hl; by right).
  assert (set_has d c = false) as -> by (destruct (set_has d c) eqn:Hb; [by apply set_has_spec in Hb|done]).
  rewrite (M_bind_ok _ _ _ _ _ (read_stored d Hd)). rewrite M_bind_eq. fold (value_of d).
  destruct Hd as [Hd (g & Hg)]. rewrite Hg. cbn [lift].
  rewrite !undef_match. destruct (bool_decide _); [by apply IH|]. destruct (key_seen (distinct_key g) i); [by apply IH|].
  destruct (S u <=? n)%nat eqn:Hn; bool_to_prop.
  - rewrite IH by (done || lia). replace (n - u)%nat with (S (n - S u)) by lia. cbn [drop]. do 4 f_equal. lia.
  - rewrite M_bind_eq. cbn [gets]. rewrite M_bind_eq. unfold getDocumentIdFromInternalId.
    rewrite (proj2 (Z.ltb_ge _ d)), (proj2 (Z.ltb_ge _ 0)) by lia. cbn [lift].
    replace (n - u)%nat with 0%nat by lia. rewrite drop_0.
    destruct (n + r <=? S u)%nat eqn:Hs; bool_to_prop.
    + replace (n + r - n `max` u)%nat with 1%nat by lia. done.
    + rewrite M_bind_eq. rewrite IH; [|lia|done|].
      * replace (n + r - n `max` u)%nat with (S (n + r - n `max` S u)) by lia.
        replace (n - S u)%nat with 0%nat by lia. by rewrite drop_0.
      * intros d' Hd'. destruct (Hl' d' Hd') as [? ?]. split; [done|]. rewrite elem_of_set_add. naive_solver.
Qed.

Lemma representatives_sublist seen l : representatives seen l `sublist_of` l.
Proof.
  revert seen. induction l as [|p l IH]; intros seen; [done|]. cbn [representatives].
  destruct (value_of p.1) as [g|]; [|by apply sublist_cons].
  rewrite undef_match. destruct (bool_decide _); [by apply sublist_cons|].
  destruct (key_seen _ _); [by apply sublist_cons|by apply sublist_skip].
Qed.
End distinct.

Section pages.
Context (e : db) (o : jsstr).

Definition key_of (d : Z) : option dkey :=
  match value_of e o d with Ok g => distinct_key g | Throw _ => None end.

Lemma key_seen_spec k i : key_seen k i = true ↔ ∃ x, k = Some x ∧ x ∈ i.
Proof.
  destruct k as [k|]; cbn; [|by split; [|intros (? & ? & _)]]. rewrite set_has_spec. naive_solver.
Qed.

Lemma elem_of_key_add x k i : x ∈ key_add k i ↔ k = Some x ∨ x ∈ i.
Proof. destruct k as [k|]; cbn; [rewrite elem_of_set_add|]; naive_solver. Qed.

Lemma representatives_keys seen l :
  let keys := omap (M := list) (λ p : Z * number, key_of p.1) (representatives e o seen l) in
  NoDup keys ∧ (∀ k, k ∈ keys → k ∉ seen) ∧
  (∀ d k, d ∈ l.*1 → key_of d = Some k → k ∈ seen ∨ k ∈ keys).
Proof.
  revert seen. induction l as [|[d h] l IH]; intros seen; cbn [representatives].
  { split_and!; [constructor|intros k Hk; by apply elem_of_nil in Hk|intros d k Hd; by apply elem_of_nil in Hd]. }
  cbn [fst]. rewrite fmap_cons. cbn [fst].
  assert (∀ seen', (∀ k, key_of d = Some k → k ∈ seen') →
    let keys := omap (M := list) (λ p : Z * number, key_of p.1) (representatives e o seen' l) in
    NoDup keys ∧ (∀ k, k ∈ keys → k ∉ seen') ∧ (∀ d' k, d' ∈ d :: l.*1 → key_of d' = Some k → k ∈ seen' ∨ k ∈ keys)) as Hskip.
  { intros seen' Hd. destruct (IH seen') as (H1 & H2 & H3). split_and!; [done|done|].
    intros d' k [->|Hd']%elem_of_cons Hk; [left; by apply Hd|by apply (H3 d')]. }
  destruct (value_of e o d) as [g|] eqn:Hg; [|apply Hskip; unfold key_of; by rewrite Hg].
  assert (key_of d = distinct_key g) as Hkd by (unfold key_of; by rewrite Hg).
  rewrite undef_match. destruct (bool_decide (typeof g = _)) eqn:Hu.
  { apply bool_decide_eq_true in Hu. apply Hskip. rewrite Hkd. by destruct g. }
  destruct (key_seen (distinct_key g) seen) eqn:Hs.
  { apply Hskip. intros k Hk. apply key_seen_spec in Hs as (x & Hx & ?). congruence. }
  destruct (Hskip (key_add (distinct_key g) seen)) as (H1 & H2 & H3).
  { intros k Hk. apply elem_of_key_add. left. congruence. }
  assert (∀ l', omap (M := list) (λ p : Z * number, key_of p.1) ((d, h) :: l') =
    match distinct_key g with Some k => k :: omap (M := list) (λ p : Z * number, key_of p.1) l' | None => omap (M := list) (λ p : Z * number, key_of p.1) l' end) as ->.
  { intros l'. cbn. by rewrite Hkd. }
  destruct (distinct_key g) as [k|].
  - split_and!.
    + constructor; [|done]. intros Hk. apply H2 in Hk. apply Hk, elem_of_key_add. by left.
    + intros k' [->|Hk']%elem_of_cons.
      * intros Hin. assert (key_seen (Some k) seen = true) by (apply key_seen_spec; eauto). congruence.
      * intros Hin. apply (H2 k' Hk'), elem_of_key_add. by right.
    + intros d' k' Hd' Hk'. destruct (H3 d' k' Hd' Hk') as [[[= ->]|?]%elem_of_key_add|?].
      * right. by left.
      * by left.
      * right. by right.
  - split_and!; [done|done|exact H3].
Qed.
End pages.

(** Results with distinct values of a property: there is one list of
    representatives, in the order of the results, no two with the same value
    and with every value that occurs, and every offset and positive limit cut
    their page out of it; the search changes nothing. *)
Theorem distinct_pages (e : db) (o : jsstr) (l : list (Z * number)) :
  NoDup l.*1 → (∀ d, d ∈ l.*1 → readable e o d) →
  ∃ reps, reps `sublist_of` l ∧ NoDup (omap (M := list) (λ p : Z * number, key_of e o p.1) reps) ∧
    (∀ d k, d ∈ l.*1 → key_of e o d = Some k → ∃ p, p ∈ reps ∧ key_of e o p.1 = Some k) ∧
    ∀ offset limit, (0 < limit)%nat →
      fetchDistinct offset limit o l [] [] 0 e = (e, Ok (result_hit e <$> take limit (drop offset reps))).
Proof.
  intros Hnd Hl. exists (representatives e o [] l).
  destruct (representatives_keys e o [] l) as (H1 & _ & H3). split_and!; [apply representatives_sublist|done|..].
  - intros d k Hd Hk. destruct (H3 d k Hd Hk) as [Hin|Hin]; [by apply elem_of_nil in Hin|].
    apply list_elem_of_omap in Hin as (p & Hp & Hkp). eauto.
  - intros offset limit Hlim. rewrite distinct_run; [|done|lia|done|].
    + by rewrite Nat.max_0_r, Nat.sub_0_r, (Nat.add_comm offset), Nat.add_sub.
    + intros d Hd. split; [by apply Hl|apply not_elem_of_nil].
Qed.

(** A limit of 0 gives a page with one hit; without [distinctOn] it is empty. *)
Theorem distinct_limit_zero (e : db) (o : jsstr) (l : list (Z * number)) p reps :
  NoDup l.*1 → (∀ d, d ∈ l.*1 → readable e o d) → representatives e o [] l = p :: reps →
  fetchDistinct 0 0 o l [] [] 0 e = (e, Ok [result_hit e p]) ∧ fetchDocuments (take 0 (drop 0 l)) [] e = (e, Ok []).
Proof.
  intros Hnd Hl. split; [|done]. revert Hnd Hl H. induction l as [|[d h] l IH]; intros Hnd Hl; cbn [representatives fetchDistinct]; [done|].
  rewrite fmap_cons in Hnd, Hl. cbn [fst] in *. apply NoDup_cons in Hnd as [Hdl Hnd].
  assert (∀ d, d ∈ l.*1 → readable e o d) as Hl' by (intros; apply Hl; by right).
  destruct (Hl d ltac:(by left)) as [Hd (g & Hg)].
  assert (set_has d [] = false) as -> by (destruct (set_has d []) eqn:Hb; [apply set_has_spec, elem_of_nil in Hb|]; done).
  rewrite (M_bind_ok _ _ _ _ _ (read_stored e o d (Hl d ltac:(by left)))). rewrite M_bind_eq. fold (value_of e o d). rewrite Hg. cbn [lift].
  rewrite !undef_match. destruct (bool_decide (typeof g = _)); [by apply IH|].
  assert (key_seen (distinct_key g) [] = false) as ->.
  { destruct (key_seen _ []) eqn:Hs; [|done]. apply key_seen_spec in Hs as (? & _ & Hs). by apply elem_of_nil in Hs. }
  intros [= <- _]. cbn [Nat.leb]. rewrite M_bind_eq. cbn [gets]. rewrite M_bind_eq. unfold getDocumentIdFromInternalId.
  by rewrite (proj2 (Z.ltb_ge _ d)), (proj2 (Z.ltb_ge _ 0)) by lia.
Qed.

(** An engine whose store holds three documents, two of the same colour. *)
Definition colour_doc (s c : string) : jsval := JObj [(js "id", JStr (js s)); (js "colour", JStr (js c))].
Definition colour_db : db :=
  Db [(js "colour", SType (js "string"))]
    (Ist (Ids [(js "a", 1); (js "b", 2); (js "c", 3)] [js "a"; js "b"; js "c"]) [] empty_index)
    (Docs (<[1 := colour_doc "a" "red"]> (<[2 := colour_doc "b" "red"]> (<[3 := colour_doc "c" "blue"]> ∅))) 3)
    (new_sorter (js "en")) 0 None.
Definition colour_results : list (Z * number) := [(1, num_of_Z 3); (2, num_of_Z 2); (3, num_of_Z 1)].

Lemma colour_readable d : d ∈ colour_results.*1 → readable colour_db (js "colour") d.
Proof.
  intros Hd. repeat (apply elem_of_cons in Hd as [->|Hd]); [..|by apply elem_of_nil in Hd].
  all: split; [vm_compute; split; discriminate|eexists; vm_compute; reflexivity].
Qed.
Lemma colour_NoDup : NoDup colour_results.*1.
Proof. repeat constructor; rewrite ?elem_of_cons, elem_of_nil; naive_solver. Qed.

Lemma distinct_pages_witness :
  (∃ reps, reps `sublist_of` colour_results ∧
    fetchDistinct 1 5 (js "colour") colour_results [] [] 0 colour_db = (colour_db, Ok (result_hit colour_db <$> take 5 (drop 1 reps)))) ∧
  fst <$> (match (fetchDistinct 1 5 (js "colour") colour_results [] [] 0 colour_db).2 with Ok l => l | Throw _ => [] end) = [3].
Proof.
  split; [|vm_compute; reflexivity].
  destruct (distinct_pages colour_db (js "colour") colour_results colour_NoDup colour_readable) as (reps & Hs & _ & _ & Hp).
  exists reps. split; [exact Hs|]. apply Hp. lia.
Defined.

(** ** The vector mode *)
Lemma vector_hits_run (e : db) i (l : list (Z * number)) :
  (∀ d, d ∈ l.*1 → 1 ≤ d ≤ Z.of_nat (length (internalIdToId (st_ids (db_ist e)))) ∧ is_Some (stored_doc e d)) →
  vector_hits i true l e = (e, Ok ((λ p, (result_hit e p).2) <$> l)).
Proof.
  induction l as [|[d h] l IH]; intros Hl; cbn [vector_hits]; [done|]. rewrite fmap_cons in Hl. cbn [fst] in Hl.
  destruct (Hl d ltac:(by left)) as [Hd [r Hr]]. rewrite M_bind_eq. unfold gets at 1. fold (stored_doc e d). rewrite Hr.
  rewrite M_bind_eq. unfold modify at 1.
  assert (set_docs_store (Docs (<[d := r]> (docs_map (db_docs e))) (docs_count (db_docs e))) e = e) as ->.
  { rewrite insert_id by done. by destruct e as [? ? [] ? ? ?]. }
  rewrite M_bind_eq. cbn [gets]. rewrite M_bind_eq. unfold getDocumentIdFromInternalId.
  rewrite (proj2 (Z.ltb_ge _ d)), (proj2 (Z.ltb_ge _ 0)) by lia. cbn [lift].
  rewrite M_bind_eq, IH by (intros; apply Hl; by right).
  assert ((result_hit e (d, h)).2 = FoundDoc (internalIdToId (st_ids (db_ist e)) !! Z.to_nat (d - 1)) h (Some r)) as Hhit.
  { unfold result_hit. cbn [fst snd]. by rewrite Hr. }
  by rewrite fmap_cons, Hhit.
Qed.

Lemma vector_find_sublist (vi : vector_index Z) v t : (vector_find vi v t None).*1 `sublist_of` (vectors vi).*1.
Proof.
  unfold vector_find. set (q := to_float32 <$> v). generalize (vectors vi).*1 as a.
  assert (∀ a i, (foldl (λ i t', match jm_get t' (vectors vi) with
      | None => i
      | Some v => let f := similarity vi q v in if leb t f then i ++ [(t', f)] else i end) i a).*1 `sublist_of` i.*1 ++ a) as Hf.
  { induction a as [|x a IH]; intros i; cbn [foldl]; [by rewrite app_nil_r|]. etrans; [apply IH|].
    destruct (jm_get x (vectors vi)) as [w|]; [|apply sublist_app, sublist_cons; done]. cbv zeta.
    destruct (leb t (similarity vi q w)); [|apply sublist_app, sublist_cons; done].
    rewrite fmap_app, <-(assoc_L (++)). done. }
  intros a. apply (Hf a []).
Qed.

(** A vector query without the other parameters. *)
Record vector_query {R} (x : more_params R) (p : jsstr) (v : list number) : Prop := {
  vq_vector : mp_vector x = Some [(js "value", JArr (JNum <$> v)); (js "property", JStr p)];
  vq_facets : mp_facets x = [];
  vq_groups : mp_groupBy x = None;
}.

Lemma as_numbers_map v : as_numbers (JNum <$> v) = Some v.
Proof. induction v as [|n v IH]; [done|]. csimpl. by rewrite IH. Qed.

Lemma inner_vector_run {R} ic t (x : more_params R) n p v vi e :
  vector_query x p v → sp_where t = [] → jm_get p (vectorIndexes (st_index (db_ist e))) = Some vi → length v = v_size vi →
  innerVectorSearch ic t x n e = (e, Ok (vector_find vi v (default (num_dec 8 1) (mp_similarity x)) None)).
Proof.
  intros [Hx _ _] Hw Hp Hv. unfold innerVectorSearch. rewrite Hx.
  change (jm_has (js "value") _) with true. change (jm_has (js "property") _) with true. cbn [negb orb].
  change (jm_get (js "property") _) with (Some (JStr p)). change (jm_get (js "value") _) with (Some (JArr (JNum <$> v))).
  cbv beta iota. rewrite M_bind_eq. cbn [gets]. rewrite Hp. rewrite M_bind_eq. cbn [lift result_of_option].
  rewrite M_bind_eq. rewrite as_numbers_map. cbn [lift of_option]. rewrite Hv, Nat.eqb_refl. cbn [negb]. by rewrite Hw.
Qed.

(** The vector mode, asked for the vectors: the results are exactly the
    documents whose similarity to the query reaches the threshold, each once
    and with that similarity as its score, best first; the page holds the
    stored documents of its results, and the search changes nothing. *)
Theorem vector_search_spec {R} ic num_str toLowerCase t (x : more_params R) p v vi e :
  vector_query x p v → sp_where t = [] → sp_includeVectors t = true →
  jm_get p (vectorIndexes (st_index (db_ist e))) = Some vi → length v = v_size vi → jm_wf (vectors vi) →
  (∀ d, d ∈ (vectors vi).*1 → 1 ≤ d ≤ Z.of_nat (length (internalIdToId (st_ids (db_ist e)))) ∧ is_Some (stored_doc e d)) →
  ∃ r, NoDup r.*1 ∧
    (∀ d f, (d, f) ∈ r ↔ ∃ w, jm_get d (vectors vi) = Some w ∧ f = similarity vi (to_float32 <$> v) w ∧
                           leb (default (num_dec 8 1) (mp_similarity x)) f = true) ∧
    (Forall (λ p : Z * number, nonneg p.2) r → StronglySorted ranked r) ∧
    search_vector ic num_str toLowerCase t x e =
      (e, Ok (SearchResults (length r) ((λ p, (result_hit e p).2) <$> take (sp_limit t) (drop (sp_offset t) r)) (Some []) (Some []))).
Proof.
  intros Hx Hw Hinc Hp Hv Hwf Hst. set (l := vector_find vi v (default (num_dec 8 1) (mp_similarity x)) None).
  assert (∀ d f, (d, f) ∈ l ↔ ∃ w, jm_get d (vectors vi) = Some w ∧ f = similarity vi (to_float32 <$> v) w ∧
    leb (default (num_dec 8 1) (mp_similarity x)) f = true) as Hin.
  { intros d f. unfold l. rewrite vector_find_elem. tauto. }
  assert (NoDup l.*1) as Hnd.
  { unfold jm_wf in Hwf. eapply sublist_NoDup; [exact Hwf|apply vector_find_sublist]. }
  exists (js_sort sortTokenScorePredicate l). split_and!.
  - by rewrite js_sort_perm.
  - intros d f. by rewrite js_sort_perm.
  - intros Hok. apply sort_ranked. rewrite js_sort_perm in Hok. exact Hok.
  - unfold search_vector. rewrite (M_bind_ok _ _ _ _ _ (inner_vector_run _ _ _ _ _ _ _ _ Hx Hw Hp Hv)). fold l.
    destruct Hx as [Hx Hf Hg]. unfold m_facets, m_groups. rewrite Hf, Hg, Hinc, Hx. cbv zeta.
    rewrite (M_bind_ok (mret None) _ e e None eq_refl). rewrite (M_bind_ok (lift _) _ e e p eq_refl).
    rewrite M_bind_eq, vector_hits_run; [done|]. intros d Hd. apply Hst.
    assert (d ∈ l.*1) as Hdl.
    { rewrite <-(js_sort_perm sortTokenScorePredicate l). eapply elem_of_sublist; [exact Hd|].
      apply (fmap_sublist fst). etrans; [apply sublist_take|apply sublist_drop]. }
    apply list_elem_of_fmap in Hdl as ([d' f] & -> & (w & Hw' & _)%Hin). apply jm_get_Some_elem in Hw'.
    apply list_elem_of_fmap. by exists (d', w).
Qed.

Definition vector_db : db :=
  let vec a b := JArr [JNum (num_of_Z a); JNum (num_of_Z b)] in
  let doc s v := JObj [(js "id", JStr (js s)); (js "meta", JObj [(js "emb", v)])] in
  let vi := vector_add (vector_add (new_vector 2) 1 [num_of_Z 1; num_of_Z 0]) 2 [num_of_Z 0; num_of_Z 1] in
  Db [(js "meta", SNested [(js "emb", SType (js "vector[2]"))])]
    (Ist (Ids [(js "a", 1); (js "b", 2)] [js "a"; js "b"]) [] (set_vectorIndexes [(js "meta.emb", vi)] empty_index))
    (Docs (<[1 := doc "a" (vec 1 0)]> (<[2 := doc "b" (vec 0 1)]> ∅)) 2)
    (new_sorter (js "en")) 0 None.
Definition vector_request : more_params unit :=
  MoreParams (Some (js "vector"))
    (Some [(js "value", JArr (JNum <$> [num_of_Z 3; num_of_Z 1])); (js "property", JStr (js "meta.emb"))])
    None None None [] None None.
Definition all_params (include : bool) : search_params := {|
  sp_term := []; sp_properties := None; sp_star := false; sp_where := []; sp_exact := false; sp_tolerance := 0;
  sp_boost := []; sp_relevance := Relevance num_zero num_zero num_zero; sp_threshold := None; sp_sortBy := None;
  sp_limit := 10; sp_offset := 0; sp_includeVectors := include; sp_preflight := false |}.

Definition plain_component : index_component := default_index (H := no_math) true ascii_lower page_sep page_tokenizer.
Definition vector_mode (include : bool) : M db (search_results unit) :=
  search_vector plain_component (λ _, []) id (all_params include) vector_request.

Lemma vector_search_spec_witness :
  ∃ r, r.*1 = [1] ∧
    vector_mode true vector_db =
      (vector_db, Ok (SearchResults (length r) ((λ p, (result_hit vector_db p).2) <$> take 10 (drop 0 r)) (Some []) (Some []))).
Proof.
  destruct (jm_get (js "meta.emb") (vectorIndexes (st_index (db_ist vector_db)))) as [vi|] eqn:Hvi; [|by vm_compute in Hvi].
  assert ((vectors vi).*1 = [1; 2] ∧ v_size vi = 2%nat ∧
    (vector_find vi [num_of_Z 3; num_of_Z 1] (num_dec 8 1) None).*1 = [1]) as (Hk & Hsize & Hfound).
  { assert (Some vi = jm_get (js "meta.emb") (vectorIndexes (st_index (db_ist vector_db)))) as Hvi' by congruence.
    clear Hvi. vm_compute in Hvi'. injection Hvi' as ->. vm_compute. repeat split. }
  destruct (vector_search_spec plain_component (λ _, []) id (all_params true) vector_request (js "meta.emb")
    [num_of_Z 3; num_of_Z 1] vi vector_db) as (r & Hnd & Hr & _ & Hs).
  - split; reflexivity.
  - reflexivity.
  - reflexivity.
  - exact Hvi.
  - symmetry. exact Hsize.
  - unfold jm_wf. rewrite Hk. apply (bool_decide_unpack _). vm_compute. exact I.
  - rewrite Hk. intros d Hd. repeat (apply elem_of_cons in Hd as [->|Hd]); [..|by apply elem_of_nil in Hd].
    all: split; [vm_compute; split; discriminate|eexists; vm_compute; reflexivity].
  - exists r. split; [|exact Hs]. apply Permutation_singleton_r. rewrite <-Hfound.
    apply NoDup_Permutation; [done|rewrite Hfound; apply NoDup_singleton|]. intros d.
    rewrite !list_elem_of_fmap.
    split; intros ([d' f] & -> & Hin); exists (d', f); (split; [done|]).
    + apply vector_find_elem. split; [done|]. by apply Hr.
    + apply Hr. by apply vector_find_elem in Hin as [_ ?].
Defined.

(** Hiding the vector of a nested property writes [null] to a property of the
    stored document that has the whole path as its name; the vector itself is
    shown, and the added property stays. *)
Theorem vector_null_path :
  let doc o := JObj ([(js "id", JStr (js "a")); (js "meta", JObj [(js "emb", JArr [JNum (num_of_Z 1); JNum (num_of_Z 0)])])] ++ o) in
  stored_doc vector_db 1 = Some (doc []) ∧
  stored_doc (vector_mode false vector_db).1 1 = Some (doc [(js "meta.emb", JNull)]) ∧
  match (vector_mode false vector_db).2 with
  | Ok r => fd_document <$> sr_hits r = [Some (doc [(js "meta.emb", JNull)])]
  | Throw _ => False
  end.
Proof. vm_compute. repeat split. Qed.

(** ** Modes *)

(** Every request is answered by the search of its mode; a name that is no mode
    is refused without touching the database. *)
Theorem search_modes {R} ic localeCompare num_str toLowerCase t (x : more_params R) n e :
  (mp_mode x = None ∨ mp_mode x = Some (js "fulltext") →
     searchDocuments ic localeCompare num_str toLowerCase t x n e = search_fulltext ic localeCompare num_str toLowerCase t x n e) ∧
  (mp_mode x = Some (js "vector") →
     searchDocuments ic localeCompare num_str toLowerCase t x n e = search_vector ic num_str toLowerCase t x e) ∧
  (mp_mode x = Some (js "hybrid") →
     searchDocuments ic localeCompare num_str toLowerCase t x n e = search_hybrid ic num_str toLowerCase t x n e) ∧
  (∀ m, mp_mode x = Some m → m ∉ js <$> ["fulltext"; "vector"; "hybrid"] →
     searchDocuments ic localeCompare num_str toLowerCase t x n e = (e, Throw (OramaError "INVALID_SEARCH_MODE" [m]))).
Proof.
  unfold searchDocuments. split_and!.
  - by intros [-> | ->].
  - by intros ->.
  - by intros ->.
  - intros m -> Hm. cbn [default from_option]. rewrite !fmap_cons, !not_elem_of_cons in Hm. destruct Hm as (? & ? & ? & _).
    by rewrite !decide_False.
Qed.
