(* ===== verification/Errors.v ===== *)
(** * Errors (table [E], function [x])

    [x(code, ...args)] builds an error whose message is the code's text with
    its placeholders replaced by the arguments, in the manner of [sprintf]. In
    the texts below a backquote stands for a double quote. *)

From S2P Require Import Prelude JSColl JSValue Adapter.

(** A text with double quotes. *)
Definition msg (s : string) : jsstr := (λ c, if (c =? 96)%N then 34%N else c) <$> js s.

(** Table [E]. *)
Definition error_messages : list (string * jsstr) := [
  ("NO_LANGUAGE_WITH_CUSTOM_TOKENIZER", msg "Do not pass the language option to create when using a custom tokenizer.");
  ("LANGUAGE_NOT_SUPPORTED", msg "Language `%s` is not supported.
Supported languages are:
 - " ++ join_str (js "
 - ") languages);
  ("INVALID_STEMMER_FUNCTION_TYPE", msg "config.stemmer property must be a function.");
  ("MISSING_STEMMER", msg "As of version 1.0.0 @orama/orama does not ship non English stemmers by default. To solve this, please explicitly import and specify the `%s` stemmer from the package @orama/stemmers. See https://docs.orama.com/open-source/text-analysis/stemming for more information.");
  ("CUSTOM_STOP_WORDS_MUST_BE_FUNCTION_OR_ARRAY", msg "Custom stop words array must only contain strings.");
  ("UNSUPPORTED_COMPONENT", msg "Unsupported component `%s`.");
  ("COMPONENT_MUST_BE_FUNCTION", msg "The component `%s` must be a function.");
  ("COMPONENT_MUST_BE_FUNCTION_OR_ARRAY_FUNCTIONS", msg "The component `%s` must be a function or an array of functions.");
  ("INVALID_SCHEMA_TYPE", msg "Unsupported schema type `%s` at `%s`. Expected `string`, `boolean` or `number` or array of them.");
  ("DOCUMENT_ID_MUST_BE_STRING", msg "Document id must be of type `string`. Got `%s` instead.");
  ("DOCUMENT_ALREADY_EXISTS", msg "A document with id `%s` already exists.");
  ("DOCUMENT_DOES_NOT_EXIST", msg "A document with id `%s` does not exists.");
  ("MISSING_DOCUMENT_PROPERTY", msg "Missing searchable property `%s`.");
  ("INVALID_DOCUMENT_PROPERTY", msg "Invalid document property `%s`: expected `%s`, got `%s`");
  ("UNKNOWN_INDEX", msg "Invalid property name `%s`. Expected a wildcard string (`*`) or array containing one of the following properties: %s");
  ("INVALID_BOOST_VALUE", msg "Boost value must be a number greater than, or less than 0.");
  ("INVALID_FILTER_OPERATION", msg "You can only use one operation per filter, you requested %d.");
  ("SCHEMA_VALIDATION_FAILURE", msg "Cannot insert document due schema validation failure on `%s` property.");
  ("INVALID_SORT_SCHEMA_TYPE", msg "Unsupported sort schema type `%s` at `%s`. Expected `string` or `number`.");
  ("CANNOT_SORT_BY_ARRAY", msg "Cannot configure sort for `%s` because it is an array (%s).");
  ("UNABLE_TO_SORT_ON_UNKNOWN_FIELD", msg "Unable to sort on unknown field `%s`. Allowed fields: %s");
  ("SORT_DISABLED", msg "Sort is disabled. Please read the documentation at https://docs.oramasearch for more information.");
  ("UNKNOWN_GROUP_BY_PROPERTY", msg "Unknown groupBy property `%s`.");
  ("INVALID_GROUP_BY_PROPERTY", msg "Invalid groupBy property `%s`. Allowed types: `%s`, but given `%s`.");
  ("UNKNOWN_FILTER_PROPERTY", msg "Unknown filter property `%s`.");
  ("INVALID_VECTOR_SIZE", msg "Vector size must be a number greater than 0. Got `%s` instead.");
  ("INVALID_VECTOR_VALUE", msg "Vector value must be a number greater than 0. Got `%s` instead.");
  ("INVALID_INPUT_VECTOR", msg "Property `%s` was declared as a %s-dimensional vector, but got a %s-dimensional vector instead.
Input vectors must be of the size declared in the schema, as calculating similarity between vectors of different sizes can lead to unexpected results.");
  ("WRONG_SEARCH_PROPERTY_TYPE", msg "Property `%s` is not searchable. Only `string` properties are searchable.");
  ("FACET_NOT_SUPPORTED", msg "Facet doens't support the type `%s`.");
  ("INVALID_DISTANCE_SUFFIX", msg "Invalid distance suffix `%s`. Valid suffixes are: cm, m, km, mi, yd, ft.");
  ("INVALID_SEARCH_MODE", msg "Invalid search mode `%s`. Valid modes are: `fulltext`, `vector`, `hybrid`.");
  ("MISSING_VECTOR_AND_SECURE_PROXY", msg "No vector was provided and no secure proxy was configured. Please provide a vector or configure an Orama Secure Proxy to perform hybrid search.");
  ("MISSING_TERM", msg "`term` is a required parameter when performing hybrid search. Please provide a search term.");
  ("INVALID_VECTOR_INPUT", msg "Invalid `vector` property. Expected an object with `value` and `property` properties, but got `%s` instead.");
  ("PLUGIN_CRASHED", msg "A plugin crashed during initialization. Please check the error message for more information:");
  ("PLUGIN_SECURE_PROXY_NOT_FOUND", msg "Could not find '@orama/secure-proxy-plugin' installed in your Orama instance.
Please install it before proceeding with creating an answer session.
Read more at https://docs.orama.com/open-source/plugins/plugin-secure-proxy#plugin-secure-proxy
");
  ("PLUGIN_SECURE_PROXY_MISSING_CHAT_MODEL", msg "Could not find a chat model defined in the secure proxy plugin configuration.
Please provide a chat model before proceeding with creating an answer session.
Read more at https://docs.orama.com/open-source/plugins/plugin-secure-proxy#plugin-secure-proxy
");
  ("ANSWER_SESSION_LAST_MESSAGE_IS_NOT_ASSISTANT", msg "The last message in the session is not an assistant message. Cannot regenerate non-assistant messages.");
  ("PLUGIN_COMPONENT_CONFLICT", msg "The component `%s` is already defined. The plugin `%s` is trying to redefine it.")].

(** ** Placeholders *)
Definition is_digit (c : N) : bool := (48 <=? c)%N && (c <=? 57)%N.
Definition percent : N := 37.
Definition minus : N := 45.

Fixpoint take_digits (l : jsstr) : jsstr :=
  match l with c :: l => if is_digit c then c :: take_digits l else [] | [] => [] end.
Definition after_digits (l : jsstr) : jsstr := drop (length (take_digits l)) l.

(** [-?\d*\.?\d*] at the start of [l]. *)
Definition take_width (l : jsstr) : jsstr :=
  let sign := match l with c :: _ => if (c =? minus)%N then [c] else [] | [] => [] end in
  let l := drop (length sign) l in
  let whole := take_digits l in
  match after_digits l with
  | c :: l => if (c =? dot)%N then sign ++ whole ++ c :: take_digits l else sign ++ whole
  | [] => sign ++ whole
  end.

(** A placeholder: the number of an argument, a width, and a type. *)
Record placeholder := Placeholder { ph_position : option nat; ph_width : jsstr; ph_type : N }.

Definition is_type (c : N) : bool := bool_decide (c ∈ js "dfs").

(** The regular expression after its percent sign, with the number of units it
    takes. A position needs the dollar sign after its digits; without it the
    digits belong to the width. *)
Definition parse_placeholder (l : jsstr) : option (placeholder * nat) :=
  let d := take_digits l in
  let '(pos, skip) := match d, after_digits l with
                      | _ :: _, c :: _ => if (c =? 36)%N then (digits_value d 0, S (length d)) else (None, 0)
                      | _, _ => (None, 0)
                      end in
  let w := take_width (drop skip l) in
  match drop (skip + length w) l with
  | c :: _ => if is_type c then Some (Placeholder pos w c, S (skip + length w)) else None
  | [] => None
  end.

(** [Number.parseInt(r)], with 0 for no number as padding takes it. *)
Definition parse_int (r : jsstr) : Z :=
  match r with
  | c :: l => if (c =? minus)%N then - Z.of_nat (default 0%nat (digits_value (take_digits l) 0))
              else Z.of_nat (default 0%nat (digits_value (take_digits r) 0))
  | [] => 0
  end%Z.

(** [s.padStart(a, c)] and [s.padEnd(a, c)] *)
Definition padStart (a : Z) (c : N) (s : jsstr) : jsstr := replicate (Z.to_nat a - length s) c ++ s.
Definition padEnd (a : Z) (c : N) (s : jsstr) : jsstr := s ++ replicate (Z.to_nat a - length s) c.

(** The [switch] over the type, for an argument that is a string. *)
Definition format_argument (r : jsstr) (o : N) (i : jsstr) : result jsstr :=
  let a := parse_int r in
  if (o =? 100)%N then Ok (padStart a 48 i)
  else if (o =? 102)%N then
    match split_on dot r with
    | _ :: n :: _ => match n with [] => Ok (padStart a 48 i) | _ => Throw TypeError (* no [toFixed] *) end
    | _ => Ok (padStart a 48 i)
    end
  else Ok (if (a <? 0)%Z then padEnd (- a) 32 i else padStart a 32 i).

(** The replacement: [skip] units belong to the last placeholder, [t] are the
    arguments not yet taken. *)
Fixpoint sprintf (skip : nat) (e : jsstr) (t : list jsstr) : result jsstr :=
  match e with
  | [] => Ok []
  | c :: e =>
      match skip with
      | S skip => sprintf skip e t
      | O =>
          match (if (c =? percent)%N then parse_placeholder e else None) with
          | None => r ← sprintf 0 e t; Ok (c :: r)
          | Some (Placeholder pos w ty, n) =>
              let '(i, t) := match pos with
                             | Some p => (match p with O => None | S p => t !! p end, t)
                             | None => (head t, tail t)
                             end in
              i ← result_of_option TypeError i;
              i ← format_argument w ty i;
              r ← sprintf n e t;
              Ok (i ++ r)
          end
      end
  end.

(** Function [x]: the message of the error it builds. *)
Fixpoint lookup_message (e : string) (l : list (string * jsstr)) : jsstr :=
  match l with
  | [] => js "Unsupported Orama Error code: " ++ js e
  | (k, m) :: l => if decide (e = k) then m else lookup_message e l
  end.
Definition error_message (e : string) (t : list jsstr) : result jsstr := sprintf 0 (lookup_message e error_messages) t.

(** ** Plain placeholders *)

(** A text as pieces of plain text, each followed by an argument, and a last
    piece. *)
Fixpoint fill (pieces : list jsstr) (last : jsstr) (args : list jsstr) : jsstr :=
  match pieces, args with
  | p :: pieces, a :: args => p ++ a ++ fill pieces last args
  | _, _ => last
  end.

Definition plain_text (p : jsstr) : Prop := percent ∉ p.

(** The text itself, with [%s] or [%d] for the arguments. *)
Fixpoint template (pieces : list (jsstr * N)) (last : jsstr) : jsstr :=
  match pieces with
  | (p, ty) :: pieces => p ++ percent :: ty :: template pieces last
  | [] => last
  end.

Lemma sprintf_plain p e t : plain_text p → sprintf 0 (p ++ e) t = (r ← sprintf 0 e t; Ok (p ++ r)).
Proof.
  induction p as [|c p IH]; intros Hp; [cbn [app]; by destruct (sprintf 0 e t)|]. unfold plain_text in *.
  apply not_elem_of_cons in Hp as [Hc Hp]. cbn [app sprintf]. rewrite (proj2 (N.eqb_neq c percent)) by done.
  rewrite IH by done. by destruct (sprintf 0 e t).
Qed.

Lemma parse_plain ty e : ty = 115%N ∨ ty = 100%N → parse_placeholder (ty :: e) = Some (Placeholder None [] ty, 1).
Proof. by intros [-> | ->]. Qed.

Lemma format_plain ty i : ty = 115%N ∨ ty = 100%N → format_argument [] ty i = Ok i.
Proof. by intros [-> | ->]. Qed.

Lemma sprintf_template pieces last args :
  Forall (λ p, plain_text p.1 ∧ (p.2 = 115%N ∨ p.2 = 100%N)) pieces → plain_text last →
  sprintf 0 (template pieces last) args =
    if (length pieces <=? length args)%nat then Ok (fill pieces.*1 last args) else Throw TypeError.
Proof.
  intros Hp Hl. revert args. induction Hp as [|[p ty] pieces [Hp Ht] Hps IH]; intros args.
  - cbn [template]. rewrite <-(app_nil_r last), sprintf_plain by done. cbn. by rewrite !app_nil_r.
  - cbn [template fst snd] in *. rewrite sprintf_plain by done.
    assert (sprintf 0 (percent :: ty :: template pieces last) args =
      (i ← result_of_option TypeError (head args); r ← sprintf 0 (template pieces last) (tail args); Ok (i ++ r))) as ->.
    { cbn [sprintf]. change (percent =? percent)%N with true. cbn iota. rewrite parse_plain by done. cbn iota.
      destruct (head args) as [i|]; [|done]. cbn [result_of_option mbind result_mbind]. by rewrite format_plain. }
    destruct args as [|a args]; [done|]. cbn [head tail hd_error result_of_option mbind result_mbind]. rewrite IH.
    change (length (a :: args)) with (S (length args)). change (length ((p, ty) :: pieces)) with (S (length pieces)).
    change (S (length pieces) <=? S (length args))%nat with (length pieces <=? length args)%nat.
    destruct (length pieces <=? length args)%nat; done.
Qed.

(** Every text of the table has plain placeholders only. *)
Fixpoint split_template (e acc : jsstr) : list (jsstr * N) * jsstr :=
  match e with
  | [] => ([], rev acc)
  | c :: e' =>
      match e' with
      | ty :: e => if (c =? percent)%N then let '(ps, l) := split_template e [] in ((rev acc, ty) :: ps, l)
                   else split_template e' (c :: acc)
      | [] => ([], rev (c :: acc))
      end
  end.
Definition template_ok (m : jsstr) : bool :=
  let '(ps, l) := split_template m [] in
  bool_decide (template ps l = m) &&
  forallb (λ p, bool_decide (percent ∉ p.1) && ((p.2 =? 115)%N || (p.2 =? 100)%N)) ps && bool_decide (percent ∉ l).

Definition holes (m : jsstr) : nat := length (split_template m []).1.

(** The message of an error: every text of the table is plain text with
    some number of places for arguments; given as many arguments, [x] puts
    them in their places in order, further arguments being ignored, and given
    fewer it fails with a [TypeError]. An argument is never itself taken for
    a placeholder. *)
Theorem error_message_spec (e : string) (m : jsstr) :
  (e, m) ∈ error_messages →
  ∃ pieces last, template pieces last = m ∧ length pieces = holes m ∧ Forall plain_text (pieces.*1 ++ [last]) ∧
    ∀ args, error_message e args = if (holes m <=? length args)%nat then Ok (fill pieces.*1 last args) else Throw TypeError.
Proof.
  intros Hm.
  assert (lookup_message e error_messages = m ∧ template_ok m = true) as [Hl Hok].
  { assert (Forall (λ p, lookup_message p.1 error_messages = p.2 ∧ template_ok p.2 = true) error_messages) as Hall
      by (repeat (constructor; [split; vm_compute; reflexivity|]); constructor).
    rewrite Forall_forall in Hall. exact (Hall _ Hm). }
  unfold template_ok in Hok. unfold holes. destruct (split_template m []) as [ps l].
  apply andb_true_iff in Hok as [[Ht Hps]%andb_true_iff Hlast]. bool_to_prop.
  assert (Forall (λ p, plain_text p.1 ∧ (p.2 = 115%N ∨ p.2 = 100%N)) ps) as Hall.
  { apply Forall_forall. intros p Hp. rewrite forallb_forall in Hps.
    apply list_elem_of_In, Hps, andb_true_iff in Hp as [Hp1 Hp2]. bool_to_prop.
    split; [done|]. by apply orb_true_iff in Hp2 as [->%N.eqb_eq| ->%N.eqb_eq]; [left|right]. }
  exists ps, l. split_and!; [done|done|..].
  - apply Forall_app. split; [|by repeat constructor]. apply Forall_fmap. eapply Forall_impl; [exact Hall|]. by intros p [? _].
  - intros args. unfold error_message. rewrite Hl, <-Ht at 1. by apply sprintf_template.
Qed.

Lemma error_message_spec_witness :
  let m := msg "A document with id `%s` already exists." in
  ("DOCUMENT_ALREADY_EXISTS"%string, m) ∈ error_messages ∧
  error_message "DOCUMENT_ALREADY_EXISTS" [] = Throw TypeError ∧
  error_message "DOCUMENT_ALREADY_EXISTS" [js "%s"] = Ok m.
Proof.
  set (m := msg "A document with id `%s` already exists.").
  assert (("DOCUMENT_ALREADY_EXISTS"%string, m) ∈ error_messages) as Hm by (do 10 right; left).
  split; [exact Hm|]. split; [|vm_compute; reflexivity].
  destruct (error_message_spec _ _ Hm) as (ps & l & _ & _ & _ & Ha). rewrite (Ha []). vm_compute. reflexivity.
Defined.
