(* ===== verification/Components.v ===== *)
(** * Components and plugins of a database (functions [ht], [ee], first part of
    [pt])

    A database is put together from named components: some are functions of
    the document interface, which have defaults, the others are objects.
    Plugins add components; nothing may be defined twice. *)

From S2P Require Import Prelude JSColl JSValue Sorter.

(** What a component's name holds; [undefined] and other false values count as
    absent. *)
Inductive slot (F O : Type) :=
  | SFun (f : F)
  | SObj (o : O)
  | SFalsy.
Arguments SFun {F O} f. Arguments SObj {F O} o. Arguments SFalsy {F O}.

(** Table [te]: components that are objects; table [ne]: those that are
    functions. *)
Definition object_components : list jsstr := js <$> ["tokenizer"; "index"; "documentsStore"; "sorter"].
Definition function_components : list jsstr :=
  js <$> ["validateSchema"; "getDocumentIndexId"; "getDocumentProperties"; "formatElapsedTime"].

(** Table [Q]. *)
Definition hook_names : list jsstr :=
  js <$> ["beforeInsert"; "afterInsert"; "beforeRemove"; "afterRemove"; "beforeUpdate"; "afterUpdate"; "beforeSearch";
          "afterSearch"; "beforeInsertMultiple"; "afterInsertMultiple"; "beforeRemoveMultiple"; "afterRemoveMultiple";
          "beforeUpdateMultiple"; "afterUpdateMultiple"; "beforeLoad"; "afterLoad"; "afterCreate"].

Section components.
Context {F O : Type}.
Abbreviation components := (list (jsstr * slot F O)).

Definition slot_truthy (s : option (slot F O)) : bool :=
  match s with None | Some SFalsy => false | Some _ => true end.

(** Function [ht]; [t] are the default functions. *)
Fixpoint default_functions (t : jsstr → F) (ne : list jsstr) (e : components) : result components :=
  match ne with
  | [] => Ok e
  | r :: ne =>
      match jm_get r e with
      | None | Some SFalsy => default_functions t ne (jm_set r (SFun (t r)) e)
      | Some (SFun _) => default_functions t ne e
      | Some (SObj _) => Throw (OramaError "COMPONENT_MUST_BE_FUNCTION" [r])
      end
  end.
Fixpoint check_names (l : list jsstr) : result unit :=
  match l with
  | [] => Ok tt
  | t :: l => if bool_decide (t ∈ object_components) || bool_decide (t ∈ function_components) then check_names l
              else Throw (OramaError "UNSUPPORTED_COMPONENT" [t])
  end.
Definition validateComponents (t : jsstr → F) (e : components) : result components :=
  e ← default_functions t function_components e;
  check_names (obj_entries e).*1;;
  Ok e.

(** A plugin: its name, and its components for a schema, if it has any. *)
Record plugin (S : Type) := Plugin { pl_name : jsstr; pl_components : option (S → components) }.
Arguments pl_name {S}. Arguments pl_components {S}.

Fixpoint check_conflicts (name : jsstr) (o : list jsstr) (r : components) : result unit :=
  match o with
  | [] => Ok tt
  | e :: o => if slot_truthy (jm_get e r) then Throw (OramaError "PLUGIN_COMPONENT_CONFLICT" [e; name])
              else check_conflicts name o r
  end.

(** The loop over the plugins in [pt]. *)
Fixpoint merge_plugins {S} (e : S) (s : list (plugin S)) (r : components) : result components :=
  match s with
  | [] => Ok r
  | t :: s =>
      match pl_components t with
      | None => merge_plugins e s r
      | Some g =>
          let n := g e in
          check_conflicts (pl_name t) (obj_entries n).*1 r;;
          merge_plugins e s (spread r n)
      end
  end.

(** Function [ee]: the hooks of one name among the plugins; reading the
    property of a plugin may throw. *)
Inductive plugin_property (H : Type) := PHook (h : H) | POther | PThrows.
Arguments PHook {H} h. Arguments POther {H}. Arguments PThrows {H}.
Fixpoint getAllPluginsByHook {H} (t : jsstr) (plugins : list (jsstr → plugin_property H)) : result (list H) :=
  match plugins with
  | [] => Ok []
  | p :: plugins =>
      match p t with
      | PHook h => r ← getAllPluginsByHook t plugins; Ok (h :: r)
      | POther => getAllPluginsByHook t plugins
      | PThrows => Throw (OramaError "PLUGIN_CRASHED" [])
      end
  end.

(** The loop over [Q] in [pt]. *)
Fixpoint collect_hooks {H} (names : list jsstr) (plugins : list (jsstr → plugin_property H)) (m : list (jsstr * list H)) :
    result (list (jsstr * list H)) :=
  match names with
  | [] => Ok m
  | e :: names =>
      h ← getAllPluginsByHook e plugins;
      collect_hooks names plugins (jm_set e (default [] (jm_get e m) ++ h) m)
  end.

(** ** Facts *)
Definition is_function (s : option (slot F O)) : Prop := ∃ f, s = Some (SFun f).
Definition may_default (s : option (slot F O)) : Prop := slot_truthy s = false ∨ is_function s.

Lemma default_functions_spec t ne e :
  NoDup ne → (∀ r, r ∈ ne → may_default (jm_get r e)) →
  ∃ e', default_functions t ne e = Ok e' ∧
    ∀ r, jm_get r e' = if bool_decide (r ∈ ne) && negb (slot_truthy (jm_get r e)) then Some (SFun (t r)) else jm_get r e.
Proof.
  revert e. induction ne as [|n ne IH]; intros e Hnd Hne; cbn [default_functions].
  { exists e. split; [done|]. intros r. by rewrite bool_decide_eq_false_2 by apply not_elem_of_nil. }
  apply NoDup_cons in Hnd as [Hn Hnd].
  assert (∀ r, r ∈ ne → r ≠ n) as Hneq by (intros r Hr ->; done).
  assert (∀ r, r ≠ n → bool_decide (r ∈ n :: ne) = bool_decide (r ∈ ne)) as Hdec.
  { intros r Hr. apply bool_decide_ext. rewrite elem_of_cons. naive_solver. }
  destruct (slot_truthy (jm_get n e)) eqn:Hs.
  - destruct (IH e Hnd) as (e' & He' & Hget); [intros; apply Hne; by right|]. exists e'. split.
    + destruct (Hne n ltac:(by left)) as [?|[f Hf]]; [congruence|]. by rewrite Hf.
    + intros r. rewrite Hget. destruct (decide (r = n)) as [->|]; [|by rewrite Hdec].
      rewrite Hs. cbn [negb]. by rewrite !andb_false_r.
  - destruct (IH (jm_set n (SFun (t n)) e) Hnd) as (e' & He' & Hget).
    { intros r Hr. rewrite jm_get_set_ne by auto. apply Hne. by right. }
    exists e'. split; [destruct (jm_get n e) as [[]|]; done|]. intros r. rewrite Hget. destruct (decide (r = n)) as [->|].
    + rewrite jm_get_set_eq, Hs, (bool_decide_eq_false_2 _ Hn), bool_decide_eq_true_2 by (by left). done.
    + by rewrite !jm_get_set_ne, Hdec by done.
Qed.

Lemma default_functions_inv t ne e e' :
  default_functions t ne e = Ok e' → NoDup ne → ∀ r, r ∈ ne → may_default (jm_get r e).
Proof.
  revert e. induction ne as [|n ne IH]; intros e He Hnd r Hr; [by apply elem_of_nil in Hr|].
  apply NoDup_cons in Hnd as [Hn Hnd]. cbn [default_functions] in He. apply elem_of_cons in Hr as [->|Hr].
  - unfold may_default, is_function. destruct (jm_get n e) as [[f|o|]|]; [right; eauto|done|by left|by left].
  - assert (n ≠ r) by (by intros ->). destruct (jm_get n e) as [[f|o|]|].
    + by apply (IH e).
    + done.
    + rewrite <-(jm_get_set_ne r n (SFun (t n)) e) by done. by apply (IH (jm_set n (SFun (t n)) e)).
    + rewrite <-(jm_get_set_ne r n (SFun (t n)) e) by done. by apply (IH (jm_set n (SFun (t n)) e)).
Qed.

Lemma check_names_spec l :
  check_names l = Ok tt ↔ ∀ k, k ∈ l → k ∈ object_components ∨ k ∈ function_components.
Proof.
  induction l as [|k l IH]; cbn [check_names].
  - split; [intros _ k Hk; by apply elem_of_nil in Hk|done].
  - assert ((∀ k', k' ∈ k :: l → k' ∈ object_components ∨ k' ∈ function_components) ↔
      (k ∈ object_components ∨ k ∈ function_components) ∧ ∀ k', k' ∈ l → k' ∈ object_components ∨ k' ∈ function_components) as ->.
    { split; [intros Hl; split; [apply Hl; by left|intros; apply Hl; by right]|].
      intros [Hk Hl] k' [->|Hk']%elem_of_cons; auto. }
    rewrite <-IH. destruct (bool_decide (k ∈ object_components)) eqn:H1, (bool_decide (k ∈ function_components)) eqn:H2;
      bool_to_prop; cbn [orb]; tauto || (split; [done|tauto]).
Qed.

Lemma keys_get (k : jsstr) (e : components) : k ∈ e.*1 ↔ is_Some (jm_get k e).
Proof.
  destruct (jm_get k e) eqn:Hk.
  - split; [by eauto|]. intros _. apply jm_get_Some_elem in Hk. apply list_elem_of_fmap. by eexists (_, _).
  - apply jm_get_None in Hk. split; [done|by intros []].
Qed.

Lemma function_components_NoDup : NoDup function_components.
Proof. apply (bool_decide_unpack _). vm_compute. exact I. Qed.

Lemma validate_run t e e' :
  validateComponents t e = Ok e' ↔
  default_functions t function_components e = Ok e' ∧ ∀ k, k ∈ e'.*1 → k ∈ object_components ∨ k ∈ function_components.
Proof.
  unfold validateComponents. destruct (default_functions t function_components e) as [e1|]; cbn [mbind result_mbind]; [|naive_solver].
  assert (∀ k, k ∈ (obj_entries e1).*1 ↔ k ∈ e1.*1) as Hk by (intros k; by rewrite obj_entries_perm).
  destruct (check_names (obj_entries e1).*1) as [[]|x] eqn:Hc; cbn [mbind result_mbind].
  - pose proof (proj1 (check_names_spec _) Hc) as Hn. clear Hc. split.
    + intros [= <-]. split; [done|]. intros k ?. by apply Hn, Hk.
    + by intros [[= <-] _].
  - split; [done|]. intros [[= <-] Hn]. assert (check_names (obj_entries e1).*1 = Ok tt); [|congruence].
    apply check_names_spec. intros k ?. by apply Hn, Hk.
Qed.
End components.

(** C40. The components a database is made of: they are accepted exactly if the
    four functions of the document interface are functions or absent and
    every name is known; then the absent ones are the defaults, everything
    else is as given, and the result is itself accepted, unchanged. *)
Theorem components_validated {F O} (t : jsstr → F) (e : list (jsstr * slot F O)) :
  ((∃ e', validateComponents t e = Ok e') ↔
     (∀ r, r ∈ function_components → may_default (jm_get r e)) ∧
     (∀ k, k ∈ e.*1 → k ∈ object_components ∨ k ∈ function_components)) ∧
  (∀ e', validateComponents t e = Ok e' →
     (∀ r, r ∈ function_components → is_function (jm_get r e')) ∧
     (∀ r, slot_truthy (jm_get r e) = true → jm_get r e' = jm_get r e) ∧
     (∀ r, r ∈ function_components → slot_truthy (jm_get r e) = false → jm_get r e' = Some (SFun (t r))) ∧
     ∃ e'', validateComponents t e' = Ok e'' ∧ ∀ r, jm_get r e'' = jm_get r e').
Proof.
  pose proof function_components_NoDup as Hnd.
  assert (∀ e' : list (jsstr * slot F O), default_functions t function_components e = Ok e' →
    ∀ r, jm_get r e' = if bool_decide (r ∈ function_components) && negb (slot_truthy (jm_get r e)) then Some (SFun (t r)) else jm_get r e) as Hget.
  { intros e' He'. destruct (default_functions_spec t function_components e Hnd) as (e1 & He1 & Hg);
      [by apply (default_functions_inv t _ e e')|]. rewrite He' in He1. injection He1 as <-. exact Hg. }
  split; [split|].
  - intros (e' & [He' Hn]%validate_run). split; [by apply (default_functions_inv t _ e e')|].
    intros k Hk. apply Hn. rewrite keys_get in *. rewrite (Hget _ He'). by destruct (_ && _).
  - intros [Hd Hn]. destruct (default_functions_spec t function_components e Hnd Hd) as (e' & He' & Hg).
    exists e'. apply validate_run. split; [done|]. intros k Hk. rewrite keys_get, Hg in Hk.
    destruct (bool_decide (k ∈ function_components)) eqn:Hb; bool_to_prop; [by right|]. by apply Hn, keys_get.
  - intros e' [He' Hn]%validate_run. specialize (Hget _ He').
    pose proof (default_functions_inv t _ e e' He' Hnd) as Hd.
    assert (∀ r, r ∈ function_components → is_function (jm_get r e')) as Hfun.
    { intros r Hr. rewrite Hget, bool_decide_eq_true_2 by done. cbn [andb].
      destruct (slot_truthy (jm_get r e)) eqn:Hs; [|by eexists]. destruct (Hd r Hr) as [?|?]; [congruence|done]. }
    split_and!; [done| |..].
    + intros r Hr. by rewrite Hget, Hr, andb_false_r.
    + intros r Hr Hs. by rewrite Hget, Hs, bool_decide_eq_true_2.
    + destruct (default_functions_spec t function_components e' Hnd) as (e'' & He'' & Hg).
      { intros r Hr. right. by apply Hfun. }
      assert (∀ r, jm_get r e'' = jm_get r e') as Hsame.
      { intros r. rewrite Hg. destruct (bool_decide (r ∈ function_components)) eqn:Hb; [|done]. bool_to_prop.
        destruct (Hfun r Hb) as [f ->]. done. }
      exists e''. split; [|done]. apply validate_run. split; [done|]. intros k. rewrite keys_get, Hsame, <-keys_get. apply Hn.
Qed.

(** ** Plugins *)
Section plugins.
Context {F O S : Type} (schema : S).
Abbreviation components := (list (jsstr * slot F O)).

Definition plugin_components (p : plugin (F := F) (O := O) S) : components :=
  match pl_components _ p with Some g => g schema | None => [] end.

Lemma conflicts_spec name o (r : components) :
  check_conflicts name o r = Ok tt ↔ ∀ k, k ∈ o → slot_truthy (jm_get k r) = false.
Proof.
  induction o as [|k o IH]; cbn [check_conflicts].
  { split; [intros _ k Hk; by apply elem_of_nil in Hk|done]. }
  destruct (slot_truthy (jm_get k r)) eqn:Hk.
  - split; [done|]. intros Ho. rewrite Ho in Hk; [done|by left].
  - rewrite IH. split; [intros Ho k' [->|?]%elem_of_cons; auto|intros Ho k' ?; apply Ho; by right].
Qed.

Lemma merge_step p s (r r' : components) :
  merge_plugins schema (p :: s) r = Ok r' ↔
  (∀ k, k ∈ (plugin_components p).*1 → slot_truthy (jm_get k r) = false) ∧
  merge_plugins schema s (spread r (plugin_components p)) = Ok r'.
Proof.
  cbn [merge_plugins]. unfold plugin_components. destruct (pl_components S p) as [g|].
  - pose proof (conflicts_spec (pl_name S p) (obj_entries (g schema)).*1 r) as Hc.
    assert ((∀ k, k ∈ (obj_entries (g schema)).*1 → slot_truthy (jm_get k r) = false) ↔
      ∀ k, k ∈ (g schema).*1 → slot_truthy (jm_get k r) = false) as Hk.
    { split; intros H k Hin; apply H; by rewrite obj_entries_perm in *. }
    rewrite <-Hk, <-Hc. destruct (check_conflicts _ _ _) as [[]|]; cbn [mbind result_mbind]; [tauto|]. split; [done|by intros []].
  - cbn. split; [intros ?; split; [intros k Hk; by apply elem_of_nil in Hk|done]|by intros []].
Qed.

Lemma merge_keeps s (r r' : components) k :
  merge_plugins schema s r = Ok r' → Forall (λ p, jm_wf (plugin_components p)) s →
  slot_truthy (jm_get k r) = true → jm_get k r' = jm_get k r.
Proof.
  intros Hm Hwf. revert r Hm. induction Hwf as [|p s Hp Hs IH]; intros r Hm Hk; [by injection Hm as <-|].
  apply merge_step in Hm as [Hno Hm].
  assert (jm_get k (plugin_components p) = None) as Hnone.
  { apply jm_get_None. intros Hin. rewrite Hno in Hk; done. }
  rewrite (IH _ Hm); rewrite spread_get, Hnone by done; done.
Qed.

(** Merging the components of plugins never replaces one: what the caller
    gave and what each plugin gave is found in the result unchanged, and the
    merge fails as soon as a plugin names a component that is there. *)
Theorem plugins_merged (s : list (plugin S)) (r r' : components) :
  merge_plugins schema s r = Ok r' → Forall (λ p, jm_wf (plugin_components p)) s →
  (∀ k, slot_truthy (jm_get k r) = true → jm_get k r' = jm_get k r ∧ ∀ p, p ∈ s → k ∉ (plugin_components p).*1) ∧
  (∀ p k, p ∈ s → slot_truthy (jm_get k (plugin_components p)) = true → jm_get k r' = jm_get k (plugin_components p)).
Proof.
  intros Hm Hwf. revert r Hm. induction Hwf as [|p s Hp Hs IH]; intros r Hm.
  { injection Hm as <-. split; [|intros p k Hin; by apply elem_of_nil in Hin].
    intros k _. split; [done|]. intros p Hin. by apply elem_of_nil in Hin. }
  apply merge_step in Hm as [Hno Hm]. destruct (IH _ Hm) as [Hkeep Hall]. split.
  - intros k Hk. assert (k ∉ (plugin_components p).*1) as Hk'.
    { intros Hin. rewrite Hno in Hk; done. }
    pose proof (spread_get r (plugin_components p) k Hp) as Hsp. rewrite (proj2 (jm_get_None k _) Hk') in Hsp.
    destruct (Hkeep k) as [-> Hs']; [by rewrite Hsp|]. split; [done|].
    intros q [->|Hq]%elem_of_cons; auto.
  - intros q k [->|Hq]%elem_of_cons Hk; [|by apply Hall].
    pose proof (spread_get r (plugin_components p) k Hp) as Hsp.
    destruct (jm_get k (plugin_components p)) as [v|] eqn:Hv; [|done]. rewrite <-Hsp.
    apply (merge_keeps s); [done|done|]. by rewrite Hsp.
Qed.
End plugins.

Lemma plugins_merged_witness :
  let p := Plugin (F := nat) (O := nat) unit (js "p") (Some (λ _, [(js "index", SObj 1)])) in
  let q := Plugin unit (js "q") (Some (λ _, [(js "index", SObj 2)])) in
  (∃ r', merge_plugins tt [p] [(js "sorter", SObj 7)] = Ok r' ∧ jm_get (js "index") r' = Some (SObj 1)) ∧
  merge_plugins tt [p; q] [] = Throw (OramaError "PLUGIN_COMPONENT_CONFLICT" [js "index"; js "q"]).
Proof.
  set (p := Plugin (F := nat) (O := nat) unit (js "p") (Some (λ _, [(js "index", SObj 1)]))).
  split; [|vm_compute; reflexivity].
  assert (merge_plugins tt [p] [(js "sorter", SObj 7)] = Ok [(js "sorter", SObj 7); (js "index", SObj 1)]) as Hm by (vm_compute; reflexivity).
  eexists. split; [exact Hm|].
  destruct (plugins_merged tt [p] _ _ Hm) as [_ Ha]; [repeat constructor; apply not_elem_of_nil|].
  rewrite (Ha p (js "index")); [reflexivity|by left|reflexivity].
Defined.
