(* ===== verification/Hooks.v ===== *)
(** * Hooks, batches and pauses (functions [T], [re], [oe], [se], [ie], [bt],
    [It], [Ot], [yt], [D], [P])

    Hooks are functions of the caller that run around an operation; one that is
    asynchronous makes the operation asynchronous, which waits for its hooks
    one after the other. The model runs an operation to its end before the
    next one starts; what a hook does to the database is a parameter, what it
    writes into the objects it is given is left out. *)

From Stdlib Require Import SpecFloat.
From S2P Require Import Prelude JSColl JSNum Utils JSValue Schema Store Index Sorter Database DatabaseTheorems Facets Groups Search.
Local Open Scope Z_scope.

(** ** Functions that may be asynchronous *)

(** A function or an array of such, as [T] looks at it. *)
Inductive callable := Callable (async : bool) | Callables (l : list callable) | NotCallable.

(** Function [T]. *)
Fixpoint isAsyncFunction (e : callable) : bool :=
  match e with
  | Callable async => async
  | Callables l => existsb isAsyncFunction l
  | NotCallable => false
  end.

Record hook (A : Type) := Hook { hk_async : bool; hk_run : A → M db unit }.
Arguments Hook {A}. Arguments hk_async {A}. Arguments hk_run {A}.

Definition hooks_callable {A} (e : list (hook A)) : callable := Callables ((λ h, Callable (hk_async h)) <$> e).

(** Functions [re], [oe], [se], [ie]: all hooks in order; an asynchronous one
    is waited for, so that the order is the same. *)
Definition run_hooks {A} (e : list (hook A)) (a : A) : M db unit := mfor (λ h, hk_run h a) e.

(** ** Insertion with hooks *)
Record insert_hooks := InsertHooks {
  beforeInsert : list (hook (jsstr * jsval));
  afterInsert : list (hook (jsstr * jsval));
  afterInsertMultiple : list (hook (list jsval));
}.

Section hooks.
Context (ic : index_component) (uid : jsstr) (h : insert_hooks).

(** Function [bt]; [r] asks to skip the hooks. *)
Definition insert_hooked (t : jsval) (n : option jsstr) (r : bool) (threshold : Z) : M db jsstr :=
  sch ← gets db_schema;
  s ← lift (validateSchema t sch);
  match s with
  | Some (c :: p) => throw (OramaError "SCHEMA_VALIDATION_FAILURE" [c :: p])
  | _ =>
      i ← gets db_counter;
      '(a, i) ← lift (getDocumentIndexId uid i t);
      modify (set_counter i);;
      c ← m_intern (RefStr a);
      stored ← gets (λ e, docs_store (db_docs e) c t);
      if negb stored.2 then throw (OramaError "DOCUMENT_ALREADY_EXISTS" [a])
      else (
        modify (set_docs_store stored.1);;
        (if r then mret tt else run_hooks (beforeInsert h) (a, t));;
        index_document ic t a n threshold;;
        (if r then mret tt else run_hooks (afterInsert h) (a, t));;
        mret a)
  end.

(** Does [bt] take its asynchronous path? *)
Definition insert_is_async : bool :=
  isAsyncFunction (hooks_callable (beforeInsert h)) || isAsyncFunction (hooks_callable (afterInsert h)).
End hooks.

(** ** Batches *)
Section batches.
Context (ins : jsval → Z → M db jsstr).

Fixpoint insert_each (l : list jsval) (threshold : Z) : M db (list jsstr) :=
  match l with
  | [] => mret []
  | t :: l => a ← ins t threshold; r ← insert_each l threshold; mret (a :: r)
  end.

(** The loop of [Ot]: batch [a] of [n] documents. *)
Fixpoint batches_sync (fuel : nat) (n a : nat) (t : list jsval) : M db (list jsstr) :=
  match fuel with
  | O => mret []
  | S fuel =>
      let s := take n (drop (a * n) t) in
      if (length s =? 0)%nat then mret []
      else i ← insert_each s (Z.of_nat (length s)); i' ← batches_sync fuel n (S a) t; mret (i ++ i')
  end.

(** The loop of [It]: documents from [e] on; [None] when the fuel runs out. *)
Fixpoint batches_async (fuel : nat) (n e : nat) (t : list jsval) : M db (option (list jsstr)) :=
  match fuel with
  | O => mret None
  | S fuel =>
      if (e <? length t)%nat then
        let a := (e + n) `min` length t in
        let c := take (a - e) (drop e t) in
        i ← insert_each c (Z.of_nat (length c));
        i' ← batches_async fuel n a t;
        mret (app i <$> i')
      else mret (Some [])
  end%nat.
End batches.

(** Functions [Ot] and [It] with their hooks. *)
Definition insertMultiple_sync (ins : jsval → Z → M db jsstr) (h : insert_hooks) (t : list jsval) (n : nat) (o : bool) : M db (list jsstr) :=
  i ← batches_sync ins (S (length t)) n 0 t;
  (if o then mret tt else run_hooks (afterInsertMultiple h) t);;
  mret i.
Definition insertMultiple_async (fuel : nat) (ins : jsval → Z → M db jsstr) (h : insert_hooks) (t : list jsval) (n : nat) (o : bool) :
    M db (option (list jsstr)) :=
  i ← batches_async ins fuel n 0 t;
  match i with
  | None => mret None
  | Some i => (if o then mret tt else run_hooks (afterInsertMultiple h) t);; mret (Some i)
  end.

(** ** Searching with hooks, the end of [Ct] and of the modes of [Vt] *)
Definition search_hooked {A R} (before : list (hook A)) (after : list (hook (A * R))) (a : A) (o : M db R) : M db R :=
  if (length before =? 0)%nat && (length after =? 0)%nat then o
  else run_hooks before a;; r ← o; run_hooks after (a, r);; mret r.

(** ** Pauses between batches

    A batch is followed by a pause when a time [s] per batch is given; [t] is
    the time that has passed, in milliseconds. *)
Definition pause_sync (s t : Z) : option Z :=
  if 0 <? s then
    if s <=? t then let e := s - Z.rem t s in if 0 <? e then Some e else None else None
  else None.
Definition pause_async (s t : Z) : option Z :=
  if 0 <? s then let n := s - t in if 0 <? n then Some n else None else None.

(** Function [D]: what it accepts, and the time at which it returns when it
    started at [now]. *)
Definition sleep (now e : Z) (v : number) : result Z :=
  if ltb num_zero v && ltb v num_infinity then Ok (now + e)
  else Throw (PlainError "sleep: ms must be a number that is greater than 0 but less than Infinity").

(** Function [P]: the elapsed time. *)
Definition formatElapsedTime (e : Z) : number * jsstr := (num_of_Z e, formatNanoseconds e).

(** ** Counting insertions, function [yt]

    The counter of a database is forgotten by a microtask, that is when the
    code that inserts has come to its end. *)
Definition trackInsertion (c : option Z) : option Z * bool :=
  let c := default 0 c in
  if 1000 <? c then (Some (-1), true)
  else if 0 <=? c then (Some (c + 1), false) else (Some c, false).

Fixpoint insertions (n : nat) (c : option Z) (warnings : nat) : nat :=
  match n with
  | O => warnings
  | S n => let '(c, w) := trackInsertion c in insertions n c (if w then S warnings else warnings)
  end.

(** Tasks that insert so many documents each. *)
Definition tasks (ns : list nat) : nat := foldl (λ w n, insertions n None w) 0%nat ns.

(** ** Batches with pauses *)

Definition no_hooks : insert_hooks := InsertHooks [] [] [].

Lemma skipped_hooks {A} (l : list (hook A)) (r : bool) a :
  l = [] ∨ r = true → (if r then mret tt else run_hooks l a) = mret tt.
Proof. intros [-> | ->]; [by destruct r|done]. Qed.

(** Without hooks, or asked to skip them, an insertion is the one of the
    database. *)
Lemma insert_without_hooks ic uid h t n r threshold e :
  h = no_hooks ∨ r = true → insert_hooked ic uid h t n r threshold e = insert ic uid t n threshold e.
Proof.
  intros Hr. unfold insert_hooked, insert. rewrite !(M_bind_eq (gets db_schema)). cbn [gets].
  rewrite !(M_bind_eq (lift _)). cbn [lift]. destruct (validateSchema t (db_schema e)) as [s|]; [|done].
  destruct s as [[|c p]|]; [|done|].
  all: rewrite !(M_bind_eq (gets db_counter)); cbn [gets]; rewrite !(M_bind_eq (lift _)); cbn [lift].
  all: destruct (getDocumentIndexId uid (db_counter e) t) as [[a i]|]; [|done].
  all: rewrite !(M_bind_eq (modify _)); cbn [modify]; rewrite !(M_bind_eq (m_intern _));
    destruct (m_intern (RefStr a) _) as [e1 [z|]]; [|done].
  all: rewrite !(M_bind_eq (gets _)); cbn [gets]; destruct (negb _); [done|].
  all: rewrite !(M_bind_eq (modify _)); cbn [modify].
  all: rewrite !skipped_hooks by (destruct Hr as [-> |]; auto).
  all: rewrite (M_bind_ok (mret tt) _ _ _ tt eq_refl), !M_bind_eq.
  all: destruct (index_document _ _ _ _ _ _) as [e2 [[]|]]; done.
Qed.

(** A [beforeInsert] hook runs when the document is stored already: one that
    throws does not prevent the document from being there. *)
Theorem before_insert_is_late ic uid h t n threshold e a i z e1 x :
  validateSchema t (db_schema e) = Ok None → getDocumentIndexId uid (db_counter e) t = Ok (a, i) →
  m_intern (RefStr a) (set_counter i e) = (e1, Ok z) → docs_map (db_docs e1) !! z = None →
  beforeInsert h = [Hook false (λ _, throw x)] →
  ∃ e2, insert_hooked ic uid h t n false threshold e = (e2, Throw x) ∧ docs_map (db_docs e2) !! z = Some t.
Proof.
  intros Hv Ha Hz Hd Hh. eexists. split.
  - unfold insert_hooked. rewrite (M_bind_ok (gets db_schema) _ _ _ _ eq_refl), M_bind_eq. cbn [lift]. rewrite Hv.
    rewrite (M_bind_ok (gets db_counter) _ _ _ _ eq_refl), M_bind_eq. cbn [lift]. rewrite Ha.
    rewrite (M_bind_ok (modify _) _ _ _ tt eq_refl), (M_bind_ok (m_intern _) _ _ _ _ Hz), (M_bind_ok (gets _) _ _ _ _ eq_refl).
    unfold docs_store. rewrite Hd. cbn [fst snd negb]. rewrite (M_bind_ok (modify _) _ _ _ tt eq_refl), Hh. reflexivity.
  - cbn. apply lookup_insert_eq.
Qed.

(** ** Batches *)
Lemma insert_each_batch ic uid n l threshold e :
  insert_each (λ t, insert ic uid t n) l threshold e = insert_batch ic uid l n threshold e.
Proof.
  revert e. induction l as [|t l IH]; intros e; [done|]. cbn [insert_each insert_batch]. rewrite !M_bind_eq.
  destruct (insert _ _ _ _ _ _) as [e1 [a|]]; [|done]. rewrite !M_bind_eq, IH. done.
Qed.

Lemma batches_sync_database ic uid r fuel n a t e :
  batches_sync (λ t, insert ic uid t r) fuel n a t e = insert_batches ic uid fuel n a t r e.
Proof.
  revert a e. induction fuel as [|fuel IH]; intros a e; [done|]. cbn [batches_sync insert_batches].
  destruct (length _ =? 0)%nat; [done|]. rewrite !M_bind_eq, insert_each_batch.
  destruct (insert_batch _ _ _ _ _ _) as [e1 [i|]]; [|done]. rewrite !M_bind_eq, IH. done.
Qed.

Section batches.
Context (ins : jsval → Z → M db jsstr).

(** The two loops from the same place on. *)
Lemma batches_agree n a t fuel fuel' e :
  (0 < n)%nat → let s := ((a * n) `min` length t)%nat in
  (length t - s < fuel)%nat → (length t - s < fuel')%nat →
  batches_async ins fuel n s t e =
    match batches_sync ins fuel' n a t e with
    | (e', Ok i) => (e', Ok (Some i))
    | (e', Throw x) => (e', Throw x)
    end.
Proof.
  intros Hn. revert fuel' a e. induction fuel as [|fuel IH]; intros fuel' a e s Hf Hf'; [lia|].
  assert (s = (a * n) `min` length t)%nat as Hsd by done. clearbody s.
  destruct fuel' as [|fuel']; [lia|]. cbn [batches_async batches_sync].
  assert (length (take n (drop (a * n) t)) = n `min` (length t - a * n))%nat as Hlen by by rewrite length_take, length_drop.
  destruct (s <? length t)%nat eqn:Hs; bool_to_prop.
  - assert (s = a * n)%nat as Hsa by lia. rewrite (proj2 (Nat.eqb_neq (length (take n (drop (a * n) t))) 0)) by lia.
    assert (take ((s + n) `min` length t - s) (drop s t) = take n (drop (a * n) t)) as ->.
    { rewrite Hsa. destruct (Nat.le_ge_cases (a * n + n) (length t)) as [Hle|Hge].
      - rewrite Nat.min_l by done. f_equal. lia.
      - rewrite Nat.min_r by done. rewrite !take_ge by (rewrite length_drop; lia). done. }
    rewrite !M_bind_eq. destruct (insert_each _ _ _ _) as [e1 [i|]]; [|done].
    replace ((s + n) `min` length t)%nat with ((S a * n) `min` length t)%nat by lia.
    rewrite !M_bind_eq, (IH fuel') by lia. destruct (batches_sync _ _ _ _ _ _) as [e2 [i'|]]; done.
  - rewrite (proj2 (Nat.eqb_eq (length (take n (drop (a * n) t))) 0)) by lia. done.
Qed.

Lemma batches_async_stuck t fuel e : t ≠ [] → batches_async ins fuel 0 0 t e = (e, Ok None).
Proof.
  intros Ht. revert e. induction fuel as [|fuel IH]; intros e; [done|]. cbn [batches_async].
  destruct t as [|x t]; [done|]. cbn [length Nat.ltb Nat.leb Nat.add Nat.min Nat.sub take].
  rewrite (M_bind_ok (insert_each ins [] _) _ e e [] eq_refl), M_bind_eq, IH. done.
Qed.
End batches.

(** C9. Asynchronous insertion of many documents ends, for any positive batch
    size, after at most one round per document, and does then what the
    synchronous insertion does, hooks included; for the batch size 0 it never
    ends, while the synchronous insertion inserts nothing. *)
Theorem insertMultiple_async_spec (ins : jsval → Z → M db jsstr) (h : insert_hooks) (t : list jsval) (o : bool) (e : db) :
  (∀ n fuel, (0 < n)%nat → (length t < fuel)%nat →
     insertMultiple_async fuel ins h t n o e =
       match insertMultiple_sync ins h t n o e with
       | (e', Ok i) => (e', Ok (Some i))
       | (e', Throw x) => (e', Throw x)
       end) ∧
  (t ≠ [] → afterInsertMultiple h = [] →
     (∀ fuel, insertMultiple_async fuel ins h t 0 o e = (e, Ok None)) ∧ insertMultiple_sync ins h t 0 o e = (e, Ok [])).
Proof.
  split.
  - intros n fuel Hn Hf. unfold insertMultiple_async, insertMultiple_sync. rewrite !M_bind_eq.
    pose proof (batches_agree ins n 0 t fuel (S (length t)) e Hn) as Hb. cbn [Nat.mul Nat.min] in Hb. rewrite Hb by lia.
    destruct (batches_sync _ _ _ _ _ _) as [e1 [i|]]; [|done]. rewrite !M_bind_eq.
    by destruct ((if o then mret tt else run_hooks (afterInsertMultiple h) t) e1) as [e2 [[]|]].
  - intros Ht Hh. split.
    + intros fuel. unfold insertMultiple_async. by rewrite M_bind_eq, batches_async_stuck.
    + unfold insertMultiple_sync. rewrite Hh. by destruct o.
Qed.

(** The warning about many insertions: however many documents a task
    inserts, it is given once if they are more than 1001 and never
    otherwise, and each task counts anew. *)
Theorem insertion_warnings (ns : list nat) : tasks ns = length (List.filter (λ n, (1002 <=? n)%nat) ns).
Proof.
  assert (∀ n w, insertions n (Some (-1)) w = w) as Hquiet by (intros n; induction n as [|n IH]; intros w; [done|]; apply IH).
  assert (∀ n k w, (k <= 1001)%nat → insertions n (Some (Z.of_nat k)) w = if (1002 <=? k + n)%nat then S w else w) as Hcount.
  { intros n. induction n as [|n IH]; intros k w Hk; cbn [insertions].
    - rewrite (proj2 (Nat.leb_gt 1002 (k + 0))) by lia. done.
    - unfold trackInsertion. cbn [default from_option]. unfold id. destruct (1000 <? Z.of_nat k) eqn:H1; bool_to_prop.
      + cbn iota beta. rewrite Hquiet, (proj2 (Nat.leb_le _ _)) by lia. done.
      + rewrite (proj2 (Z.leb_le 0 _)) by lia. cbn iota beta. replace (Z.of_nat k + 1) with (Z.of_nat (S k)) by lia. rewrite IH by lia.
        by replace (S k + n)%nat with (k + S n)%nat by lia. }
  assert (∀ n w, insertions n None w = if (1002 <=? n)%nat then S w else w) as Hone.
  { intros n w. rewrite <-(Hcount n 0%nat) by lia. by destruct n. }
  unfold tasks. assert (∀ w, foldl (λ w n, insertions n None w) w ns = (w + length (List.filter (λ n, (1002 <=? n)%nat) ns))%nat) as Hf; [|apply (Hf 0%nat)].
  induction ns as [|n ns IH]; intros w; cbn [foldl List.filter]; [cbn; lia|]. rewrite IH, Hone.
  destruct (1002 <=? n)%nat; cbn [length]; lia.
Qed.

(** Pauses of the synchronous insertion end at a multiple of the time given,
    and are never refused by [sleep]. *)
Lemma pause_sync_multiple s t d : 0 ≤ t → pause_sync s t = Some d → 0 < d ≤ s ∧ ∃ k, t + d = k * s.
Proof.
  unfold pause_sync. intros Ht. destruct (0 <? s) eqn:Hs; bool_to_prop; [|done].
  destruct (s <=? t) eqn:Hst; bool_to_prop; [|done]. destruct (0 <? s - Z.rem t s); [|done]. intros [= <-].
  pose proof (Z.rem_bound_pos t s ltac:(lia) Hs). split; [lia|]. exists (Z.quot t s + 1).
  pose proof (Z.quot_rem' t s). lia.
Qed.

(** Searching with hooks that do nothing is searching. *)
Lemma search_quiet_hooks {A R} (before : list (hook A)) (after : list (hook (A * R))) a (o : M db R) e :
  Forall (λ h, ∀ a e, hk_run h a e = (e, Ok tt)) before → Forall (λ h, ∀ a e, hk_run h a e = (e, Ok tt)) after →
  search_hooked before after a o e = o e.
Proof.
  assert (∀ B (l : list (hook B)) b e, Forall (λ h, ∀ a e, hk_run h a e = (e, Ok tt)) l → run_hooks l b e = (e, Ok tt)) as Hrun.
  { intros B l b e0 Hl. unfold run_hooks. induction Hl as [|h l Hh Hl IH]; [done|]. cbn [mfor]. by rewrite (M_bind_ok _ _ _ _ _ (Hh b e0)). }
  intros Hb Ha. unfold search_hooked. destruct (_ && _); [done|]. rewrite (M_bind_ok _ _ _ _ _ (Hrun _ _ _ _ Hb)), M_bind_eq.
  destruct (o e) as [e' [r|]]; [|done]. by rewrite (M_bind_ok _ _ _ _ _ (Hrun _ _ _ _ Ha)).
Qed.
