(* ===== verification/Generator.v ===== *)
(** * The generator runtime (function [en]) and asynchronous functions ([nn],
    [tn])

    The adapter's asynchronous functions are compiled to generators: a body
    that is a [switch] over places of the program, run by a state machine
    that remembers where it stopped. A body is a function on the context, the
    world it works on, and nothing else; [None] stands for a body or loop
    that does not come back. *)

From S2P Require Import Prelude.

Section generator.
(** Values, the errors among them, and the world the bodies work on. *)
Context {V W : Type} (undef : V) (mkerr : error → V).

Inductive method := MNext | MThrow | MReturn.
#[global] Instance method_eq_dec : EqDecision method.
Proof. solve_decision. Defined.

(** A place in a body: a number or ['end']. *)
Inductive loc := At (n : nat) | LEnd.

Inductive completion :=
  | CNormal
  | CThrow (v : V)
  | CReturn (v : V)
  | CBreak (n : nat)
  | CContinue (n : nat).

(** An entry of [tryEntries]; the first entry, whose place is ['root'], has no
    number. *)
Record try_entry := TryEntry {
  te_try : option nat;
  te_catch : option nat;
  te_finally : option nat;
  te_after : option nat;
  te_completion : completion;
}.

(** What a call of an iterator's method comes to: a result, a false value, or
    an exception. *)
Inductive call_result := IterResult (v : V) (done : bool) | NotObject | IterThrow (v : V).
Definition iterator : Type := method → option (V → W → W * call_result).

Record delegation := Delegation { dg_iterator : iterator; dg_result : string; dg_next : nat }.

(** The context, [x] and its prototype. *)
Record context := Context {
  c_prev : loc;
  c_next : loc;
  c_sent : V;
  c_done : bool;
  c_delegate : option delegation;
  c_method : method;
  c_arg : V;
  c_rval : V;
  c_entries : list try_entry;
  c_temps : list (string * V);
}.

Definition set_prev v (c : context) := Context v (c_next c) (c_sent c) (c_done c) (c_delegate c) (c_method c) (c_arg c) (c_rval c) (c_entries c) (c_temps c).
Definition set_next v (c : context) := Context (c_prev c) v (c_sent c) (c_done c) (c_delegate c) (c_method c) (c_arg c) (c_rval c) (c_entries c) (c_temps c).
Definition set_sent v (c : context) := Context (c_prev c) (c_next c) v (c_done c) (c_delegate c) (c_method c) (c_arg c) (c_rval c) (c_entries c) (c_temps c).
Definition set_done v (c : context) := Context (c_prev c) (c_next c) (c_sent c) v (c_delegate c) (c_method c) (c_arg c) (c_rval c) (c_entries c) (c_temps c).
Definition set_delegate v (c : context) := Context (c_prev c) (c_next c) (c_sent c) (c_done c) v (c_method c) (c_arg c) (c_rval c) (c_entries c) (c_temps c).
Definition set_request m v (c : context) := Context (c_prev c) (c_next c) (c_sent c) (c_done c) (c_delegate c) m v (c_rval c) (c_entries c) (c_temps c).
Definition set_rval v (c : context) := Context (c_prev c) (c_next c) (c_sent c) (c_done c) (c_delegate c) (c_method c) (c_arg c) v (c_entries c) (c_temps c).
Definition set_entries v (c : context) := Context (c_prev c) (c_next c) (c_sent c) (c_done c) (c_delegate c) (c_method c) (c_arg c) (c_rval c) v (c_temps c).
Definition set_temp k v (c : context) := Context (c_prev c) (c_next c) (c_sent c) (c_done c) (c_delegate c) (c_method c) (c_arg c) (c_rval c) (c_entries c) ((k, v) :: c_temps c).

(** Function [D], with the four elements of its argument, and [E]. *)
Definition pushTryEntry (e : nat * (option nat * option nat * option nat)) : try_entry :=
  let '(t, (c, f, a)) := e in TryEntry (Some t) c f (match f with Some _ => a | None => None end) CNormal.
Definition set_completion (v : completion) (t : try_entry) : try_entry :=
  TryEntry (te_try t) (te_catch t) (te_finally t) (te_after t) v.
Definition resetTryEntry (t : try_entry) : try_entry := set_completion CNormal t.

(** [reset(true)], [reset(false)] and the constructor. *)
Definition reset (keep_temps : bool) (c : context) : context :=
  Context (At 0) (At 0) undef false None MNext undef (c_rval c) (resetTryEntry <$> c_entries c)
    (if keep_temps then c_temps c else (λ p, (p.1, undef)) <$> c_temps c).
Definition new_context (l : list (nat * (option nat * option nat * option nat))) : context :=
  reset true (Context (At 0) (At 0) undef false None MNext undef undef
    (TryEntry None None None None CNormal :: (pushTryEntry <$> l)) []).

(** What a body or a method of the context comes to. *)
Inductive outcome := Return (v : V) | Sentinel | Raise (v : V).

(** [i.tryLoc <= prev] and [prev < l]; no comparison with a string holds. *)
Definition try_before (t : option nat) (prev : loc) : bool :=
  match t, prev with Some t, At p => (t <=? p)%nat | _, _ => false end.
Definition before (prev : loc) (l : option nat) : bool :=
  match prev, l with At p, Some l => (p <? l)%nat | _, _ => false end.

(** The last entry for which [p] gives something. *)
Fixpoint find_last {A B} (p : A → option B) (l : list A) : option (nat * B) :=
  match l with
  | [] => None
  | x :: l =>
      match find_last p l with
      | Some (i, b) => Some (S i, b)
      | None => match p x with Some b => Some (0, b) | None => None end
      end
  end.

(** [stop()] *)
Definition stop (c : context) : context * outcome :=
  let c := set_done true c in
  match head (c_entries c) with
  | Some r => match te_completion r with CThrow v => (c, Raise v) | _ => (c, Return (c_rval c)) end
  | None => (c, Raise (mkerr TypeError))
  end.

(** What [dispatchException] makes of one entry: a place to go on at, whether
    there the exception counts as caught, or an error. *)
Inductive dispatch := Handle (l : loc) (caught : bool) | Malformed.
Definition dispatch_entry (prev : loc) (i : try_entry) : option dispatch :=
  match te_try i with
  | None => Some (Handle LEnd false)
  | Some _ =>
      if try_before (te_try i) prev then
        match te_catch i, te_finally i with
        | Some c, Some f => if before prev (Some c) then Some (Handle (At c) true)
                            else if before prev (Some f) then Some (Handle (At f) false) else None
        | Some c, None => if before prev (Some c) then Some (Handle (At c) true) else None
        | None, Some f => if before prev (Some f) then Some (Handle (At f) false) else None
        | None, None => Some Malformed
        end
      else None
  end.

(** [dispatchException(t)]; the sentinel for going on. *)
Definition dispatchException (t : V) (c : context) : context * outcome :=
  if c_done c then (c, Raise t)
  else
    match find_last (dispatch_entry (c_prev c)) (c_entries c) with
    | None => (c, Sentinel)
    | Some (_, Malformed) => (c, Raise (mkerr (PlainError "try statement without catch or finally")))
    | Some (s, Handle r o) =>
        let c := set_next r (set_entries (alter (set_completion (CThrow t)) s (c_entries c)) c) in
        (if o then set_request MNext undef c else c, Sentinel)
    end.

(** [complete(e, t)] *)
Definition complete (e : completion) (t : option nat) (c : context) : context * outcome :=
  match e with
  | CThrow v => (c, Raise v)
  | CBreak n | CContinue n => (set_next (At n) c, Sentinel)
  | CReturn v => (set_next LEnd (set_request MReturn v (set_rval v c)), Sentinel)
  | CNormal => (match t with Some (S t) => set_next (At (S t)) c | _ => c end, Sentinel)
  end.

(** [abrupt(type, arg)] *)
Definition finally_entry (prev : loc) (o : try_entry) : option nat :=
  if try_before (te_try o) prev && before prev (te_finally o) then te_finally o else None.
Definition jumps_within (e : completion) (t : option nat) (f : nat) : bool :=
  match e, t with
  | (CBreak n | CContinue n), Some t => (t <=? n)%nat && (n <=? f)%nat
  | _, _ => false
  end.
Definition abrupt (e : completion) (c : context) : context * outcome :=
  match find_last (finally_entry (c_prev c)) (c_entries c) with
  | Some (s, f) =>
      if jumps_within e (c_entries c !! s ≫= te_try) f then complete e None c
      else (set_next (At f) (set_request MNext (c_arg c) (set_entries (alter (set_completion e) s (c_entries c)) c)), Sentinel)
  | None => complete e None c
  end.

(** [finish(e)]: the entry is put back after its completion. *)
Definition finish (e : nat) (c : context) : context * option outcome :=
  match find_last (λ n, if decide (te_finally n = Some e) then Some n else None) (c_entries c) with
  | None => (c, None)
  | Some (i, n) =>
      match complete (te_completion n) (te_after n) c with
      | (c, Raise v) => (c, Some (Raise v))
      | (c, _) => (set_entries (alter resetTryEntry i (c_entries c)) c, Some Sentinel)
      end
  end.

(** [catch(e)] *)
Definition catch (e : nat) (c : context) : context * (V + V) :=
  match find_last (λ n, if decide (te_try n = Some e) then Some n else None) (c_entries c) with
  | None => (c, inr (mkerr (PlainError "illegal catch attempt")))
  | Some (i, n) =>
      match te_completion n with
      | CThrow o => (set_entries (alter resetTryEntry i (c_entries c)) c, inl o)
      | _ => (c, inl undef)
      end
  end.

(** Function [P] on an array that may have holes: a call of [next] takes the
    first element that is there from what is left, and leaves the rest. *)
Fixpoint values_next (t : list (option V)) : list (option V) * (V * bool) :=
  match t with
  | [] => ([], (undef, true))
  | Some v :: t => (t, (v, false))
  | None :: t => values_next t
  end.

(** The iterator of [keys]: the names listed at the start, without those that
    have left the object since. *)
Fixpoint keys_next {K} (present : K → bool) (n : list K) : list K * option K :=
  match n with
  | [] => ([], None)
  | r :: n => if present r then (n, Some r) else keys_next present n
  end.

(** [delegateYield(t, n, r)]; [t] is the iterator [values] made. *)
Definition delegateYield (t : iterator) (n : string) (r : nat) (c : context) : context * outcome :=
  let c := set_delegate (Some (Delegation t n r)) c in
  (match c_method c with MNext => set_request MNext undef c | _ => c end, Sentinel).

(** ** The state machine, functions [A] and [_] *)
Inductive gen_state := SuspendedStart | SuspendedYield | Executing | Completed.

Inductive answer := Answer (v : V) (done : bool) | Raised (v : V).

(** The call of the delegate's method [o] in function [_]: [inl] to go on,
    [inr] for the result to pass on. *)
Definition call_delegate (t : delegation) (o : V → W → W * call_result) (n : context) (w : W) :
    context * W * (unit + answer) :=
  let '(w, s) := o (c_arg n) w in
  match s with
  | IterThrow v => (set_delegate None (set_request MThrow v n), w, inl tt)
  | NotObject =>
      (set_delegate None (set_request MThrow (mkerr (PlainError "iterator result is not an object")) n), w, inl tt)
  | IterResult v true =>
      let n := set_next (At (dg_next t)) (set_temp (dg_result t) v n) in
      (set_delegate None (match c_method n with MReturn => n | _ => set_request MNext undef n end), w, inl tt)
  | IterResult v false => (n, w, inr (Answer v false))
  end.

Definition method_name (m : method) : string :=
  match m with MNext => "next" | MThrow => "throw" | MReturn => "return" end.

(** Function [_]. *)
Definition maybeInvokeDelegate (t : delegation) (n : context) (w : W) : context * W * (unit + answer) :=
  let r := c_method n in
  match dg_iterator t r with
  | Some o => call_delegate t o n w
  | None =>
      let n := set_delegate None n in
      let missing n :=
        match r with
        | MReturn => n
        | _ => set_request MThrow (mkerr (PlainError ("The iterator does not provide a '" ++ method_name r ++ "' method"))) n
        end in
      match r, dg_iterator t MReturn with
      | MThrow, Some o =>
          let '(n, w, _) := call_delegate t o (set_request MReturn undef n) w in
          match c_method n with MThrow => (n, w, inl tt) | _ => (missing n, w, inl tt) end
      | _, _ => (missing n, w, inl tt)
      end
  end.

Definition body : Type := context → W → option (context * W * outcome).

Record generator := Gen { g_state : gen_state; g_context : context }.

Section invoke.
Context (t : body).

(** One round of the loop of [A]: [inl] to go round again. *)
Definition run_body (r : context) (w : W) : option (gen_state * context * W * (unit + answer)) :=
  match t r w with
  | None => None
  | Some (r, w, l) =>
      let o := if c_done r then Completed else SuspendedYield in
      match l with
      | Sentinel => Some (o, r, w, inl tt)
      | Return v => Some (o, r, w, inr (Answer v (c_done r)))
      | Raise v => Some (Completed, set_request MThrow v r, w, inl tt)
      end
  end.

Definition resume (o : gen_state) (r : context) (w : W) : option (gen_state * context * W * (unit + answer)) :=
  match c_method r with
  | MNext => run_body (set_sent (c_arg r) r) w
  | MThrow =>
      match o with
      | SuspendedStart => Some (Completed, r, w, inr (Raised (c_arg r)))
      | _ =>
          match dispatchException (c_arg r) r with
          | (r, Raise v) => Some (o, r, w, inr (Raised v))
          | (r, _) => run_body r w
          end
      end
  | MReturn =>
      match abrupt (CReturn (c_arg r)) r with
      | (r, Raise v) => Some (o, r, w, inr (Raised v))
      | (r, _) => run_body r w
      end
  end.

Definition round (o : gen_state) (r : context) (w : W) : option (gen_state * context * W * (unit + answer)) :=
  match c_delegate r with
  | Some a =>
      match maybeInvokeDelegate a r w with
      | (r, w, inr c) => Some (o, r, w, inr c)
      | (r, w, inl _) => Some (o, r, w, inl tt)
      end
  | None => resume o r w
  end.

Fixpoint rounds (fuel : nat) (o : gen_state) (r : context) (w : W) : option (generator * W * answer) :=
  match fuel with
  | O => None
  | S fuel =>
      match round o r w with
      | None => None
      | Some (o, r, w, inr a) => Some (Gen o r, w, a)
      | Some (o, r, w, inl _) => rounds fuel o r w
      end
  end.

(** The method [A] makes: [s] is the method called, [i] its argument. *)
Definition invoke (fuel : nat) (g : generator) (s : method) (i : V) (w : W) : option (generator * W * answer) :=
  match g_state g with
  | Executing => Some (g, w, Raised (mkerr (PlainError "Generator is already running")))
  | Completed => Some (g, w, match s with MThrow => Raised i | _ => Answer undef true end)
  | o => rounds fuel o (set_request s i (g_context g)) w
  end.

(** Function [u]: a generator at its start. *)
Definition wrap (l : list (nat * (option nat * option nat * option nat))) : generator := Gen SuspendedStart (new_context l).

(** ** Asynchronous functions, [nn] and [tn]

    [await v w] is what [Promise.resolve(v)] settles to: a value or a reason. *)
Context (await : V → W → W * (V + V)).

Fixpoint asyncGeneratorStep (steps fuel : nat) (g : generator) (s : method) (i : V) (w : W) : option (W * (V + V)) :=
  match steps with
  | O => None
  | S steps =>
      match invoke fuel g s i w with
      | None => None
      | Some (_, w, Raised v) => Some (w, inr v)
      | Some (_, w, Answer v true) => Some (w, inl v)
      | Some (g, w, Answer v false) =>
          match await v w with
          | (w, inl c) => asyncGeneratorStep steps fuel g MNext c w
          | (w, inr e) => asyncGeneratorStep steps fuel g MThrow e w
          end
      end
  end.

Definition asyncToGenerator (steps fuel : nat) (w : W) : option (W * (V + V)) :=
  asyncGeneratorStep steps fuel (wrap []) MNext undef w.

(** ** Asynchronous iterators, function [N]

    [awaited v] is [u] where [v] is [awrap(u)]. Calls overlap: each waits until
    the ones before have settled. A promise that is waited for is the value it
    is made of, and whether the caller is given what it settles to ([Some done])
    or the generator goes on with it. *)
Context (awaited : V → option V).

Record waiting := Waiting { wt_value : V; wt_answer : option bool }.
(** Calls are numbered. *)
Record async_iterator := AsyncIterator {
  ai_generator : generator;
  ai_calls : nat;                              (* calls so far *)
  ai_running : option (nat * waiting);
  ai_queue : list (nat * (method * V));
  ai_settled : list (nat * answer);
}.
Definition new_async_iterator (g : generator) : async_iterator := AsyncIterator g 0 None [] [].

(** The function [n] for the call [k]: the generator goes on. *)
Definition async_resume (fuel k : nat) (o : method) (s : V) (a : async_iterator) (w : W) : option (async_iterator * W) :=
  match invoke fuel (ai_generator a) o s w with
  | None => None
  | Some (g, w, Raised v) => Some (AsyncIterator g (ai_calls a) None (ai_queue a) (ai_settled a ++ [(k, Raised v)]), w)
  | Some (g, w, Answer u done) =>
      let l := match awaited u with Some u => Waiting u None | None => Waiting u (Some done) end in
      Some (AsyncIterator g (ai_calls a) (Some (k, l)) (ai_queue a) (ai_settled a), w)
  end.

(** A call: the first one runs at once. *)
Definition async_call (fuel : nat) (e : method) (r : V) (a : async_iterator) (w : W) : option (async_iterator * W) :=
  let k := ai_calls a in
  match k with
  | O => async_resume fuel k e r (AsyncIterator (ai_generator a) 1 None [] []) w
  | S _ => Some (AsyncIterator (ai_generator a) (S k) (ai_running a) (ai_queue a ++ [(k, (e, r))]) (ai_settled a), w)
  end.
(** The next call runs when the one before it has settled. *)
Definition async_turn (fuel : nat) (a : async_iterator) (w : W) : option (async_iterator * W) :=
  match ai_running a, ai_queue a with
  | None, (k, (e, r)) :: q => async_resume fuel k e r (AsyncIterator (ai_generator a) (ai_calls a) None q (ai_settled a)) w
  | _, _ => Some (a, w)
  end.
(** The promise waited for settles. *)
Definition async_settles (fuel : nat) (v : V + V) (a : async_iterator) (w : W) : option (async_iterator * W) :=
  match ai_running a with
  | None => Some (a, w)
  | Some (k, l) =>
      let a := AsyncIterator (ai_generator a) (ai_calls a) None (ai_queue a) (ai_settled a) in
      match v, wt_answer l with
      | inl e, Some done => Some (AsyncIterator (ai_generator a) (ai_calls a) None (ai_queue a) (ai_settled a ++ [(k, Answer e done)]), w)
      | inl e, None => async_resume fuel k MNext e a w
      | inr e, _ => async_resume fuel k MThrow e a w
      end
  end.

Inductive async_event := AsyncCall (e : method) (r : V) | AsyncTurn | AsyncSettles (v : V + V).
Definition async_step (fuel : nat) (e : async_event) (s : async_iterator * W) : option (async_iterator * W) :=
  match e with
  | AsyncCall e r => async_call fuel e r s.1 s.2
  | AsyncTurn => async_turn fuel s.1 s.2
  | AsyncSettles v => async_settles fuel v s.1 s.2
  end.
Definition async_run (fuel : nat) (es : list async_event) (s : async_iterator * W) : option (async_iterator * W) :=
  foldl (λ s e, s ≫= async_step fuel e) (Some s) es.
End invoke.
End generator.
