(* ===== verification/AdapterGenerator.v ===== *)
(** * The adapter as it is compiled: generator bodies run by the runtime
    (functions [on], [sn], [an], [cn], [Zt], [Qt])

    [Adapter] gives the adapter's functions as sequences of operations. Here
    are the bodies of the generators they are compiled to, and the proof that
    running them gives the same. *)

From S2P Require Import Prelude JSColl JSNum Utils JSValue BKD Vector PT15 Schema Store Tokenizer Index Sorter Database Adapter Generator.
Local Open Scope Z_scope.

(** What the bodies yield, receive and return. *)
Inductive val :=
  | VUndef
  | VErr (x : error)
  | VDb (e : db)
  | VIds (l : list jsstr)
  | VResults (r : list found_doc * nat)
  | VMatches (l : list search_result).

Abbreviation ctx := (context (V := val) (W := adapter)).

(** Promises resolve plain values to themselves. *)
Definition resolve {W} (v : val) (w : W) : W * (val + val) := (w, inl v).

(** Function [Qt]: a copy of at most [t] elements; [Zt] copies an array. *)
Definition arrayLikeToArray {A} (e : list A) (t : option nat) : list A :=
  take (match t with Some t => if (length e <? t)%nat then length e else t | None => length e end) e.
Definition toConsumableArray {A} (e : list A) : list A := arrayLikeToArray e None.

(** [e.document.uri] can be read. *)
Definition documented (h : found_doc) : bool := match fd_document h with Some _ => true | None => false end.

Section bodies.
Context `{MathOps} (native : bool) (toLowerCase : jsstr → jsstr).
Context (uid : jsstr) (localeCompare : jsstr → jsstr → jsstr → Z).

(** The plugin's index over the tokenizer of the database. *)
Definition site_index (tk : tokenizer) : index_component := pt15_index native toLowerCase page_sep tk.

(** An operation at a place of a body: its value is yielded or stored, its
    exception leaves the body. *)
Definition at_place {W A} (r : W * result A) (k : A → W → context (V := val) (W := W) * W * outcome (V := val))
    (e : context (V := val) (W := W)) : option (context (V := val) (W := W) * W * outcome (V := val)) :=
  match r with
  | (w, Ok a) => Some (k a w)
  | (w, Throw x) => Some (e, w, Raise (VErr x))
  end.
Definition stopped {W} (e : context (V := val) (W := W)) (w : W) : option (context (V := val) (W := W) * W * outcome (V := val)) :=
  let '(e, o) := stop VErr e in Some (e, w, o).

(** The inner generator of [sn]: [t] is the list of pages, [c] the counter of
    ids when the database is created. *)
Definition init_body (tk : tokenizer) (c : nat) (t : list jsval) : body (V := val) (W := adapter) := λ e a,
  let e := set_prev (c_next e) e in
  match c_prev e with
  | At 0 =>
      let e := set_next (At 2) e in
      at_place (a, create_db (site_index tk) c pages_schema (tk_language tk) true []) (λ d a, (e, a, Return (VDb d))) e
  | At 2 =>
      let a := set_rn (match c_sent e with VDb d => Some d | _ => None end) a in
      let e := set_next (At 5) e in
      at_place (with_db (insertMultiple (site_index tk) uid t 1000 None) a) (λ l a, (e, a, Return (VIds l))) e
  | At 5 => stopped e (set_ready true a)
  | At 7 | LEnd => stopped e a
  | _ => None
  end.

(** The outer generator of [sn]: a script for the index, if the page names one;
    its [onload] calls the inner one. *)
Record page := Page { index_js_url : jsstr; page_scripts : list jsstr; page_adapter : adapter }.
Definition load_body : body (V := val) (W := page) := λ e w,
  let e := set_prev (c_next e) e in
  match c_prev e with
  | At 0 =>
      stopped e (match index_js_url w with
                 | [] => w
                 | r => Page r (page_scripts w ++ [r]) (page_adapter w)
                 end)
  | At 3 | LEnd => stopped e w
  | _ => None
  end.

(** The generator of [cn]; logging the results reads the address of each. *)
Definition matches_of (t : jsstr) (n : list found_doc) : list search_result :=
  (λ e, SearchResult (t :: toConsumableArray (split_on space t)) (fd_document e)) <$> n.
Definition search_body (tk : tokenizer) (t : jsstr) : body (V := val) (W := adapter) := λ e a,
  let e := set_prev (c_next e) e in
  match c_prev e with
  | At 0 =>
      let e := set_next (At 2) e in
      at_place (with_db (fullTextSearch (site_index tk) localeCompare (adapter_params t) None) a)
        (λ r a, (e, a, Return (VResults r))) e
  | At 2 =>
      match c_sent e with
      | VResults (n, _) =>
          if forallb documented n
          then let '(e, o) := abrupt (CReturn (VMatches (matches_of t n))) e in Some (e, a, o)
          else Some (e, a, Raise (VErr TypeError))
      | _ => Some (e, a, Raise (VErr TypeError))
      end
  | At 6 | LEnd => stopped e a
  | _ => None
  end.

(** ** Running the bodies *)
Definition settled {A} (f : A → val) (r : adapter * result A) : option (adapter * (val + val)) :=
  match r with (a, Ok x) => Some (a, inl (f x)) | (a, Throw x) => Some (a, inr (VErr x)) end.

(** The asynchronous function that fills the index, run by the generator
    runtime, settles after two waits and does what [init_index] does: the same
    database and flag, and a rejection exactly where it throws. *)
Theorem init_runs (tk : tokenizer) (c : nat) (t : list jsval) (a : adapter) :
  tokenizer_for (js "english") = Ok tk →
  asyncToGenerator VUndef VErr (init_body tk c t) resolve 3 3 a =
    settled (λ _, VUndef) (init_index native toLowerCase uid c t a).
Proof.
  intros Htk. unfold init_index. rewrite M_bind_eq. rewrite Htk. cbn [lift]. rewrite M_bind_eq. fold (site_index tk).
  unfold init_body. generalize (create_db (site_index tk) c pages_schema (tk_language tk) true []) as D.
  generalize (with_db (insertMultiple (site_index tk) uid t 1000 None)) as F. intros F [d|x]; [|reflexivity].
  destruct a as [rn0 ready]. lazy. destruct (F _) as [[rn1 ready1] [l|x]]; reflexivity.
Qed.

(** Loading the index announces one script, if the page names one. *)
Theorem load_runs (w : page) :
  asyncToGenerator VUndef VErr load_body resolve 1 1 w =
    Some (Page (index_js_url w) (page_scripts w ++ match index_js_url w with [] => [] | r => [r] end) (page_adapter w), inl VUndef).
Proof. destruct w as [[|c u] l a]; lazy; [|done]. fold (app l []). by rewrite app_nil_r. Qed.

Lemma copied {A} (l : list A) : toConsumableArray l = l.
Proof. unfold toConsumableArray, arrayLikeToArray. by rewrite take_ge. Qed.

Lemma removed_documented hits t e e' f :
  removeVectorsFromHits hits t e = (e', Ok f) → forallb documented f = true.
Proof.
  revert e e' f. induction hits as [|[k h] hits IH]; intros e e' f; cbn [removeVectorsFromHits]; [by intros [= _ <-]|].
  destruct (fd_document h) as [d|]; [|done]. rewrite M_bind_eq. cbn [modify]. rewrite M_bind_eq.
  destruct (removeVectorsFromHits hits t _) as [e1 [l|]] eqn:Hl; [|done]. intros [= _ <-]. cbn. by apply (IH _ _ _ Hl).
Qed.

Lemma fulltext_documented ic t n e e' f k :
  sp_includeVectors t = false → sp_preflight t = false →
  fullTextSearch ic localeCompare t n e = (e', Ok (f, k)) → forallb documented f = true.
Proof.
  intros Hv Hp. unfold fullTextSearch. rewrite !M_bind_eq. cbn [gets]. rewrite !M_bind_eq.
  destruct (innerFullTextSearch ic t n e) as [e1 [d|]]; [|done]. rewrite !M_bind_eq.
  match goal with |- context [match ?m e1 with _ => _ end] => destruct (m e1) as [e2 [d'|]]; [|done] end.
  rewrite Hp, Hv. rewrite M_bind_eq. destruct (fetchDocuments _ _ e2) as [e3 [l|]]; [|done].
  destruct (length _ =? 0)%nat.
  - intros [= _ <- _]. induction l as [|h l IH]; [done|]. done.
  - rewrite M_bind_eq. destruct (removeVectorsFromHits _ _ e3) as [e4 [l'|]] eqn:Hr; [|done].
    intros [= _ <- _]. by apply removed_documented in Hr.
Qed.

(** C11. The asynchronous search function, run by the generator runtime, settles
    after one wait and does what [search] does: the same matches and the same
    state, and a rejection exactly where it throws. *)
Theorem search_runs (tk : tokenizer) (t : jsstr) (a : adapter) :
  tokenizer_for (js "english") = Ok tk →
  asyncToGenerator VUndef VErr (search_body tk t) resolve 2 3 a =
    settled VMatches (search native toLowerCase localeCompare t a).
Proof.
  intros Htk. unfold search. rewrite M_bind_eq. rewrite Htk. cbn [lift]. rewrite M_bind_eq. fold (site_index tk).
  pose proof (fulltext_documented (site_index tk) (adapter_params t) None) as Hdoc.
  assert (∀ n, matches_of t n = (λ e, SearchResult (t :: split_on space t) (fd_document e)) <$> n) as Hm
    by (intros n; unfold matches_of; by rewrite copied).
  unfold search_body, with_db. revert Hdoc. generalize (fullTextSearch (site_index tk) localeCompare (adapter_params t) None) as F.
  intros F Hdoc. destruct a as [[e|] ready]; [|reflexivity]. cbn [rn].
  assert (∀ n : list found_doc * nat, (mret ((λ e, SearchResult (t :: split_on space t) (fd_document e)) <$> n.1) : M adapter _) =
    mret (matches_of t n.1)) as Hr by (intros; by rewrite Hm).
  destruct (F e) as [e' [[f k]|x]] eqn:Hf.
  - specialize (Hdoc e e' f k eq_refl eq_refl Hf). rewrite Hr. clear Hm Hr. revert Hdoc.
    generalize (matches_of t). generalize (forallb documented). intros Q Mt Hdoc. lazy. rewrite Hf. lazy. rewrite Hdoc. reflexivity.
  - lazy. rewrite Hf. reflexivity.
Qed.
End bodies.
