(* ===== verification/GeneratorTheorems.v ===== *)
(** * The generator protocol *)

From S2P Require Import Prelude JSColl JSValue Tokenizer BKDTheorems Database Adapter AdapterTheorems Generator AdapterGenerator.

Section protocol.
Context {V W : Type} (undef : V) (mkerr : error → V).
Abbreviation context := (context (V := V) (W := W)).
Abbreviation generator := (generator (V := V) (W := W)).

(** Every entry but the first has a [catch] or a [finally]. *)
Definition entry_wf (e : try_entry (V := V)) : Prop := te_try e = None ∨ te_catch e ≠ None ∨ te_finally e ≠ None.
Definition context_wf (r : context) : Prop := Forall entry_wf (c_entries r).

(** A body that keeps its table of [try] statements well formed. *)
Definition body_wf (t : body (V := V) (W := W)) : Prop :=
  ∀ r w r' w' l, t r w = Some (r', w', l) → context_wf r → context_wf r'.

(** A generator that is not finished has not stopped. *)
Definition open_state (o : gen_state) (r : context) : Prop := o = Completed ∨ c_done r = false.
Definition generator_wf (g : generator) : Prop :=
  g_state g ≠ Executing ∧ context_wf (g_context g) ∧ open_state (g_state g) (g_context g) ∧
  (g_state g = SuspendedStart → c_delegate (g_context g) = None).

Lemma alter_entries f s (es : list (try_entry (V := V))) :
  (∀ e, entry_wf e → entry_wf (f e)) → Forall entry_wf es → Forall entry_wf (alter f s es).
Proof. intros Hf Hes. apply Forall_alter; [done|]. intros x _ Hx. auto. Qed.

Lemma set_completion_wf v (e : try_entry (V := V)) : entry_wf e → entry_wf (set_completion v e).
Proof. done. Qed.

Lemma find_last_elem {A B} (p : A → option B) l i b : find_last p l = Some (i, b) → ∃ x, l !! i = Some x ∧ p x = Some b.
Proof.
  revert i b. induction l as [|x l IH]; intros i b; cbn [find_last]; [done|].
  destruct (find_last p l) as [[j b']|].
  - intros [= <- <-]. destruct (IH _ _ eq_refl) as (y & Hy & Hp). by exists y.
  - destruct (p x) eqn:Hp; [|done]. intros [= <- <-]. by exists x.
Qed.

(** An exception is dispatched without another one, unless the generator has
    stopped. *)
Lemma dispatch_wf t (r : context) r' o :
  context_wf r → dispatchException undef mkerr t r = (r', o) →
  context_wf r' ∧ c_done r' = c_done r ∧ c_delegate r' = c_delegate r ∧ (c_done r = false → o = Sentinel).
Proof.
  intros Hwf. unfold dispatchException. destruct (c_done r) eqn:Hd; [by intros [= <- <-]|].
  destruct (find_last _ _) as [[s [l o'|]]|] eqn:Hf.
  - intros [= <- <-]. assert (context_wf (set_next l (set_entries (alter (set_completion (CThrow t)) s (c_entries r)) r))).
    { by apply alter_entries. }
    by destruct o'.
  - exfalso. apply find_last_elem in Hf as (x & Hx & Hp). unfold context_wf in Hwf. rewrite Forall_lookup in Hwf.
    specialize (Hwf _ _ Hx). unfold dispatch_entry in Hp. destruct Hwf as [Ht|Ht].
    + by rewrite Ht in Hp.
    + destruct (te_try x); [|done]. destruct (try_before _ _); [|done].
      destruct (te_catch x), (te_finally x); repeat (destruct (before _ _)); naive_solver.
  - by intros [= <- <-].
Qed.

Lemma abrupt_wf v (r : context) r' o :
  context_wf r → abrupt (CReturn v) r = (r', o) → context_wf r' ∧ c_done r' = c_done r ∧ c_delegate r' = c_delegate r ∧ o = Sentinel.
Proof.
  intros Hwf. unfold abrupt. destruct (find_last _ _) as [[s f]|]; cbn [jumps_within]; intros [= <- <-]; split_and!; try done.
  by apply alter_entries.
Qed.

Section invoke.
Context (t : body (V := V) (W := W)) (Ht : body_wf t).

(** What a round ends with: the result of the call, or the next round. *)
Definition round_ok (o : gen_state) (r : context) (c : unit + answer (V := V)) : Prop :=
  o ≠ Executing ∧ context_wf r ∧ open_state o r ∧
  match c with
  | inl _ => o = SuspendedStart → c_delegate r = None
  | inr (Answer _ true) | inr (Raised _) => o = Completed
  | inr (Answer _ false) => o ≠ SuspendedStart
  end.

Lemma call_delegate_same d o (n : context) w (n' : context) w' c :
  call_delegate undef mkerr d o n w = (n', w', c) →
  c_entries n' = c_entries n ∧ c_done n' = c_done n ∧ ∀ a, c = inr a → ∃ v, a = Answer v false.
Proof.
  unfold call_delegate. destruct (o (c_arg n) w) as [w1 [v [|]| |v]]; intros [= <- <- <-]; try done.
  - destruct (c_method _); done.
  - split_and!; [done..|]. intros a [= <-]. eauto.
Qed.

Lemma delegate_same d (n : context) w (n' : context) w' c :
  maybeInvokeDelegate undef mkerr d n w = (n', w', c) →
  c_entries n' = c_entries n ∧ c_done n' = c_done n ∧ ∀ a, c = inr a → ∃ v, a = Answer v false.
Proof.
  unfold maybeInvokeDelegate. destruct (dg_iterator d (c_method n)) as [o|]; [apply call_delegate_same|].
  destruct (c_method n); [by intros [= <- <- <-]| |by intros [= <- <- <-]].
  destruct (dg_iterator d MReturn) as [o|]; [|by intros [= <- <- <-]].
  destruct (call_delegate _ _ _ _ _ _) as [[n1 w1] c1] eqn:Hc. apply call_delegate_same in Hc as (He & Hd & _).
  destruct (c_method n1); intros [= <- <- <-]; done.
Qed.

Lemma run_body_ok r w o' r' w' c :
  context_wf r → run_body t r w = Some (o', r', w', c) → round_ok o' r' c.
Proof.
  intros Hr. unfold run_body. destruct (t r w) as [[[r1 w1] l]|] eqn:Hl; [|done].
  pose proof (Ht _ _ _ _ _ Hl Hr) as Hr1. unfold round_ok, open_state.
  destruct l; intros [= <- <- <- <-]; (split_and!; [by destruct (c_done r1)|done|by destruct (c_done r1); auto|]).
  all: by destruct (c_done r1).
Qed.

Lemma round_wf o r w o' r' w' c :
  o ≠ Executing → context_wf r → open_state o r → (o = SuspendedStart → c_delegate r = None) →
  round undef mkerr t o r w = Some (o', r', w', c) → round_ok o' r' c.
Proof.
  intros Ho Hr Hopen Hstart. unfold round. destruct (c_delegate r) as [d|].
  - assert (o ≠ SuspendedStart) as Hs by (intros Hs; by specialize (Hstart Hs)).
    destruct (maybeInvokeDelegate undef mkerr d r w) as [[n1 w1] c1] eqn:Hc.
    apply delegate_same in Hc as (He & Hd & Ha). unfold round_ok, open_state, context_wf in *. rewrite <-He, <-Hd in *.
    destruct c1 as [[]|a]; intros [= <- <- <- <-]; split_and!; try done.
    destruct (Ha a eq_refl) as [v ->]. done.
  - unfold resume. destruct (c_method r).
    + by apply run_body_ok.
    + assert (o ≠ SuspendedStart → match dispatchException undef mkerr (c_arg r) r with
        | (r0, Raise v) => Some (o, r0, w, inr (Raised v)) | (r0, _) => run_body t r0 w end = Some (o', r', w', c) → round_ok o' r' c) as Hd.
      { intros Hs. destruct (dispatchException _ _ _ _) as [r1 x] eqn:Hx. apply dispatch_wf in Hx as (Hr1 & Hd1 & _ & Hx); [|done].
        destruct x; try (by apply run_body_ok). intros [= <- <- <- <-]. unfold round_ok, open_state.
        destruct Hopen as [->|Hnd]; [auto|]. by specialize (Hx Hnd). }
      destruct o; try (by apply Hd). intros [= <- <- <- <-]. unfold round_ok, open_state. auto.
    + destruct (abrupt _ _) as [r1 x] eqn:Hx. apply abrupt_wf in Hx as (Hr1 & _ & _ & ->); [|done]. by apply run_body_ok.
Qed.

Lemma rounds_wf fuel o r w g w' a :
  o ≠ Executing → context_wf r → open_state o r → (o = SuspendedStart → c_delegate r = None) →
  rounds undef mkerr t fuel o r w = Some (g, w', a) →
  generator_wf g ∧ match a with Answer _ true | Raised _ => g_state g = Completed | _ => True end.
Proof.
  revert o r w. induction fuel as [|fuel IH]; intros o r w Ho Hr Hopen Hs; cbn [rounds]; [done|].
  destruct (round undef mkerr t o r w) as [[[[o1 r1] w1] c]|] eqn:Hc; [|done].
  apply round_wf in Hc as (Ho1 & Hr1 & Hopen1 & Hc); [|done..]. destruct c as [[]|a1]; [by apply IH|].
  intros [= <- <- <-]. unfold generator_wf. cbn [g_state g_context]. split; [split_and!; [done..|]|].
  - intros ->. destruct a1 as [v [|]|v]; done.
  - destruct a1 as [v [|]|v]; done.
Qed.
End invoke.

Lemma wrap_wf l :
  Forall (λ e, e.2.1.1 ≠ None ∨ e.2.1.2 ≠ None) l → generator_wf (wrap undef l).
Proof.
  intros Hl. unfold generator_wf, wrap, open_state, context_wf. cbn. split_and!; [done| |by right|done].
  constructor; [by left|]. rewrite !Forall_fmap. eapply Forall_impl; [exact Hl|]. intros [n [[c f] a]] Hc. right. exact Hc.
Qed.
End protocol.

Lemma invoke_wf {V W : Type} (undef : V) (mkerr : error → V) (t : body (V := V) (W := W)) fuel g s i w g' w' a :
  body_wf t → generator_wf g → invoke undef mkerr t fuel g s i w = Some (g', w', a) →
  generator_wf g' ∧ match a with Answer _ true | Raised _ => g_state g' = Completed | Answer _ false => True end.
Proof.
  intros Ht (Ho & Hr & Hopen & Hs) Hi. unfold invoke in Hi. destruct (g_state g) eqn:Hstate; try done.
  - by apply rounds_wf in Hi; [|try done..].
  - by apply rounds_wf in Hi; [|try done..].
  - injection Hi as <- <- <-. split; [unfold generator_wf; rewrite Hstate; auto|]. by destruct s.
Qed.

(** C24. The protocol of generators: whatever the body does, as long as each of
    its [try] statements has a handler, a generator is never left executing;
    an answer that is done, and an exception that leaves a call, finish the
    generator; and a finished generator runs its body no more: it answers
    [undefined] and throws what it is given to throw. *)
Theorem generator_protocol {V W : Type} (undef : V) (mkerr : error → V) (t : body (V := V) (W := W))
    (fuel : nat) (g : generator) (s : method) (i : V) (w : W) (g' : generator) (w' : W) (a : answer) :
  body_wf t → generator_wf g → invoke undef mkerr t fuel g s i w = Some (g', w', a) →
  generator_wf g' ∧
  (match a with Answer _ true | Raised _ => g_state g' = Completed | Answer _ false => True end) ∧
  (g_state g' = Completed → ∀ fuel' s' i' w'',
     invoke undef mkerr t fuel' g' s' i' w'' =
       Some (g', w'', match s' with MThrow => Raised i' | _ => Answer undef true end)).
Proof.
  intros Ht Hg Hi. destruct (invoke_wf _ _ _ _ _ _ _ _ _ _ _ Ht Hg Hi) as [Hg' Ha].
  split_and!; [done|done|]. intros Hc fuel' s' i' w''. unfold invoke. by rewrite Hc.
Qed.

(** ** Asynchronous iterators *)
Section async.
Context {V W : Type} (undef : V) (mkerr : error → V) (t : body (V := V) (W := W)) (Ht : body_wf t) (awaited : V → option V) (fuel : nat).
Abbreviation iterator := (async_iterator (V := V) (W := W)).

(** Settled, running and waiting calls are all calls in their order. *)
Definition in_order (a : iterator) : Prop :=
  (ai_settled a).*1 ++ option_list (fst <$> ai_running a) ++ (ai_queue a).*1 = seq 0 (ai_calls a).
Definition async_ok (a : iterator) : Prop := generator_wf (ai_generator a) ∧ in_order a.

(** The call [k] is the one that runs when its turn comes. *)
Lemma async_resume_ok k o s (a : iterator) w a' w' :
  generator_wf (ai_generator a) → (ai_settled a).*1 ++ k :: (ai_queue a).*1 = seq 0 (ai_calls a) →
  async_resume undef mkerr t awaited fuel k o s a w = Some (a', w') → async_ok a'.
Proof.
  intros Hg Hk. unfold async_resume. destruct (invoke undef mkerr t fuel (ai_generator a) o s w) as [[[g w1] [u d|v]]|] eqn:Hi; [..|done].
  - intros [= <- <-]. split; [by eapply invoke_wf|]. unfold in_order. cbn. destruct (awaited u); exact Hk.
  - intros [= <- <-]. split; [by eapply invoke_wf|]. unfold in_order. cbn. rewrite fmap_app, <-app_assoc. exact Hk.
Qed.
Lemma async_step_ok e (s s' : iterator * W) : async_ok s.1 → async_step undef mkerr t awaited fuel e s = Some s' → async_ok s'.1.
Proof.
  destruct s as [[g n r q l] w], s' as [a' w']. intros [Hg Ho]. unfold in_order in Ho. cbn in Ho, Hg. destruct e as [m v| |v]; cbn [async_step fst snd].
  - unfold async_call. cbn. destruct n as [|n].
    + intros H. by eapply async_resume_ok in H.
    + intros [= <- <-]. split; [done|]. unfold in_order. cbn [ai_settled ai_running ai_queue ai_calls].
      rewrite fmap_app, seq_S, <-Ho. by rewrite <-!app_assoc.
  - unfold async_turn. cbn. destruct r as [[k x]|]; [by intros [= <- <-]|]. destruct q as [|[k [m v]] q]; [by intros [= <- <-]|].
    intros H. by eapply async_resume_ok in H.
  - unfold async_settles. cbn. destruct r as [[k [x [d|]]]|]; cbn in *; [..|by intros [= <- <-]]; destruct v as [v|v].
    all: try (intros H; by eapply async_resume_ok in H).
    intros [= <- <-]. split; [done|]. unfold in_order. cbn. rewrite fmap_app, <-app_assoc. exact Ho.
Qed.

Definition is_call (e : async_event (V := V)) : bool := match e with AsyncCall _ _ => true | _ => false end.
Lemma async_step_calls e (s s' : iterator * W) :
  async_step undef mkerr t awaited fuel e s = Some s' → ai_calls s'.1 = ((if is_call e then 1 else 0) + ai_calls s.1)%nat.
Proof.
  assert (∀ k o v (a : iterator) w (s' : iterator * W), async_resume undef mkerr t awaited fuel k o v a w = Some s' → ai_calls s'.1 = ai_calls a) as Hres.
  { intros k o v a w s1. unfold async_resume. destruct (invoke _ _ _ _ _ _ _ _) as [[[g w1] [u d|x]]|]; [by intros [= <-]|by intros [= <-]|done]. }
  destruct s as [[g n r q l] w]. destruct e as [m v| |v]; cbn [async_step fst snd is_call].
  - unfold async_call. cbn. destruct n; [by intros ?%Hres|by intros [= <-]].
  - unfold async_turn. cbn. destruct r as [[k x]|]; [by intros [= <-]|]. destruct q as [|[k [m v]] q]; [by intros [= <-]|by intros ?%Hres].
  - unfold async_settles. cbn. destruct r as [[k [x [d|]]]|]; cbn in *; [..|by intros [= <-]]; destruct v as [v|v]; try (by intros ?%Hres). by intros [= <-].
Qed.
Lemma async_run_ok es (s s' : iterator * W) :
  async_ok s.1 → async_run undef mkerr t awaited fuel es s = Some s' →
  async_ok s'.1 ∧ ai_calls s'.1 = (length (List.filter is_call es) + ai_calls s.1)%nat.
Proof.
  revert s. induction es as [|e es IH]; intros s Hs; unfold async_run; cbn [foldl]; [by intros [= <-]|]. cbn [mbind option_bind].
  destruct (async_step undef mkerr t awaited fuel e s) as [s1|] eqn:He.
  - intros Hr. destruct (IH s1) as [H1 H2]; [by eapply async_step_ok|exact Hr|]. split; [done|]. apply async_step_calls in He.
    cbn [List.filter]. destruct (is_call e); cbn [length]; lia.
  - intros Hr. exfalso. clear -Hr. induction es as [|e es IH]; [done|]. by apply IH.
Qed.
End async.

(** The calls of an asynchronous iterator may overlap in any way, with
    promises that settle to any values or reasons: the calls that have settled,
    the one that runs and those that wait are all calls made, each once, in
    their order; so no answer overtakes another, and once nothing runs or waits
    every call has settled. The generator is never found running. *)
Theorem async_answers_in_order {V W : Type} (undef : V) (mkerr : error → V) (t : body (V := V) (W := W)) (awaited : V → option V)
    (fuel : nat) l (es : list (async_event (V := V))) (w : W) (a : async_iterator (V := V) (W := W)) (w' : W) :
  body_wf t → Forall (λ e, e.2.1.1 ≠ None ∨ e.2.1.2 ≠ None) l →
  async_run undef mkerr t awaited fuel es (new_async_iterator (wrap undef l), w) = Some (a, w') →
  let calls := seq 0 (length (List.filter is_call es)) in
  (ai_settled a).*1 ++ option_list (fst <$> ai_running a) ++ (ai_queue a).*1 = calls ∧
  (ai_running a = None → ai_queue a = [] → (ai_settled a).*1 = calls) ∧ g_state (ai_generator a) ≠ Executing.
Proof.
  intros Ht Hl Hr. apply async_run_ok in Hr as [[Hg Ho] Hc]; [|done|split; [by apply wrap_wf|done]]. cbn in Hc. rewrite Nat.add_0_r in Hc.
  cbn [fst] in Hc. unfold in_order in Ho. cbn [fst] in Ho. rewrite Hc in Ho. split_and!; [exact Ho| |apply Hg].
  intros H1 H2. rewrite H1, H2 in Ho. cbn in Ho. by rewrite app_nil_r in Ho.
Qed.


Lemma load_body_wf : body_wf load_body.
Proof.
  intros r w r' w' l. unfold load_body, stopped, stop. destruct (c_next r) as [[|[|[|[|n]]]]|]; cbn; try done.
  all: destruct (c_entries r) as [|e es] eqn:He; cbn; [|destruct (te_completion e)]; intros [= <- <- <-]; by unfold context_wf; cbn; rewrite He.
Qed.

Lemma generator_protocol_witness :
  ∃ g, invoke VUndef VErr load_body 1 (wrap VUndef []) MNext VUndef (Page (js "index.js") [] new_adapter) =
         Some (g, Page (js "index.js") [js "index.js"] new_adapter, Answer VUndef true) ∧
       g_state g = Completed.
Proof.
  eexists. split; [vm_compute; reflexivity|].
  eapply (generator_protocol VUndef VErr load_body 1 (wrap VUndef []) MNext VUndef (Page (js "index.js") [] new_adapter)
    _ _ (Answer VUndef true) load_body_wf); [|vm_compute; reflexivity]. by apply wrap_wf.
Defined.

Lemma init_runs_witness :
  let r := asyncToGenerator VUndef VErr (init_body (H := no_math) true ascii_lower (js "1") page_tokenizer 0 []) resolve 3 3 new_adapter in
  r = settled (λ _, VUndef) (init_index (H := no_math) true ascii_lower (js "1") 0 [] new_adapter) ∧
  match r with Some (a, inl VUndef) => isSearchEngineReady a = true | _ => False end.
Proof.
  cbv zeta. split; [|vm_compute; reflexivity].
  exact (init_runs (H := no_math) true ascii_lower (js "1") page_tokenizer 0 [] new_adapter english_tokenizer).
Defined.

Lemma search_runs_witness :
  let r := asyncToGenerator VUndef VErr (search_body (H := no_math) true ascii_lower no_locale page_tokenizer (js "x")) resolve 2 3 new_adapter in
  r = settled VMatches (search (H := no_math) true ascii_lower no_locale (js "x") new_adapter) ∧
  r = Some (new_adapter, inr (VErr TypeError)).
Proof.
  cbv zeta. split; [|vm_compute; reflexivity].
  exact (search_runs (H := no_math) true ascii_lower no_locale page_tokenizer (js "x") new_adapter english_tokenizer).
Defined.

(** Two calls at once; the first one waits for a promise. *)
Definition one_await_body : body (V := val) (W := unit) := λ e w,
  match c_next e with
  | At 0 => Some (set_next (At 1) e, w, Return VUndef)
  | _ => Some (set_done true e, w, Return (c_sent e))
  end.
Lemma one_await_body_wf : body_wf one_await_body.
Proof. intros r w r' w' l. unfold one_await_body. destruct (c_next r) as [[|n]|]; by intros [= <- <- <-]. Qed.
Lemma async_answers_in_order_witness :
  ∃ a, async_run VUndef VErr one_await_body (λ _, None) 2
         [AsyncCall MNext VUndef; AsyncCall MNext (VErr TypeError); AsyncTurn; AsyncSettles (inl VUndef); AsyncTurn; AsyncSettles (inl (VErr TypeError))]
         (new_async_iterator (wrap VUndef []), tt) = Some (a, tt) ∧
       ai_settled a = [(0%nat, Answer VUndef false); (1%nat, Answer (VErr TypeError) true)] ∧ (ai_settled a).*1 = [0; 1]%nat.
Proof.
  eexists. split; [vm_compute; reflexivity|]. split; [reflexivity|].
  eapply (async_answers_in_order VUndef VErr one_await_body (λ _, None) 2 []
    [AsyncCall MNext VUndef; AsyncCall MNext (VErr TypeError); AsyncTurn; AsyncSettles (inl VUndef); AsyncTurn; AsyncSettles (inl (VErr TypeError))] tt _ tt
    one_await_body_wf (List.Forall_nil _)); [vm_compute; reflexivity|reflexivity|reflexivity].
Defined.
