(* ===== verification/Mutation.v ===== *)
(** * Changing a database: remove, update, save, load (orama.js)

    [orama.js] is the engine the search adapter was bundled from: its
    functions of the names [pe], [me], [ye], ... are those of search-orama.js
    under other names, and the definitions made for that file are used for
    them. What the bundle leaves out is here: [gn] (remove), [bn]
    (removeMultiple), [Wn] (update), [Vn] (updateMultiple), [Ln] (load), [Bn]
    (save), [qt] (getByID) and [Xt] (count).

    Removing many documents removes the first batch at once and each further
    batch in a later task of the event loop. *)

From S2P Require Import Prelude JSColl JSNum Utils JSValue Schema Store Index Sorter Database Facets Groups Search Hooks.
Local Open Scope Z_scope.

(** Hooks around removals and updates. *)
Record change_hooks := ChangeHooks {
  beforeRemove : list (hook jsstr);
  afterRemove : list (hook jsstr);
  beforeUpdate : list (hook docref);
  afterUpdate : list (hook jsstr);
  beforeRemoveMultiple : list (hook (list jsstr));
  afterRemoveMultiple : list (hook (list jsstr));
  beforeUpdateMultiple : list (hook (list docref));
  afterUpdateMultiple : list (hook (list jsstr));
}.
Definition quiet : change_hooks := ChangeHooks [] [] [] [] [] [] [] [].

Definition unless_skipped (skip : bool) (m : M db unit) : M db unit := if skip then mret tt else m.

(** Functions [qt] and [Xt]. *)
Definition getByID (t : docref) : M db (option jsval) := m_get_doc t.
Definition count : M db Z := gets (λ e, docs_count (db_docs e)).

(** [me(store, c)], of a known number *)
Definition m_name (c : Z) : M db jsstr :=
  s ← gets (λ e, st_ids (db_ist e));
  l ← lift (getDocumentIdFromInternalId s c);
  lift (of_option l).

Section mutation.
Context (ic : index_component) (uid : jsstr) (hi : insert_hooks) (h : change_hooks).

(** The loops over the searchable and the sortable properties. *)
Fixpoint remove_properties (f : list jsstr) (v : list (jsstr * jsval)) (d : list (jsstr * jsstr)) (c : Z)
    (n : option jsstr) (u : Z) (o : bool) : M db bool :=
  match f with
  | [] => mret o
  | r :: f =>
      match jm_get r v with
      | None | Some JUndef => remove_properties f v d c n u o
      | Some s =>
          b ← in_index (ic_remove ic r c s (default [] (jm_get r d)) n u);
          remove_properties f v d c n u (if (b : bool) then o else false)
      end
  end.
Fixpoint remove_sorted (p : list jsstr) (m : list (jsstr * jsval)) (t : docref) : M db unit :=
  match p with
  | [] => mret tt
  | n :: p =>
      match jm_get n m with
      | None | Some JUndef => remove_sorted p m t
      | Some _ =>
          o ← m_intern t;
          s ← gets db_sorting;
          s ← lift (sorter_remove n o s);
          modify (set_sorting s);;
          remove_sorted p m t
      end
  end.

(** [documentsStore.remove(docs, t)] *)
Definition m_docs_remove (t : docref) : M db bool := λ e,
  let '(i, d, b) := docs_remove (st_ids (db_ist e)) (db_docs e) t in
  (set_docs_store d (set_ist (Ist i (st_cache (db_ist e)) (st_index (db_ist e))) e), Ok b).

(** Function [gn]; [r] asks to skip the hooks. *)
Definition remove (t : docref) (n : option jsstr) (r : bool) : M db bool :=
  a ← m_get_doc t;
  match a with
  | None => mret false
  | Some a =>
      c ← m_intern t;
      l ← m_name c;
      u ← gets (λ e, docs_count (db_docs e));
      unless_skipped r (run_hooks (beforeRemove h) l);;
      f ← gets (λ e, searchableProperties (st_index (db_ist e)));
      d ← property_types;
      v ← lift (getDocumentProperties a f);
      o ← remove_properties f v d c n u true;
      p ← gets (λ e, getSortableProperties (db_sorting e));
      m ← lift (getDocumentProperties a p);
      remove_sorted p m t;;
      unless_skipped r (run_hooks (afterRemove h) l);;
      m_docs_remove t;;
      mret o
  end.

(** ** Many removals *)

(** The documents of one batch; the number of those removed. *)
Fixpoint remove_batch (l : list docref) (r : option jsstr) (o : bool) : M db nat :=
  match l with
  | [] => mret 0%nat
  | t :: l => b ← remove t r o; s ← remove_batch l r o; mret (if (b : bool) then S s else s)
  end.

(** The batches still to come: batch [a] of [n] documents of [t]. *)
Record timer := Timer { tm_docs : list docref; tm_size : nat; tm_batch : nat; tm_lang : option jsstr; tm_skip : bool }.
Record engine := Engine { en_db : db; en_timers : list timer }.
Definition on_db {A} (m : M db A) : M engine A := λ s,
  let '(e, r) := m (en_db s) in (Engine e (en_timers s), r).
Definition set_timeout (t : timer) : M engine unit := λ s, (Engine (en_db s) (en_timers s ++ [t]), Ok tt).

(** Function [c] of [bn]: one batch, and a timer for the next. *)
Definition remove_step (t : timer) : M engine nat :=
  let i := take (tm_size t) (drop (tm_batch t * tm_size t) (tm_docs t)) in
  if (length i =? 0)%nat then mret 0%nat
  else
    s ← on_db (remove_batch i (tm_lang t) (tm_skip t));
    set_timeout (Timer (tm_docs t) (tm_size t) (S (tm_batch t)) (tm_lang t) (tm_skip t));;
    mret s.

Fixpoint names (t : list docref) : M db (list jsstr) :=
  match t with
  | [] => mret []
  | x :: t => c ← m_intern x; l ← m_name c; ls ← names t; mret (l :: ls)
  end.

(** Function [bn]; [n] is the batch size, of which 0 counts as absent. *)
Definition removeMultiple (t : list docref) (n : option nat) (r : option jsstr) (o : bool) : M engine nat :=
  let n := match n with Some (S n) => S n | _ => 1000%nat end in
  i ← (if o then mret [] else on_db (names t));
  on_db (unless_skipped o (run_hooks (beforeRemoveMultiple h) i));;
  s ← remove_step (Timer t n 0 r o);
  on_db (unless_skipped o (run_hooks (afterRemoveMultiple h) i));;
  mret s.

(** The event loop: the timers run in their order, each its turn; an exception
    of one is reported and ends its chain. *)
Fixpoint run_timers (fuel : nat) (s : engine) : option engine :=
  match en_timers s with
  | [] => Some s
  | t :: ts =>
      match fuel with
      | O => None
      | S fuel => run_timers fuel (remove_step t (Engine (en_db s) ts)).1
      end
  end.

(** ** Updates *)

(** Function [Wn]. *)
Definition update (t : docref) (n : jsval) (r : option jsstr) (o : bool) (threshold : Z) : M db jsstr :=
  unless_skipped o (run_hooks (beforeUpdate h) t);;
  remove t r o;;
  s ← insert_hooked ic uid hi n r o threshold;
  unless_skipped o (run_hooks (afterUpdate h) s);;
  mret s.

(** The validation loop of [Vn]. *)
Fixpoint validate_all (n : list jsval) (sch : schema) : result unit :=
  match n with
  | [] => Ok tt
  | v :: n =>
      s ← validateSchema v sch;
      match s with
      | Some (c :: p) => Throw (OramaError "SCHEMA_VALIDATION_FAILURE" [c :: p])
      | _ => validate_all n sch
      end
  end.

(** Function [Vn]. *)
Definition updateMultiple (t : list docref) (n : list jsval) (r : option nat) (o : option jsstr) (s : bool) : M engine (list jsstr) :=
  on_db (unless_skipped s (run_hooks (beforeUpdateMultiple h) t));;
  sch ← on_db (gets db_schema);
  lift (validate_all n sch);;
  removeMultiple t r o s;;
  a ← on_db (insertMultiple_sync (λ v, insert_hooked ic uid hi v o s) hi n (default 1000%nat r) s);
  on_db (unless_skipped s (run_hooks (afterUpdateMultiple h) a));;
  mret a.
End mutation.

(** ** Saving and loading

    [J] is what the index component saves. *)
Section saving.
Context {J : Type} (index_saved : index → option J) (index_loaded : J → result index).
Context (localeCompare : jsstr → jsstr → jsstr → Z).

Record raw_data := RawData {
  raw_ids : list jsstr;
  raw_index : J;
  raw_docs : gmap Z jsval * Z;
  raw_sorting : sorter;
  raw_language : jsstr;
}.

(** Function [Bn]; saving puts the sorter in order. *)
Definition save (language : jsstr) (e : db) : option raw_data :=
  i ← index_saved (st_index (db_ist e));
  Some (RawData (ids_save (st_ids (db_ist e))) i (docs_save (db_docs e)) (sorter_save localeCompare (db_sorting e)) language).

(** Function [Ln]; the result is the tokenizer's language. The cache of the
    properties to search stays. *)
Definition load (t : raw_data) : M db jsstr :=
  modify (λ e, set_ist (Ist (ids_load (raw_ids t)) (st_cache (db_ist e)) (st_index (db_ist e))) e);;
  i ← lift (index_loaded (raw_index t));
  modify (λ e, set_ist (Ist (st_ids (db_ist e)) (st_cache (db_ist e)) i) e);;
  modify (set_docs_store (docs_load (raw_docs t)));;
  modify (set_sorting (sorter_load (raw_sorting t)));;
  mret (raw_language t).
End saving.
