(* ===== verification/SavedDatabase.v ===== *)
(** * Databases that are saved and loaded

    Functions [Bn] and [Ln] with the plugin pt15, whose positional nodes are
    saved apart from the others. *)

From Stdlib Require Import SpecFloat.
From S2P Require Import Prelude JSColl JSNum NumFacts Utils JSValue AVL Flat Levenshtein Radix BKD BKDTheorems Vector PT15 Schema Store Tokenizer Index Where Sorter Database TextIndex DatabaseTheorems Hooks Mutation Adapter AdapterTheorems DatabaseClaims.
Local Open Scope Z_scope.

(** ** The sorter *)
Section sorter.
Context (localeCompare : jsstr → jsstr → jsstr → Z).

(** Two sorters for the same properties. *)
Definition same_sorts (s t : sorter) : Prop :=
  so_enabled s = so_enabled t ∧ sortableProperties s = sortableProperties t ∧ ∀ p, is_Some (jm_get p (sorts s)) ↔ is_Some (jm_get p (sorts t)).
#[export] Instance same_sorts_equiv : Equivalence same_sorts.
Proof.
  split; [by intros s|intros s t (? & ? & H); split_and!; [done..|]; intros p; by rewrite H|].
  intros s t u (? & ? & H) (? & ? & H'). split_and!; [congruence..|]. intros p. by rewrite H, H'.
Qed.

Lemma same_sorts_set p d s : is_Some (jm_get p (sorts s)) → same_sorts (set_sorts (jm_set p d (sorts s)) s) s.
Proof.
  intros Hp. split_and!; [done..|]. intros q. cbn [sorts set_sorts]. rewrite jm_get_set. destruct (decide (q = p)) as [->|]; [|done].
  split; [done|by eexists].
Qed.
Lemma removed_same p s : same_sorts (ensurePropertyIsRemoved p s) s.
Proof.
  unfold ensurePropertyIsRemoved. destruct (jm_get p (sorts s)) as [n|] eqn:Hp; [|done]. destruct (_ =? _)%nat; [done|].
  apply same_sorts_set. by rewrite Hp.
Qed.
Lemma sorted_same p s : same_sorts (ensurePropertyIsSorted localeCompare p s) s.
Proof.
  unfold ensurePropertyIsSorted. destruct (jm_get p (sorts s)) as [n|] eqn:Hp; [|done].
  apply same_sorts_set. by rewrite Hp.
Qed.
Lemma fold_same (f : jsstr → sorter → sorter) l s : (∀ p s, same_sorts (f p s) s) → same_sorts (foldl (λ e n, f n e) s l) s.
Proof.
  intros Hf. revert s. induction l as [|p l IH]; intros s; [done|]. simpl. by rewrite IH.
Qed.
Lemma ensureIsSorted_same s : same_sorts (ensureIsSorted localeCompare s) s.
Proof.
  unfold ensureIsSorted. destruct (_ || _); [done|]. etrans; [|apply (fold_same (ensurePropertyIsSorted localeCompare)), sorted_same].
  by split_and!.
Qed.
Lemma sorter_save_load s : same_sorts (sorter_load (sorter_save localeCompare s)) s.
Proof.
  unfold sorter_save. destruct (so_enabled s) eqn:He; cbn [negb].
  - set (t := ensureIsSorted localeCompare _). assert (same_sorts t s) as Ht.
    { unfold t. rewrite ensureIsSorted_same. apply (fold_same ensurePropertyIsRemoved), removed_same. }
    clearbody t. rewrite <-Ht. unfold sorter_load. destruct (so_enabled t); [|done]. split_and!; [done..|]. intros p. cbn [negb sorts set_sorts].
    induction (sorts t) as [|[q d] l IH]; [done|]. rewrite fmap_cons. cbn [jm_get fst]. destruct (decide (p = q)); [|done]. split; by eexists.
  - unfold sorter_load. by rewrite He.
Qed.
End sorter.

(** ** The index of the plugin *)
Lemma spread_keys {V} (a b : list (jsstr * V)) k : k ∈ (spread a b).*1 ↔ k ∈ a.*1 ∨ k ∈ b.*1.
Proof.
  unfold spread. revert a. induction b as [|[k' v] b IH]; intros a; csimpl; [set_solver|].
  rewrite IH, jm_set_keys, elem_of_set_add, elem_of_cons. tauto.
Qed.
Lemma spread_wf {V} (a b : list (jsstr * V)) : jm_wf a → jm_wf (spread a b).
Proof. unfold spread. revert a. induction b as [|[k v] b IH]; intros a Ha; csimpl; [done|]. apply IH. by apply jm_wf_set. Qed.

(** Two indexes that differ in the order of their nodes at most. *)
Record same_nodes (i j : index) : Prop := {
  sn_rest : set_indexes (indexes i) j = i;
  sn_nodes : ∀ p, jm_get p (indexes j) = jm_get p (indexes i);
}.

Section plugin.
Context `{MathOps} (native : bool) (toLowerCase : jsstr → jsstr) (is_sep : jsstr → N → bool) (tk : tokenizer).
Context (Hsep : is_sep (tk_language tk) colon = true) (Hskip : tokenizeSkipProperties tk = []).
Context (ps : list (jsstr * bool)) (Hps : plain_names ps).
Abbreviation rep := (pt15_rep tk ps).

Lemma rep_position s F : rep s F → Forall (λ p, is_position p = true) (indexes (st_index s)).
Proof.
  intros Hs. destruct (rep_only _ _ _ _ Hs) as [Hwf Hk]. apply Forall_forall. intros [p n] Hin.
  assert (p ∈ ps.*1) as ([q b] & -> & Hp)%list_elem_of_fmap by (apply Hk, list_elem_of_fmap; by exists (p, n)).
  destruct (rep_nodes _ _ _ _ Hs q b Hp) as (t & Ht & _). cbn [fst] in Hin.
  apply jm_get_elem in Hin; [|done]. rewrite Ht in Hin. by injection Hin as <-.
Qed.

Lemma filter_position {l} : Forall (λ p, is_position p = true) l →
  List.filter is_position l = l ∧ List.filter (λ p, negb (is_position p)) l = [].
Proof. induction 1 as [|p l Hp Hl [IH1 IH2]]; [done|]. cbn [List.filter]. by rewrite Hp, IH1, IH2. Qed.

Lemma plugin_save_load s F :
  rep s F → ∃ t j, pt15_save (st_index s) = Some t ∧ pt15_load t = Ok j ∧ same_nodes (st_index s) j ∧
    jm_wf (indexes j) ∧ ∀ p, p ∈ (indexes j).*1 → p ∈ ps.*1.
Proof.
  intros Hs. pose proof (rep_position s F Hs) as Hpos. rewrite <-(obj_entries_perm (indexes _)) in Hpos.
  destruct (rep_only _ _ _ _ Hs) as [Hwf Hk]. pose proof (rep_vectors _ _ _ _ Hs) as Hvec.
  destruct (filter_position Hpos) as [H1 H2]. unfold pt15_save. rewrite H1, H2.
  destruct (st_index s) as [ns vs sp st fr oc av fl]; cbn [indexes vectorIndexes] in *. subst.
  eexists _, (Index (spread [] (obj_entries ns)) [] sp st fr oc av fl). split; [done|]. split; [done|]. cbn [indexes]. split_and!.
  - split; [done|]. intros p. cbn [indexes set_indexes]. rewrite spread_get, obj_entries_get by (done || by apply obj_entries_wf).
    by destruct (jm_get p ns).
  - apply spread_wf, NoDup_nil_2.
  - intros p [Hp|Hp]%spread_keys; [by apply not_elem_of_nil in Hp|]. apply Hk. by rewrite obj_entries_perm in Hp.
Qed.

(** Its representation does not depend on the order of the nodes. *)
Lemma same_nodes_rep s F i c j :
  rep s F → same_nodes (st_index s) j → cache_ok tk c → jm_wf (indexes j) → (∀ p, p ∈ (indexes j).*1 → p ∈ ps.*1) →
  rep (Ist i c j) F.
Proof.
  intros Hs [Hr Hn] Hc Hwf Hk. split; cbn [st_cache st_index]; [done|..|by split];
    try (pose proof (rep_props _ _ _ _ Hs) as H1; pose proof (rep_types _ _ _ _ Hs) as H2; pose proof (rep_vectors _ _ _ _ Hs) as H3;
      rewrite <-Hr in H1, H2, H3; done).
  intros p b Hp. rewrite Hn. by apply Hs.
Qed.

(** Two states with the same nodes answer alike. *)
Lemma property_alike s s' F t boost p :
  rep s F → rep s' F → same_nodes (st_index s) (st_index s') →
  ∃ c c', cache_ok tk c ∧ cache_ok tk c' ∧
    let r := pt15_property toLowerCase is_sep tk t boost None p in
    (r s).2 = (r s').2 ∧ (r s).1 = Ist (st_ids s) c (st_index s) ∧ (r s').1 = Ist (st_ids s') c' (st_index s').
Proof.
  intros Hs Hs' [_ Hn].
  destruct (m_tokenize_run toLowerCase is_sep tk Hsep Hskip s t None true (rep_cache _ _ _ _ Hs)) as (c & Hc & Hcok).
  destruct (m_tokenize_run toLowerCase is_sep tk Hsep Hskip s' t None true (rep_cache _ _ _ _ Hs')) as (c' & Hc' & Hcok').
  unfold pt15_property, mbind, M_mbind, gets. rewrite Hn.
  assert (∃ d d', cache_ok tk d ∧ cache_ok tk d' ∧ s = Ist (st_ids s) d (st_index s) ∧ s' = Ist (st_ids s') d' (st_index s')) as Hsame.
  { exists (st_cache s), (st_cache s'). split_and!; [apply Hs|apply Hs'|by destruct s|by destruct s']. }
  destruct (jm_get p (indexes (st_index s))) as [[[] ?]|];
    try (destruct Hsame as (d & d' & ? & ? & ? & ?); exists d, d'; done).
  rewrite Hc, Hc'. by exists c, c'.
Qed.
Lemma properties_alike o s s' F t boost :
  rep s F → rep s' F → same_nodes (st_index s) (st_index s') →
  let r := pt15_properties toLowerCase is_sep tk t o boost None in (r s).2 = (r s').2.
Proof.
  revert s s'. induction o as [|p o IH]; intros s s' Hs Hs' Hn r; [done|]. unfold r. clear r.
  destruct (property_alike s s' F t boost p Hs Hs' Hn) as (c & c' & Hc & Hc' & Hr & H1 & H2).
  cbn [pt15_properties]. unfold mbind, M_mbind.
  destruct (pt15_property toLowerCase is_sep tk t boost None p s) as [s1 x1], (pt15_property toLowerCase is_sep tk t boost None p s') as [s2 x2].
  cbn [fst snd] in *. subst. destruct x2 as [x|]; [|done].
  specialize (IH (Ist (st_ids s) c (st_index s)) (Ist (st_ids s') c' (st_index s'))). cbn zeta in IH.
  assert (∀ s c, rep s F → cache_ok tk c → rep (Ist (st_ids s) c (st_index s)) F) as Hc1 by (intros ?? [] ?; by split).
  specialize (IH (Hc1 _ _ Hs Hc) (Hc1 _ _ Hs' Hc') Hn).
  destruct (pt15_properties toLowerCase is_sep tk t o boost None (Ist (st_ids s) c (st_index s))) as [? [|]],
    (pt15_properties toLowerCase is_sep tk t o boost None (Ist (st_ids s') c' (st_index s'))) as [? [|]]; simpl in *; congruence.
Qed.

Lemma search_alike s s' F t o boost rel n thr :
  rep s F → rep s' F → same_nodes (st_index s) (st_index s') →
  let r := pt15_search toLowerCase is_sep tk t None o false 0 boost rel n None thr in (r s).2 = (r s').2.
Proof.
  intros Hs Hs' Hn. pose proof (properties_alike o s s' F t boost Hs Hs' Hn) as Hp. cbn zeta in *.
  unfold pt15_search, mbind, M_mbind, lift. cbn [Z.eqb negb].
  destruct (pt15_properties toLowerCase is_sep tk t o boost None s) as [? []], (pt15_properties toLowerCase is_sep tk t o boost None s') as [? []];
    simpl in *; congruence.
Qed.

(** ** The database *)
Context (uid : jsstr) (localeCompare : jsstr → jsstr → jsstr → Z).
Abbreviation ic := (pt15_index native toLowerCase is_sep tk).
#[local] Instance plugin_text_index : TextIndex toLowerCase is_sep tk ic ps rep.
Proof. by apply pt15_text_index. Qed.
Abbreviation holds_docs := (db_rep toLowerCase is_sep tk ps rep uid).

Lemma save_load_run language c e ds e0 b uns :
  holds_docs c e ds → create_db ic (c + length ds) (text_schema ps) language b uns = Ok e0 →
  ∃ t e', save pt15_save localeCompare language e = Some t ∧ load pt15_load t e0 = (e', Ok language) ∧
    holds_docs c e' ds ∧ same_nodes (st_index (db_ist e)) (st_index (db_ist e')).
Proof.
  intros He H0. destruct (plugin_save_load _ _ (dr_index _ _ _ _ _ _ _ _ _ He)) as (t & j & Ht & Hj & Hn & Hwf & Hk).
  unfold create_db in H0. destruct (ic_create _ _) as [i0|]; cbn [mbind result_mbind] in H0; [|done].
  destruct (sorter_create _ _ _ _) as [s0|]; cbn [mbind result_mbind] in H0; [|done]. injection H0 as <-.
  unfold save. rewrite Ht. cbn [mbind option_bind]. do 2 eexists. split; [done|].
  unfold load, mbind, M_mbind, modify, lift. cbn [raw_index raw_ids raw_docs raw_sorting raw_language]. rewrite Hj.
  rewrite ids_save_load by apply He. split; [done|]. split; [|done].
  pose proof (sorter_save_load localeCompare (db_sorting e)) as (Hen & Hprops & Hsorts).
  pose proof He as []. split; cbn [set_ist set_sorting set_docs_store db_schema db_ist db_docs db_sorting db_counter db_props st_ids st_cache st_index docs_load docs_save docs_map docs_count fst snd]; try done.
  - eapply same_nodes_rep; [exact dr_index|done|by intros ???|done|done].
  - intros p. unfold getSortableProperties. rewrite Hen, Hprops, Hsorts. apply dr_sorting.
  - by left.
Qed.

(** C17. Saving a database and loading it into a new one restores it: the new
    database holds the same documents under the same ids, and answers every
    text query with the same page of results and the same count as the saved
    one, scores included. *)
Theorem saved_database_restored (language : jsstr) (c : nat) (e : db) (ds : list jsval) (e0 : db) (b : bool) (uns : list jsstr) :
  ps ≠ [] → holds_docs c e ds → create_db ic (c + length ds) (text_schema ps) language b uns = Ok e0 →
  ∃ t e', save pt15_save localeCompare language e = Some t ∧ load pt15_load t e0 = (e', Ok language) ∧ holds_docs c e' ds ∧
    ∀ q limit offset, text_query q → sp_sortBy q = None → sp_preflight q = false →
      let run e := (fullTextSearch ic localeCompare (with_page limit offset q) None e).2 in
      run e' = run e ∧ ∃ hits n, run e = Ok (hits, n).
Proof.
  intros Hne He H0. destruct (save_load_run language c e ds e0 b uns He H0) as (t & e' & Ht & Hl & He' & Hn).
  exists t, e'. split_and!; [done..|]. intros q limit offset Hq Hs Hp run.
  destruct (inner_search_run toLowerCase is_sep tk ps Hps ic rep uid c e ds q) as (e1 & l & H1 & Hr1 & Hw1 & Hok1 & Hd1 & Hl1); [done..|].
  destruct (inner_search_run toLowerCase is_sep tk ps Hps ic rep uid c e' ds q) as (e2 & l' & H2 & Hr2 & Hw2 & Hok2 & Hd2 & Hl2); [done..|].
  assert (l' = l) as ->.
  { cbn [ic_search pt15_index] in Hl1, Hl2. rewrite (search_alike (db_ist e) (db_ist e') (filed toLowerCase is_sep tk ps ds)) in Hl1;
    [congruence|apply He|apply He'|done]. }
  pose proof (page_run toLowerCase is_sep tk ps ic rep uid localeCompare c) as Hpage. unfold run.
  rewrite (Hpage e e1 ds q l), (Hpage e' e2 ds q l) by done. split; [done|]. by eexists _, _.
Qed.
End plugin.

(** ** Witness *)
Lemma saved_database_restored_witness :
  ∃ e e1 e0 t e', create_db sample_index 0 pages_schema (js "english") true [] = Ok e ∧
    insert_batch sample_index (js "1") [sample_page "a" "b"; sample_page "c" "d"] None 1 e = (e1, Ok (made_ids (js "1") 0 2)) ∧
    create_db sample_index 2 pages_schema (js "english") true [] = Ok e0 ∧
    save pt15_save no_locale (js "english") e1 = Some t ∧ load pt15_load t e0 = (e', Ok (js "english")) ∧
    (fullTextSearch sample_index no_locale (adapter_params (js "a")) None e').2 =
      (fullTextSearch sample_index no_locale (adapter_params (js "a")) None e1).2.
Proof.
  assert (∀ c, ∃ e, create_db sample_index c pages_schema (js "english") true [] = Ok e ∧
    db_rep ascii_lower page_sep page_tokenizer page_properties (pt15_rep page_tokenizer page_properties) (js "1") c e []) as Hc.
  { intros c. rewrite pages_text_schema. apply create_run. apply _. }
  destruct (Hc 0%nat) as (e & He & Hrep), (Hc 2%nat) as (e0 & He0 & _).
  assert (Forall page [sample_page "a" "b"; sample_page "c" "d"]) as Hds.
  { apply Forall_cons; split; [apply sample_page_ok|]. apply Forall_cons; split; [apply sample_page_ok|by apply Forall_nil]. }
  destruct (insert_batch_run ascii_lower page_sep page_tokenizer page_properties page_names sample_index
    (pt15_rep page_tokenizer page_properties) (js "1") 0 e [] _ 1 Hrep Hds) as (e1 & He1 & Hrep1).
  assert (text_query (adapter_params (js "a"))) as Hq by (split; try reflexivity; apply adapter_weights).
  pose proof He0 as He0'. rewrite pages_text_schema in He0'.
  destruct (saved_database_restored (H := no_math) true ascii_lower page_sep page_tokenizer eq_refl eq_refl page_properties page_names
    (js "1") no_locale (js "english") 0 e1 _ e0 true [] ltac:(discriminate) Hrep1 He0') as (t & e' & Ht & Hl & _ & Hr).
  exists e, e1, e0, t, e'. split_and!; [done..|]. exact (proj1 (Hr (adapter_params (js "a")) 99%nat 0%nat Hq eq_refl eq_refl)).
Defined.
