(* ===== verification/MutationTheorems.v ===== *)
(** * What removals and updates do *)

From S2P Require Import BKDTheorems Adapter AdapterTheorems DatabaseClaims Prelude JSColl JSNum Utils JSValue AVL Flat Levenshtein Radix BKD Vector PT15 Schema Store Tokenizer Index Where Sorter Database DatabaseTheorems Facets Groups Search Hooks Mutation.
Local Open Scope Z_scope.

(** ** Computations that keep a part of the state *)
Definition keeps {S A X} (f : S → X) (m : M S A) : Prop := ∀ s, f (m s).1 = f s.

Section keeps.
Context {S X : Type} (f : S → X).
Lemma keeps_bind {A B} (m : M S A) (k : A → M S B) : keeps f m → (∀ a, keeps f (k a)) → keeps f (m ≫= k).
Proof. intros Hm Hk s. rewrite M_bind_eq. specialize (Hm s). destruct (m s) as [s' [a|]]; cbn in *; [by rewrite Hk|done]. Qed.
Lemma keeps_mret {A} (a : A) : keeps f (mret a : M S A). Proof. done. Qed.
Lemma keeps_gets {A} (g : S → A) : keeps f (gets g). Proof. done. Qed.
Lemma keeps_lift {A} (r : result A) : keeps f (lift r). Proof. done. Qed.
Lemma keeps_throw {A} x : keeps f (throw x : M S A). Proof. done. Qed.
Lemma keeps_mfor {A} (k : A → M S unit) l : (∀ a, keeps f (k a)) → keeps f (mfor k l).
Proof. intros Hk. induction l as [|a l IH]; [done|]. apply keeps_bind; auto. Qed.
End keeps.

Create HintDb keeps.
#[export] Hint Resolve keeps_mret keeps_gets keeps_lift keeps_throw : keeps.
Ltac keeps_steps := repeat first [apply keeps_bind; [|intros ?] | apply keeps_mfor; intros ? | progress auto with keeps | case_match].

Lemma keeps_on_index g : keeps st_ids (modify (on_index g)). Proof. done. Qed.
Lemma keeps_put_node n x b : keeps st_ids (put_node n x b). Proof. done. Qed.
Lemma keeps_tokenize lower is_sep tk e lang prop o : keeps st_ids (m_tokenize lower is_sep tk e lang prop o).
Proof. intros s. unfold m_tokenize. by destruct (tokenize _ _ _ _ _ _ _ _) as [[]|]. Qed.
#[export] Hint Resolve keeps_on_index keeps_put_node keeps_tokenize : keeps.

Lemma remove_scalar_keeps lower is_sep tk n o s i lang l : keeps st_ids (remove_scalar lower is_sep tk n o s i lang l).
Proof. unfold remove_scalar. keeps_steps. Qed.
#[export] Hint Resolve remove_scalar_keeps : keeps.
Lemma remove_value_keeps lower is_sep tk n o s i lang l : keeps st_ids (remove_value lower is_sep tk n o s i lang l).
Proof. unfold remove_value. keeps_steps. Qed.
#[export] Hint Resolve remove_value_keeps : keeps.

(** An index component whose removals leave the id store alone. *)
Class KeepsIds (ic : index_component) : Prop :=
  keeps_ids p c v ty n u s : st_ids (ic_remove ic p c v ty n u s).1 = st_ids s.

#[global] Instance default_keeps_ids `{MathOps} native lower is_sep tk : KeepsIds (default_index native lower is_sep tk).
Proof. intros p c v ty n u. apply remove_value_keeps. Qed.
#[global] Instance pt15_keeps_ids `{MathOps} native lower is_sep tk : KeepsIds (pt15_index native lower is_sep tk).
Proof.
  intros p c v ty n u. change (keeps st_ids (pt15_remove lower is_sep tk p c v ty n u)).
  unfold pt15_remove, pt15_string. keeps_steps.
Qed.

Section removal.
Context (ic : index_component) `{!KeepsIds ic} (h : change_hooks).

Definition same_store (e e' : db) : Prop := st_ids (db_ist e') = st_ids (db_ist e) ∧ db_docs e' = db_docs e.

Lemma same_store_trans e1 e2 e3 : same_store e1 e2 → same_store e2 e3 → same_store e1 e3.
Proof. intros [H1 H2] [H3 H4]. split; congruence. Qed.

Lemma remove_properties_store f v d c n u o e : same_store e (remove_properties ic f v d c n u o e).1.
Proof.
  revert o e. induction f as [|r f IH]; intros o e; [done|]. cbn [remove_properties].
  assert (∀ s, same_store e ((b ← in_index (ic_remove ic r c s (default [] (jm_get r d)) n u);
    remove_properties ic f v d c n u (if (b : bool) then o else false)) e).1) as Hstep.
  { intros s. rewrite M_bind_eq. unfold in_index. pose proof (keeps_ids r c s (default [] (jm_get r d)) n u (db_ist e)) as Hk.
    destruct (ic_remove _ _ _ _ _ _ _ _) as [i [b|]]; cbn [fst] in *; [|by split]. eapply same_store_trans; [|apply IH]. by split. }
  destruct (jm_get r v) as [[]|]; apply IH || apply Hstep.
Qed.

Lemma m_intern_known_ref t e c :
  getInternalDocumentId (st_ids (db_ist e)) t = (st_ids (db_ist e), c) → m_intern t e = (e, Ok c).
Proof. intros Ht. unfold m_intern. rewrite Ht. by destruct e as [? [] ? ? ? ?]. Qed.

Lemma remove_sorted_store p m t e c :
  getInternalDocumentId (st_ids (db_ist e)) t = (st_ids (db_ist e), c) → same_store e (remove_sorted p m t e).1.
Proof.
  revert e. induction p as [|n p IH]; intros e Ht; [done|]. cbn [remove_sorted].
  assert (same_store e ((o ← m_intern t; s ← gets db_sorting; s ← lift (sorter_remove n o s); modify (set_sorting s);; remove_sorted p m t) e).1) as Hstep.
  { rewrite (M_bind_ok _ _ _ _ _ (m_intern_known_ref t e c Ht)), M_bind_eq. cbn [gets]. rewrite M_bind_eq. unfold lift at 1.
    destruct (sorter_remove n c (db_sorting e)) as [s|]; [|by split]. rewrite M_bind_eq. cbn [modify].
    eapply same_store_trans; [|by apply IH]. by split. }
  destruct (jm_get n m) as [[]|]; by apply IH || apply Hstep.
Qed.

Lemma m_name_state c e : (m_name c e).1 = e.
Proof.
  unfold m_name. rewrite M_bind_eq. cbn [gets]. rewrite M_bind_eq. unfold lift at 1.
  by destruct (getDocumentIdFromInternalId _ _) as [[l|]|].
Qed.

(** A step that leaves the store alone leads a computation on. *)
Lemma store_step {A B} (m : M db A) (k : A → M db B) e (P : db * result B → Prop) :
  same_store e (m e).1 →
  (∀ e1 x, same_store e e1 → P (e1, Throw x)) → (∀ e1 a, same_store e e1 → P (k a e1)) → P ((m ≫= k) e).
Proof.
  intros Hm Hx Hk. rewrite M_bind_eq. destruct (m e) as [e1 [a|x]]; cbn [fst] in Hm; auto.
Qed.

(** What a removal leaves behind. *)
Definition removed_or_kept (e : db) (c : Z) (r : db * result bool) : Prop :=
  st_ids (db_ist r.1) = st_ids (db_ist e) ∧
  match r.2 with
  | Ok _ => db_docs r.1 = Docs (delete c (docs_map (db_docs e))) (docs_count (db_docs e) - 1)
  | Throw _ => db_docs r.1 = db_docs e
  end.

Lemma remove_known t n e c a :
  getInternalDocumentId (st_ids (db_ist e)) t = (st_ids (db_ist e), c) → docs_map (db_docs e) !! c = Some a →
  removed_or_kept e c (remove ic h t n true e).
Proof.
  intros Hc Ha. unfold remove, m_get_doc. rewrite M_bind_assoc, (M_bind_ok _ _ _ _ _ (m_intern_known_ref t e c Hc)).
  rewrite M_bind_eq. cbn [gets]. rewrite Ha, (M_bind_ok _ _ _ _ _ (m_intern_known_ref t e c Hc)).
  set (P := removed_or_kept e c).
  assert (∀ e1 x, same_store e e1 → P (e1, Throw x)) as Hthrow by (intros e1 x [? ?]; by split).
  apply store_step; [by rewrite m_name_state|done|]. intros e1 l H1. rewrite M_bind_eq. cbn [gets].
  cbn [unless_skipped]. rewrite (M_bind_ok (mret tt) _ _ _ tt eq_refl). rewrite M_bind_eq. cbn [gets].
  unfold property_types. rewrite M_bind_eq. cbn [gets]. rewrite M_bind_eq. unfold lift at 1.
  destruct (getDocumentProperties a _) as [v|x]; [|by apply Hthrow]. rewrite M_bind_eq.
  match goal with |- context [remove_properties ic ?f v ?d c n ?u true e1] => pose proof (remove_properties_store f v d c n u true e1) as H2;
    destruct (remove_properties ic f v d c n u true e1) as [e2 [o|x]] end; cbn [fst] in H2;
    pose proof (same_store_trans _ _ _ H1 H2) as H12; [|by apply Hthrow].
  rewrite M_bind_eq. cbn [gets]. rewrite M_bind_eq. unfold lift at 1. destruct (getDocumentProperties a _) as [m|x]; [|by apply Hthrow].
  rewrite M_bind_eq. pose proof (remove_sorted_store (getSortableProperties (db_sorting e2)) m t e2 c) as H3.
  destruct (remove_sorted _ m t e2) as [e3 [[]|x]]; cbn [fst] in H3;
    (assert (same_store e e3) as [Hi3 Hd3] by (eapply same_store_trans; [exact H12|]; apply H3; destruct H12 as [-> _]; exact Hc));
    [|by apply Hthrow].
  rewrite (M_bind_ok (mret tt) _ _ _ tt eq_refl). unfold m_docs_remove, docs_remove. rewrite M_bind_eq. rewrite Hi3, Hc, Hd3, Ha.
  by split.
Qed.

(** C15. Removing a document. A document that is stored is either removed, it
    alone, and the count goes down by one, or, when the index or the sorter throws
    on the way, it stays and so does the count; the id store is the same in both
    cases. An id without a document is answered [false] and changes nothing but
    the id store, which files the id if it is new. *)
Theorem remove_spec (t : docref) (n : option jsstr) (e : db) :
  (∀ c a, getInternalDocumentId (st_ids (db_ist e)) t = (st_ids (db_ist e), c) → docs_map (db_docs e) !! c = Some a →
     removed_or_kept e c (remove ic h t n true e)) ∧
  (∀ i c, getInternalDocumentId (st_ids (db_ist e)) t = (i, c) → docs_map (db_docs e) !! c = None →
     remove ic h t n true e = (set_ist (Ist i (st_cache (db_ist e)) (st_index (db_ist e))) e, Ok false)).
Proof.
  split; [intros; by eapply remove_known|]. intros i c Hc Hn. unfold remove, m_get_doc, m_intern.
  rewrite M_bind_assoc, M_bind_eq, Hc, M_bind_eq. cbn [gets set_ist db_docs]. by rewrite Hn.
Qed.
End removal.


Lemma on_db_skipped m s : on_db (unless_skipped true m) s = (s, Ok tt).
Proof. by destruct s. Qed.

(** ** Updates *)

(** Updating is not atomic: the old document is removed before the new one
    is validated, so that a new version that does not fit the schema is
    refused and the old one is gone; updating many documents validates first,
    and changes nothing then. *)
Theorem update_not_atomic (ic : index_component) `{!KeepsIds ic} uid hi t v n threshold e c a e1 b bad p :
  getInternalDocumentId (st_ids (db_ist e)) t = (st_ids (db_ist e), c) → docs_map (db_docs e) !! c = Some a →
  remove ic quiet t n true e = (e1, Ok b) → validateSchema v (db_schema e1) = Ok (Some (bad :: p)) →
  update ic uid hi quiet t v n true threshold e = (e1, Throw (OramaError "SCHEMA_VALIDATION_FAILURE" [bad :: p])) ∧
  docs_map (db_docs e1) !! c = None ∧
  (db_schema e1 = db_schema e → ∀ ts size l,
     updateMultiple ic uid hi quiet ts [v] size l true (Engine e []) =
       (Engine e [], Throw (OramaError "SCHEMA_VALIDATION_FAILURE" [bad :: p]))).
Proof.
  intros Hc Ha Hr Hv. split_and!.
  - unfold update. cbn [unless_skipped]. rewrite (M_bind_ok (mret tt) _ _ _ tt eq_refl), (M_bind_ok _ _ _ _ _ Hr).
    unfold insert_hooked. rewrite M_bind_assoc, M_bind_eq. cbn [gets]. rewrite M_bind_assoc, M_bind_eq. unfold lift at 1. by rewrite Hv.
  - pose proof (remove_known ic quiet t n e c a Hc Ha) as [_ Hd]. rewrite Hr in Hd. cbn in Hd. rewrite Hd. apply lookup_delete_eq.
  - intros Hs ts size l. unfold updateMultiple.
    rewrite (M_bind_ok _ _ _ _ _ (on_db_skipped _ _)), (M_bind_ok (on_db (gets db_schema)) _ (Engine e []) (Engine e []) (db_schema e) eq_refl).
    rewrite M_bind_eq. unfold lift at 1. cbn [validate_all]. rewrite <-Hs, Hv. done.
Qed.

(** ** Insertions that fail *)

Lemma insert_scalar_keeps lower is_sep tk n r lang count threshold c : keeps st_ids (insert_scalar lower is_sep tk n r lang count threshold c).
Proof. unfold insert_scalar. keeps_steps. Qed.
#[export] Hint Resolve insert_scalar_keeps : keeps.
Lemma insert_value_keeps lower is_sep tk n o s i lang l threshold : keeps st_ids (insert_value lower is_sep tk n o s i lang l threshold).
Proof. unfold insert_value. keeps_steps. Qed.
#[export] Hint Resolve insert_value_keeps : keeps.

(** An index component whose insertions leave the id store alone. *)
Class InsertKeepsIds (ic : index_component) : Prop :=
  insert_keeps_ids p c v ty n u th : keeps st_ids (ic_insert ic p c v ty n u th).
#[global] Instance default_insert_keeps `{MathOps} native lower is_sep tk : InsertKeepsIds (default_index native lower is_sep tk).
Proof. intros p c v ty n u th. apply insert_value_keeps. Qed.
#[global] Instance pt15_insert_keeps `{MathOps} native lower is_sep tk : InsertKeepsIds (pt15_index native lower is_sep tk).
Proof.
  intros p c v ty n u th. change (keeps st_ids (pt15_insert lower is_sep tk p c v ty n u th)). unfold pt15_insert, pt15_string. keeps_steps.
Qed.

(** What an insertion does after it has stored its document: the document, its
    id, the schema and the counter of ids stay. *)
Section failed.
Context (ic : index_component) `{!InsertKeepsIds ic} (uid : jsstr) (a : jsstr).

Definition insert_frame (e : db) : ids * docs * schema * nat := (st_ids (db_ist e), db_docs e, db_schema e, db_counter e).
Definition knows (e : db) : Prop := (intern (st_ids (db_ist e)) a).1 = st_ids (db_ist e).
Definition framed {A} (m : M db A) : Prop := ∀ e, knows e → insert_frame (m e).1 = insert_frame e.

Lemma framed_bind {A B} (m : M db A) (k : A → M db B) : framed m → (∀ x, framed (k x)) → framed (m ≫= k).
Proof.
  intros Hm Hk e He. rewrite M_bind_eq. specialize (Hm e He). destruct (m e) as [e' [x|]]; cbn [fst] in *; [|done].
  rewrite Hk; [done|]. unfold knows. unfold insert_frame in Hm. by injection Hm as -> _ _ _.
Qed.
Lemma framed_intern : framed (m_intern (RefStr a)).
Proof.
  intros e He. unfold m_intern. cbn [getInternalDocumentId]. unfold knows in He. destruct (intern _ a) as [i z]. cbn in He. by subst i.
Qed.
Lemma framed_index {A} (m : M ist A) : keeps st_ids m → framed (in_index m).
Proof. intros Hm e _. unfold in_index. specialize (Hm (db_ist e)). destruct (m (db_ist e)) as [s x]. unfold insert_frame. cbn in *. by rewrite Hm. Qed.
Lemma framed_index_properties r o lang th n : framed (index_properties ic a r o lang th n).
Proof.
  induction n as [|i n IH]; [done|]. cbn [index_properties]. destruct (jm_get i r) as [[]|]; try exact IH.
  all: apply framed_bind; [done|intros ?]; apply framed_bind; [exact framed_intern|intros ?]; apply framed_bind; [|by intros _].
  all: by apply framed_index, insert_keeps_ids.
Qed.
Lemma framed_sort l c : framed (sort_properties a l c).
Proof.
  induction c as [|n c IH]; [done|]. cbn [sort_properties]. destruct (jm_get n l) as [[]|]; try exact IH.
  all: apply framed_bind; [exact framed_intern|intros ?]; apply framed_bind; [done|intros ?]; apply framed_bind; [done|intros ?];
    apply framed_bind; [done|by intros _].
Qed.
Lemma framed_index_document t n th : framed (index_document ic t a n th).
Proof.
  unfold index_document. repeat (apply framed_bind; [first [done|apply framed_index_properties]|intros ?]). apply framed_sort.
Qed.
End failed.

Lemma intern_again i a : (intern (intern i a).1 a) = intern i a.
Proof.
  unfold intern. destruct (jm_get a (idToInternalId i)) as [n|] eqn:Hn.
  - destruct (n =? 0) eqn:H0; cbn [fst idToInternalId]; [|by rewrite Hn, H0].
    rewrite jm_get_set_eq. by destruct (Z.eqb_spec (Z.of_nat (length (idToInternalId i)) + 1) 0); [lia|].
  - cbn [fst idToInternalId]. rewrite jm_get_set_eq. by destruct (Z.eqb_spec (Z.of_nat (length (idToInternalId i)) + 1) 0); [lia|].
Qed.

(** C39. Inserting is not atomic: when a document with a fresh id of its own
    fits the schema but the insertion fails, in whatever language and for
    whatever reason, the document is stored and counted all the same, under the
    number of its id, and every further attempt to insert it is refused because
    its id is taken and changes nothing. *)
Theorem failed_insert_stays (ic : index_component) `{!InsertKeepsIds ic} uid (doc : jsval) lang threshold (e e1 : db) (x : error) (a : jsstr) :
  validateSchema doc (db_schema e) = Ok None → get_prop doc (js "id") = Ok (JStr a) → a ≠ [] →
  docs_map (db_docs e) !! (intern (st_ids (db_ist e)) a).2 = None →
  insert ic uid doc lang threshold e = (e1, Throw x) →
  docs_map (db_docs e1) = <[(intern (st_ids (db_ist e)) a).2 := doc]> (docs_map (db_docs e)) ∧
  docs_count (db_docs e1) = docs_count (db_docs e) + 1 ∧
  ∀ lang' threshold', insert ic uid doc lang' threshold' e1 = (e1, Throw (OramaError "DOCUMENT_ALREADY_EXISTS" [a])).
Proof.
  intros Hv Hid Hne Hfresh.
  assert (∀ i, getDocumentIndexId uid i doc = Ok (a, i)) as Ha.
  { intros i. unfold getDocumentIndexId. rewrite Hid. cbn. by destruct a. }
  pose proof (intern_again (st_ids (db_ist e)) a) as Hagain. destruct (intern (st_ids (db_ist e)) a) as [i z] eqn:Hi. cbn [fst snd] in *.
  unfold insert at 1. rewrite (M_bind_ok (gets db_schema) _ _ _ _ eq_refl), M_bind_eq. cbn [lift]. rewrite Hv.
  rewrite (M_bind_ok (gets db_counter) _ _ _ _ eq_refl), M_bind_eq. cbn [lift]. rewrite Ha.
  rewrite (M_bind_ok (modify _) _ _ _ _ eq_refl), M_bind_eq. unfold m_intern at 1. cbn [getInternalDocumentId db_ist set_counter st_ids].
  rewrite Hi. rewrite M_bind_eq. cbn [gets db_docs set_ist set_counter]. unfold docs_store. rewrite Hfresh. cbn [snd negb fst].
  rewrite (M_bind_ok (modify _) _ _ _ _ eq_refl). set (e2 := set_docs_store _ _).
  rewrite M_bind_eq. pose proof (framed_index_document ic a doc lang threshold e2) as Hfr.
  destruct (index_document ic doc a lang threshold e2) as [e3 [[]|y]]; [done|]. intros [= <- <-]. cbn [fst] in Hfr.
  assert (insert_frame e3 = insert_frame e2) as Hf by (apply Hfr; unfold knows, e2; cbn; by rewrite Hagain).
  unfold insert_frame, e2 in Hf. cbn in Hf. injection Hf as Hf1 Hf2 Hf3 Hf4. rewrite Hf2. split_and!; [done..|]. intros lang' th'.
  unfold insert. rewrite (M_bind_ok (gets db_schema) _ _ _ _ eq_refl), M_bind_eq. cbn [lift]. rewrite Hf3, Hv.
  rewrite (M_bind_ok (gets db_counter) _ _ _ _ eq_refl), M_bind_eq. cbn [lift]. rewrite Ha.
  rewrite (M_bind_ok (modify _) _ _ _ _ eq_refl), M_bind_eq. unfold m_intern. cbn [getInternalDocumentId db_ist set_counter st_ids].
  rewrite Hf1, Hagain, M_bind_eq. cbn [gets db_docs set_ist set_counter]. unfold docs_store. rewrite Hf2. cbn [docs_map].
  rewrite lookup_insert_eq. cbn [snd negb]. unfold throw. f_equal. destruct e3 as [sch [ids c ix] d so ct pr]. cbn in *. by subst.
Qed.

(** ** Many removals *)
Section timers.
Context (ic : index_component) (h : change_hooks) (r : option jsstr).
(** Databases from which removing works. *)
Context (Q : docref → Prop) (P : db → Prop).
Context (Hremove : ∀ t e, Q t → P e → ∃ e' b, remove ic h t r true e = (e', Ok b) ∧ P e').

Lemma batch_runs l e : Forall Q l → P e → ∃ e' k, remove_batch ic h l r true e = (e', Ok k) ∧ P e'.
Proof.
  intros Hl. revert e. induction Hl as [|t l Ht Hl IH]; intros e He; [by exists e, 0%nat|]. cbn [remove_batch].
  destruct (Hremove t e Ht He) as (e1 & b & Hr & He1). destruct (IH e1 He1) as (e2 & k & Hk & He2).
  rewrite (M_bind_ok _ _ _ _ _ Hr), (M_bind_ok _ _ _ _ _ Hk). eauto.
Qed.

Lemma batch_app l l' e e1 k e2 k' :
  remove_batch ic h l r true e = (e1, Ok k) → remove_batch ic h l' r true e1 = (e2, Ok k') →
  remove_batch ic h (l ++ l') r true e = (e2, Ok (k + k')%nat).
Proof.
  revert e k. induction l as [|t l IH]; intros e k; cbn [remove_batch app]; [by intros [= <- <-]|].
  rewrite !M_bind_eq. destruct (remove _ _ t _ _ e) as [e0 [b|]]; [|done]. rewrite !M_bind_eq.
  destruct (remove_batch ic h l r true e0) as [e3 [k3|]] eqn:H3; [|done]. intros [= -> <-] Hl'. rewrite (IH _ _ H3 Hl'). by destruct b.
Qed.

(** One chain of timers, from batch [a] on. *)
Lemma chain_runs t n a fuel e :
  (0 < n)%nat → (length t - a * n < fuel)%nat → Forall Q t → P e →
  ∃ e' k, run_timers ic h fuel (Engine e [Timer t n a r true]) = Some (Engine e' []) ∧
    remove_batch ic h (drop (a * n) t) r true e = (e', Ok k) ∧ P e'.
Proof.
  intros Hn Hf Ht. revert a e Hf. induction fuel as [|fuel IH]; intros a e Hf He; [lia|]. cbn [run_timers en_timers en_db].
  unfold remove_step. cbn [tm_size tm_batch tm_docs tm_lang tm_skip].
  set (i := take n (drop (a * n) t)). assert (length i = n `min` (length t - a * n))%nat as Hlen by (unfold i; by rewrite length_take, length_drop).
  destruct (length i =? 0)%nat eqn:H0; bool_to_prop.
  - exists e, 0%nat. split; [by destruct fuel|]. rewrite drop_ge by lia. done.
  - destruct (batch_runs i e) as (e1 & k1 & Hi & He1); [by apply Forall_take, Forall_drop|done|].
    rewrite M_bind_eq. unfold on_db at 1. cbn [en_db en_timers]. rewrite Hi. rewrite M_bind_eq. unfold set_timeout at 1.
    cbn [en_db en_timers fst mret M_mret app].
    destruct (IH (S a) e1) as (e2 & k2 & Hrun & Hb & He2); [lia|done|]. exists e2, (k1 + k2)%nat. split_and!; [exact Hrun| |done].
    assert (drop (a * n) t = i ++ drop (S a * n) t) as ->; [|by eapply batch_app].
    unfold i. rewrite <-(take_drop n (drop (a * n) t)) at 1. f_equal. rewrite drop_drop. f_equal. lia.
Qed.
End timers.

(** C16. Removing many documents: the call removes the first batch and answers
    with the number of those removed, whatever is still to come; the event
    loop then comes to an end, after at most one turn per document, and leaves
    the database as removing them all one after the other would. *)
Theorem removeMultiple_eventually (ic : index_component) (h : change_hooks) (r : option jsstr) (P : db → Prop)
    (t : list docref) (n : nat) (e : db) (fuel : nat) :
  (∀ x e, x ∈ t → P e → ∃ e' b, remove ic h x r true e = (e', Ok b) ∧ P e') → P e → (0 < n)%nat → (length t < fuel)%nat →
  ∃ s k e1 e2 total, removeMultiple ic h t (Some n) r true (Engine e []) = (s, Ok k) ∧
    remove_batch ic h (take n t) r true e = (e1, Ok k) ∧ en_db s = e1 ∧
    run_timers ic h fuel s = Some (Engine e2 []) ∧ remove_batch ic h t r true e = (e2, Ok total).
Proof.
  intros Hremove He Hn Hf. unfold removeMultiple. destruct n as [|n]; [lia|].
  rewrite (M_bind_ok (mret []) _ (Engine e []) (Engine e []) [] eq_refl), (M_bind_ok _ _ _ _ _ (on_db_skipped _ _)).
  unfold remove_step. cbn [tm_size tm_batch tm_docs tm_lang tm_skip Nat.mul]. rewrite drop_0.
  assert (Forall (.∈ t) t) as Ht by by apply Forall_forall.
  destruct (batch_runs ic h r (.∈ t) P Hremove (take (S n) t) e) as (e1 & k & Hb & He1); [by apply Forall_take|done|].
  destruct (length (take (S n) t) =? 0)%nat eqn:H0; bool_to_prop.
  - assert (t = []) as -> by (destruct t; [done|by rewrite length_take in H0]). cbn in Hb. injection Hb as <- <-.
    exists (Engine e []), 0%nat, e, e, 0%nat. split_and!; try done. by destruct fuel.
  - destruct (chain_runs ic h r (.∈ t) P Hremove t (S n) 1 fuel e1) as (e2 & k2 & Hrun & Hall & _); [lia|lia|done|done|].
    exists (Engine e1 [Timer t (S n) 1 r true]), k, e1, e2, (k + k2)%nat. split_and!; [|done..|exact Hrun|].
    + rewrite M_bind_eq, M_bind_eq. unfold on_db at 1. cbn [en_db en_timers]. rewrite Hb. rewrite M_bind_eq. unfold set_timeout at 1. cbn [mret M_mret]. by rewrite M_bind_eq, on_db_skipped.
    + rewrite Nat.mul_1_l in Hall. rewrite <-(take_drop (S n) t). by eapply batch_app.
Qed.

(** ** Examples *)
Definition plain_doc (s c : string) : jsval := JObj [(js "id", JStr (js s)); (js "size", JStr (js c))].
Definition small_db : db :=
  Db [] (Ist (Ids [(js "a", 1); (js "b", 2); (js "c", 3)] [js "a"; js "b"; js "c"]) [] empty_index)
    (Docs (<[1 := plain_doc "a" "x"]> (<[2 := plain_doc "b" "x"]> (<[3 := plain_doc "c" "x"]> ∅))) 3)
    (Sorter (js "en") false true [] [] []) 0 None.
Definition idle_index : index_component := {|
  ic_create _ := Ok empty_index; ic_insert _ _ _ _ _ _ _ := mret tt; ic_remove _ _ _ _ _ _ := mret true;
  ic_search _ _ _ _ _ _ _ _ _ _ := mret []; ic_where _ _ := mret [] |}.
#[export] Instance idle_keeps : KeepsIds idle_index.
Proof. by intros ???????. Qed.

(** The language of a document is refused only after it was stored. *)
Lemma failed_insert_stays_witness :
  let ic := plain_index (H := no_math) in
  let doc := JObj [(js "id", JStr (js "7")); (js "title", JStr (js "hello"))] in
  match create_db ic 0 [(js "title", SType (js "string"))] (js "english") true [] with
  | Ok e =>
      let r := insert ic (js "1") doc (Some (js "italian")) 1 e in
      r.2 = Throw (OramaError "LANGUAGE_NOT_SUPPORTED" [js "italian"]) ∧ docs_map (db_docs r.1) !! 1 = Some doc ∧
      insert ic (js "1") doc None 1 r.1 = (r.1, Throw (OramaError "DOCUMENT_ALREADY_EXISTS" [js "7"]))
  | Throw _ => False
  end.
Proof.
  intros ic doc. destruct (create_db ic 0 _ _ _ _) as [e|x] eqn:He; [|by vm_compute in He]. vm_compute in He. injection He as <-.
  match goal with |- let r := ?m in _ => set (r := m) end.
  assert (r.2 = Throw (OramaError "LANGUAGE_NOT_SUPPORTED" [js "italian"])) as Hr by (vm_compute; reflexivity).
  cbn zeta. split; [exact Hr|]. unfold r in Hr |- *. clear r.
  match goal with |- context [insert ic (js "1") doc (Some (js "italian")) 1 ?e0] => set (e := e0) in * end.
  destruct (insert ic (js "1") doc (Some (js "italian")) 1 e) as [e1 y] eqn:He1. cbn [fst snd] in *. subst y.
  destruct (failed_insert_stays ic (js "1") doc (Some (js "italian")) 1 e e1 (OramaError "LANGUAGE_NOT_SUPPORTED" [js "italian"]) (js "7"))
    as (Hd & _ & Hagain); [vm_compute; reflexivity|vm_compute; reflexivity|done|vm_compute; reflexivity|exact He1|].
  split; [|exact (Hagain None 1)]. rewrite Hd. vm_compute. reflexivity.
Defined.

(** A database that indexes and sorts nothing and knows three ids. *)
Definition bare (e : db) : Prop :=
  searchableProperties (st_index (db_ist e)) = [] ∧ so_enabled (db_sorting e) = false ∧
  st_ids (db_ist e) = st_ids (db_ist small_db).
Definition three : list docref := [RefStr (js "a"); RefStr (js "b"); RefStr (js "c")].

Lemma bare_remove t e : t ∈ three → bare e → ∃ e' b, remove idle_index quiet t None true e = (e', Ok b) ∧ bare e'.
Proof.
  intros Ht (Hs & Hso & Hi).
  assert (∃ c l, getInternalDocumentId (st_ids (db_ist e)) t = (st_ids (db_ist e), c) ∧ m_name c e = (e, Ok l)) as (c & l & Hc & Hl).
  { unfold three in Ht. repeat (apply elem_of_cons in Ht as [->|Ht]); [..|by apply elem_of_nil in Ht].
    all: eexists _, _; rewrite Hi; split; [vm_compute; reflexivity|].
    all: unfold m_name; rewrite M_bind_eq; cbn [gets]; rewrite Hi; reflexivity. }
  unfold remove, m_get_doc. rewrite M_bind_assoc, (M_bind_ok _ _ _ _ _ (m_intern_known_ref t e c Hc)), M_bind_eq. cbn [gets].
  destruct (docs_map (db_docs e) !! c) as [a|] eqn:Ha; [|exists e, false; done].
  rewrite (M_bind_ok _ _ _ _ _ (m_intern_known_ref t e c Hc)), (M_bind_ok _ _ _ _ _ Hl).
  rewrite (M_bind_ok (gets _) _ e e _ eq_refl), (M_bind_ok (unless_skipped true _) _ e e tt eq_refl).
  rewrite (M_bind_ok (gets _) _ e e _ eq_refl), (M_bind_ok property_types _ e e _ eq_refl), Hs.
  rewrite (M_bind_ok (lift (getDocumentProperties a [])) _ e e [] eq_refl), (M_bind_ok (remove_properties _ [] _ _ _ _ _ _) _ e e true eq_refl).
  rewrite (M_bind_ok (gets _) _ e e _ eq_refl). unfold getSortableProperties. rewrite Hso.
  rewrite (M_bind_ok (lift (getDocumentProperties a [])) _ e e [] eq_refl), (M_bind_ok (remove_sorted [] _ _) _ e e tt eq_refl).
  rewrite (M_bind_ok (unless_skipped true _) _ e e tt eq_refl). unfold m_docs_remove, docs_remove. rewrite M_bind_eq, Hc, Ha.
  eexists _, true. split; [reflexivity|]. by split_and!.
Qed.

Lemma small_bare : bare small_db.
Proof. repeat split. Qed.

Lemma removeMultiple_eventually_witness :
  ∃ s e2, removeMultiple idle_index quiet three (Some 2%nat) None true (Engine small_db []) = (s, Ok 2%nat) ∧
    docs_map (db_docs (en_db s)) !! 3 = Some (plain_doc "c" "x") ∧
    run_timers idle_index quiet 4 s = Some (Engine e2 []) ∧ docs_map (db_docs e2) !! 3 = None.
Proof.
  destruct (removeMultiple_eventually idle_index quiet None bare three 2 small_db 4 bare_remove small_bare)
    as (s & k & e1 & e2 & total & Hs & Hfirst & He1 & Hrun & Hall); [lia|cbn; lia|].
  assert (remove_batch idle_index quiet (take 2 three) None true small_db = (set_docs_store (Docs {[3 := plain_doc "c" "x"]} 1) small_db, Ok 2%nat)) as H1
    by (vm_compute; reflexivity).
  assert (remove_batch idle_index quiet three None true small_db = (set_docs_store (Docs ∅ 0) small_db, Ok 3%nat)) as H3
    by (vm_compute; reflexivity).
  rewrite H1 in Hfirst. injection Hfirst as He1' <-. rewrite H3 in Hall. injection Hall as <- _.
  exists s, (set_docs_store (Docs ∅ 0) small_db). split; [exact Hs|]. split; [|split; [exact Hrun|reflexivity]].
  rewrite He1, <-He1'. reflexivity.
Defined.

(** Updating more documents than a batch holds removes the rest of them only
    after the new versions are inserted: a document that keeps its id is then
    refused as already there. *)
Theorem updateMultiple_conflict uid :
  let new s := plain_doc s "y" in
  (updateMultiple idle_index uid no_hooks quiet [RefStr (js "a"); RefStr (js "b")] [new "a"; new "b"] (Some 1%nat) None true
     (Engine small_db [])).2 = Throw (OramaError "DOCUMENT_ALREADY_EXISTS" [js "b"]).
Proof. vm_compute. reflexivity. Qed.

Lemma remove_spec_witness :
  docs_map (db_docs (remove idle_index quiet (RefStr (js "b")) None true small_db).1) =
    <[1 := plain_doc "a" "x"]> (<[3 := plain_doc "c" "x"]> ∅) ∧
  (remove idle_index quiet (RefStr (js "z")) None true small_db).2 = Ok false.
Proof.
  split.
  - destruct (remove_spec idle_index quiet (RefStr (js "b")) None small_db) as [H _].
    destruct (H 2 (plain_doc "b" "x") eq_refl eq_refl) as [_ Hd].
    change ((remove idle_index quiet (RefStr (js "b")) None true small_db).2) with (Ok true) in Hd. rewrite Hd. vm_compute. reflexivity.
  - destruct (remove_spec idle_index quiet (RefStr (js "z")) None small_db) as [_ H].
    rewrite (H (Ids [(js "a", 1); (js "b", 2); (js "c", 3); (js "z", 4)] [js "a"; js "b"; js "c"; js "z"]) 4 eq_refl eq_refl). reflexivity.
Defined.
