(* ===== verification/AnswerSession.v ===== *)
(** * Answer sessions (class [Fn] of orama.js)

    A session keeps the messages exchanged with a chat model and one record
    for each question. The model and the search are services: what they
    deliver is given to the steps below. [fetchAnswer] is an asynchronous
    generator; its steps are the stretches of code between two waits, so that
    other methods may run between them, and a run is a sequence of steps. *)

From S2P Require Import Prelude JSColl JSValue.

Record chat_message := ChatMessage { role : string; content : jsstr }.

Section session.
(** Parameters of a question, their term, and what a search delivers. *)
Context {Q R : Type} (term : Q → option jsstr).

Record interaction := Interaction {
  interactionId : jsstr;
  aborted : bool;
  loading : bool;
  query : jsstr;
  response : jsstr;
  sources : option R;
  in_error : bool;
  errorMessage : option jsstr;
}.

(** [events.onStateChange] is called with the state: the calls are recorded. *)
Record session := Session {
  chatModel : option jsstr;
  messages : list chat_message;
  states : list interaction;
  lastInteractionParams : option Q;
  abort_requests : option nat;       (* the controller, and how often it was used *)
  state_changes : list (list interaction);
}.

Definition set_messages v (s : session) := Session (chatModel s) v (states s) (lastInteractionParams s) (abort_requests s) (state_changes s).
Definition set_states v (s : session) := Session (chatModel s) (messages s) v (lastInteractionParams s) (abort_requests s) (state_changes s).
Definition set_params v (s : session) := Session (chatModel s) (messages s) (states s) v (abort_requests s) (state_changes s).
Definition set_abort v (s : session) := Session (chatModel s) (messages s) (states s) (lastInteractionParams s) v (state_changes s).
Definition set_model v (s : session) := Session v (messages s) (states s) (lastInteractionParams s) (abort_requests s) (state_changes s).

(** [constructor] *)
Definition new_session (initialMessages : list chat_message) : session := Session None initialMessages [] None None [].

Definition triggerStateChange : M session unit :=
  modify (λ s, Session (chatModel s) (messages s) (states s) (lastInteractionParams s) (abort_requests s) (state_changes s ++ [states s])).
Definition push_message (m : chat_message) : M session unit := modify (λ s, set_messages (messages s ++ [m]) s).
Definition addEmptyAssistantMessage : M session unit := push_message (ChatMessage "assistant" []).

(** [this.state[n]], which may be gone. *)
Definition on_state (n : nat) (f : interaction → interaction) : M session unit :=
  l ← gets states;
  match l !! n with
  | None => throw TypeError
  | Some i => modify (set_states (<[n := f i]> l))
  end.

Definition with_sources r (i : interaction) := Interaction (interactionId i) (aborted i) (loading i) (query i) (response i) (Some r) (in_error i) (errorMessage i).
Definition with_response c (i : interaction) := Interaction (interactionId i) (aborted i) (loading i) (query i) (response i ++ c) (sources i) (in_error i) (errorMessage i).
Definition with_aborted (i : interaction) := Interaction (interactionId i) true (loading i) (query i) (response i) (sources i) (in_error i) (errorMessage i).
Definition with_error e (i : interaction) := Interaction (interactionId i) (aborted i) (loading i) (query i) (response i) (sources i) true (Some e).
Definition not_loading (i : interaction) := Interaction (interactionId i) (aborted i) false (query i) (response i) (sources i) (in_error i) (errorMessage i).

(** [messages.findLast(e => 'assistant' === e.role).content += c] *)
Fixpoint append_last (c : jsstr) (l : list chat_message) : option (list chat_message) :=
  match l with
  | [] => None
  | m :: l =>
      match append_last c l with
      | Some l => Some (m :: l)
      | None => if decide (role m = "assistant"%string) then Some (ChatMessage (role m) (content m ++ c) :: l) else None
      end
  end.

(** ** The steps of [fetchAnswer] *)

(** Up to the search; the result is the place [n] of the question. *)
Definition start_answer (id : jsstr) (e : Q) : M session nat :=
  m ← gets chatModel;
  match m with
  | None | Some [] => throw (OramaError "PLUGIN_SECURE_PROXY_MISSING_CHAT_MODEL" [])
  | Some _ =>
      let t := default [] (term e) in
      modify (set_abort (Some 0));;
      modify (set_params (Some e));;
      push_message (ChatMessage "user" t);;
      modify (λ s, set_states (states s ++ [Interaction id false true t [] None false None]) s);;
      n ← gets (λ s, (length (states s) - 1)%nat);
      addEmptyAssistantMessage;;
      triggerStateChange;;
      mret n
  end.

Definition search_done (n : nat) (r : R) : M session unit := on_state n (with_sources r);; triggerStateChange.

(** After a piece of the answer was handed out. *)
Definition chunk_taken (n : nat) (c : jsstr) : M session unit :=
  on_state n (with_response c);;
  l ← gets messages;
  l ← lift (result_of_option TypeError (append_last c l));
  modify (set_messages l);;
  triggerStateChange.

(** The [catch]: an exception is its name and its text. *)
Definition answer_failed (n : nat) (name : string) (text : jsstr) : M session unit :=
  on_state n (if decide (name = "AbortError"%string) then with_aborted else with_error text);;
  triggerStateChange.

Definition answer_finished (n : nat) : M session jsstr :=
  on_state n not_loading;;
  triggerStateChange;;
  l ← gets states;
  lift (result_of_option TypeError (response <$> l !! n)).

(** A run that nothing interrupts: what the search delivered or how it failed,
    the pieces of the answer, and how their stream ended. *)
Definition failure : Type := string * jsstr.
Inductive delivery := SearchFailed (x : failure) | Stream (r : R) (chunks : list jsstr) (ending : option failure).

Definition fetchAnswer (id : jsstr) (e : Q) (d : delivery) : M session jsstr :=
  n ← start_answer id e;
  match d with
  | SearchFailed (name, text) => answer_failed n name text
  | Stream r chunks ending =>
      search_done n r;;
      mfor (chunk_taken n) chunks;;
      match ending with Some (name, text) => answer_failed n name text | None => mret tt end
  end;;
  answer_finished n.

(** [ask]: the pieces handed out, joined. *)
Definition ask (id : jsstr) (e : Q) (d : delivery) : M session jsstr :=
  fetchAnswer id e d;;
  mret (match d with Stream _ chunks _ => concat chunks | SearchFailed _ => [] end).

(** ** The other methods *)
Definition clearSession : M session unit := modify (λ s, set_states [] (set_messages [] s)).

Definition abortAnswer : M session unit :=
  modify (λ s, set_abort (S <$> abort_requests s) s);;
  l ← gets states;
  match length l with
  | O => throw TypeError
  | S n => on_state n with_aborted
  end;;
  triggerStateChange.

(** [regenerateLast]: the question to ask again. *)
Definition regenerateLast : M session (option Q) :=
  s ← gets (λ s, s);
  match states s, messages s with
  | [], _ | _, [] => throw (PlainError "No messages to regenerate")
  | _, _ =>
      if decide (role <$> last (messages s) = Some "assistant"%string) then
        modify (λ s, set_states (removelast (states s)) (set_messages (removelast (messages s)) s));;
        gets lastInteractionParams
      else throw (OramaError "ANSWER_SESSION_LAST_MESSAGE_IS_NOT_ASSISTANT" [])
  end.

(** [init]: the plugin's chat model, if the plugin is there and names one; the
    system prompt becomes the first message. *)
Definition init_session (systemPrompt : jsstr) (plugin : option (option jsstr)) : M session unit :=
  match plugin with
  | None => throw (OramaError "PLUGIN_SECURE_PROXY_NOT_FOUND" [])
  | Some m =>
      (match systemPrompt with [] => mret tt | p => push_message (ChatMessage "system" p) end);;
      match m with
      | None | Some [] => throw (OramaError "PLUGIN_SECURE_PROXY_MISSING_CHAT_MODEL" [])
      | Some m => modify (set_model (Some m))
      end
  end.

(** ** What an answer leaves *)
Lemma append_last_spec c l m : role m = "assistant"%string → append_last c (l ++ [m]) = Some (l ++ [ChatMessage (role m) (content m ++ c)]).
Proof. intros Hm. induction l as [|x l IH]; cbn; [by rewrite decide_True|]. by rewrite IH. Qed.

(** The question in progress: the last message and the last state. *)
Definition answering (s : session) (l : list chat_message) (st : list interaction) (i : interaction) (c : jsstr) : Prop :=
  messages s = l ++ [ChatMessage "assistant" c] ∧ states s = st ++ [i].

Lemma on_state_last s l st i c f :
  answering s l st i c → ∃ s', on_state (length st) f s = (s', Ok tt) ∧ answering s' l st (f i) c ∧
    lastInteractionParams s' = lastInteractionParams s ∧ chatModel s' = chatModel s.
Proof.
  intros [Hm Hs]. unfold on_state. rewrite M_bind_eq. cbn [gets]. rewrite Hs, list_lookup_middle by done.
  eexists. split; [reflexivity|]. split_and!; [|done..]. split; [exact Hm|]. cbn. by rewrite insert_app_r_alt, Nat.sub_diag by lia.
Qed.

Lemma trigger_run s : ∃ s', triggerStateChange s = (s', Ok tt) ∧ messages s' = messages s ∧ states s' = states s ∧
  lastInteractionParams s' = lastInteractionParams s ∧ chatModel s' = chatModel s.
Proof. eexists. split; [reflexivity|done]. Qed.

Lemma chunk_run s l st i c x :
  answering s l st i c → ∃ s', chunk_taken (length st) x s = (s', Ok tt) ∧ answering s' l st (with_response x i) (c ++ x) ∧
    lastInteractionParams s' = lastInteractionParams s ∧ chatModel s' = chatModel s.
Proof.
  intros Ha. unfold chunk_taken. destruct (on_state_last s l st i c (with_response x) Ha) as (s1 & H1 & [Hm Hs] & Hp & Hc).
  rewrite (M_bind_ok _ _ _ _ _ H1), M_bind_eq. cbn [gets]. rewrite Hm, append_last_spec by done.
  rewrite M_bind_eq. cbn [lift result_of_option]. rewrite M_bind_eq. cbn [modify].
  eexists. split; [reflexivity|]. split_and!; [|done..]. split; [done|exact Hs].
Qed.

Lemma chunks_run chunks s l st i c :
  answering s l st i c →
  ∃ s', mfor (chunk_taken (length st)) chunks s = (s', Ok tt) ∧
    answering s' l st (with_response (concat chunks) i) (c ++ concat chunks) ∧
    lastInteractionParams s' = lastInteractionParams s ∧ chatModel s' = chatModel s.
Proof.
  revert s i c. induction chunks as [|x chunks IH]; intros s i c Ha.
  - exists s. split; [done|]. split; [|done]. cbn. rewrite app_nil_r. destruct i. unfold with_response. cbn. by rewrite app_nil_r.
  - destruct (chunk_run s l st i c x Ha) as (s1 & H1 & Ha1 & Hp1 & Hc1). cbn [mfor]. rewrite (M_bind_ok _ _ _ _ _ H1).
    destruct (IH s1 (with_response x i) (c ++ x) Ha1) as (s2 & H2 & Ha2 & Hp2 & Hc2). exists s2. split; [exact H2|].
    split; [|split; congruence]. cbn [concat]. rewrite <-(assoc_L (++)) in Ha2.
    unfold with_response in *. cbn in *. by rewrite (assoc_L (++)).
Qed.

(** Two steps that change the state of the question. *)
Lemma then_trigger (m : M session unit) s s1 l st i c :
  m s = (s1, Ok tt) → answering s1 l st i c →
  ∃ s2, (m;; triggerStateChange) s = (s2, Ok tt) ∧ answering s2 l st i c ∧
    lastInteractionParams s2 = lastInteractionParams s1 ∧ chatModel s2 = chatModel s1.
Proof.
  intros Hm [H1 H2]. rewrite (M_bind_ok _ _ _ _ _ Hm). destruct (trigger_run s1) as (s2 & Ht & Hm2 & Hs2 & Hp & Hc).
  exists s2. split; [exact Ht|]. split; [|done]. split; congruence.
Qed.

Definition answer_of (d : delivery) : jsstr := match d with SearchFailed _ => [] | Stream _ chunks _ => concat chunks end.
Definition failure_of (d : delivery) : option failure := match d with SearchFailed x => Some x | Stream _ _ x => x end.
Definition sources_of (d : delivery) : option R := match d with SearchFailed _ => None | Stream r _ _ => Some r end.

(** The record of a question that has been answered. *)
Definition answered (id : jsstr) (e : Q) (d : delivery) : interaction :=
  let aborted := match failure_of d with Some (name, _) => bool_decide (name = "AbortError"%string) | None => false end in
  let error := match failure_of d with Some (name, text) => if decide (name = "AbortError"%string) then None else Some text | None => None end in
  Interaction id aborted false (default [] (term e)) (answer_of d) (sources_of d)
    (match error with Some _ => true | None => false end) error.

Definition question_of (e : Q) (d : delivery) : list chat_message :=
  [ChatMessage "user" (default [] (term e)); ChatMessage "assistant" (answer_of d)].

Lemma failed_run n text s l st i c :
  answering s l st i c → ∃ s', answer_failed (length st) n text s = (s', Ok tt) ∧
    answering s' l st (if decide (n = "AbortError"%string) then with_aborted i else with_error text i) c ∧
    lastInteractionParams s' = lastInteractionParams s ∧ chatModel s' = chatModel s.
Proof.
  intros Ha. unfold answer_failed.
  destruct (on_state_last s l st i c (if decide (n = "AbortError"%string) then with_aborted else with_error text) Ha) as (s1 & H1 & Ha1 & Hp1 & Hc1).
  destruct (then_trigger _ _ _ _ _ _ _ H1 Ha1) as (s2 & H2 & Ha2 & Hp2 & Hc2). exists s2. split; [exact H2|].
  split; [by destruct (decide _)|split; congruence].
Qed.

Lemma finished_run s l st i c :
  answering s l st i c → ∃ s', answer_finished (length st) s = (s', Ok (response i)) ∧
    answering s' l st (not_loading i) c ∧ lastInteractionParams s' = lastInteractionParams s ∧ chatModel s' = chatModel s.
Proof.
  intros Ha. unfold answer_finished. destruct (on_state_last s l st i c not_loading Ha) as (s1 & H1 & Ha1 & Hp1 & Hc1).
  destruct (then_trigger _ _ _ _ _ _ _ H1 Ha1) as (s2 & H2 & Ha2 & Hp2 & Hc2). exists s2. rewrite <-M_bind_assoc.
  rewrite (M_bind_ok _ _ _ _ _ H2), M_bind_eq. cbn [gets]. destruct Ha2 as [Hm2 Hs2]. rewrite Hs2, list_lookup_middle by done.
  split; [done|]. split; [by split|split; congruence].
Qed.

Lemma start_run s id e m :
  chatModel s = Some m → m ≠ [] → ∃ s', start_answer id e s = (s', Ok (length (states s))) ∧
    answering s' (messages s ++ [ChatMessage "user" (default [] (term e))]) (states s)
      (Interaction id false true (default [] (term e)) [] None false None) [] ∧
    lastInteractionParams s' = Some e ∧ chatModel s' = chatModel s.
Proof.
  intros Hm Hne. unfold start_answer. rewrite M_bind_eq. cbn [gets]. rewrite Hm. destruct m as [|x m]; [done|].
  unfold addEmptyAssistantMessage, push_message, triggerStateChange, mbind, M_mbind, modify, gets, mret, M_mret.
  cbn [states set_states set_messages set_params set_abort]. rewrite length_app. cbn [length]. rewrite Nat.add_sub.
  eexists. split; [reflexivity|].
  split; [|done]. split; [|done]. cbn. by rewrite <-(assoc_L (++)).
Qed.

Lemma fetchAnswer_run s id e d m :
  chatModel s = Some m → m ≠ [] →
  ∃ s', fetchAnswer id e d s = (s', Ok (answer_of d)) ∧ messages s' = messages s ++ question_of e d ∧
    states s' = states s ++ [answered id e d] ∧ lastInteractionParams s' = Some e ∧ chatModel s' = chatModel s.
Proof.
  intros Hm Hne. unfold fetchAnswer. destruct (start_run s id e m Hm Hne) as (s1 & H1 & Ha1 & Hp1 & Hc1).
  rewrite (M_bind_ok _ _ _ _ _ H1). set (i0 := Interaction _ _ _ _ _ _ _ _) in Ha1.
  assert (∃ s2 i, (match d with
      | SearchFailed (name, text) => answer_failed (length (states s)) name text
      | Stream r chunks ending => search_done (length (states s)) r;; mfor (chunk_taken (length (states s))) chunks;;
          match ending with Some (name, text) => answer_failed (length (states s)) name text | None => mret tt end
      end) s1 = (s2, Ok tt) ∧ answering s2 (messages s ++ [ChatMessage "user" (default [] (term e))]) (states s) i (answer_of d) ∧
    response i = answer_of d ∧ not_loading i = answered id e d ∧ lastInteractionParams s2 = Some e ∧ chatModel s2 = chatModel s)
    as (s2 & i & H2 & Ha2 & Hr & Hi & Hp2 & Hc2).
  { destruct d as [[name text]|r chunks ending].
    - destruct (failed_run name text _ _ _ _ _ Ha1) as (s2 & H2 & Ha2 & Hp2 & Hc2). eexists s2, _. split; [exact H2|]. split; [exact Ha2|].
      unfold answered, i0. cbn [failure_of]. destruct (decide (name = "AbortError"%string)) as [He|He].
      + rewrite bool_decide_eq_true_2 by done. split_and!; try done; congruence.
      + rewrite bool_decide_eq_false_2 by done. split_and!; try done; congruence.
    - destruct (on_state_last _ _ _ _ _ (with_sources r) Ha1) as (s2 & H2 & Ha2 & Hp2 & Hc2).
      destruct (then_trigger _ _ _ _ _ _ _ H2 Ha2) as (s3 & H3 & Ha3 & Hp3 & Hc3).
      destruct (chunks_run chunks _ _ _ _ _ Ha3) as (s4 & H4 & Ha4 & Hp4 & Hc4).
      unfold search_done. rewrite (M_bind_ok _ _ _ _ _ H3), (M_bind_ok _ _ _ _ _ H4).
      destruct ending as [[name text]|].
      + destruct (failed_run name text _ _ _ _ _ Ha4) as (s5 & H5 & Ha5 & Hp5 & Hc5). eexists s5, _. split; [exact H5|]. split; [exact Ha5|].
        unfold answered, i0. cbn [failure_of]. destruct (decide (name = "AbortError"%string)) as [He|He].
        * rewrite bool_decide_eq_true_2 by done. split_and!; try done; congruence.
        * rewrite bool_decide_eq_false_2 by done. split_and!; try done; congruence.
      + eexists s4, _. split; [reflexivity|]. split; [exact Ha4|]. split_and!; try done; congruence. }
  rewrite (M_bind_ok _ _ _ _ _ H2). destruct (finished_run _ _ _ _ _ Ha2) as (s3 & H3 & [Hm3 Hs3] & Hp3 & Hc3).
  exists s3. rewrite H3, Hr. split_and!; [done| |by rewrite Hs3, Hi|congruence..].
  rewrite Hm3. unfold question_of. by rewrite <-(assoc_L (++)).
Qed.

(** An answer that nothing interrupts: the session gains the question and
    the answer, the answer is all pieces joined, in the message, in the record
    and as the value returned, also when the stream ends early; the record
    tells an abort from an error and no longer loads, whatever the end. *)
Theorem fetchAnswer_spec (s : session) (id : jsstr) (e : Q) (d : delivery) (m : jsstr) :
  chatModel s = Some m → m ≠ [] →
  ∃ s', fetchAnswer id e d s = (s', Ok (answer_of d)) ∧ messages s' = messages s ++ question_of e d ∧
    states s' = states s ++ [answered id e d].
Proof. intros Hm Hne. destruct (fetchAnswer_run s id e d m Hm Hne) as (s' & ? & ? & ? & _). eauto. Qed.

Local Lemma match_snoc {A B : Type} (l : list A) (p : A) (x y : B) : match l ++ [p] with [] => x | _ :: _ => y end = y.
Proof. by destruct l. Qed.

(** Asking the last question again removes the answer but not the question,
    and asking adds the question once more. *)
Theorem regenerate_repeats_question (s : session) (id id' : jsstr) (e : Q) (d d' : delivery) (m : jsstr) :
  chatModel s = Some m → m ≠ [] →
  ∃ s1 s2 s3, fetchAnswer id e d s = (s1, Ok (answer_of d)) ∧ regenerateLast s1 = (s2, Ok (Some e)) ∧
    fetchAnswer id' e d' s2 = (s3, Ok (answer_of d')) ∧
    messages s3 = messages s ++ [ChatMessage "user" (default [] (term e))] ++ question_of e d' ∧
    states s3 = states s ++ [answered id' e d'].
Proof.
  intros Hm Hne. destruct (fetchAnswer_run s id e d m Hm Hne) as (s1 & H1 & Hm1 & Hs1 & Hp1 & Hc1).
  assert (messages s1 = (messages s ++ [ChatMessage "user" (default [] (term e))]) ++ [ChatMessage "assistant" (answer_of d)]) as Hm1'
    by (rewrite Hm1; unfold question_of; by rewrite <-(assoc_L (++))).
  set (s2 := set_states (states s) (set_messages (messages s ++ [ChatMessage "user" (default [] (term e))]) s1)).
  assert (regenerateLast s1 = (s2, Ok (Some e))) as H2.
  { unfold regenerateLast. rewrite M_bind_eq. cbn [gets]. rewrite Hs1, Hm1'.
    rewrite !match_snoc.
    rewrite last_snoc. cbn [fmap option_fmap option_map role]. rewrite decide_True by done.
    rewrite M_bind_eq. unfold modify at 1. rewrite Hs1, Hm1', !removelast_last. unfold gets. cbn. by rewrite Hp1. }
  destruct (fetchAnswer_run s2 id' e d' m) as (s3 & H3 & Hm3 & Hs3 & _); [cbn; congruence|done|].
  exists s1, s2, s3. split_and!; [done..| |done]. rewrite Hm3. cbn. by rewrite <-(assoc_L (++)).
Qed.
End session.

Lemma fetchAnswer_spec_witness :
  let s := set_model (Some (js "gpt")) (new_session (Q := jsstr) (R := nat) []) in
  ∃ s', fetchAnswer (R := nat) Some (js "1") (js "why?") (Stream 7 [js "Be"; js "cause"] (Some ("AbortError"%string, js "stop"))) s = (s', Ok (js "Because")) ∧
    messages s' = [ChatMessage "user" (js "why?"); ChatMessage "assistant" (js "Because")].
Proof.
  destruct (fetchAnswer_spec (R := nat) Some (set_model (Some (js "gpt")) (new_session [])) (js "1") (js "why?")
    (Stream 7 [js "Be"; js "cause"] (Some ("AbortError"%string, js "stop"))) (js "gpt")) as (s' & Hs & Hm & _); [reflexivity|done|].
  exists s'. split; [exact Hs|exact Hm].
Defined.
