(* ===== verification/WordcutDict.v ===== *)
(** * The dictionary of the Thai word splitter (lunr/wordcut.js, [WordcutDict])

    A sorted array of words in which an acceptor narrows, character by
    character, the interval of the words that begin with what it has read.
    The two ends are found by binary search. *)

From S2P Require Import Prelude Utils.
Local Open Scope Z_scope.

(** ** Comparing and cutting strings *)

(** [a <= b] on strings compares their code units. *)
Fixpoint str_leb (a b : jsstr) : bool :=
  match a, b with
  | [], _ => true
  | _ :: _, [] => false
  | x :: a, y :: b => if (x <? y)%N then true else if (y <? x)%N then false else str_leb a b
  end.

(** [s.split(/[\r\n]+/)]: the pieces between runs of line ends. *)
Definition is_line_end (c : N) : bool := ((c =? 13) || (c =? 10))%N.
Fixpoint split_lines (s w : jsstr) (in_run : bool) : list jsstr :=
  match s with
  | [] => [w]
  | c :: s => if is_line_end c
              then if in_run then split_lines s w true else w :: split_lines s [] true
              else split_lines s (w ++ [c]) false
  end.

(** ** The array of words *)
Definition sortuniq (a : list jsstr) : list jsstr :=
  let arr := js_sort str_leb a in
  let fix keep (prev : option jsstr) (l : list jsstr) : list jsstr :=
    match l with
    | [] => []
    | item :: l => if bool_decide (prev = Some item) then keep (Some item) l else item :: keep (Some item) l
    end
  in keep None arr.

Definition finalizeDict (dict : list jsstr) : list jsstr := sortuniq dict.

Definition addWords (dict words : list jsstr) (finalize : bool) : list jsstr :=
  if finalize then finalizeDict (dict ++ words) else dict ++ words.

(** The files are not read: the words come from the text the script carries,
    whatever [files] is. *)
Definition addFiles (text : jsstr) (dict : list jsstr) (files : list jsstr) (finalize : bool) : list jsstr :=
  let words := filter (λ w, (1 < length w)%nat) (split_lines text [] false) in
  if finalize then finalizeDict (addWords dict words false) else addWords dict words false.

Definition dict_init (text defaultDict : jsstr) (dictPathFile : option jsstr) (withDefault : bool)
    (words : option (list jsstr)) : list jsstr :=
  let dictPath := (if withDefault || bool_decide (dictPathFile = None) then [defaultDict] else []) ++ option_list dictPathFile in
  let dict := addFiles text [] dictPath false in
  finalizeDict match words with Some words => addWords dict words false | None => dict end.

(** ** Searching *)
Inductive side := LEFT | RIGHT.

Section dict.
Context (dict : list jsstr).

(** [this.dict[m]], which code unit of it is read next. *)
Definition dict_item (m : Z) : result jsstr :=
  result_of_option TypeError (if m <? 0 then None else dict !! Z.to_nat m).

(** [dictSeek]: [None] when the fuel runs out, [Some (Ok None)] for [null]. *)
Fixpoint dictSeek (fuel : nat) (l r : Z) (ch : N) (strOffset : nat) (pos : side) (ans : option Z) : option (result (option Z)) :=
  if l <=? r then
    match fuel with
    | O => None
    | S fuel =>
        let m := (l + r) / 2 in
        match dict_item m with
        | Throw x => Some (Throw x)
        | Ok item =>
            match item !! strOffset with
            | None => dictSeek fuel (m + 1) r ch strOffset pos ans
            | Some ch_ =>
                if (ch_ <? ch)%N then dictSeek fuel (m + 1) r ch strOffset pos ans
                else if (ch <? ch_)%N then dictSeek fuel l (m - 1) ch strOffset pos ans
                else match pos with
                     | LEFT => dictSeek fuel l (m - 1) ch strOffset pos (Some m)
                     | RIGHT => dictSeek fuel (m + 1) r ch strOffset pos (Some m)
                     end
            end
        end
    end
  else Some (Ok ans).

(** The interval is halved: its length is fuel enough. *)
Definition seek (l r : Z) (ch : N) (strOffset : nat) (pos : side) : option (result (option Z)) :=
  dictSeek (Z.to_nat (r - l + 1)) l r ch strOffset pos None.

(** The state of a dictionary acceptor. *)
Record dict_acceptor := DictAcceptor { da_l : Z; da_r : Z; da_strOffset : nat; da_isFinal : bool; da_isError : bool }.

Definition dict_createAcceptor : dict_acceptor := DictAcceptor 0 (Z.of_nat (length dict) - 1) 0 false false.

Definition dict_isFinal (l : Z) (strOffset : nat) : result bool :=
  item ← dict_item l; Ok (length item =? strOffset)%nat.

Definition dict_transit (a : dict_acceptor) (ch : N) : option (result dict_acceptor) :=
  let off := da_strOffset a in
  match seek (da_l a) (da_r a) ch off LEFT with
  | None => None
  | Some (Throw x) => Some (Throw x)
  | Some (Ok None) => Some (Ok (DictAcceptor (da_l a) (da_r a) off (da_isFinal a) true))
  | Some (Ok (Some l)) =>
      match seek l (da_r a) ch off RIGHT with
      | None => None
      | Some (Throw x) => Some (Throw x)
      | Some (Ok r) =>
          (* found from the left, so found from the right; [null] would read as 0 *)
          Some (f ← dict_isFinal l (S off); Ok (DictAcceptor l (default 0 r) (S off) f (da_isError a)))
      end
  end.
End dict.
