(* ===== verification/Wordcut.v ===== *)
(** * The Thai word splitter (lunr/wordcut.js)

    Acceptors that are started at every character read the text in parallel;
    from those that accept, the best way to reach each position of the text is
    kept; the ranges of the words are read back from the end. Positions are
    natural numbers, [acceptor.mw] is never defined and counts 0. *)

From S2P Require Import Prelude JSColl JSValue WordcutDict.

(** [s.substring(a, b)] *)
Definition substring (text : jsstr) (a b : nat) : jsstr :=
  let a := Nat.min a (length text) in
  let b := Nat.min b (length text) in
  take (Nat.max a b - Nat.min a b) (drop (Nat.min a b) text).

(** ** Characters of the rules *)
Definition between (a b c : N) : bool := ((a <=? c) && (c <=? b))%N.
Definition is_space (ch : N) : bool :=
  bool_decide (ch ∈ [32; 9; 13; 10; 160; 8195]%N).
Definition is_single_symbol (ch : N) : bool := bool_decide ([ch] ∈ [js "@"; js "("; js ")"; js "/"; js ","; js "-"; js "."; [34%N]; js "`"]).

(** [isMatch]: the two placeholders match any consonant, the third any tone
    mark. *)
Definition isMatch (pat : jsstr) (offset : nat) (ch : N) : bool :=
  match pat !! offset with
  | None => false
  | Some _ch =>
      (_ch =? ch)%N
      || (bool_decide (_ch ∈ [3585; 3586]%N) && between 3585 3630 ch)
      || (bool_decide (_ch ∈ [3617; 3610]%N) && between 3585 3630 ch)
      || ((_ch =? 3657)%N && between 3656 3659 ch)
  end.

Definition Rule0_pat : jsstr := [3648; 3627; 3585; 3655; 3617]%N.
Definition PartRule_patterns : list jsstr :=
  [[3649; 3585]; [3648; 3585]; [3585; 3657]; [3585; 3585; 3660]; [3585; 3634]; [3585; 3637]; [3585; 3636]; [3585; 3639; 3585]]%N.

(** ** Acceptors *)

(** The latin rules [WordRule], [NumberRule], [SpaceRule], [SingleSymbolRule],
    the thai rules [Rule0] and [PartRule], and the dictionary. *)
Inductive creator := WordRule | SpaceRule | SingleSymbolRule | NumberRule | Rule0 | PartRule | WordcutDict (dict : list jsstr).

Definition LatinRules : list creator := [WordRule; SpaceRule; SingleSymbolRule; NumberRule].
Definition ThaiRules : list creator := [Rule0; PartRule].

(** What an acceptor keeps beside the common fields: its dictionary and
    interval, or the patterns left. *)
Inductive reading :=
  | ReadWord | ReadSpace | ReadSymbol | ReadNumber | ReadRule0
  | ReadPart (patterns : list jsstr)
  | ReadDict (dict : list jsstr) (l r : Z).

Record acceptor := Acceptor { strOffset : nat; isFinal : bool; isError : bool; reads : reading }.

Definition atag (a : acceptor) : string :=
  match reads a with
  | ReadWord => "WORD_RULE" | ReadSpace => "SPACE_RULE" | ReadSymbol => "SINSYM" | ReadNumber => "NUMBER_RULE"
  | ReadRule0 => "THAI_RULE" | ReadPart _ => "PART" | ReadDict _ _ _ => "DICT"
  end.
(** The fields [type], [unk] and [w]. *)
Definition atype (a : acceptor) : string := atag a.
Definition aunk (a : acceptor) : nat := match reads a with ReadPart _ => 1 | _ => 0 end.
Definition aw (a : acceptor) : nat := 1.

(** [createAcceptor] of each rule: three rules have one acceptor at a time. *)
Definition fresh (r : reading) : option acceptor := Some (Acceptor 0 false false r).
Definition WordRule_createAcceptor (tag : list string) : option acceptor :=
  if bool_decide ("WORD_RULE"%string ∈ tag) then None else fresh ReadWord.
Definition NumberRule_createAcceptor (tag : list string) : option acceptor :=
  if bool_decide ("NUMBER_RULE"%string ∈ tag) then None else fresh ReadNumber.
Definition SpaceRule_createAcceptor (tag : list string) : option acceptor :=
  if bool_decide ("SPACE_RULE"%string ∈ tag) then None else fresh ReadSpace.
Definition SingleSymbolRule_createAcceptor (tag : list string) : option acceptor := fresh ReadSymbol.
Definition Rule0_createAcceptor (tag : list string) : option acceptor := fresh ReadRule0.
Definition PartRule_createAcceptor (tag : list string) : option acceptor := fresh (ReadPart PartRule_patterns).
Definition WordcutDict_createAcceptor (dict : list jsstr) (tag : list string) : option acceptor :=
  let a := dict_createAcceptor dict in
  Some (Acceptor (da_strOffset a) (da_isFinal a) (da_isError a) (ReadDict dict (da_l a) (da_r a))).

Definition createAcceptor (c : creator) : list string → option acceptor :=
  match c with
  | WordRule => WordRule_createAcceptor
  | NumberRule => NumberRule_createAcceptor
  | SpaceRule => SpaceRule_createAcceptor
  | SingleSymbolRule => SingleSymbolRule_createAcceptor
  | Rule0 => Rule0_createAcceptor
  | PartRule => PartRule_createAcceptor
  | WordcutDict dict => WordcutDict_createAcceptor dict
  end.

Definition accept (a : acceptor) (final : bool) (r : reading) : acceptor := Acceptor (S (strOffset a)) final (isError a) r.
Definition fail (a : acceptor) (r : reading) : acceptor := Acceptor (strOffset a) (isFinal a) true r.

(** The last branch of the rules that read a run of characters. *)
Definition step (a : acceptor) (ok : bool) : acceptor := if ok then accept a true (reads a) else fail a (reads a).

Section wordcut.
Context (toLowerCase : jsstr → jsstr).

(** [transit(ch)] of each rule. *)
Definition WordRule_transit (a : acceptor) (ch : N) : acceptor :=
  let lch := toLowerCase [ch] in step a (str_leb (js "a") lch && str_leb lch (js "z")).
Definition NumberRule_transit (a : acceptor) (ch : N) : acceptor := step a (between 48 57 ch).
Definition SpaceRule_transit (a : acceptor) (ch : N) : acceptor := step a (is_space ch).
Definition SingleSymbolRule_transit (a : acceptor) (ch : N) : acceptor :=
  step a ((strOffset a =? 0)%nat && is_single_symbol ch).
Definition Rule0_transit (a : acceptor) (ch : N) : acceptor :=
  if isMatch Rule0_pat (strOffset a) ch
  then accept a (strOffset a + 1 =? length Rule0_pat)%nat (reads a) else fail a (reads a).
Definition PartRule_transit (a : acceptor) (patterns : list jsstr) (ch : N) : acceptor :=
  let offset := strOffset a in
  let patterns := filter (λ pat, isMatch pat offset ch = true) patterns in
  if (0 <? length patterns)%nat
  then accept a (existsb (λ pat, length pat =? 1 + offset)%nat patterns) (ReadPart patterns)
  else fail a (ReadPart patterns).

(** [acceptor.transit(ch)]; [None] is the dictionary search out of fuel. *)
Definition transit (a : acceptor) (ch : N) : option (result acceptor) :=
  match reads a with
  | ReadWord => Some (Ok (WordRule_transit a ch))
  | ReadNumber => Some (Ok (NumberRule_transit a ch))
  | ReadSpace => Some (Ok (SpaceRule_transit a ch))
  | ReadSymbol => Some (Ok (SingleSymbolRule_transit a ch))
  | ReadRule0 => Some (Ok (Rule0_transit a ch))
  | ReadPart patterns => Some (Ok (PartRule_transit a patterns ch))
  | ReadDict dict l r =>
      match dict_transit dict (DictAcceptor l r (strOffset a) (isFinal a) (isError a)) ch with
      | None => None
      | Some (Throw x) => Some (Throw x)
      | Some (Ok b) => Some (Ok (Acceptor (da_strOffset b) (da_isFinal b) (da_isError b) (ReadDict dict (da_l b) (da_r b))))
      end
  end.

(** ** The set of acceptors ([Acceptors]) *)
Record acceptors := Acceptors { current : list acceptor; tag : list string }.

Definition acceptors_reset : acceptors := Acceptors [] [].

(** Every acceptor reads the character; those that can go on are kept. *)
Fixpoint transit_all (l : list acceptor) (ch : N) : option (result (list acceptor)) :=
  match l with
  | [] => Some (Ok [])
  | a :: l =>
      match transit a ch with
      | None => None
      | Some (Throw x) => Some (Throw x)
      | Some (Ok a) =>
          match transit_all l ch with
          | None => None
          | Some (Throw x) => Some (Throw x)
          | Some (Ok l) => Some (Ok (if isError a then l else a :: l))
          end
      end
  end.

Definition acceptors_transit (creators : list creator) (s : acceptors) (ch : N) : option (result acceptors) :=
  match transit_all (current s ++ omap (λ c, createAcceptor c (tag s)) creators) ch with
  | None => None
  | Some (Throw x) => Some (Throw x)
  | Some (Ok l) => Some (Ok (Acceptors l (set_of (atag <$> l))))
  end.

Definition getFinalAcceptors (s : acceptors) : list acceptor := filter (λ a, isFinal a = true) (current s).

(** ** Ways to a position ([PathInfoBuilder], [PathSelector]) *)

(** The way that ends at a position: where its last word begins, its weights,
    and the position a fragment is merged to. *)
Record path_info := PathInfo { p : option nat; mw : nat; w : nat; unk : nat; type : string; merge : option nat }.
Definition set_merge (j : nat) (i : path_info) : path_info := PathInfo (p i) (mw i) (w i) (unk i) (type i) (Some j).

Definition createPath : list path_info := [PathInfo None 0 0 0 "INIT" None].

(** [path[j].merge = p] for [j] from [from] on, [n] times. *)
Fixpoint merge_path (from n pp : nat) (path : list path_info) : result (list path_info) :=
  match n with
  | O => Ok path
  | S n => match path !! from with
           | None => Throw TypeError
           | Some info => merge_path (S from) n pp (<[from := set_merge pp info]> path)
           end
  end.

Definition build_info (a : acceptor) (i : nat) : M (list path_info) path_info :=
  path ← gets (λ path, path);
  if (i + 1 <? strOffset a)%nat then throw TypeError
  else let pp := (i + 1 - strOffset a)%nat in
       _info ← lift (result_of_option TypeError (path !! pp));
       let info := PathInfo (Some pp) (mw _info + 0) (aw a + w _info) (aunk a + unk _info) (atype a) None in
       if bool_decide (atype a = "PART"%string) then
         path ← lift (merge_path (pp + 1) (i - pp) pp path);
         modify (λ _, path);;
         mret (set_merge pp info)
       else mret info.

Fixpoint buildByAcceptors (l : list acceptor) (i : nat) : M (list path_info) (list path_info) :=
  match l with
  | [] => mret []
  | a :: l => info ← build_info a i; infos ← buildByAcceptors l i; mret (info :: infos)
  end.

(** [fallback]: an unknown word from the left boundary on; a tone mark belongs
    to the word before. *)
Definition fallback (path : list path_info) (leftBoundary : nat) (ch : N) : result path_info :=
  _info ← result_of_option TypeError (path !! leftBoundary);
  if between 3656 3662 ch
  then Ok (PathInfo (if (leftBoundary =? 0)%nat then Some 0%nat else p _info) 0 (1 + w _info) (1 + unk _info) "UNK" None)
  else Ok (PathInfo (Some leftBoundary) (mw _info) (1 + w _info) (1 + unk _info) "UNK" None).

Definition build (l : list acceptor) (i leftBoundary : nat) (ch : N) : M (list path_info) (list path_info) :=
  basicPathInfos ← buildByAcceptors l i;
  if (0 <? length basicPathInfos)%nat then mret basicPathInfos
  else path ← gets (λ path, path);
       info ← lift (fallback path leftBoundary ch);
       mret [info].

(** The better of two: fewer unknown words, then [mw], then fewer words; the
    one already selected on a tie. *)
Definition better (selectedPath path : path_info) : path_info :=
  if (unk path <? unk selectedPath)%nat then path
  else if (unk path =? unk selectedPath)%nat then
    if (mw path <? mw selectedPath)%nat then path
    else if (mw path =? mw selectedPath)%nat then
      if (w path <? w selectedPath)%nat then path else selectedPath
    else selectedPath
  else selectedPath.
Definition selectPath (paths : list path_info) : option path_info :=
  foldl (λ selectedPath path, Some match selectedPath with None => path | Some s => better s path end) None paths.

(** ** Cutting ([WordcutCore]) *)

(** One turn of the loop of [buildPath]. *)
Definition build_step (creators : list creator) (i : nat) (ch : N) (s : acceptors) (path : list path_info) (leftBoundary : nat) :
    option (result (acceptors * list path_info * nat)) :=
  match acceptors_transit creators s ch with
  | None => None
  | Some (Throw x) => Some (Throw x)
  | Some (Ok s) =>
      match build (getFinalAcceptors s) i leftBoundary ch path with
      | (_, Throw x) => Some (Throw x)
      | (path, Ok possiblePathInfos) =>
          Some match selectPath possiblePathInfos with
          | None => Throw TypeError
          | Some selectedPath =>
              Ok (s, path ++ [selectedPath], if bool_decide (type selectedPath = "UNK"%string) then leftBoundary else i)
          end
      end
  end.

Fixpoint build_from (creators : list creator) (text : jsstr) (i : nat) (s : acceptors) (path : list path_info) (leftBoundary : nat) :
    option (result (list path_info)) :=
  match text with
  | [] => Some (Ok path)
  | ch :: text =>
      match build_step creators i ch s path leftBoundary with
      | None => None
      | Some (Throw x) => Some (Throw x)
      | Some (Ok (s, path, leftBoundary)) => build_from creators text (S i) s path leftBoundary
      end
  end.

Definition buildPath (creators : list creator) (text : jsstr) : option (result (list path_info)) :=
  build_from creators text 0 acceptors_reset createPath 0.

Record range := Range { rs : nat; re : nat }.

(** [pathToRanges] from the position [e] on, the ranges found so far last
    first; the [null] of the first position reads as 0. *)
Fixpoint ranges_from (fuel : nat) (path : list path_info) (e : nat) (ranges : list range) : option (result (list range)) :=
  if (0 <? e)%nat then
    match fuel with
    | O => None
    | S fuel =>
        match path !! e with
        | None => Some (Throw TypeError)
        | Some info =>
            let s := default 0%nat (p info) in
            match merge info, ranges with
            | Some m, r :: ranges => ranges_from fuel path m (Range m (re r) :: ranges)
            | _, _ => ranges_from fuel path s (Range s e :: ranges)
            end
        end
    end
  else Some (Ok ranges).

(** The path shrinks at every turn. *)
Definition pathToRanges (path : list path_info) : option (result (list range)) :=
  ranges_from (length path) path (length path - 1) [].

Definition range_text (text : jsstr) (r : range) : jsstr := substring text (rs r) (re r).
Definition rangesToText (text : jsstr) (ranges : list range) (delimiter : jsstr) : jsstr :=
  join_str delimiter (range_text text <$> ranges).

Definition cutIntoRanges (creators : list creator) (text : jsstr) : option (result (list range)) :=
  match buildPath creators text with
  | None => None
  | Some (Throw x) => Some (Throw x)
  | Some (Ok path) => pathToRanges path
  end.

Definition on_ranges {A} (f : list range → A) (r : option (result (list range))) : option (result A) :=
  (λ r, l ← r; Ok (f l)) <$> r.
Definition cut (creators : list creator) (text : jsstr) (delimiter : option jsstr) : option (result jsstr) :=
  on_ranges (λ l, rangesToText text l (default (js "|") delimiter)) (cutIntoRanges creators text).
Definition cutIntoArray (creators : list creator) (text : jsstr) : option (result (list jsstr)) :=
  on_ranges (fmap (range_text text)) (cutIntoRanges creators text).
End wordcut.

(** ** Wiring ([Wordcut]) *)
Definition initNoDict : list creator := LatinRules ++ ThaiRules.
Definition wordcut_init (text defaultDict : jsstr) (dict_path : option jsstr) (withDefault : bool)
    (additionalWords : option (list jsstr)) : list creator :=
  initNoDict ++ [WordcutDict (dict_init text defaultDict dict_path withDefault additionalWords)].
