(* ===== verification/WordcutTheorems.v ===== *)
(** * The Thai word splitter: theorems

    The dictionary acceptor recognises exactly the prefixes of the dictionary's
    words and is final exactly on the words; cutting a text ends, never throws
    and returns its pieces. *)

From S2P Require Import Prelude JSColl JSValue Utils WordcutDict Wordcut.
Local Open Scope Z_scope.

(** ** The order of strings *)
Lemma str_leb_refl a : str_leb a a = true.
Proof. induction a as [|x a IH]; simpl; [done|]. by rewrite N.ltb_irrefl. Qed.

Lemma str_leb_total a b : str_leb a b = true ∨ str_leb b a = true.
Proof.
  revert b. induction a as [|x a IH]; intros [|y b]; simpl; auto.
  destruct (N.ltb_spec x y), (N.ltb_spec y x); auto.
Qed.

Lemma str_leb_antisym a b : str_leb a b = true → str_leb b a = true → a = b.
Proof.
  revert b. induction a as [|x a IH]; intros [|y b]; simpl; try done.
  destruct (N.ltb_spec x y), (N.ltb_spec y x); try done; try lia.
  intros H1 H2. assert (x = y) as -> by lia. f_equal. auto.
Qed.

Lemma str_leb_trans a b c : str_leb a b = true → str_leb b c = true → str_leb a c = true.
Proof.
  revert b c. induction a as [|x a IH]; intros [|y b] [|z c]; simpl; try done.
  destruct (N.ltb_spec x y), (N.ltb_spec y x); try lia; destruct (N.ltb_spec y z), (N.ltb_spec z y); try lia; try done;
    destruct (N.ltb_spec x z), (N.ltb_spec z x); try lia; try done. apply IH.
Qed.

Lemma str_leb_app q a b : str_leb (q ++ a) (q ++ b) = str_leb a b.
Proof. induction q as [|x q IH]; simpl; [done|]. by rewrite N.ltb_irrefl. Qed.

Lemma str_leb_prefix a b : a `prefix_of` b → str_leb a b = true.
Proof. intros [k ->]. rewrite <-(app_nil_r a) at 1. by rewrite str_leb_app. Qed.

(** ** The sorted dictionary *)
Definition sorted_words : list jsstr → Prop := StronglySorted (λ a b, str_leb a b = true).

Definition keep_distinct := fix keep (prev : option jsstr) (l : list jsstr) : list jsstr :=
    match l with
    | [] => []
    | item :: l => if bool_decide (prev = Some item) then keep (Some item) l else item :: keep (Some item) l
    end.

Lemma keep_distinct_spec prev l :
  sorted_words l → (∀ x, prev = Some x → Forall (λ y, str_leb x y = true) l) →
  sorted_words (keep_distinct prev l) ∧ NoDup (keep_distinct prev l) ∧
  (∀ y, y ∈ keep_distinct prev l ↔ y ∈ l ∧ prev ≠ Some y).
Proof.
  intros Hl. revert prev. induction Hl as [|x l Hl IH Hx]; intros prev Hp; simpl.
  - split; [constructor|]. split; [constructor|]. intros y. by rewrite elem_of_nil; split; [|intros []].
  - destruct (IH (Some x)) as (Hs & Hn & Hin); [by intros ? [= <-]|].
    destruct (bool_decide_reflect (prev = Some x)) as [->|Hne].
    + split_and!; [done..|]. intros y. rewrite Hin, elem_of_cons. naive_solver.
    + split_and!.
      * constructor; [done|]. rewrite Forall_forall in *. intros y [Hy _]%Hin. auto.
      * constructor; [|done]. rewrite Hin. naive_solver.
      * intros y. rewrite !elem_of_cons, Hin. split.
        -- intros [->|[Hy Hxy]]; [by auto|]. split; [by auto|]. intros ->. specialize (Hp y eq_refl).
           apply Forall_cons in Hp as [Hyx _]. rewrite Forall_forall in Hx. apply Hxy. f_equal. apply str_leb_antisym; [by apply Hx|done].
        -- intros [[->|Hy] Hpy]; [by auto|]. destruct (decide (y = x)) as [->|]; [by auto|]. right. split; [done|congruence].
Qed.

(** [finalizeDict] keeps the words, each once, in order. *)
Lemma finalizeDict_spec l :
  sorted_words (finalizeDict l) ∧ NoDup (finalizeDict l) ∧ ∀ y, y ∈ finalizeDict l ↔ y ∈ l.
Proof.
  destruct (keep_distinct_spec None (js_sort str_leb l)) as (Hs & Hn & Hin); [|done|].
  - apply js_sort_sorted; [apply str_leb_total|apply str_leb_trans].
  - split; [exact Hs|]. split; [exact Hn|]. intros y. change (finalizeDict l) with (keep_distinct None (js_sort str_leb l)).
    rewrite Hin, js_sort_perm. naive_solver.
Qed.

(** ** Binary search *)
Section seek.
Context (dict : list jsstr) (ch : N) (off : nat).

Lemma dict_item_ok m : 0 ≤ m < Z.of_nat (length dict) → ∃ item, dict_item dict m = Ok item ∧ dict !! Z.to_nat m = Some item.
Proof.
  intros Hm. destruct (lookup_lt_is_Some_2 dict (Z.to_nat m)) as [item Hi]; [lia|]. exists item. split; [|done].
  unfold dict_item. destruct (Z.ltb_spec m 0); [lia|]. by rewrite Hi.
Qed.

Lemma middle_within l r : l ≤ r → l ≤ (l + r) / 2 ≤ r.
Proof. intros. Z.to_euclidean_division_equations. lia. Qed.

(** How the word at [i] compares with [ch] at the offset. *)
Definition order_at (i : Z) : comparison :=
  match dict !! Z.to_nat i with
  | None => Gt
  | Some item => match item !! off with None => Lt | Some c => (c ?= ch)%N end
  end.

(** One turn of the loop, by the order of the middle word. *)
Lemma dictSeek_turn fuel l r ps ans :
  l ≤ r → 0 ≤ l → r < Z.of_nat (length dict) →
  let m := (l + r) / 2 in
  dictSeek dict (S fuel) l r ch off ps ans =
    match order_at m, ps with
    | Lt, _ => dictSeek dict fuel (m + 1) r ch off ps ans
    | Gt, _ => dictSeek dict fuel l (m - 1) ch off ps ans
    | Eq, LEFT => dictSeek dict fuel l (m - 1) ch off ps (Some m)
    | Eq, RIGHT => dictSeek dict fuel (m + 1) r ch off ps (Some m)
    end.
Proof.
  intros Hlr Hl Hr m. cbn [dictSeek]. destruct (Z.leb_spec l r); [|lia]. fold m.
  pose proof (middle_within l r Hlr) as Hm. fold m in Hm. destruct (dict_item_ok m) as (item & -> & Hi); [lia|].
  unfold order_at. rewrite Hi. destruct (item !! off) as [c|]; [|done].
  rewrite (N.ltb_compare c ch), (N.ltb_compare ch c), (N.compare_antisym c ch). by destruct (c ?= ch)%N.
Qed.

Lemma dictSeek_end fuel l r ps ans : r < l → dictSeek dict fuel l r ch off ps ans = Some (Ok ans).
Proof. intros Hlr. destruct fuel; cbn [dictSeek]; destruct (Z.leb_spec l r); done || lia. Qed.

(** Whatever the order of the words, the search ends inside its interval. *)
Lemma dictSeek_total fuel l r ps ans :
  0 ≤ l → r < Z.of_nat (length dict) → r - l + 1 ≤ Z.of_nat fuel →
  ∃ ans', dictSeek dict fuel l r ch off ps ans = Some (Ok ans') ∧ (ans' = ans ∨ ∃ m, ans' = Some m ∧ l ≤ m ≤ r).
Proof.
  revert l r ans. induction fuel as [|fuel IH]; intros l r ans Hl Hr Hf; (destruct (Z.le_gt_cases l r) as [Hlr|Hlr]; [|rewrite dictSeek_end by done; eauto]); [lia|].
  rewrite dictSeek_turn by done. set (m := (l + r) / 2). pose proof (middle_within l r Hlr) as Hm. fold m in Hm. clearbody m.
  assert (∀ l' r' a, l ≤ l' → r' ≤ r → r' - l' + 1 ≤ Z.of_nat fuel → (a = ans ∨ a = Some m) →
    ∃ ans', dictSeek dict fuel l' r' ch off ps a = Some (Ok ans') ∧ (ans' = ans ∨ ∃ m, ans' = Some m ∧ l ≤ m ≤ r)) as Hrec.
  { intros l' r' a ??? Ha. destruct (IH l' r' a) as (ans' & Hrun & Hans); [lia..|]. exists ans'. split; [done|].
    destruct Hans as [->|(m' & -> & ?)]; [destruct Ha as [->| ->]; eauto|]. right. exists m'. split; [done|lia]. }
  destruct (order_at m), ps; apply Hrec; auto; lia.
Qed.

(** On a monotone interval the search finds the first, or last, equal word. *)
Definition monotone (l r : Z) : Prop :=
  ∀ i j, l ≤ i → i ≤ j → j ≤ r → (order_at i = Gt → order_at j = Gt) ∧ (order_at j = Lt → order_at i = Lt).

Definition seek_found (ps : side) (l r : Z) (ans ans' : option Z) : Prop :=
  (ans' = ans ∧ ∀ i, l ≤ i ≤ r → order_at i ≠ Eq) ∨
  ∃ m, ans' = Some m ∧ l ≤ m ≤ r ∧ order_at m = Eq ∧
    ∀ i, l ≤ i ≤ r → order_at i = Eq → match ps with LEFT => m ≤ i | RIGHT => i ≤ m end.

Lemma dictSeek_found fuel l r ps ans :
  monotone l r → 0 ≤ l → r < Z.of_nat (length dict) → r - l + 1 ≤ Z.of_nat fuel →
  ∃ ans', dictSeek dict fuel l r ch off ps ans = Some (Ok ans') ∧ seek_found ps l r ans ans'.
Proof.
  revert l r ans. induction fuel as [|fuel IH]; intros l r ans Hmon Hl Hr Hf;
    (destruct (Z.le_gt_cases l r) as [Hlr|Hlr]; [|rewrite dictSeek_end by done; eexists; split; [done|left; split; [done|lia]]]); [lia|].
  rewrite dictSeek_turn by done. set (m := (l + r) / 2). pose proof (middle_within l r Hlr) as Hm. fold m in Hm. clearbody m.
  assert (∀ i, l ≤ i ≤ m → order_at m = Lt → order_at i ≠ Eq) as Hlo.
  { intros i Hi Hlt. destruct (Hmon i m) as [_ H2]; [lia..|]. rewrite H2 by done. done. }
  assert (∀ i, m ≤ i ≤ r → order_at m = Gt → order_at i ≠ Eq) as Hhi.
  { intros i Hi Hgt. destruct (Hmon m i) as [H1 _]; [lia..|]. rewrite H1 by done. done. }
  assert (∀ l' r' a, l ≤ l' → r' ≤ r → r' - l' + 1 ≤ Z.of_nat fuel →
    ∃ ans', dictSeek dict fuel l' r' ch off ps a = Some (Ok ans') ∧ seek_found ps l' r' a ans') as Hrec.
  { intros l' r' a ???. apply IH; [|lia..]. intros i j ???. apply Hmon; lia. }
  destruct (order_at m) eqn:Ho; [destruct ps|..].
  - destruct (Hrec l (m - 1) (Some m)) as (ans' & Hrun & Hans); [lia..|]. exists ans'. split; [done|]. right.
    destruct Hans as [[-> Hno]|(m' & -> & ? & ? & Hmin)]; [exists m|exists m']; (split_and!; [done|lia|lia|done|]); intros i Hi He.
    + destruct (Z.le_gt_cases m i); [done|]. destruct (Hno i); [lia|done].
    + destruct (Z.le_gt_cases m i); [lia|]. apply Hmin; [lia|done].
  - destruct (Hrec (m + 1) r (Some m)) as (ans' & Hrun & Hans); [lia..|]. exists ans'. split; [done|]. right.
    destruct Hans as [[-> Hno]|(m' & -> & ? & ? & Hmax)]; [exists m|exists m']; (split_and!; [done|lia|lia|done|]); intros i Hi He.
    + destruct (Z.le_gt_cases i m); [done|]. destruct (Hno i); [lia|done].
    + destruct (Z.le_gt_cases i m); [lia|]. apply Hmax; [lia|done].
  - destruct (Hrec (m + 1) r ans) as (ans' & Hrun & Hans); [lia..|]. exists ans'. split; [done|].
    destruct Hans as [[-> Hno]|(m' & -> & ? & ? & Hopt)]; [left|right; exists m']; (split_and!; [done| try lia..]).
    + intros i Hi. destruct (Z.le_gt_cases i m); [apply Hlo; [lia|done]|apply Hno; lia].
    + done.
    + intros i Hi He. destruct (Z.le_gt_cases i m); [exfalso; apply (Hlo i); [lia|done..]|]. apply Hopt; [lia|done].
  - destruct (Hrec l (m - 1) ans) as (ans' & Hrun & Hans); [lia..|]. exists ans'. split; [done|].
    destruct Hans as [[-> Hno]|(m' & -> & ? & ? & Hopt)]; [left|right; exists m']; (split_and!; [done| try lia..]).
    + intros i Hi. destruct (Z.le_gt_cases m i); [apply Hhi; [lia|done]|apply Hno; lia].
    + done.
    + intros i Hi He. destruct (Z.le_gt_cases m i); [exfalso; apply (Hhi i); [lia|done..]|]. apply Hopt; [lia|done].
Qed.
End seek.

(** ** The dictionary acceptor *)
Section acceptor.
Context (dict : list jsstr) (Hsorted : sorted_words dict).

Lemma sorted_lookup (l : list jsstr) (i j : nat) a b :
  sorted_words l → (i < j)%nat → l !! i = Some a → l !! j = Some b → str_leb a b = true.
Proof.
  intros Hl. revert i j. induction Hl as [|x l Hl IH Hx]; intros [|i] [|j] Hij Ha Hb; simpl in *; try done; try lia.
  - simplify_eq. rewrite Forall_forall in Hx. by eapply Hx, list_elem_of_lookup_2.
  - apply (IH i j); [lia|done..].
Qed.

Lemma sorted_le (i j : nat) a b : (i ≤ j)%nat → dict !! i = Some a → dict !! j = Some b → str_leb a b = true.
Proof.
  intros Hij Ha Hb. destruct (decide (i = j)) as [->|]; [simplify_eq; apply str_leb_refl|].
  apply (sorted_lookup dict i j); [done|lia|done..].
Qed.

(** What an acceptor that has read [q] knows: the interval of the words that
    begin with [q], which is not empty. *)
Record has_read (q : jsstr) (a : dict_acceptor) : Prop := {
  hr_off : da_strOffset a = length q;
  hr_ok : da_isError a = false;
  hr_l : 0 ≤ da_l a;
  hr_r : da_r a < Z.of_nat (length dict);
  hr_words : ∀ i item, dict !! i = Some item → da_l a ≤ Z.of_nat i ≤ da_r a ↔ q `prefix_of` item;
}.

Lemma has_read_nil : has_read [] (dict_createAcceptor dict).
Proof.
  constructor; simpl; [done|done|lia|lia|]. intros i item Hi%lookup_lt_Some. split; [intros _; apply prefix_nil|lia].
Qed.

(** Inside the interval the next character decides. *)
Lemma order_eq q a ch (i : nat) item :
  has_read q a → dict !! i = Some item → da_l a ≤ Z.of_nat i ≤ da_r a →
  order_at dict ch (length q) (Z.of_nat i) = Eq ↔ (q ++ [ch]) `prefix_of` item.
Proof.
  intros Hq Hi Hin. apply (hr_words _ _ Hq i item Hi) in Hin as [k ->]. unfold order_at. rewrite Nat2Z.id, Hi.
  rewrite lookup_app_r, Nat.sub_diag by lia. split.
  - destruct k as [|c k]; [done|]. simpl. intros ->%N.compare_eq. exists k. by rewrite <-(assoc_L (++)).
  - intros [k' Hk]. rewrite <-(assoc_L (++)) in Hk. simplify_list_eq. apply N.compare_refl.
Qed.

Lemma interval_monotone q a ch : has_read q a → monotone dict ch (length q) (da_l a) (da_r a).
Proof.
  intros Hq i j Hi Hij Hj. pose proof (hr_l _ _ Hq). pose proof (hr_r _ _ Hq).
  destruct (lookup_lt_is_Some_2 dict (Z.to_nat i)) as [x Hx]; [lia|].
  destruct (lookup_lt_is_Some_2 dict (Z.to_nat j)) as [y Hy]; [lia|].
  assert (str_leb x y = true) as Hle by (apply (sorted_le (Z.to_nat i) (Z.to_nat j)); [lia|done..]).
  apply (hr_words _ _ Hq) in Hx as Hqx. apply (hr_words _ _ Hq) in Hy as Hqy.
  destruct Hqx as [[k Hk] _]; [lia|]. destruct Hqy as [[k' Hk'] _]; [lia|]. subst x y. rewrite str_leb_app in Hle.
  unfold order_at. rewrite Hx, Hy, !lookup_app_r, Nat.sub_diag by lia.
  destruct k as [|c k], k' as [|c' k']; simpl in *; try done.
  destruct (N.ltb_spec c c'); [|destruct (N.ltb_spec c' c); [done|]]; split; rewrite ?N.compare_gt_iff, ?N.compare_lt_iff; lia.
Qed.

(** One character more. *)
Lemma has_read_step q a ch :
  has_read q a →
  ∃ a', dict_transit dict a ch = Some (Ok a') ∧
    ((da_isError a' = true ∧ ∀ item, item ∈ dict → ¬ (q ++ [ch]) `prefix_of` item) ∨
     (has_read (q ++ [ch]) a' ∧ (∃ item, item ∈ dict ∧ (q ++ [ch]) `prefix_of` item) ∧
      (da_isFinal a' = true ↔ q ++ [ch] ∈ dict))).
Proof.
  intros Hq. pose proof (hr_l _ _ Hq) as Hl0. pose proof (hr_r _ _ Hq) as Hr0. pose proof (interval_monotone q a ch Hq) as Hmon.
  unfold dict_transit. rewrite (hr_off _ _ Hq). unfold seek.
  destruct (dictSeek_found dict ch (length q) (Z.to_nat (da_r a - da_l a + 1)) (da_l a) (da_r a) LEFT None) as (ol & -> & Hol); [done|lia|lia|lia|].
  destruct Hol as [[-> Hno]|(l & -> & Hl & Hle & Hfirst)].
  { eexists. split; [done|]. left. split; [done|]. intros item [i Hi]%list_elem_of_lookup_1 Hpre.
    assert (da_l a ≤ Z.of_nat i ≤ da_r a) as Hin.
    { apply (hr_words _ _ Hq i item Hi). etrans; [|exact Hpre]. by exists [ch]. }
    apply (Hno (Z.of_nat i)); [done|]. by apply (order_eq q a ch i item). }
  destruct (dictSeek_found dict ch (length q) (Z.to_nat (da_r a - l + 1)) l (da_r a) RIGHT None) as (o & -> & Ho); [|lia..|].
  { intros i j ???. apply Hmon; lia. }
  destruct Ho as [[_ Hno]|(r & -> & Hr & Hre & Hlast)]; [by destruct (Hno l); [lia|]|].
  destruct (dict_item_ok dict l) as (item & Hitem & Hlitem); [lia|].
  unfold dict_isFinal. rewrite Hitem. cbn [mbind result_mbind default]. eexists. split; [reflexivity|]. right.
  assert (∀ i x, dict !! i = Some x → l ≤ Z.of_nat i ≤ r ↔ (q ++ [ch]) `prefix_of` x) as Hwords.
  { intros i x Hx. split.
    - intros Hi. assert (da_l a ≤ Z.of_nat i ≤ da_r a) as Hia by lia. apply (order_eq q a ch i x Hq Hx Hia).
      destruct (order_at dict ch (length q) (Z.of_nat i)) eqn:Hoi; [done|..].
      + destruct (Hmon l (Z.of_nat i)) as [_ H2]; [lia..|]. rewrite H2 in Hle by done. done.
      + destruct (Hmon (Z.of_nat i) r) as [H2 _]; [lia..|]. rewrite H2 in Hre by done. done.
    - intros Hpre. assert (da_l a ≤ Z.of_nat i ≤ da_r a) as Hia.
      { apply (hr_words _ _ Hq i x Hx). etrans; [|exact Hpre]. by exists [ch]. }
      apply (order_eq q a ch i x Hq Hx Hia) in Hpre. pose proof (Hfirst _ Hia Hpre). split; [done|]. apply Hlast; [lia|done]. }
  assert (item ∈ dict) as Hin by by eapply list_elem_of_lookup_2.
  assert ((q ++ [ch]) `prefix_of` item) as Hpre by (apply (Hwords _ _ Hlitem); lia).
  split; [|split; [by eauto|]].
  - constructor; cbn; [rewrite length_app; simpl; lia|apply (hr_ok _ _ Hq)|lia|lia|exact Hwords].
  - change (da_isFinal _) with (length item =? S (length q))%nat. rewrite Nat.eqb_eq. split; intros H.
    + assert (q ++ [ch] = item) as ->; [|done]. apply prefix_length_eq; [done|]. rewrite length_app. simpl. lia.
    + apply list_elem_of_lookup_1 in H as [k Hk]. assert (l ≤ Z.of_nat k ≤ r) as Hlk by by apply (Hwords _ _ Hk).
      assert (q ++ [ch] = item) as <-; [|rewrite length_app; simpl; lia].
      apply str_leb_antisym; [by apply str_leb_prefix|]. apply (sorted_le (Z.to_nat l) k); [lia|done..].
Qed.
End acceptor.

(** A dictionary acceptor fed a text, dropped at its first error. *)
Fixpoint dict_reads (dict : list jsstr) (a : dict_acceptor) (w : jsstr) : option (result dict_acceptor) :=
  match w with
  | [] => Some (Ok a)
  | ch :: w => match dict_transit dict a ch with
               | Some (Ok a) => if da_isError a then Some (Ok a) else dict_reads dict a w
               | r => r
               end
  end.

Lemma dict_reads_spec dict q a w :
  sorted_words dict → has_read dict q a →
  ∃ a', dict_reads dict a w = Some (Ok a') ∧
    (w ≠ [] → da_isError a' = false ↔ ∃ item, item ∈ dict ∧ (q ++ w) `prefix_of` item) ∧
    (w ≠ [] → da_isError a' = false → da_isFinal a' = true ↔ q ++ w ∈ dict).
Proof.
  intros Hs. revert q a. induction w as [|ch w IH]; intros q a Hq; simpl; [by eexists|].
  destruct (has_read_step dict Hs q a ch Hq) as (a1 & -> & [[He Hno]|(Hq1 & Hex & Hfin)]).
  - rewrite He. eexists. split; [done|]. split; intros _; [|by rewrite He]. rewrite He. split; [done|].
    intros (item & Hi & Hpre). exfalso. apply (Hno item Hi). etrans; [|exact Hpre]. exists w. by rewrite <-(assoc_L (++)).
  - rewrite (hr_ok _ _ _ Hq1). destruct (IH _ _ Hq1) as (a' & Hrun & Herr & Hfin').
    rewrite <-!(assoc_L (++)) in *. simpl in *. exists a'. split; [exact Hrun|]. destruct w as [|c w]; [|by split; intros _; [apply Herr|apply Hfin']].
    simpl in Hrun. injection Hrun as <-. rewrite (hr_ok _ _ _ Hq1). split; intros _; [by split|by intros _].
Qed.

(** C21. The dictionary: whatever words are given, in whatever order and however
    often, an acceptor fed a text survives exactly when a word begins with the
    text, and is final exactly when the text is one of the words; the binary
    searches need no more turns than the interval is long. *)
Theorem dict_recognises (words : list jsstr) (w : jsstr) (c : N) :
  let dict := finalizeDict words in
  ∃ a, dict_reads dict (dict_createAcceptor dict) (w ++ [c]) = Some (Ok a) ∧
    (da_isError a = false ↔ ∃ item, item ∈ words ∧ (w ++ [c]) `prefix_of` item) ∧
    (da_isError a = false → da_isFinal a = true ↔ w ++ [c] ∈ words).
Proof.
  intros dict. destruct (finalizeDict_spec words) as (Hs & _ & Hin).
  destruct (dict_reads_spec dict [] (dict_createAcceptor dict) (w ++ [c]) Hs (has_read_nil _)) as (a & Hrun & He & Hf).
  assert (w ++ [c] ≠ []) as Hne by by destruct w. exists a. split; [exact Hrun|]. split.
  - rewrite He by done. unfold dict. by split; intros (item & Hi & Hpre); exists item; apply Hin in Hi.
  - rewrite <-(Hin (w ++ [c])). by apply Hf.
Qed.

(** ** Cutting *)
Section cut.
Local Open Scope nat_scope.
Context (toLowerCase : jsstr → jsstr).

(** Acceptors after reading the character at [i]. *)
Definition good_reading (r : reading) : Prop :=
  match r with ReadDict dict l r => (0 <= l)%Z ∧ (r < Z.of_nat (length dict))%Z | _ => True end.
Definition good_acceptor (i : nat) (a : acceptor) : Prop :=
  isError a = false ∧ strOffset a ≤ i ∧ good_reading (reads a).

Lemma dict_transit_total dict a ch :
  (0 <= da_l a)%Z → (da_r a < Z.of_nat (length dict))%Z →
  ∃ a', dict_transit dict a ch = Some (Ok a') ∧ (da_isError a' = false → da_strOffset a' = S (da_strOffset a)) ∧
    (0 <= da_l a')%Z ∧ (da_r a' < Z.of_nat (length dict))%Z.
Proof.
  intros Hl Hr. unfold dict_transit, seek.
  destruct (dictSeek_total dict ch (da_strOffset a) (Z.to_nat (da_r a - da_l a + 1)) (da_l a) (da_r a) LEFT None) as (ol & -> & Hol); [lia..|].
  destruct Hol as [->|(l & -> & Hlb)]; [eexists; split; [done|]; split; [done|]; cbn; lia|].
  destruct (dictSeek_total dict ch (da_strOffset a) (Z.to_nat (da_r a - l + 1)) l (da_r a) RIGHT None) as (o & -> & Ho); [lia..|].
  destruct (dict_item_ok dict l) as (item & Hi & _); [lia|]. unfold dict_isFinal. rewrite Hi.
  eexists. split; [reflexivity|]. split; [done|]. cbn. split; [lia|]. destruct Ho as [->|(r & -> & ?)]; cbn; lia.
Qed.

(** Every acceptor reads every character; those that survive have read one
    more. *)
Lemma transit_total a ch i :
  good_acceptor i a → ∃ a', transit toLowerCase a ch = Some (Ok a') ∧ (isError a' = false → good_acceptor (S i) a' ∧ 0 < strOffset a').
Proof.
  intros (He & Hoff & Hr). unfold good_acceptor.
  assert (∀ (b : bool) f r, good_reading r →
    ∃ a', Some (Ok (if b then accept a f r else fail a r)) = Some (Ok a') ∧
      (isError a' = false → (isError a' = false ∧ strOffset a' ≤ S i ∧ good_reading (reads a')) ∧ 0 < strOffset a')) as Hstep.
  { intros b f r Hg. eexists. split; [done|]. destruct b; [|done]. intros _. cbn. split_and!; try done; lia. }
  unfold transit, WordRule_transit, NumberRule_transit, SpaceRule_transit, SingleSymbolRule_transit, Rule0_transit, PartRule_transit, step.
  destruct (reads a) as [| | | | |patterns|dict l r] eqn:Hread; try (by apply Hstep).
  cbn in Hr. destruct (dict_transit_total dict (DictAcceptor l r (strOffset a) (isFinal a) (isError a)) ch) as (b & -> & Hb & ? & ?); [cbn; lia..|].
  eexists. split; [done|]. cbn. intros Hbe. specialize (Hb Hbe). cbn in Hb. split_and!; try done; lia.
Qed.

Lemma transit_all_total l ch i :
  Forall (good_acceptor i) l →
  ∃ l', transit_all toLowerCase l ch = Some (Ok l') ∧ Forall (λ a, good_acceptor (S i) a ∧ 0 < strOffset a) l'.
Proof.
  induction 1 as [|a l Ha _ (l' & Hl & Hl')]; simpl; [by eexists|].
  destruct (transit_total a ch i Ha) as (a' & -> & Ha'). rewrite Hl. eexists. split; [done|].
  destruct (isError a'); [done|]. by constructor; [apply Ha'|].
Qed.

Lemma created_good c tg a i : createAcceptor c tg = Some a → good_acceptor i a.
Proof.
  assert (∀ r, good_reading r → fresh r = Some a → good_acceptor i a) as Hf.
  { intros r Hr [= <-]. split_and!; [done|cbn; lia|done]. }
  destruct c; cbn [createAcceptor]; unfold WordRule_createAcceptor, NumberRule_createAcceptor, SpaceRule_createAcceptor;
    try case_bool_decide; try done; try (by apply Hf).
  intros [= <-]. split_and!; cbn; [done|lia..].
Qed.

Lemma acceptors_transit_total creators s ch i :
  Forall (good_acceptor i) (current s) →
  ∃ s', acceptors_transit toLowerCase creators s ch = Some (Ok s') ∧
    Forall (λ a, good_acceptor (S i) a ∧ 0 < strOffset a) (current s').
Proof.
  intros Hs. unfold acceptors_transit.
  destruct (transit_all_total (current s ++ omap (λ c, createAcceptor c (tag s)) creators) ch i) as (l & -> & Hl); [|by eexists].
  apply Forall_app. split; [done|]. apply Forall_forall. intros a (c & _ & Hc)%list_elem_of_omap. by eapply created_good.
Qed.

(** Every way leads back. *)
Definition good_info (k : nat) (info : path_info) : Prop :=
  (∃ q, p info = Some q ∧ q < k) ∧ ∀ m, merge info = Some m → m < k.
Definition good_path (i : nat) (path : list path_info) : Prop :=
  length path = S i ∧ ∀ k info, path !! S k = Some info → good_info (S k) info.

Lemma merge_path_good i from n pp path :
  good_path i path → 0 < from → pp < from → from + n ≤ S i → ∃ path', merge_path from n pp path = Ok path' ∧ good_path i path'.
Proof.
  revert from path. induction n as [|n IH]; intros from path [Hlen Hp] Hf Hpp Hn; simpl; [by eexists|].
  destruct (lookup_lt_is_Some_2 path from) as [info Hi]; [lia|]. rewrite Hi. apply IH; [|lia..].
  split; [by rewrite length_insert|]. intros k x Hx. destruct (decide (S k = from)) as [<-|Hne].
  - rewrite list_lookup_insert_eq in Hx by lia. simplify_eq. destruct (Hp k info Hi) as [Hq _]. split; [done|]. cbn. intros m [= <-]. lia.
  - rewrite list_lookup_insert_ne in Hx by done. by apply Hp.
Qed.

Lemma build_info_good a i path :
  good_path i path → good_acceptor (S i) a → 0 < strOffset a →
  ∃ path' info, build_info a i path = (path', Ok info) ∧ good_path i path' ∧ good_info (S i) info.
Proof.
  intros Hp (_ & Hoff & _) Hpos. unfold build_info. rewrite M_bind_eq. cbn [gets].
  destruct (Nat.ltb_spec (i + 1) (strOffset a)); [lia|].
  destruct (lookup_lt_is_Some_2 path (i + 1 - strOffset a)) as [info Hi]; [destruct Hp; lia|].
  rewrite M_bind_eq, Hi. cbn [lift result_of_option].
  case_bool_decide.
  - destruct (merge_path_good i (i + 1 - strOffset a + 1) (i - (i + 1 - strOffset a)) (i + 1 - strOffset a) path) as (path' & Hm & Hp'); [done|lia..|].
    rewrite M_bind_eq, Hm. cbn [lift]. rewrite M_bind_eq. cbn. eexists _, _. split; [done|]. split; [done|].
    split; [eexists; split; [done|lia]|]. cbn. intros m [= <-]. lia.
  - eexists _, _. split; [done|]. split; [done|]. split; [eexists; split; [done|lia]|done].
Qed.

Lemma buildByAcceptors_good l i path :
  good_path i path → Forall (λ a, good_acceptor (S i) a ∧ 0 < strOffset a) l →
  ∃ path' infos, buildByAcceptors l i path = (path', Ok infos) ∧ good_path i path' ∧ Forall (good_info (S i)) infos.
Proof.
  intros Hp Hl. revert path Hp. induction Hl as [|a l [Ha Hpos] Hl IH]; intros path Hp; [by eexists _, _|].
  cbn [buildByAcceptors]. destruct (build_info_good a i path Hp Ha Hpos) as (p1 & info & H1 & Hp1 & Hi).
  rewrite (M_bind_ok _ _ _ _ _ H1). destruct (IH p1 Hp1) as (p2 & infos & H2 & Hp2 & His).
  rewrite (M_bind_ok _ _ _ _ _ H2). eexists _, _. split; [done|]. split; [done|by constructor].
Qed.

Lemma fallback_good path lb ch i : good_path i path → lb ≤ i → ∃ info, fallback path lb ch = Ok info ∧ good_info (S i) info.
Proof.
  intros [Hlen Hp] Hlb. unfold fallback. destruct (lookup_lt_is_Some_2 path lb) as [info Hi]; [lia|]. rewrite Hi. cbn.
  destruct (between _ _ _); eexists; (split; [done|]); split; cbn; try done; [|eexists; split; [done|lia]].
  destruct lb as [|k]; cbn; [eexists; split; [done|lia]|]. destruct (Hp k info Hi) as [(q & -> & Hq) _]. eexists. split; [done|lia].
Qed.

Lemma build_good l i lb ch path :
  good_path i path → lb ≤ i → Forall (λ a, good_acceptor (S i) a ∧ 0 < strOffset a) l →
  ∃ path' infos, build l i lb ch path = (path', Ok infos) ∧ good_path i path' ∧ infos ≠ [] ∧ Forall (good_info (S i)) infos.
Proof.
  intros Hp Hlb Hl. unfold build. destruct (buildByAcceptors_good l i path Hp Hl) as (p1 & infos & H1 & Hp1 & Hi).
  rewrite (M_bind_ok _ _ _ _ _ H1). destruct infos as [|x infos]; cbn [length Nat.ltb Nat.leb].
  - rewrite M_bind_eq. cbn [gets]. destruct (fallback_good p1 lb ch i Hp1 Hlb) as (info & Hf & Hinfo).
    rewrite M_bind_eq, Hf. cbn. eexists _, _. split; [done|]. split_and!; [apply Hp1..|done|by constructor].
  - eexists _, _. split; [done|]. by split_and!; [apply Hp1..| |].
Qed.

Lemma better_one (P : path_info → Prop) a b : P a → P b → P (better a b).
Proof. unfold better. intros. by repeat case_match. Qed.

Lemma selectPath_one (P : path_info → Prop) paths : paths ≠ [] → Forall P paths → ∃ x, selectPath paths = Some x ∧ P x.
Proof.
  destruct paths as [|x paths]; [done|]. intros _ [Hx Hp]%Forall_cons. unfold selectPath. simpl. revert x Hx.
  induction Hp as [|y paths Hy Hp IH]; intros x Hx; simpl; [eauto|]. apply IH. by apply better_one.
Qed.

Lemma build_step_good creators i ch s path lb :
  Forall (good_acceptor i) (current s) → good_path i path → lb ≤ i →
  ∃ s' path' lb', build_step toLowerCase creators i ch s path lb = Some (Ok (s', path', lb')) ∧
    Forall (good_acceptor (S i)) (current s') ∧ good_path (S i) path' ∧ lb' ≤ S i.
Proof.
  intros Hs Hp Hlb. unfold build_step. destruct (acceptors_transit_total creators s ch i Hs) as (s' & -> & Hs').
  destruct (build_good (getFinalAcceptors s') i lb ch path Hp Hlb) as (p1 & infos & -> & [Hlen Hp1] & Hne & Hi).
  { apply Forall_forall. intros a [_ Ha]%list_elem_of_filter. by eapply Forall_forall in Hs'. }
  destruct (selectPath_one (good_info (S i)) infos Hne Hi) as (x & -> & Hx). eexists _, _, _. split; [done|]. split_and!.
  - eapply Forall_impl; [exact Hs'|]. by intros a [].
  - split; [rewrite length_app, Hlen; simpl; lia|]. intros k info [Hk|[Hk1 Hk2]]%lookup_app_Some; [by apply Hp1|]. apply list_lookup_singleton_Some in Hk2 as [Hk2 <-].
    assert (k = i) as -> by lia. exact Hx.
  - case_bool_decide; lia.
Qed.

Lemma build_from_good creators text i s path lb :
  Forall (good_acceptor i) (current s) → good_path i path → lb ≤ i →
  ∃ path', build_from toLowerCase creators text i s path lb = Some (Ok path') ∧ good_path (i + length text) path'.
Proof.
  revert i s path lb. induction text as [|ch text IH]; intros i s path lb Hs Hp Hlb; simpl.
  - exists path. by rewrite Nat.add_0_r.
  - destruct (build_step_good creators i ch s path lb Hs Hp Hlb) as (s' & p' & lb' & -> & ? & ? & ?).
    destruct (IH (S i) s' p' lb') as (path' & -> & Hg); [done..|]. exists path'. split; [done|]. by rewrite Nat.add_succ_r.
Qed.

(** The path of a whole text. *)
Lemma buildPath_good creators text : ∃ path, buildPath toLowerCase creators text = Some (Ok path) ∧ good_path (length text) path.
Proof. apply (build_from_good creators text 0); [constructor| |done]. split; [done|]. by intros [|k]. Qed.

(** Ranges that follow each other without a gap. *)
Fixpoint tiles (a b : nat) (l : list range) : Prop :=
  match l with
  | [] => a = b
  | r :: l => rs r = a ∧ a < re r ∧ tiles (re r) b l
  end.

Lemma tiles_le a b l : tiles a b l → a ≤ b.
Proof. revert a. induction l as [|r l IH]; simpl; [lia|]. intros a (? & ? & ?%IH). lia. Qed.

Lemma ranges_from_tile fuel path i e n ranges :
  good_path i path → e ≤ i → e ≤ fuel → tiles e n ranges →
  ∃ l, ranges_from fuel path e ranges = Some (Ok l) ∧ tiles 0 n l.
Proof.
  intros [Hlen Hp]. revert e ranges. induction fuel as [|fuel IH]; intros e ranges He Hf Ht; cbn [ranges_from];
    (destruct (Nat.ltb_spec 0 e); [|assert (e = 0) as -> by lia; by eauto]); [lia|].
  destruct e as [|k]; [lia|]. destruct (lookup_lt_is_Some_2 path (S k)) as [info Hi]; [lia|]. rewrite Hi.
  destruct (Hp k info Hi) as [(q & Hq & Hlt) Hm]. rewrite Hq. cbn [default].
  assert (∃ l, ranges_from fuel path q (Range q (S k) :: ranges) = Some (Ok l) ∧ tiles 0 n l) as Hplain
    by (apply IH; [lia|lia|]; by split_and!).
  destruct (merge info) as [m|] eqn:Hme; [|done]. destruct ranges as [|r ranges]; [done|].
  specialize (Hm m eq_refl). destruct Ht as (Hrs & Hre & Ht). apply IH; [lia..|]. split_and!; [done|cbn; lia|done].
Qed.

Lemma cutIntoRanges_tile creators text :
  ∃ l, cutIntoRanges toLowerCase creators text = Some (Ok l) ∧ tiles 0 (length text) l.
Proof.
  unfold cutIntoRanges. destruct (buildPath_good creators text) as (path & -> & Hp). unfold pathToRanges.
  pose proof Hp as [Hlen _]. rewrite Hlen. apply (ranges_from_tile _ _ (length text)); [done|lia..|]. simpl. lia.
Qed.

Lemma tiles_text text a l : tiles a (length text) l → concat (range_text text <$> l) = drop a text ∧ Forall (.≠ []) (range_text text <$> l).
Proof.
  revert a. induction l as [|r l IH]; intros a; cbn [tiles]; [intros ->; by rewrite drop_all|].
  rewrite fmap_cons. cbn [concat]. intros (Hrs & Hlt & Ht). pose proof (tiles_le _ _ _ Ht). destruct (IH _ Ht) as [IH1 IH2].
  assert (range_text text r = take (re r - a) (drop a text)) as Hr.
  { unfold range_text, substring. rewrite Hrs, !(Nat.min_l _ (length text)) by lia. by rewrite Nat.max_r, Nat.min_l by lia. }
  split.
  - rewrite Hr, IH1. replace (re r) with (a + (re r - a)) at 2 by lia. by rewrite <-drop_drop, take_drop.
  - constructor; [|done]. rewrite Hr. intros H0%(f_equal length). rewrite length_take, length_drop in H0. simpl in H0. lia.
Qed.

(** C20. Cutting a text: whatever rules and dictionary are used, the loops end,
    nothing is thrown, and the text is returned whole, in non-empty pieces, by
    every way to cut it. *)
Theorem cut_partition (creators : list creator) (text : jsstr) :
  ∃ l pieces, cutIntoRanges toLowerCase creators text = Some (Ok l) ∧ tiles 0 (length text) l ∧
    cutIntoArray toLowerCase creators text = Some (Ok pieces) ∧ concat pieces = text ∧ Forall (.≠ []) pieces ∧
    ∀ delimiter, cut toLowerCase creators text delimiter = Some (Ok (join_str (default (js "|") delimiter) pieces)).
Proof.
  destruct (cutIntoRanges_tile creators text) as (l & Hl & Ht). destruct (tiles_text _ _ _ Ht) as [Hc Hne].
  exists l, (range_text text <$> l). unfold cutIntoArray, cut. rewrite Hl. by split_and!.
Qed.
End cut.

(** The way chosen is the best of those offered, in the order of [better], and
    the first of the best. *)
Section selection.
Local Open Scope nat_scope.
Definition no_better (x y : path_info) : Prop :=
  unk x < unk y ∨ (unk x = unk y ∧ (mw x < mw y ∨ (mw x = mw y ∧ w x ≤ w y))).

Lemma better_no_better a b : no_better (better a b) a ∧ no_better (better a b) b.
Proof. unfold no_better, better. repeat (case_match; bool_to_prop); lia. Qed.

Lemma no_better_trans a b c : no_better a b → no_better b c → no_better a c.
Proof. unfold no_better. lia. Qed.

Lemma selectPath_best paths x : selectPath paths = Some x → Forall (no_better x) paths ∧ x ∈ paths.
Proof.
  destruct paths as [|y paths]; [done|]. unfold selectPath. simpl. revert y.
  induction paths as [|z paths IH]; intros y; simpl.
  - intros [= <-]. split; [|by left]. constructor; [|constructor]. unfold no_better. lia.
  - intros Hx. destruct (IH _ Hx) as [[Hb Hall]%Forall_cons Hin]. destruct (better_no_better y z) as [H1 H2]. split.
    + constructor; [by eapply no_better_trans|]. constructor; [by eapply no_better_trans|done].
    + rewrite !elem_of_cons in *. destruct Hin as [->|?]; [|by auto]. unfold better. repeat case_match; auto.
Qed.
End selection.

(** A character nothing accepts takes the last character of the word before
    with it: the left boundary is the index of that character, not the
    position behind it. *)
Example unknown_takes_last_character :
  cutIntoArray (λ s, s) initNoDict (js "ab" ++ [8364%N]) = Some (Ok [js "a"; js "b" ++ [8364%N]]) ∧
  cutIntoArray (λ s, s) initNoDict (js "ab") = Some (Ok [js "ab"]).
Proof. split; vm_compute; reflexivity. Qed.

(** The files and the flag that asks for the default dictionary change
    nothing; the words in the script are always there. *)
Lemma dict_init_ignores_files text d path path' b b' words :
  dict_init text d path b words = dict_init text d path' b' words.
Proof. reflexivity. Qed.
