(* ===== verification/TinySeg.v ===== *)
(** * The Japanese segmenter (lunr/tinyseg.js)

    Between two characters a word ends when the sum of the scores of the
    characters, their types and the last three decisions around the gap is
    positive. *)

From S2P Require Import Prelude JSColl TinySegTables.
Local Open Scope Z_scope.

(** ** Character types *)
Definition unit_between (a b c : N) : bool := ((a <=? c) && (c <=? b))%N.

(** The patterns of [chartype_], in order. *)
Definition chartype_ : list ((N → bool) * string) :=
  [((λ c, bool_decide (c ∈ [19968; 20108; 19977; 22235; 20116; 20845; 19971; 20843; 20061; 21313; 30334; 21315; 19975; 20740; 20806]%N)), "M"%string);
   ((λ c, unit_between 19968 40864 c || bool_decide (c ∈ [12293; 12294; 12533; 12534]%N)), "H"%string);
   ((λ c, unit_between 12353 12435 c), "I"%string);
   ((λ c, unit_between 12449 12532 c || (c =? 12540)%N || unit_between 65393 65437 c || (c =? 65438)%N || (c =? 65392)%N), "K"%string);
   ((λ c, unit_between 97 122 c || unit_between 65 90 c || unit_between 65345 65370 c || unit_between 65313 65338 c), "A"%string);
   ((λ c, unit_between 48 57 c || unit_between 65296 65305 c), "N"%string)].

Definition ctype_ (c : N) : jsstr :=
  match list_find (λ t : (N → bool) * string, t.1 c = true) chartype_ with
  | Some (_, (_, t)) => js t
  | None => js "O"
  end.

(** [ts_(table[key])]: 0 where the table has nothing. *)
Definition ts_ (t : score_list) (key : jsstr) : Z := default 0 (jm_get key t).

(** ** The sum at one gap *)
Definition BIAS__ : Z := -332.

(** What the sum is taken of: the characters from three before the gap to
    three after it, their types, and the last three decisions. *)
Record window := Window {
  w1 : jsstr; w2 : jsstr; w3 : jsstr; w4 : jsstr; w5 : jsstr; w6 : jsstr;
  c1 : jsstr; c2 : jsstr; c3 : jsstr; c4 : jsstr; c5 : jsstr; c6 : jsstr;
}.

Definition score (v : window) (p1 p2 p3 : jsstr) : Z :=
  BIAS__
  + ts_ UP1__ p1 + ts_ UP2__ p2 + ts_ UP3__ p3
  + ts_ BP1__ (p1 ++ p2) + ts_ BP2__ (p2 ++ p3)
  + ts_ UW1__ (w1 v) + ts_ UW2__ (w2 v) + ts_ UW3__ (w3 v) + ts_ UW4__ (w4 v) + ts_ UW5__ (w5 v) + ts_ UW6__ (w6 v)
  + ts_ BW1__ (w2 v ++ w3 v) + ts_ BW2__ (w3 v ++ w4 v) + ts_ BW3__ (w4 v ++ w5 v)
  + ts_ TW1__ (w1 v ++ w2 v ++ w3 v) + ts_ TW2__ (w2 v ++ w3 v ++ w4 v)
  + ts_ TW3__ (w3 v ++ w4 v ++ w5 v) + ts_ TW4__ (w4 v ++ w5 v ++ w6 v)
  + ts_ UC1__ (c1 v) + ts_ UC2__ (c2 v) + ts_ UC3__ (c3 v) + ts_ UC4__ (c4 v) + ts_ UC5__ (c5 v) + ts_ UC6__ (c6 v)
  + ts_ BC1__ (c2 v ++ c3 v) + ts_ BC2__ (c3 v ++ c4 v) + ts_ BC3__ (c4 v ++ c5 v)
  + ts_ TC1__ (c1 v ++ c2 v ++ c3 v) + ts_ TC2__ (c2 v ++ c3 v ++ c4 v)
  + ts_ TC3__ (c3 v ++ c4 v ++ c5 v) + ts_ TC4__ (c4 v ++ c5 v ++ c6 v)
  + ts_ UQ1__ (p1 ++ c1 v) + ts_ UQ2__ (p2 ++ c2 v) + ts_ UQ3__ (p3 ++ c3 v)
  + ts_ BQ1__ (p2 ++ c2 v ++ c3 v) + ts_ BQ2__ (p2 ++ c3 v ++ c4 v)
  + ts_ BQ3__ (p3 ++ c2 v ++ c3 v) + ts_ BQ4__ (p3 ++ c3 v ++ c4 v)
  + ts_ TQ1__ (p2 ++ c1 v ++ c2 v ++ c3 v) + ts_ TQ2__ (p2 ++ c2 v ++ c3 v ++ c4 v)
  + ts_ TQ3__ (p3 ++ c1 v ++ c2 v ++ c3 v) + ts_ TQ4__ (p3 ++ c2 v ++ c3 v ++ c4 v).

(** ** Segmenting *)

(** [seg] and [ctype]: the characters and their types between three marks on
    either side. *)
Definition seg (o : jsstr) : list jsstr := (js <$> ["B3"; "B2"; "B1"]%string) ++ ((λ c, [c]) <$> o) ++ (js <$> ["E1"; "E2"; "E3"]%string).
Definition ctypes (o : jsstr) : list jsstr := replicate 3 (js "O") ++ (ctype_ <$> o) ++ replicate 3 (js "O").

(** The window at [i]; every index used is within the lists. *)
Definition window_at (s c : list jsstr) (i : nat) : window :=
  let at_ (l : list jsstr) (k : nat) := default [] (l !! k) in
  (Window (at_ s (i - 3)) (at_ s (i - 2)) (at_ s (i - 1)) (at_ s i) (at_ s (i + 1)) (at_ s (i + 2))
    (at_ c (i - 3)) (at_ c (i - 2)) (at_ c (i - 1)) (at_ c i) (at_ c (i + 1)) (at_ c (i + 2)))%nat.

(** The loop, [n] turns from [i] on. *)
Fixpoint segment_from (s c : list jsstr) (i n : nat) (word p1 p2 p3 : jsstr) (result : list jsstr) : list jsstr :=
  match n with
  | O => result ++ [word]
  | S n =>
      let char := default [] (s !! i) in
      if 0 <? score (window_at s c i) p1 p2 p3
      then segment_from s c (S i) n char p2 p3 (js "B") (result ++ [word])
      else segment_from s c (S i) n (word ++ char) p2 p3 (js "O") result
  end.

Definition segment (input : jsstr) : list jsstr :=
  match input with
  | [] => []
  | _ =>
      let s := seg input in
      segment_from s (ctypes input) 4 (length s - 3 - 4) (default [] (s !! 3%nat)) (js "U") (js "U") (js "U") []
  end.

(** ** Theorems *)

(** The marks are not read as characters and no index is out of range. *)
Lemma seg_lookup o k c : o !! k = Some c → seg o !! (3 + k)%nat = Some [c].
Proof.
  intros Hk. unfold seg. rewrite lookup_app_r by (simpl; lia).
  replace (3 + k - _)%nat with k by (rewrite length_fmap; simpl; lia). rewrite lookup_app_l by (rewrite length_fmap; by eapply lookup_lt_Some). by rewrite list_lookup_fmap, Hk.
Qed.

Lemma window_in_range o i : (4 <= i)%nat → (i < length (seg o) - 3)%nat → ∀ k, (i - 3 <= k <= i + 2)%nat → is_Some (seg o !! k) ∧ is_Some (ctypes o !! k).
Proof.
  intros Hi Hn k Hk. assert (length (ctypes o) = length (seg o)) as Hl by (unfold seg, ctypes; rewrite !length_app, !length_fmap, !length_replicate; done).
  split; apply lookup_lt_is_Some; lia.
Qed.

Lemma segment_from_spec o c k n word p1 p2 p3 result :
  word ≠ [] → Forall (.≠ []) result → (k + n = length o)%nat →
  let r := segment_from (seg o) c (3 + k) n word p1 p2 p3 result in
  concat r = concat result ++ word ++ drop k o ∧ Forall (.≠ []) r ∧ (length r <= length result + S n)%nat.
Proof.
  revert k word p1 p2 p3 result. induction n as [|n IH]; intros k word p1 p2 p3 result Hw Hr Hk; cbn [segment_from].
  - rewrite concat_app, drop_ge by lia. cbn. rewrite !app_nil_r. split; [done|]. split; [by apply Forall_app; split; [|constructor]|].
    rewrite length_app. simpl. lia.
  - destruct (lookup_lt_is_Some_2 o k) as [x Hx]; [lia|]. rewrite (seg_lookup o k x Hx). cbn [default]. change (id [x]) with [x].
    rewrite (drop_S o x k Hx). destruct (0 <? _).
    + destruct (IH (S k) [x] p2 p3 (js "B") (result ++ [word])) as (H1 & H2 & H3); [done|by apply Forall_app; split; [|constructor]|lia|].
      replace (3 + S k)%nat with (S (3 + k)) in * by lia. split_and!; [|exact H2|rewrite (length_app result [word]) in H3; change (length [word]) with 1%nat in H3; lia].
      rewrite H1, concat_app. cbn. by rewrite app_nil_r, <-!(assoc_L (++)).
    + destruct (IH (S k) (word ++ [x]) p2 p3 (js "O") result) as (H1 & H2 & H3); [by destruct word|done|lia|].
      replace (3 + S k)%nat with (S (3 + k)) in * by lia. split_and!; [|exact H2|lia]. rewrite H1. by rewrite <-!(assoc_L (++)).
Qed.

(** Segmenting loses nothing: the words are not empty, there is at most
    one per character, and joined they are the text; the first character
    always begins the first word. *)
Theorem segment_partition (input : jsstr) :
  concat (segment input) = input ∧ Forall (.≠ []) (segment input) ∧ (length (segment input) <= length input)%nat.
Proof.
  destruct input as [|x o]; [by split_and!|]. unfold segment.
  assert (length (seg (x :: o)) - 3 - 4 = length o)%nat as Hn by (unfold seg; rewrite !length_app, !length_fmap; simpl; lia). rewrite Hn.
  pose proof (seg_lookup (x :: o) 0 x eq_refl) as H0. cbn [Nat.add] in H0. cbv zeta. rewrite H0. change (default [] (Some [x])) with [x].
  destruct (segment_from_spec (x :: o) (ctypes (x :: o)) 1 (length o) [x] (js "U") (js "U") (js "U") []) as (H1 & H2 & H3); [done|constructor|done|].
  cbn [Nat.add] in *. rewrite H1. by split_and!.
Qed.

(** The example sentence of the original script. *)
Example segment_sentence :
  segment (unicode "私の名前は中野です") = unicode <$> ["私"; "の"; "名前"; "は"; "中野"; "です"]%string.
Proof. vm_compute. reflexivity. Qed.
