(* ===== verification/LunrAdapter.v ===== *)
(** * The lunr adapter of the site search (search-lunr.js)

    The other adapter of the theme: it builds a lunr index of the pages and
    turns a term into a lunr query of four clauses per word. Lunr is a
    parameter: its tokenizer, the index it builds of numbered pages, and the
    search of an index, which answers with the reference of a page and the
    terms matched. *)

From stdpp Require Import pretty.
From S2P Require Import Prelude JSColl JSValue.

(** ** Queries *)

(** [term.replace(/[*:^~+-]/g, ' ')] *)
Definition lunr_special (c : N) : bool := bool_decide ([c] ∈ [js "*"; js ":"; js "^"; js "~"; js "+"; js "-"]).
Definition clean (term : jsstr) : jsstr := (λ c, if lunr_special c then 32%N else c) <$> term.

(** Lengths and the typos allowed in words shorter than them. *)
Record typo_rule := TypoRule { len : Z; typos_of : nat }.
Definition typos : list typo_rule :=
  [TypoRule (-1) 1; TypoRule 60 2; TypoRule 40 3; TypoRule 20 4; TypoRule 16 3; TypoRule 12 2; TypoRule 8 1; TypoRule 4 0].

(** [typos.reduce(...)]: the last rule whose length the word does not reach,
    the first one if there is none. *)
Definition allowed_typos (word : jsstr) : nat :=
  match typos with
  | [] => 0
  | a :: l => typos_of (foldl (λ a c, if (Z.of_nat (length word) <? len c)%Z then c else a) a l)
  end.

Definition searchPatterns (word : jsstr) : list jsstr :=
  [word ++ js "^100"; word ++ js "*^10"; js "*" ++ word ++ js "^10"; word ++ js "~" ++ nat_str (allowed_typos word) ++ js "^1"].

(** ** The adapter *)
Section lunr.
Context {page idx : Type}.
Context (tokenizer : jsstr → list jsstr) (build : list (nat * page) → idx).
Context (lunr_search : idx → jsstr → list (jsstr * list jsstr)).

Record lunr_adapter := LunrAdapter {
  lunr_loaded : bool;                       (* window.lunr *)
  lunrIndex : option idx;
  pagesIndex : list page;
  isSearchEngineReady : bool;
  initial_searches : nat;                   (* calls of executeInitialSearch *)
}.

(** [initIndex(index)]: every page is added under its number. *)
Definition initIndex (index : list page) (a : lunr_adapter) : lunr_adapter :=
  if lunr_loaded a
  then LunrAdapter true (Some (build (imap pair index))) index true (S (initial_searches a))
  else a.

(** [init()]: what the script tag brings, [None] when it does not load. *)
Definition lunr_init (index_js_url : bool) (relearn_searchindex : option (list page)) (a : lunr_adapter) : lunr_adapter :=
  if index_js_url then match relearn_searchindex with Some index => initIndex index a | None => a end else a.

(** [pagesIndex[ref]], where [ref] is the number of a page as a string. *)
Definition page_at (pages : list page) (ref : jsstr) : option page :=
  (λ f : nat * (nat * page), f.2.2) <$> list_find (λ f, nat_str f.1 = ref) (imap pair pages).

Record lunr_page := FoundPage { index_ : jsstr; matches : list jsstr; page_ : option page }.

Definition search_term (term : jsstr) : jsstr := join_str (js " ") (tokenizer term ≫= searchPatterns).

Definition lunr_find (term : jsstr) (a : lunr_adapter) : list lunr_page :=
  if negb (lunr_loaded a) then []
  else let term := clean term in
       let searchTerm := search_term term in
       match searchTerm, lunrIndex a with
       | [], _ | _, None => []
       | _, Some i => (λ result : jsstr * list jsstr, FoundPage result.1 (term :: result.2) (page_at (pagesIndex a) result.1)) <$> lunr_search i searchTerm
       end.
End lunr.

(** ** Theorems *)

(** The typos allowed grow with the word up to 40 characters and shrink again
    after. *)
Lemma allowed_typos_spec word :
  allowed_typos word =
    let n := length word in
    if (n <? 4)%nat then 0%nat else if (n <? 8)%nat then 1%nat else if (n <? 12)%nat then 2%nat else if (n <? 16)%nat then 3%nat
    else if (n <? 20)%nat then 4%nat else if (n <? 40)%nat then 3%nat else if (n <? 60)%nat then 2%nat else 1%nat.
Proof.
  unfold allowed_typos, typos. cbn [foldl]. generalize (length word) as n. intros n. cbv zeta.
  repeat match goal with |- context [Z.ltb ?a ?b] => destruct (Z.ltb_spec a b); cbn [len] in * end;
    repeat match goal with |- context [Nat.ltb ?a ?b] => destruct (Nat.ltb_spec a b) end; cbn [typos_of]; done || lia.
Qed.

Lemma clean_plain term : Forall (λ c, lunr_special c = false) (clean term).
Proof. apply Forall_fmap, Forall_forall. intros c _. cbn. by destruct (lunr_special c) eqn:Hc. Qed.

Lemma page_at_number {page} (pages : list page) i p : pages !! i = Some p → page_at pages (nat_str i) = Some p.
Proof.
  intros Hi. unfold page_at.
  assert (imap pair pages !! i = Some (i, p)) as Hl by by rewrite list_lookup_imap, Hi.
  destruct (list_find_elem_of (λ f : nat * page, nat_str f.1 = nat_str i) (imap pair pages) (i, p)) as [[k [j q]] Hf];
    [by eapply list_elem_of_lookup_2|done|].
  rewrite Hf. apply list_find_Some in Hf as (Hk & Hn & _). cbn in *. apply js_inj in Hn. apply (inj pretty) in Hn as ->.
  rewrite list_lookup_imap in Hk. apply fmap_Some in Hk as (q' & Hq & [= -> ->]). congruence.
Qed.

(** The lunr adapter: before the index is loaded a search finds nothing;
    once it is, the search is ready, and every result carries the page lunr
    refers to, with the term, cleared of the characters lunr gives a meaning,
    as its first match. *)
Theorem lunr_finds_pages {page idx} tokenizer (build : list (nat * page) → idx) lunr_search (pages : list page) (term : jsstr) n :
  (∀ l i q ref ks, i = build l → (ref, ks) ∈ lunr_search i q → ∃ k p, (k, p) ∈ l ∧ ref = nat_str k) →
  let a := LunrAdapter true None [] false n in
  lunr_find tokenizer lunr_search term a = [] ∧
  let a := initIndex build pages a in
  isSearchEngineReady a = true ∧ Forall (λ c, lunr_special c = false) (clean term) ∧
  Forall (λ f, ∃ k p, pages !! k = Some p ∧ index_ f = nat_str k ∧ page_ f = Some p ∧ head (matches f) = Some (clean term))
    (lunr_find tokenizer lunr_search term a).
Proof.
  intros Hrefs a. split; [unfold lunr_find; cbn; by destruct (search_term _ _)|]. split; [done|]. split; [apply clean_plain|].
  apply Forall_forall. intros f. unfold lunr_find. cbn [initIndex a lunr_loaded negb lunrIndex pagesIndex].
  destruct (search_term tokenizer (clean term)) as [|c q]; [by intros ?%elem_of_nil|].
  intros ([ref ks] & -> & Hin)%list_elem_of_fmap. destruct (Hrefs _ _ _ _ _ eq_refl Hin) as (k & p & Hk & ->).
  apply list_elem_of_lookup_1 in Hk as [j Hj]. rewrite list_lookup_imap in Hj. apply fmap_Some in Hj as (p' & Hp & [= -> ->]).
  exists j, p'. split_and!; try done. cbn. by apply page_at_number.
Qed.

Lemma lunr_finds_pages_witness :
  let lunr_search (l : list (nat * jsstr)) (q : jsstr) := (λ kp : nat * jsstr, (nat_str kp.1, [kp.2])) <$> filter (λ kp, kp.2 `prefix_of` q) l in
  let a := initIndex (λ l, l) [js "task"; js "queue"] (LunrAdapter true None [] false 0) in
  lunr_find (λ s, [s]) lunr_search (js "queue") a = [FoundPage (js "1") [js "queue"; js "queue"] (Some (js "queue"))] ∧
  Forall (λ f, ∃ k p, [js "task"; js "queue"] !! k = Some p ∧ index_ f = nat_str k ∧ page_ f = Some p ∧ head (matches f) = Some (clean (js "queue")))
    (lunr_find (λ s, [s]) lunr_search (js "queue") a).
Proof.
  set (lunr_search := λ (l : list (nat * jsstr)) (q : jsstr), _). split; [vm_compute; reflexivity|].
  apply (lunr_finds_pages (λ s, [s]) (λ l, l) lunr_search [js "task"; js "queue"] (js "queue") 0).
  intros l i q ref ks -> ([k p] & [= -> ->] & [_ Hin]%list_elem_of_filter)%list_elem_of_fmap. by exists k, p.
Defined.
