(* ===== verification/SearchPage.v ===== *)
(** * The search page (search.js)

    Searches on the page and the browser history: what is typed goes to the
    adapter, every new term becomes a history entry, and going through the
    history repeats the searches. The window is a record; an answer of the
    adapter arrives as an event of its own. URLs are kept as their parts, the
    string a state carries stands for the URL it is read back as; rendering an
    item and its excerpt is not modelled. *)

From S2P Require Import Prelude JSColl JSValue.

(** ** Messages *)

(** [resolvePlaceholders(s, args)]: [{n}] is replaced by the argument [n] if
    there is one; [n] names an element only in its plain decimal form. *)
Definition is_index_digit (c : N) : bool := ((48 <=? c) && (c <=? 57))%N.
Fixpoint span_digits (s : jsstr) : jsstr * jsstr :=
  match s with
  | c :: s' => if is_index_digit c then let '(d, r) := span_digits s' in (c :: d, r) else ([], s)
  | [] => ([], [])
  end.
Fixpoint arg_at (index : jsstr) (i : nat) (args : list jsstr) : option jsstr :=
  match args with
  | [] => None
  | a :: args => if bool_decide (nat_str i = index) then Some a else arg_at index (S i) args
  end.

(** A placeholder at the beginning of the text: its index and what follows. *)
Definition index_placeholder (s : jsstr) : option (jsstr * jsstr) :=
  match s with
  | 123%N :: s => match span_digits s with
                  | ((_ :: _) as index, 125%N :: rest) => Some (index, rest)
                  | _ => None
                  end
  | _ => None
  end.
Fixpoint replace_from (fuel : nat) (s : jsstr) (args : list jsstr) : jsstr :=
  match fuel with
  | O => s
  | S fuel =>
      match index_placeholder s with
      | Some (index, rest) =>
          (match arg_at index 0 args with Some a => a | None => 123%N :: index ++ [125%N] end) ++ replace_from fuel rest args
      | None => match s with c :: s => c :: replace_from fuel s args | [] => [] end
      end
  end.
Definition resolvePlaceholders (s : jsstr) (args : list jsstr) : jsstr := replace_from (length s) s args.

(** ** The window *)
Record url := Url { u_path : jsstr; u_params : list (jsstr * jsstr) }.

(** [url.searchParams.get/has/set] *)
Definition params_get (k : jsstr) (u : url) : option jsstr := jm_get k (u_params u).
Definition params_set (k v : jsstr) (u : url) : url :=
  let l := u_params u in
  Url (u_path u)
    match list_find (λ p : jsstr * jsstr, p.1 = k) l with
    | Some (i, _) => take i l ++ (k, v) :: filter (λ p, p.1 ≠ k) (drop (S i) l)
    | None => l ++ [(k, v)]
    end.

(** The fields the page puts into a history state. *)
Record hstate := HState { h_search : option url; h_scroll : option Z }.
Definition no_state : hstate := HState None None.

(** An entry: its state, [None] for [null], and its address. *)
Record entry := Entry { e_state : option hstate; e_url : url }.

Section page.
Context {item : Type}.

Record page_state := PageState {
  input : option jsstr;              (* #R-search-by-detail, where the page has it *)
  inputs : list jsstr;               (* all fields input.search-by *)
  hint : jsstr;
  shown : list item;
  past : list entry;                 (* the history: before, at and after the *)
  present : entry;                   (* current entry, the nearest first *)
  future : list entry;
  scrollTop : Z;
  pending : list jsstr;              (* searches the adapter has not answered *)
  isSearchInterfaceReady : bool;
  isSearchEngineReady : bool;
}.

Definition set_input v (w : page_state) := PageState v (inputs w) (hint w) (shown w) (past w) (present w) (future w) (scrollTop w) (pending w) (isSearchInterfaceReady w) (isSearchEngineReady w).
Definition set_inputs v (w : page_state) := PageState (input w) v (hint w) (shown w) (past w) (present w) (future w) (scrollTop w) (pending w) (isSearchInterfaceReady w) (isSearchEngineReady w).
Definition set_results h r (w : page_state) := PageState (input w) (inputs w) h r (past w) (present w) (future w) (scrollTop w) (pending w) (isSearchInterfaceReady w) (isSearchEngineReady w).
Definition set_history p e f (w : page_state) := PageState (input w) (inputs w) (hint w) (shown w) p e f (scrollTop w) (pending w) (isSearchInterfaceReady w) (isSearchEngineReady w).
Definition set_scroll z (w : page_state) := PageState (input w) (inputs w) (hint w) (shown w) (past w) (present w) (future w) z (pending w) (isSearchInterfaceReady w) (isSearchEngineReady w).
Definition set_pending l (w : page_state) := PageState (input w) (inputs w) (hint w) (shown w) (past w) (present w) (future w) (scrollTop w) l (isSearchInterfaceReady w) (isSearchEngineReady w).

(** [window.history] *)
Definition pushState (s : hstate) (u : url) (w : page_state) : page_state := set_history (present w :: past w) (Entry (Some s) u) [] w.
Definition replaceState (s : hstate) (w : page_state) : page_state := set_history (past w) (Entry (Some s) (e_url (present w))) (future w) w.
Definition current_state (w : page_state) : hstate := default no_state (e_state (present w)).

Context (T_N_results_found T_No_results_found : jsstr).

(** [executeSearch(value)] up to the answer of the adapter. *)
Definition executeSearch (v : jsstr) (w : page_state) : page_state := set_pending (pending w ++ [v]) (set_results [] [] w).

(** The answer [a] to the search for [v]; the position of the history entry,
    if it has one, is scrolled to. *)
Definition search_answered (v : jsstr) (a : list item) (w : page_state) : page_state :=
  let w := match a with
           | _ :: _ => set_results (resolvePlaceholders T_N_results_found [v; nat_str (length a)]) (shown w ++ a) w
           | [] => match v with [] => w | _ => set_results (resolvePlaceholders T_No_results_found [v]) (shown w) w end
           end in
  match h_scroll (current_state w) with Some z => set_scroll z w | None => w end.

Definition answer_first (adapter : jsstr → list item) (w : page_state) : page_state :=
  match pending w with [] => w | v :: l => search_answered v (adapter v) (set_pending l w) end.

Definition executeInitialSearch (w : page_state) : page_state :=
  if isSearchInterfaceReady w && isSearchEngineReady w then
    match input w with None => w | Some v => executeSearch v w end
  else w.

Definition search_by : jsstr := js "search-by".

Definition executeTriggeredSearch (w : page_state) : page_state :=
  match input w with
  | None => w
  | Some value =>
      let w := executeSearch value w in
      let u := e_url (present w) in
      if bool_decide (Some value ≠ params_get search_by u) then
        let u := params_set search_by value u in
        pushState (HState (Some u) (Some (scrollTop w))) u w
      else w
  end.

(** [executeHistorySearch(event)]; all fields get the term. *)
Definition executeHistorySearch (w : page_state) : page_state :=
  match e_state (present w) with
  | None => w
  | Some s =>
      match h_search s with
      | None => w
      | Some u => match params_get search_by u with
                  | None => w
                  | Some search =>
                      executeSearch search (set_inputs ((λ _, search) <$> inputs w) (set_input ((λ _, search) <$> input w) w))
                  end
      end
  end.

(** What [initSearchAfterLoad] does to the history. *)
Definition initSearchAfterLoad (has_adapter : bool) (w : page_state) : page_state :=
  if has_adapter then
    match input w with
    | None => w
    | Some _ => replaceState (HState (Some (e_url (present w))) (h_scroll (current_state w))) w
    end
  else w.

(** Going one entry back and forth fires [popstate]. *)
Definition go_back (w : page_state) : page_state :=
  match past w with e :: p => executeHistorySearch (set_history p e (present w :: future w) w) | [] => w end.
Definition go_forward (w : page_state) : page_state :=
  match future w with e :: f => executeHistorySearch (set_history (present w :: past w) e f w) | [] => w end.
Definition type_term (v : jsstr) (w : page_state) : page_state := set_input (Some v) w.
End page.
Arguments page_state item : clear implicits.

(** ** Theorems *)

(** A message without braces is itself; the rest is rendered piecewise. *)
Lemma replace_from_app fuel s rest args :
  123%N ∉ s → (length s + length rest <= fuel)%nat → replace_from fuel (s ++ rest) args = s ++ replace_from (fuel - length s) rest args.
Proof.
  revert fuel. induction s as [|c s IH]; intros fuel Hs Hf; [by rewrite Nat.sub_0_r|].
  destruct fuel as [|fuel]; [simpl in Hf; lia|]. apply not_elem_of_cons in Hs as [Hc Hs]. simpl app. cbn [replace_from].
  assert (index_placeholder (c :: s ++ rest) = None) as -> by (unfold index_placeholder; repeat case_match; by simplify_eq).
  by rewrite IH by (done || (simpl in Hf; lia)).
Qed.

Lemma resolve_plain s args : 123%N ∉ s → resolvePlaceholders s args = s.
Proof.
  intros Hs. unfold resolvePlaceholders. rewrite <-(app_nil_r s) at 2. rewrite replace_from_app by (done || (simpl; lia)).
  rewrite Nat.sub_diag. simpl. by rewrite app_nil_r.
Qed.

Section history.
Context {item : Type}.
Implicit Types w : page_state item.

(** Every entry from the current one back knows the address to search again. *)
Definition tracked (e : entry) : Prop := ∃ s, e_state e = Some s ∧ h_search s = Some (e_url e).
Definition all_tracked w : Prop := Forall tracked (present w :: past w).

(** The terms of the entries, the current one first. *)
Definition terms w : list (option jsstr) := (λ e, params_get search_by (e_url e)) <$> present w :: past w.
Definition history w := (past w, present w, future w).

Lemma params_get_set k v u : params_get k (params_set k v u) = Some v.
Proof.
  unfold params_get, params_set. cbn. destruct (list_find _ _) as [[i p]|] eqn:Hf.
  - apply list_find_Some in Hf as (_ & _ & Hno). revert i Hno. induction (u_params u) as [|[k' v'] l IH]; intros i Hno.
    + rewrite take_nil. cbn. by rewrite decide_True.
    + destruct i as [|i]; [cbn; by rewrite decide_True|]. cbn. rewrite decide_False; [apply IH; intros j y Hj Hlt; by apply (Hno (S j) y); [|lia]|].
      intros ->. apply (Hno 0%nat (k', v')); [done|lia|done].
  - apply list_find_None in Hf. induction (u_params u) as [|[k' v'] l IH]; cbn; [by rewrite decide_True|].
    apply Forall_cons in Hf as [Hk Hf]. cbn in Hk. rewrite decide_False by congruence. by apply IH.
Qed.

(** Typing a term and searching for it. *)
Definition visit w (t : jsstr) : page_state item := executeTriggeredSearch (type_term t w).
Definition push_term (s : list (option jsstr)) (t : jsstr) : list (option jsstr) :=
  if decide (head s = Some (Some t)) then s else Some t :: s.

Lemma visit_same w t : params_get search_by (e_url (present w)) = Some t → visit w t = executeSearch t (type_term t w).
Proof.
  intros Ht. unfold visit, executeTriggeredSearch. change (input (type_term t w)) with (Some t). cbv beta iota zeta.
  change (e_url (present (executeSearch _ _))) with (e_url (present w)). by rewrite Ht, bool_decide_eq_false_2 by naive_solver.
Qed.
Lemma visit_new w t :
  params_get search_by (e_url (present w)) ≠ Some t →
  let u := params_set search_by t (e_url (present w)) in
  visit w t = pushState (HState (Some u) (Some (scrollTop w))) u (executeSearch t (type_term t w)).
Proof.
  intros Ht. unfold visit, executeTriggeredSearch. change (input (type_term t w)) with (Some t). cbv beta iota zeta.
  change (e_url (present (executeSearch _ _))) with (e_url (present w)). by rewrite bool_decide_eq_true_2 by congruence.
Qed.

Lemma terms_push s u w : terms (pushState s u w) = params_get search_by u :: terms w.
Proof. done. Qed.

Lemma visit_spec w t : all_tracked w → all_tracked (visit w t) ∧ terms (visit w t) = push_term (terms w) t ∧ is_Some (input (visit w t)).
Proof.
  intros Hw. unfold push_term. change (head (terms w)) with (Some (params_get search_by (e_url (present w)))).
  destruct (decide (params_get search_by (e_url (present w)) = Some t)) as [Hg|Hg].
  - rewrite visit_same, decide_True by congruence. by split_and!.
  - rewrite visit_new, decide_False by congruence. split_and!; [|by rewrite terms_push, params_get_set|done].
    constructor; [by eexists|]. exact Hw.
Qed.

Lemma visits_spec ts w :
  all_tracked w → is_Some (input w) →
  all_tracked (foldl visit w ts) ∧ terms (foldl visit w ts) = foldl push_term (terms w) ts ∧ is_Some (input (foldl visit w ts)).
Proof.
  revert w. induction ts as [|t ts IH]; intros w Hw Hi; [done|]. destruct (visit_spec w t Hw) as (H1 & H2 & H3).
  cbn [foldl]. rewrite <-H2. by apply IH.
Qed.

Lemma executeHistorySearch_history w : history (executeHistorySearch w) = history w.
Proof. unfold executeHistorySearch. by repeat case_match. Qed.

Lemma executeHistorySearch_tracked w t :
  tracked (present w) → params_get search_by (e_url (present w)) = Some t → is_Some (input w) →
  input (executeHistorySearch w) = Some t ∧ last (pending (executeHistorySearch w)) = Some t.
Proof.
  intros (s & Hs & Hu) Ht [v Hi]. unfold executeHistorySearch. rewrite Hs, Hu, Ht. cbn. rewrite Hi. by rewrite last_snoc.
Qed.

Lemma executeHistorySearch_input w : is_Some (input w) → is_Some (input (executeHistorySearch w)).
Proof. unfold executeHistorySearch. repeat case_match; try done. cbn. intros [v ->]. by eexists. Qed.

Lemma back_spec w e p :
  past w = e :: p → all_tracked w → is_Some (input w) →
  history (go_back w) = (p, e, present w :: future w) ∧ all_tracked (go_back w) ∧ is_Some (input (go_back w)) ∧
  ∀ t, params_get search_by (e_url e) = Some t → input (go_back w) = Some t ∧ last (pending (go_back w)) = Some t.
Proof.
  intros Hp [_ Hw]%Forall_cons Hi. rewrite Hp in Hw. unfold go_back. rewrite Hp.
  pose proof (executeHistorySearch_history (set_history p e (present w :: future w) w)) as Hh. split; [exact Hh|]. split.
  { unfold all_tracked. unfold history in Hh. cbn in Hh. injection Hh as -> -> _. exact Hw. }
  split; [by apply executeHistorySearch_input|]. intros t Ht. apply Forall_cons in Hw as [He _]. by apply executeHistorySearch_tracked.
Qed.

Lemma forward_history w e f : future w = e :: f → history (go_forward w) = (present w :: past w, e, f).
Proof. intros Hf. unfold go_forward. rewrite Hf. apply executeHistorySearch_history. Qed.

Lemma backs_spec k w :
  all_tracked w → is_Some (input w) → (k <= length (past w))%nat →
  let b := Nat.iter k go_back w in
  all_tracked b ∧ is_Some (input b) ∧ present b :: past b = drop k (present w :: past w) ∧
  future b = reverse (take k (present w :: past w)) ++ future w ∧
  (∀ t, (0 < k)%nat → terms b !! 0%nat = Some (Some t) → input b = Some t ∧ last (pending b) = Some t).
Proof.
  intros Hw Hi. induction k as [|k IH]; intros Hk; cbn zeta; [by split_and!; [..|lia]|].
  destruct IH as (Hb & Hbi & Hd & Hf & _); [lia|]. rewrite Nat.iter_succ. set (b := Nat.iter k go_back w) in *. clearbody b.
  assert (∃ e p, past b = e :: p) as (e & p & Hp).
  { destruct (past b) as [|e p] eqn:Hp; [|eauto]. apply (f_equal length) in Hd. rewrite length_drop in Hd. simpl in Hd. lia. }
  destruct (back_spec b e p Hp Hb Hbi) as (Hh & H1 & H2 & H3). unfold history in Hh. injection Hh as Hp' He' Hf'.
  split_and!; [done..| | |].
  - rewrite Hp', He'. rewrite Hp in Hd. replace (S k) with (k + 1)%nat by lia. by rewrite <-drop_drop, <-Hd.
  - rewrite Hf', Hf. destruct (present w :: past w) as [|x l] eqn:Hl; [done|]. rewrite <-Hl in *.
    erewrite (take_S_r _ k (present b)); [by rewrite reverse_app|].
    assert (drop k (present w :: past w) !! 0%nat = Some (present b)) as Hx by by rewrite <-Hd. rewrite lookup_drop, Nat.add_0_r in Hx. exact Hx.
  - intros t _ Ht. change (Some (params_get search_by (e_url (present (go_back b)))) = Some (Some t)) in Ht.
    rewrite He' in Ht. apply H3. congruence.
Qed.

Lemma forward_back w : past w ≠ [] → history (go_forward (go_back w)) = history w.
Proof.
  intros Hp. destruct (past w) as [|e p] eqn:Hw; [done|].
  assert (history (go_back w) = (p, e, present w :: future w)) as Hb by (unfold go_back; rewrite Hw; apply executeHistorySearch_history).
  unfold history in Hb. injection Hb as H1 H2 H3. rewrite (forward_history _ _ _ H3), H1, H2. unfold history. by rewrite Hw.
Qed.

Lemma terms_lookup w k : terms w !! k = (λ e, params_get search_by (e_url e)) <$> (present w :: past w) !! k.
Proof. apply list_lookup_fmap. Qed.

(** C31. The history of searches: every new term becomes an entry, a term that
    is searched again does not; going back any number of entries puts the term
    of the entry into the field and searches for it, and going forward again
    restores the history. *)
Theorem history_roundtrip (w : page_state item) (ts : list jsstr) (k : nat) :
  all_tracked w → is_Some (input w) →
  let w' := foldl visit w ts in
  terms w' = foldl push_term (terms w) ts ∧
  ((0 < k <= length (past w'))%nat →
    let b := Nat.iter k go_back w' in
    (∀ t, terms w' !! k = Some (Some t) → input b = Some t ∧ last (pending b) = Some t) ∧
    terms b = drop k (terms w') ∧ history (go_forward b) = history (Nat.iter (k - 1) go_back w')).
Proof.
  intros Hw Hi. destruct (visits_spec ts w Hw Hi) as (Ha & Ht & Hi'). cbv zeta. split; [exact Ht|]. intros [Hk0 Hk].
  set (w' := foldl visit w ts) in *. clearbody w'. destruct (backs_spec k w' Ha Hi' Hk) as (_ & _ & Hd & _ & Hin). split_and!.
  - intros t Hx. apply Hin; [done|]. by rewrite terms_lookup, Hd, lookup_drop, Nat.add_0_r, <-terms_lookup.
  - unfold terms. by rewrite Hd, fmap_drop.
  - destruct k as [|k]; [lia|]. rewrite Nat.iter_succ, Nat.sub_succ, Nat.sub_0_r. apply forward_back.
    destruct (backs_spec k w' Ha Hi') as (_ & _ & Hd' & _); [lia|]. intros H0. rewrite H0 in Hd'. apply (f_equal length) in Hd'.
    rewrite length_drop in Hd'. simpl in Hd'. lia.
Qed.
End history.

Definition blank : page_state nat :=
  initSearchAfterLoad true (PageState (Some []) [[]; []] [] [] [] (Entry None (Url (js "/search") [])) [] 0 [] true true).

Lemma history_roundtrip_witness :
  let w := foldl visit blank [js "task"; js "queue"; js "queue"] in
  terms w = [Some (js "queue"); Some (js "task"); None] ∧
  input (Nat.iter 1 go_back w) = Some (js "task") ∧ terms (Nat.iter 1 go_back w) = [Some (js "task"); None].
Proof.
  assert (all_tracked blank) as Ha by (repeat constructor; by eexists).
  assert (is_Some (input blank)) as Hi by by eexists.
  destruct (history_roundtrip blank [js "task"; js "queue"; js "queue"] 1 Ha Hi) as [Ht Hb].
  assert (terms (foldl visit blank [js "task"; js "queue"; js "queue"]) = [Some (js "queue"); Some (js "task"); None]) as Hterms
    by (rewrite Ht; vm_compute; reflexivity).
  split; [exact Hterms|]. destruct Hb as (H1 & H2 & _); [vm_compute; lia|]. rewrite Hterms in H1, H2.
  split; [exact (proj1 (H1 _ eq_refl))|exact H2].
Defined.

(** Placeholders: the hint of a search. *)
Example hint_example :
  resolvePlaceholders (js "{1} results for {0} {2} {01} {x}") [js "{1}"; js "7"] = js "7 results for {1} {2} {01} {x}".
Proof. vm_compute. reflexivity. Qed.

(** Two searches before the first answer: the results of both are listed. *)
Example results_mixed :
  let w := executeSearch (js "b") (executeSearch (js "a") blank) in
  shown (answer_first (js "{1}") (js "-") (λ v, if decide (v = js "a") then [1; 2]%nat else [2; 3]%nat)
    (answer_first (js "{1}") (js "-") (λ v, if decide (v = js "a") then [1; 2]%nat else [2; 3]%nat) w)) = [1; 2; 2; 3]%nat.
Proof. vm_compute. reflexivity. Qed.
