(* ===== verification/WordPattern.v ===== *)
(** * Patterns of words (theme.js, functions [regexEscape], [highlight],
    [elementContains])

    The highlighter and the search of the page build a regular expression from
    the words of the term: the words, escaped, as alternatives. [parse] reads
    the part of the pattern syntax such an expression can use and [exec]
    matches it; two characters are alike when [canonicalize] maps them to the
    same unit, which is how the flag [i] compares. *)

From S2P Require Import Prelude JSValue.

(** ** Words of a term *)

(** White space, the class [\s], which is also what [trim] removes. *)
Definition is_white (c : N) : bool :=
  bool_decide (c ∈ [9; 10; 11; 12; 13; 32; 160; 5760; 8232; 8233; 8239; 8287; 12288; 65279]%N) || ((8192 <=? c) && (c <=? 8202))%N.

(** [(search ?? '').split(' ').filter((word) => word.trim() != '')] *)
Definition words_of (search : option jsstr) : list jsstr :=
  filter (λ w, existsb (λ c, negb (is_white c)) w = true) (split_on 32%N (default [] search)).

(** ** Building the pattern *)

(** The class of [regexEscape]. *)
Definition escaped (c : N) : bool :=
  bool_decide ([c] ∈ [js "-"; js "["; js "]"; js "{"; js "}"; js "("; js ")"; js "*"; js "+"; js "?"; js "."; js ","; js "\"; js "^"; js "$"; js "|"; js "#"])
  || is_white c.
Definition backslash : N := 92.
Definition vbar : N := 124.

(** [s.replace(/[…]/g, '\$&')] for a class of characters. *)
Definition escape_with (special : N → bool) (s : jsstr) : jsstr := s ≫= λ c, if special c then [backslash; c] else [c].
Definition regexEscape (s : jsstr) : jsstr := escape_with escaped s.

(** ['(' + words.join('|') + ')'] *)
Definition word_pattern (words : list jsstr) : jsstr := js "(" ++ join_on vbar (regexEscape <$> words) ++ js ")".

(** ** Reading the pattern *)

(** The characters with a meaning of their own, and those that an escape
    gives one: letters, digits and [_] (classes, anchors, references). *)
Definition syntax_character (c : N) : bool :=
  bool_decide ([c] ∈ [js "^"; js "$"; js "\"; js "."; js "*"; js "+"; js "?"; js "("; js ")"; js "["; js "]"; js "{"; js "}"; js "|"]).
Definition word_character (c : N) : bool :=
  ((48 <=? c) && (c <=? 57) || (65 <=? c) && (c <=? 90) || (97 <=? c) && (c <=? 122) || (c =? 95))%N.

(** The alternatives up to the closing parenthesis, each a sequence of
    characters; [None] for any other construct. *)
Fixpoint parse_alternatives (s cur : jsstr) : option (list jsstr) :=
  match s with
  | [] => None
  | c :: s =>
      if (c =? backslash)%N then
        match s with
        | d :: s => if word_character d then None else parse_alternatives s (cur ++ [d])
        | [] => None
        end
      else if (c =? vbar)%N then (λ l, cur :: l) <$> parse_alternatives s []
      else if (c =? 41)%N then match s with [] => Some [cur] | _ => None end
      else if syntax_character c then None
      else parse_alternatives s (cur ++ [c])
  end.
Definition parse (pattern : jsstr) : option (list jsstr) :=
  match pattern with 40%N :: s => parse_alternatives s [] | _ => None end.

(** ** Matching *)
Section match_.
Context (canonicalize : N → N).

(** A word at the beginning of the text. *)
Fixpoint begins (w s : jsstr) : bool :=
  match w, s with
  | [], _ => true
  | a :: w, b :: s => (canonicalize a =? canonicalize b)%N && begins w s
  | _ :: _, [] => false
  end.
Definition first_word (words : list jsstr) (s : jsstr) : option jsstr := snd <$> list_find (λ w, begins w s = true) words.

(** The first match: its index and its length. *)
Fixpoint exec_from (i : nat) (words : list jsstr) (s : jsstr) : option (nat * nat) :=
  match first_word words s with
  | Some w => Some (i, length w)
  | None => match s with [] => None | _ :: s => exec_from (S i) words s end
  end.
Definition exec (words : list jsstr) (s : jsstr) : option (nat * nat) := exec_from 0 words s.
Definition occurs (words : list jsstr) (s : jsstr) : bool := bool_decide (is_Some (exec words s)).

(** ** Theorems *)
Lemma begins_spec w s : begins w s = true ↔ length (take (length w) s) = length w ∧ canonicalize <$> w = canonicalize <$> take (length w) s.
Proof.
  revert s. induction w as [|a w IH]; intros [|b s]; cbn [begins length]; try done.
  { split; [done|by intros []]. }
  rewrite firstn_cons, !fmap_cons. cbn [length]. rewrite andb_true_iff, N.eqb_eq, IH.
  split; [intros (-> & -> & ->)|intros [[=] [=]]]; done.
Qed.

Lemma first_word_some words s w : first_word words s = Some w → w ∈ words ∧ begins w s = true.
Proof.
  unfold first_word. intros ([i w'] & Hf & [= ->])%fmap_Some. apply list_find_Some in Hf as (Hi & Hb & _).
  split; [by eapply list_elem_of_lookup_2|done].
Qed.
Lemma first_word_none words s : first_word words s = None → ∀ w, w ∈ words → begins w s = false.
Proof.
  unfold first_word. intros Hf%fmap_None. apply list_find_None in Hf. intros w Hw. rewrite Forall_forall in Hf.
  apply not_true_iff_false. by apply Hf.
Qed.

(** The match found is one of the words, up to case, and there is none before
    it. *)
Lemma exec_from_spec i words s k n :
  exec_from i words s = Some (k, n) →
  ∃ w, w ∈ words ∧ n = length w ∧ (i <= k)%nat ∧ begins w (drop (k - i) s) = true ∧
    ∀ j w', (j < k - i)%nat → w' ∈ words → begins w' (drop j s) = false.
Proof.
  revert i. induction s as [|c s IH]; intros i; cbn [exec_from]; (destruct (first_word words _) as [w|] eqn:Hf; [|try done]).
  1,2: intros [= <- <-]; apply first_word_some in Hf as [Hw Hb]; exists w; rewrite Nat.sub_diag; split_and!; [done..|lia].
  intros (w & Hw & Hn & Hik & Hb & Hno)%IH. exists w. split_and!; [done..|lia| |].
  - by replace (k - i)%nat with (S (k - S i)) by lia.
  - intros [|j] w' Hj Hw'; [by apply first_word_none with words|]. apply Hno; [lia|done].
Qed.
Lemma exec_from_none i words s : exec_from i words s = None → ∀ j w, w ∈ words → begins w (drop j s) = false.
Proof.
  revert i. induction s as [|c s IH]; intros i; cbn [exec_from]; (destruct (first_word words _) eqn:Hf; [done|]).
  - intros _ j w Hw. rewrite drop_nil. by apply first_word_none with words.
  - intros He [|j] w Hw; [by apply first_word_none with words|]. by apply IH with (S i).
Qed.

Lemma begins_length w s : begins w s = true → (length w <= length s)%nat.
Proof. rewrite begins_spec, length_take. intros [Hl _]. lia. Qed.
Lemma begins_app w s t : begins w s = true → begins w (s ++ t) = true.
Proof.
  revert s. induction w as [|a w IH]; intros [|b s]; cbn [begins app]; try done.
  rewrite !andb_true_iff. intros [? ?]. auto.
Qed.
Lemma exec_nonempty words s i n : Forall (λ w, w ≠ []) words → exec words s = Some (i, n) → (0 < n <= length (drop i s))%nat.
Proof.
  intros Hw He. apply exec_from_spec in He as (w & Hin & -> & _ & Hb & _). rewrite Nat.sub_0_r in Hb. apply begins_length in Hb.
  rewrite Forall_forall in Hw. specialize (Hw w Hin). destruct w; [done|]. simpl in *. lia.
Qed.
(** There is no occurrence before the first one. *)
Lemma exec_before words s i n : Forall (λ w, w ≠ []) words → exec words s = Some (i, n) → occurs words (take i s) = false.
Proof.
  intros Hw He. apply bool_decide_eq_false. intros [[j m] Hj]. pose proof (exec_nonempty _ _ _ _ Hw Hj) as Hm.
  apply exec_from_spec in He as (_ & _ & _ & _ & _ & Hno). apply exec_from_spec in Hj as (w & Hin & _ & _ & Hb & _).
  rewrite Nat.sub_0_r in *. rewrite length_drop, length_take in Hm.
  specialize (Hno j w ltac:(lia) Hin). apply (begins_app w _ (drop i s)) in Hb.
  rewrite <-drop_app_le in Hb by (rewrite length_take; lia). rewrite take_drop in Hb. congruence.
Qed.
End match_.

(** ** The escaped words are read literally *)

(** No character that [regexEscape] escapes gets a meaning by that, and what
    it leaves alone has none. *)
Lemma escaped_safe c : escaped c = true → word_character c = false.
Proof.
  intros Hc. apply not_true_iff_false. intros Hw.
  assert (c <= 122)%N as Hr.
  { unfold word_character in Hw. rewrite !orb_true_iff, !andb_true_iff, !N.leb_le, N.eqb_eq in Hw. lia. }
  assert (forallb (λ n, negb (escaped (N.of_nat n) && word_character (N.of_nat n))) (seq 0 123) = true) as Hall by (vm_compute; reflexivity).
  rewrite forallb_forall in Hall. specialize (Hall (N.to_nat c)). rewrite N2Nat.id, Hc, Hw in Hall.
  discriminate Hall. apply in_seq. lia.
Qed.
Lemma escaped_complete c : escaped c = false → (c =? backslash)%N = false ∧ (c =? vbar)%N = false ∧ (c =? 41)%N = false ∧ syntax_character c = false.
Proof.
  intros Hc. apply orb_false_iff in Hc as [Hc _]. apply bool_decide_eq_false in Hc.
  assert (∀ d, c = d → bool_decide ([d] ∈ [js "-"; js "["; js "]"; js "{"; js "}"; js "("; js ")"; js "*"; js "+"; js "?"; js "."; js ","; js "\"; js "^"; js "$"; js "|"; js "#"]) = false) as Hd.
  { intros d <-. by apply bool_decide_eq_false. }
  split_and!; [apply N.eqb_neq; intros ->; by specialize (Hd _ eq_refl)..|].
  apply bool_decide_eq_false. intros Hs. apply Hc. clear Hc Hd.
  revert Hs. generalize [c]. intros x Hx. set_solver.
Qed.

(** Escaping with a class that covers the syntax and has no word character. *)
Definition safe_class (special : N → bool) : Prop := ∀ c,
  if special c then word_character c = false
  else (c =? backslash)%N = false ∧ (c =? vbar)%N = false ∧ (c =? 41)%N = false ∧ syntax_character c = false.
Lemma escaped_class : safe_class escaped.
Proof. intros c. destruct (escaped c) eqn:Hc; [by apply escaped_safe|by apply escaped_complete]. Qed.
Lemma syntax_class : safe_class syntax_character.
Proof.
  intros c. destruct (syntax_character c) eqn:Hc.
  - apply escaped_safe. apply orb_true_iff. left. apply bool_decide_eq_true. apply bool_decide_eq_true in Hc.
    revert Hc. generalize [c]. intros x Hx. set_solver.
  - split_and!; [apply N.eqb_neq; intros ->; by vm_compute in Hc..|done].
Qed.

Section escaping.
Context (special : N → bool) (Hspecial : safe_class special).
Lemma parse_escaped w t cur : parse_alternatives (escape_with special w ++ t) cur = parse_alternatives t (cur ++ w).
Proof using Hspecial.
  revert cur. induction w as [|c w IH]; intros cur; [by rewrite app_nil_r|].
  change (escape_with special (c :: w)) with ((if special c then [backslash; c] else [c]) ++ escape_with special w).
  rewrite <-app_assoc. replace (cur ++ c :: w) with ((cur ++ [c]) ++ w) by by rewrite <-app_assoc.
  pose proof (Hspecial c) as Hc. destruct (special c); simpl.
  - by rewrite Hc.
  - destruct Hc as (-> & -> & -> & ->). apply IH.
Qed.
Lemma parse_words w ws cur :
  parse_alternatives (join_on vbar (escape_with special <$> w :: ws) ++ js ")") cur = Some ((cur ++ w) :: ws).
Proof using Hspecial.
  revert w cur. induction ws as [|w' ws IH]; intros w cur.
  - change (join_on vbar (escape_with special <$> [w])) with (escape_with special w). by rewrite parse_escaped.
  - change (join_on vbar (escape_with special <$> w :: w' :: ws)) with (escape_with special w ++ [vbar] ++ join_on vbar (escape_with special <$> w' :: ws)).
    rewrite <-!app_assoc, parse_escaped. cbn [app parse_alternatives]. by rewrite IH.
Qed.
End escaping.
