(* ===== verification/Dom.v ===== *)
(** * Elements and text of a page

    The part of the document tree the scripts of the page read and write:
    elements with their tag and classes, text, and other nodes (comments).
    An element of the page as loaded has an identity, [e_key], by which lists
    of elements taken earlier refer to it. [dom_normalize] is the DOM method of
    that name. *)

From S2P Require Import Prelude JSValue.

Record element := Element {
  e_key : option nat;
  localName : jsstr;
  className : jsstr;
  xhtml : bool;  (* namespaceURI is that of HTML *)
  data_code : option jsstr   (* the attribute [data-code] *)
}.

Inductive dom : Type :=
  | Text (data : jsstr)
  | Other (data : jsstr)
  | Elem (e : element) (childNodes : list dom).

(** Induction with the hypothesis for all children. *)
Lemma node_ind' (P : dom → Prop) :
  (∀ s, P (Text s)) → (∀ s, P (Other s)) → (∀ e cs, Forall P cs → P (Elem e cs)) → ∀ n, P n.
Proof.
  intros HT HO HE. fix IH 1. intros [s|s|e cs]; [apply HT|apply HO|]. apply HE.
  induction cs as [|c cs IHcs]; constructor; [apply IH|apply IHcs].
Qed.

(** ** Names and classes *)

Definition ascii_upper (c : N) : N := if ((97 <=? c) && (c <=? 122))%N then (c - 32)%N else c.

(** [element.tagName]: upper case for HTML. *)
Definition tagName (e : element) : jsstr := if xhtml e then ascii_upper <$> localName e else localName e.

(** [element.classList.contains(c)] *)
Definition html_space (c : N) : bool := bool_decide (c ∈ [9; 10; 12; 13; 32]%N).
Definition classList (e : element) : list jsstr :=
  filter (λ w, w ≠ []) (split_on 32%N ((λ c, if html_space c then 32%N else c) <$> className e)).
Definition has_class (c : jsstr) (e : element) : bool := bool_decide (c ∈ classList e).

(** The selector [name.class]. *)
Definition selects (name cls : jsstr) (e : element) : bool := bool_decide (localName e = name) && has_class cls e.

(** ** Text content and elements, in document order *)

Fixpoint textContent (n : dom) : jsstr :=
  match n with
  | Text s => s
  | Other _ => []
  | Elem _ cs => cs ≫= textContent
  end.

(** [node.querySelectorAll(…)]: the elements below a node. *)
Fixpoint dom_elements (n : dom) : list element :=
  match n with
  | Elem e cs => e :: (cs ≫= dom_elements)
  | _ => []
  end.
Definition descendants (n : dom) : list element :=
  match n with Elem _ cs => cs ≫= dom_elements | _ => [] end.
Definition querySelectorAll (sel : element → bool) (n : dom) : list element :=
  filter (λ e, sel e = true) (descendants n).

(** ** Normal form *)

(** An empty text node goes, one followed by text takes it over. *)
Definition join_text (n : dom) (l : list dom) : list dom :=
  match n with
  | Text [] => l
  | Text s => match l with Text t :: l => Text (s ++ t) :: l | _ => Text s :: l end
  | _ => n :: l
  end.
Definition merge_text (l : list dom) : list dom := foldr join_text [] l.

Fixpoint dom_normalize (n : dom) : dom :=
  match n with
  | Elem e cs => Elem e (merge_text (dom_normalize <$> cs))
  | _ => n
  end.

Lemma normalize_elem e cs : dom_normalize (Elem e cs) = Elem e (merge_text (dom_normalize <$> cs)).
Proof. done. Qed.

Lemma join_text_join s t l : join_text (Text s) (join_text (Text t) l) = join_text (Text (s ++ t)) l.
Proof.
  destruct s as [|a s], t as [|b t]; simpl; rewrite ?app_nil_r; try done.
  destruct l as [|[u|u|e cs] l]; try done. by rewrite <-app_assoc.
Qed.

Lemma join_text_foldr n l r : foldr join_text r (join_text n l) = join_text n (foldr join_text r l).
Proof.
  destruct n as [[|a s]|u|e cs]; try done. destruct l as [|[t|u|e cs] l]; try done.
  change (foldr join_text r (join_text (Text (a :: s)) (Text t :: l)))
    with (join_text (Text ((a :: s) ++ t)) (foldr join_text r l)).
  by rewrite <-join_text_join.
Qed.

Lemma merge_text_foldr l r : foldr join_text r (merge_text l) = foldr join_text r l.
Proof. induction l as [|n l IH]; [done|]. simpl. by rewrite join_text_foldr, IH. Qed.

Lemma merge_text_idem l : merge_text (merge_text l) = merge_text l.
Proof. apply merge_text_foldr. Qed.
Lemma merge_text_app l k : merge_text (l ++ k) = foldr join_text (merge_text k) l.
Proof. unfold merge_text. by rewrite foldr_app. Qed.
Lemma merge_text_app_l l k : merge_text (merge_text l ++ k) = merge_text (l ++ k).
Proof. rewrite !merge_text_app. apply merge_text_foldr. Qed.
Lemma merge_text_app_r l k : merge_text (l ++ merge_text k) = merge_text (l ++ k).
Proof. by rewrite !merge_text_app, merge_text_idem. Qed.

(** What holds of the parts of a text and of the other nodes holds after
    merging. *)
Lemma merge_text_Forall (P : dom → Prop) l :
  (∀ s t, P (Text s) → P (Text t) → P (Text (s ++ t))) → Forall P l → Forall P (merge_text l).
Proof.
  intros HP Hl. induction Hl as [|n l Hn Hl IH]; [constructor|]. cbn [merge_text foldr]. fold (merge_text l).
  destruct n as [[|a s]|u|e cs]; [exact IH| |by constructor..]. revert IH.
  destruct (merge_text l) as [|[t|u|e cs] k]; cbn [join_text]; intros IH; try by constructor.
  apply Forall_cons in IH as [Ht Hk]. constructor; [|done]. by apply (HP (a :: s) t).
Qed.

(** ** What holds of every element *)

Fixpoint every (P : element → list dom → Prop) (n : dom) : Prop :=
  match n with
  | Elem e cs => P e cs ∧ foldr (λ c Q, every P c ∧ Q) True cs
  | _ => True
  end.
Lemma foldr_Forall {A} (P : A → Prop) l : foldr (λ c Q, P c ∧ Q) True l ↔ Forall P l.
Proof. induction l as [|x l IH]; simpl; [by split|]. by rewrite IH, Forall_cons. Qed.
Lemma every_elem P e cs : every P (Elem e cs) ↔ P e cs ∧ Forall (every P) cs.
Proof. simpl. by rewrite foldr_Forall. Qed.

Lemma every_impl (P Q : element → list dom → Prop) n : (∀ e cs, P e cs → Q e cs) → every P n → every Q n.
Proof.
  intros HPQ. induction n as [s|s|e cs IH] using node_ind'; [done..|]. rewrite !every_elem. intros [HP Hcs].
  split; [by apply HPQ|]. clear HP. induction IH; [done|]. apply Forall_cons in Hcs as [Hc Hcs]. constructor; auto.
Qed.
Lemma every_and (P Q : element → list dom → Prop) n : every P n → every Q n → every (λ e cs, P e cs ∧ Q e cs) n.
Proof.
  induction n as [s|s|e cs IH] using node_ind'; [done..|]. rewrite !every_elem. intros [HP HPs] [HQ HQs].
  split; [done|]. clear HP HQ. induction IH; [done|]. apply Forall_cons in HPs as [??], HQs as [??]. constructor; auto.
Qed.

(** [normalized n]: [dom_normalize] has nothing to do. *)
Definition normalized : dom → Prop := every (λ _ cs, merge_text cs = cs).

Lemma normalize_every (P : element → list dom → Prop) n :
  (∀ e cs, P e cs → P e (merge_text (dom_normalize <$> cs))) → every P n → every P (dom_normalize n).
Proof.
  intros HP. induction n as [s|s|e cs IH] using node_ind'; [done..|]. rewrite normalize_elem, !every_elem.
  intros [He Hcs]. split; [by apply HP|]. apply merge_text_Forall; [done|]. apply Forall_fmap.
  clear He. induction IH; [done|]. apply Forall_cons in Hcs as [??]. constructor; auto.
Qed.
Lemma normalize_normalized n : normalized (dom_normalize n).
Proof.
  induction n as [s|s|e cs IH] using node_ind'; [done..|]. rewrite normalize_elem. apply every_elem.
  split; [apply merge_text_idem|]. apply merge_text_Forall; [done|]. by apply Forall_fmap.
Qed.
Lemma normalize_id n : normalized n → dom_normalize n = n.
Proof.
  induction n as [s|s|e cs IH] using node_ind'; [done..|]. rewrite normalize_elem. intros [Hm Hn]%every_elem.
  f_equal. rewrite <-Hm at 2. f_equal. clear Hm. induction IH as [|c cs Hc Hcs IH']; [done|].
  apply Forall_cons in Hn as [Hn Hns]. rewrite fmap_cons. f_equal; auto.
Qed.

(** Merging moves no element. *)
Lemma merge_text_elements l : merge_text l ≫= dom_elements = l ≫= dom_elements.
Proof.
  induction l as [|n l IH]; [done|]. cbn [merge_text foldr]. fold (merge_text l). rewrite bind_cons, <-IH.
  destruct n as [[|a s]|u|e cs]; try done. by destruct (merge_text l) as [|[t|u|e cs] k].
Qed.
Lemma normalize_elements n : dom_elements (dom_normalize n) = dom_elements n.
Proof.
  induction n as [s|s|e cs IH] using node_ind'; [done..|]. rewrite normalize_elem. simpl. f_equal.
  change (merge_text (dom_normalize <$> cs) ≫= dom_elements = cs ≫= dom_elements). rewrite merge_text_elements.
  induction IH as [|c cs Hc Hcs IH']; [done|]. by rewrite fmap_cons, !bind_cons, Hc, IH'.
Qed.

(** A list without empty texts and without two texts in a row is merged. *)
Fixpoint tidy (l : list dom) : bool :=
  match l with
  | [] => true
  | Text s :: l => negb (bool_decide (s = [])) && match l with Text _ :: _ => false | _ => true end && tidy l
  | _ :: l => tidy l
  end.
Lemma merge_text_length l : (length (merge_text l) <= length l)%nat.
Proof.
  induction l as [|n l IH]; [done|]. cbn [merge_text foldr]. fold (merge_text l).
  destruct n as [[|a s]|u|e cs]; cbn [join_text length]; try lia.
  destruct (merge_text l) as [|[t|u|e cs] k]; cbn [length] in *; lia.
Qed.
Lemma merge_text_tidy l : merge_text l = l ↔ tidy l = true.
Proof.
  induction l as [|n l IH]; [done|]. cbn [merge_text foldr]. fold (merge_text l). pose proof (merge_text_length l) as Hlen.
  destruct n as [[|a s]|u|e cs]; cbn [join_text tidy].
  - split; [|done]. intros Hl. rewrite Hl in Hlen. simpl in Hlen. lia.
  - rewrite bool_decide_eq_false_2 by done. cbn [negb andb]. split.
    + destruct (merge_text l) as [|[t|u|e cs] k] eqn:Hm; intros [=]; subst; simplify_eq/=; try (by apply IH).
      exfalso. subst. simpl in Hlen. lia.
    + rewrite andb_true_iff. intros [Hh Ht]. apply IH in Ht as ->. by destruct l as [|[t|u|e cs] k].
  - rewrite <-IH. split; [by intros [=]|by intros ->].
  - rewrite <-IH. split; [by intros [=]|by intros ->].
Qed.

(** Two nodes of the same kind: the same text, or the same element whatever is
    in it. *)
Definition alike (n m : dom) : Prop :=
  match n, m with
  | Text s, Text t => s = t
  | Other s, Other t => s = t
  | Elem e _, Elem f _ => e = f
  | _, _ => False
  end.
Lemma alike_tidy l k : Forall2 alike l k → tidy l = true → tidy k = true.
Proof.
  induction 1 as [|n m l k Hnm Hlk IH]; [done|].
  destruct n as [s|s|e cs], m as [t|t|f ds]; try done; simpl in *; [|auto..].
  subst t. rewrite !andb_true_iff. intros [[Hs Hn] Ht]. split_and!; [done| |auto].
  destruct Hlk as [|n m l k Hnm Hlk]; [done|]. by destruct n, m.
Qed.
