(* ===== verification/Highlight.v ===== *)
(** * The highlighter of the page (theme.js, functions [highlight],
    [highlightNode], [unhighlight], [elementContains])

    Words are wrapped into elements ([mark] of class [search]) by splitting the
    text they are in; the wrapping is undone by putting the text of each
    wrapper in its place and joining neighbouring texts. *)

From S2P Require Import Prelude JSValue WordPattern Dom.

(** The [options] the functions are called with. *)
Record hl_settings := HlSettings { hl_className : jsstr; hl_element : jsstr }.
Definition search_marks : hl_settings := HlSettings (js "search") (js "mark").

Section highlight.
Context (canonicalize : N → N) (st : hl_settings).

(** [node.tagName === nodeName.toUpperCase() && node.className === className];
    only in HTML is [className] a string. *)
Definition is_highlight (e : element) : bool :=
  xhtml e && bool_decide (tagName e = ascii_upper <$> hl_element st) && bool_decide (className e = hl_className st).
(** What [highlightNode] does not enter. *)
Definition skipped (e : element) : bool := occurs ascii_upper [js "script"; js "style"] (tagName e) || is_highlight e.

Definition new_highlight (s : jsstr) : dom := Elem (Element None (hl_element st) (hl_className st) true None) [Text s].

(** ** Wrapping *)

(** What becomes of a text node: the text before the first match, the wrapped
    match, and the rest, which is the next node the loop of the parent comes
    to. A match of no length would be found there again and again. *)
Fixpoint highlight_text (fuel : nat) (words : list jsstr) (s : jsstr) : option (list dom) :=
  match exec canonicalize words s with
  | None => Some [Text s]
  | Some (i, n) =>
      match fuel with
      | O => None
      | S fuel => (λ l, Text (take i s) :: new_highlight (take n (drop i s)) :: l) <$> highlight_text fuel words (drop n (drop i s))
      end
  end.

(** The nodes that stand for a node afterwards; [html]: its parent is an
    element of HTML. *)
Fixpoint highlightNode (words : list jsstr) (html : bool) (n : dom) : option (list dom) :=
  match n with
  | Text s => if html then highlight_text (length s) words s else Some [n]
  | Other _ => Some [n]
  | Elem e cs =>
      if skipped e then Some [n]
      else (λ ls, [Elem e (mjoin ls)]) <$> mapM (highlightNode words (xhtml e)) cs
  end.

(** An operation on the element with a given identity, wherever it is. *)
Fixpoint on_element (k : nat) (f : dom → option dom) (n : dom) : option dom :=
  match n with
  | Elem e cs => if bool_decide (e_key e = Some k) then f n else Elem e <$> mapM (on_element k f) cs
  | _ => Some n
  end.

Definition highlight_element (words : list jsstr) (n : dom) : option dom :=
  match highlightNode words true n with Some [n'] => Some n' | _ => None end.
Definition for_each (f : dom → option dom) (es : list nat) (doc : dom) : option dom :=
  foldl (λ d k, d ≫= on_element k f) (Some doc) es.
Definition highlight (es : list nat) (words : list jsstr) (doc : dom) : option dom :=
  match words with
  | [] => Some doc
  | _ => ws ← parse (word_pattern words); for_each (highlight_element ws) es doc
  end.

(** ** Unwrapping *)

Definition wrapper (e : element) : bool := selects (hl_element st) (hl_className st) e.

(** The first wrapper below a node is replaced by its first child (an error
    when it has none) and its parent normalized. [None]: there is none.
    [unwrap_children] works on the children of a node and tells whether it is
    the parent; [f] does the same to what is below a child. *)
Fixpoint unwrap_children (f : dom → option (option dom)) (cs : list dom) : option (option (list dom * bool)) :=
  match cs with
  | [] => None
  | c :: cs =>
      match
        match c with
        | Elem e (x :: _) => if wrapper e then Some (Some (x, true)) else (λ r, c' ← r; Some (c', false)) <$> f c
        | Elem e [] => if wrapper e then Some None else None
        | _ => None
        end
      with
      | Some r => Some ('(c', here) ← r; Some (c' :: cs, here))
      | None => (λ r, '(cs', here) ← r; Some (c :: cs', here)) <$> unwrap_children f cs
      end
  end.
Fixpoint unwrap_first (n : dom) : option (option dom) :=
  match n with
  | Elem e cs =>
      (λ r, '(cs', here) ← r; Some (if here : bool then dom_normalize (Elem e cs') else Elem e cs')) <$> unwrap_children unwrap_first cs
  | _ => None
  end.

(** The loop over the list of wrappers taken beforehand: each round takes the
    first that is left. *)
Fixpoint unwrap_loop (wrappers_left : nat) (n : dom) : option dom :=
  match wrappers_left with
  | O => Some n
  | S wrappers_left => match unwrap_first n with Some r => r ≫= unwrap_loop wrappers_left | None => Some n end
  end.
Definition unhighlight_element (n : dom) : option dom := unwrap_loop (length (querySelectorAll wrapper n)) n.
Definition unhighlight (es : list nat) (doc : dom) : option dom := for_each unhighlight_element es doc.

(** ** Finding *)

(** The text nodes below an element, each with its parent. *)
Fixpoint text_nodes (parent : element) (n : dom) : list (element * jsstr) :=
  match n with
  | Text s => [(parent, s)]
  | Other _ => []
  | Elem e cs => cs ≫= text_nodes e
  end.
Definition elementContains (words : list jsstr) (n : dom) : option (list element) :=
  match words, n with
  | _ :: _, Elem e cs =>
      ws ← parse (word_pattern words);
      Some (fst <$> filter (λ p, occurs canonicalize ws (snd p) = true) (text_nodes e n))
  | _, _ => Some []
  end.
End highlight.
