(* ===== verification/HighlightTheorems.v ===== *)
(** * The highlighter: what it wraps, and that unwrapping restores the page

    [strip] is the page without wrappers, as a specification: it is the same
    before and after wrapping and after each step of unwrapping. *)

From S2P Require Import Prelude JSValue WordPattern Dom Highlight.

Section theorems.
Context (canonicalize : N → N) (st : hl_settings).

Notation is_highlight := (is_highlight st).
Notation wrapper := (wrapper st).
Notation skipped := (skipped st).
Notation highlight_text := (highlight_text canonicalize st).
Notation highlightNode := (highlightNode canonicalize st).

(** ** The page without wrappers *)

Fixpoint strip (n : dom) : list dom :=
  match n with
  | Elem e cs => if wrapper e then cs ≫= strip else [Elem e (merge_text (cs ≫= strip))]
  | _ => [n]
  end.
Definition strip_from (r : list dom) (l : list dom) : list dom := foldr join_text r (l ≫= strip).
(** Lists that read the same without wrappers, whatever follows. *)
Record same_strip (l k : list dom) : Prop := SameStrip { same_strip_at : ∀ r, strip_from r l = strip_from r k }.
Arguments same_strip_at {l k}.

#[export] Instance same_strip_equiv : Equivalence same_strip.
Proof.
  split; [done|by intros l k [H]; constructor|]. intros a b c [Hab] [Hbc]. constructor. intros r. by rewrite Hab.
Qed.

Lemma strip_from_app r l k : strip_from r (l ++ k) = strip_from (strip_from r k) l.
Proof. unfold strip_from. by rewrite bind_app, foldr_app. Qed.
Lemma strip_from_cons r n l : strip_from r (n :: l) = strip_from (strip_from r l) [n].
Proof. apply (strip_from_app r [n] l). Qed.

#[export] Instance app_same_strip : Proper (same_strip ==> same_strip ==> same_strip) (++).
Proof. intros a b [Hab] c d [Hcd]. constructor. intros r. by rewrite !strip_from_app, Hcd, Hab. Qed.

Lemma same_strip_elem e cs ds : same_strip cs ds → same_strip [Elem e cs] [Elem e ds].
Proof.
  intros [H]. constructor. intros r. unfold strip_from. simpl. rewrite !app_nil_r.
  destruct (wrapper e); [apply H|]. simpl. do 2 f_equal. apply (H []).
Qed.
Lemma same_strip_text s t : same_strip [Text s; Text t] [Text (s ++ t)].
Proof. constructor. intros r. unfold strip_from. cbn [mbind list_bind strip app foldr]. apply join_text_join. Qed.
Lemma same_strip_wrapper e cs : wrapper e = true → same_strip [Elem e cs] cs.
Proof. intros He. constructor. intros r. unfold strip_from. simpl. by rewrite He, app_nil_r. Qed.

Lemma same_strip_merge l : same_strip (merge_text l) l.
Proof.
  induction l as [|n l IH]; [done|]. cbn [merge_text foldr]. fold (merge_text l).
  assert (same_strip (join_text n (merge_text l)) (n :: merge_text l)) as ->.
  { destruct n as [[|a s]|u|e cs]; try done. destruct (merge_text l) as [|[t|u|e cs] k]; try done.
    apply (app_same_strip [Text ((a :: s) ++ t)] [Text (a :: s); Text t]); [symmetry; apply same_strip_text|done]. }
  by apply (app_same_strip [n] [n]).
Qed.
Lemma same_strip_all l k : Forall2 (λ n m, same_strip [n] [m]) l k → same_strip l k.
Proof. induction 1 as [|n m l k Hnm Hlk IH]; [done|]. by apply (app_same_strip [n] [m]). Qed.
Lemma same_strip_normalize n : same_strip [dom_normalize n] [n].
Proof.
  induction n as [s|s|e cs IH] using node_ind'; [done..|]. rewrite normalize_elem. apply same_strip_elem.
  rewrite same_strip_merge. apply same_strip_all. by apply Forall2_fmap_l, Forall_Forall2_diag.
Qed.

(** A normalized page without wrappers is its own [strip]. *)
Definition unwrapped : dom → Prop := every (λ e _, wrapper e = false).
Lemma strip_id n : unwrapped n → normalized n → strip n = [n].
Proof.
  induction n as [s|s|e cs IH] using node_ind'; [done..|]. unfold unwrapped, normalized. rewrite !every_elem.
  intros [He Hes] [Hm Hms]. simpl. rewrite He. do 2 f_equal.
  transitivity (merge_text cs); [f_equal|done]. clear Hm He. induction IH as [|c cs Hc Hcs IH']; [done|].
  apply Forall_cons in Hes as [??], Hms as [??]. rewrite bind_cons, Hc by done. simpl. f_equal. auto.
Qed.
Lemma same_strip_eq e cs f ds :
  unwrapped (Elem e cs) → normalized (Elem e cs) → unwrapped (Elem f ds) → normalized (Elem f ds) →
  same_strip [Elem e cs] [Elem f ds] → Elem e cs = Elem f ds.
Proof.
  intros Hu Hn Hu' Hn' [Hs]. specialize (Hs []). unfold strip_from in Hs. rewrite !bind_cons, !strip_id in Hs by done.
  simpl in Hs. by injection Hs as -> ->.
Qed.

(** ** Wrapping *)

Hypothesis wrapper_new : wrapper (Element None (hl_element st) (hl_className st) true None) = true.

Lemma same_strip_new s : same_strip [new_highlight st s] [Text s].
Proof. by apply same_strip_wrapper. Qed.

Lemma highlight_text_strip fuel words s l : highlight_text fuel words s = Some l → same_strip l [Text s].
Proof.
  revert s l. induction fuel as [|fuel IH]; intros s l; cbn [Highlight.highlight_text];
    destruct (exec canonicalize words s) as [[i n]|]; try done; [by intros [= <-]| |by intros [= <-]].
  intros (l' & Hl & ->)%fmap_Some. apply IH in Hl.
  change (same_strip ([Text (take i s)] ++ [new_highlight st (take n (drop i s))] ++ l') [Text s]). rewrite Hl.
  rewrite same_strip_new.
  change (same_strip ([Text (take i s)] ++ [Text (take n (drop i s)); Text (drop n (drop i s))]) [Text s]).
  rewrite same_strip_text, take_drop. rewrite <-(take_drop i s) at 3. symmetry. rewrite <-same_strip_text. done.
Qed.

Lemma mapM_same_strip (f : dom → option (list dom)) cs ls :
  Forall (λ c, ∀ l, f c = Some l → same_strip l [c]) cs → mapM f cs = Some ls → same_strip (mjoin ls) cs.
Proof.
  intros Hf Hm. apply mapM_Some in Hm. induction Hm as [|c l cs ls Hc Hcs IH]; [done|].
  apply Forall_cons in Hf as [Hfc Hf]. simpl. apply (app_same_strip l [c]); auto.
Qed.
Lemma highlightNode_strip words h n l : highlightNode words h n = Some l → same_strip l [n].
Proof.
  revert h l. induction n as [s|s|e cs IH] using node_ind'; intros h l; cbn [Highlight.highlightNode].
  - destruct h; [apply highlight_text_strip|by intros [= <-]].
  - by intros [= <-].
  - destruct (skipped e); [by intros [= <-]|]. intros (ls & Hm & ->)%fmap_Some. apply same_strip_elem.
    eapply mapM_same_strip; [|exact Hm]. eapply Forall_impl; [exact IH|]. intros c Hc l'. apply Hc.
Qed.

(** ** What wrapping keeps

    Every wrapper is one the highlighter recognises and holds one text, and
    where two texts meet or one is empty there is a wrapper next to them. *)
Definition leaf (e : element) (cs : list dom) : Prop :=
  wrapper e = true → e_key e = None ∧ is_highlight e = true ∧ ∃ s, s ≠ [] ∧ cs = [Text s].
Definition wraps (n : dom) : bool := match n with Elem e _ => wrapper e | _ => false end.
Definition settled_seams (e : element) (cs : list dom) : Prop := merge_text cs = cs ∨ existsb wraps cs = true.

Definition stable (P : element → list dom → Prop) : Prop := ∀ e cs ds, Forall2 alike cs ds → P e cs → P e ds.
Lemma leaf_stable : stable leaf.
Proof.
  intros e cs ds Ha Hl He. destruct (Hl He) as (Hk & Hh & s & Hs & ->). split_and!; [done..|]. exists s. split; [done|].
  inversion Ha as [|? n ? ds' Hn Hds]; subst. inversion Hds; subst. by destruct n; simplify_eq/=.
Qed.
Lemma alike_wraps cs ds : Forall2 alike cs ds → existsb wraps cs = existsb wraps ds.
Proof. induction 1 as [|n m l k Hnm Hlk IH]; [done|]. simpl. rewrite IH. by destruct n, m; simplify_eq/=. Qed.
Lemma settled_stable : stable settled_seams.
Proof.
  intros e cs ds Ha [Hm|Hw]; [left|right; by rewrite <-(alike_wraps _ _ Ha)].
  rewrite merge_text_tidy in *. by eapply alike_tidy.
Qed.
Lemma alike_refl n : alike n n.
Proof. by destruct n. Qed.
#[local] Hint Resolve alike_refl : core.

Lemma highlight_text_cases fuel words s l : highlight_text fuel words s = Some l → l = [Text s] ∨ existsb wraps l = true.
Proof.
  destruct fuel; cbn [Highlight.highlight_text]; destruct (exec canonicalize words s) as [[i n]|]; try done.
  1,3: by intros [= <-]; left.
  intros (l' & _ & ->)%fmap_Some. right. cbn [existsb wraps new_highlight]. by rewrite wrapper_new.
Qed.
Lemma highlightNode_cases words h n l :
  highlightNode words h n = Some l → (∃ n', l = [n'] ∧ alike n n') ∨ existsb wraps l = true.
Proof.
  destruct n as [s|s|e cs]; cbn [Highlight.highlightNode].
  - destruct h; [intros [->|]%highlight_text_cases; eauto|intros [= <-]; eauto].
  - intros [= <-]; eauto.
  - destruct (skipped e); [intros [= <-]; eauto|]. intros (ls & _ & ->)%fmap_Some. left. by eexists.
Qed.

Lemma settled_highlighted words h e cs ls :
  mapM (highlightNode words h) cs = Some ls → settled_seams e cs → settled_seams e (mjoin ls).
Proof.
  intros Hm%mapM_Some Hs. assert (Forall2 alike cs (mjoin ls) ∨ existsb wraps (mjoin ls) = true) as [Ha|Hw].
  - clear Hs. induction Hm as [|c l cs ls Hc Hcs IH]; [left; constructor|]. simpl. rewrite existsb_app.
    apply highlightNode_cases in Hc as [(c' & -> & Hc)|Hw]; [|right; by rewrite Hw].
    destruct IH as [IH|IH]; [left; by constructor|right; by rewrite IH, orb_true_r].
  - by apply (settled_stable e cs).
  - by right.
Qed.

Lemma highlight_text_every (P : element → list dom → Prop) fuel words s l :
  Forall (λ w, w ≠ []) words → (∀ t w, t ≠ [] → w ∈ words → canonicalize <$> w = canonicalize <$> t → every P (new_highlight st t)) →
  highlight_text fuel words s = Some l → Forall (every P) l.
Proof.
  intros Hw HP. revert s l. induction fuel as [|fuel IH]; intros s l; cbn [Highlight.highlight_text];
    destruct (exec canonicalize words s) as [[i n]|] eqn:He; try done; [by intros [= <-]; apply Forall_singleton| |by intros [= <-]; apply Forall_singleton].
  intros (l' & Hl & ->)%fmap_Some. repeat constructor; [|by eapply IH].
  apply exec_from_spec in He as (w & Hin & -> & _ & Hb & _). rewrite Nat.sub_0_r in Hb.
  pose proof (begins_length _ _ _ Hb). apply begins_spec in Hb as [_ Hb]. apply (HP _ w); [|done..].
  rewrite Forall_forall in Hw. specialize (Hw w Hin). destruct w as [|a w]; [done|]. destruct (drop i s); simpl in *; [lia|done].
Qed.
Lemma highlightNode_every (P : element → list dom → Prop) words h n l :
  Forall (λ w, w ≠ []) words → (∀ t w, t ≠ [] → w ∈ words → canonicalize <$> w = canonicalize <$> t → every P (new_highlight st t)) →
  (∀ e cs ls, skipped e = false → P e cs → mapM (highlightNode words (xhtml e)) cs = Some ls → P e (mjoin ls)) →
  every P n → highlightNode words h n = Some l → Forall (every P) l.
Proof.
  intros Hw Hnew HP. revert h l. induction n as [s|s|e cs IH] using node_ind'; intros h l Hn; cbn [Highlight.highlightNode].
  - destruct h; [by apply highlight_text_every|intros [= <-]; by apply Forall_singleton].
  - intros [= <-]; by apply Forall_singleton.
  - destruct (skipped e) eqn:Hsk; [intros [= <-]; by apply Forall_singleton|]. intros (ls & Hm & ->)%fmap_Some.
    apply every_elem in Hn as [He Hn]. constructor; [|constructor]. apply every_elem. split; [by eapply HP|].
    apply mapM_Some in Hm. clear He. induction Hm as [|c l cs ls Hc Hcs IH']; [constructor|].
    apply Forall_cons in IH as [IHc IH], Hn as [Hnc Hn]. simpl. apply Forall_app. split; [by eapply IHc|]. by apply IH'.
Qed.

Lemma highlight_text_total fuel words s :
  Forall (λ w, w ≠ []) words → (length s <= fuel)%nat → is_Some (highlight_text fuel words s).
Proof.
  intros Hw. revert s. induction fuel as [|fuel IH]; intros s Hl; cbn [Highlight.highlight_text];
    (destruct (exec canonicalize words s) as [[i n]|] eqn:He; [|by eexists]); apply exec_nonempty in He; try done;
    rewrite length_drop in He; [lia|].
  apply fmap_is_Some, IH. rewrite !length_drop. lia.
Qed.
Lemma highlightNode_total words h n : Forall (λ w, w ≠ []) words → is_Some (highlightNode words h n).
Proof.
  intros Hw. revert h. induction n as [s|s|e cs IH] using node_ind'; intros h; cbn [Highlight.highlightNode]; [|by eexists|].
  - destruct h; [|by eexists]. by apply highlight_text_total.
  - destruct (skipped e); [by eexists|]. apply fmap_is_Some, mapM_is_Some. eapply Forall_impl; [exact IH|]. intros c Hc. apply Hc.
Qed.

(** ** Operations on the elements of a list *)

Lemma update_alike k f n n' :
  (∀ e cs m', f (Elem e cs) = Some m' → alike (Elem e cs) m') → on_element k f n = Some n' → alike n n'.
Proof.
  intros Hf. destruct n as [s|s|e cs]; cbn [on_element]; [by intros [= <-]..|].
  case_bool_decide; [apply Hf|]. by intros (ds & _ & ->)%fmap_Some.
Qed.
Lemma update_strip (P : element → list dom → Prop) k f n n' :
  (∀ e cs m', every P (Elem e cs) → f (Elem e cs) = Some m' → same_strip [m'] [Elem e cs]) →
  every P n → on_element k f n = Some n' → same_strip [n'] [n].
Proof.
  intros Hf. revert n'. induction n as [s|s|e cs IH] using node_ind'; intros n' Hn; cbn [on_element]; [by intros [= <-]..|].
  case_bool_decide; [by apply Hf|]. intros (ds & Hm & ->)%fmap_Some. apply same_strip_elem, same_strip_all.
  apply every_elem in Hn as [_ Hn]. apply mapM_Some in Hm.
  induction Hm as [|c d cs ds Hc Hcs IH']; constructor; apply Forall_cons in IH as [??], Hn as [??]; auto.
Qed.
Lemma update_every (P : element → list dom → Prop) k f n n' :
  stable P → (∀ e cs m', every P (Elem e cs) → f (Elem e cs) = Some m' → every P m' ∧ alike (Elem e cs) m') →
  every P n → on_element k f n = Some n' → every P n' ∧ alike n n'.
Proof.
  intros HP Hf. revert n'. induction n as [s|s|e cs IH] using node_ind'; intros n' Hn; cbn [on_element]; [by intros [= <-]..|].
  case_bool_decide; [by apply Hf|]. intros (ds & Hm & ->)%fmap_Some. split; [|done].
  apply every_elem in Hn as [He Hn]. apply every_elem.
  assert (Forall2 alike cs ds ∧ Forall (every P) ds) as [Ha Hds]; [|split; [by eapply HP|done]].
  clear He. apply mapM_Some in Hm. induction Hm as [|c d cs ds Hc Hcs IH']; [done|].
  apply Forall_cons in IH as [IHc IH], Hn as [Hnc Hn]. destruct (IHc d) as [??]; [done..|].
  destruct IH' as [??]; [done..|]. split; by constructor.
Qed.
Lemma update_total (P : element → list dom → Prop) k f n :
  (∀ e cs, every P (Elem e cs) → is_Some (f (Elem e cs))) → every P n → is_Some (on_element k f n).
Proof.
  intros Hf. induction n as [s|s|e cs IH] using node_ind'; intros Hn; cbn [on_element]; [by eexists..|].
  case_bool_decide; [by apply Hf|]. apply fmap_is_Some, mapM_is_Some. apply every_elem in Hn as [_ Hn].
  induction IH; [done|]. apply Forall_cons in Hn as [??]. constructor; auto.
Qed.

(** An operation that keeps a property keeps it along a list. *)
Lemma for_each_inv (I : list nat → dom → Prop) f es n :
  (∀ k es n, I (k :: es) n → ∃ n', on_element k f n = Some n' ∧ I es n') →
  I es n → ∃ n', for_each f es n = Some n' ∧ I [] n'.
Proof.
  intros Hstep. unfold for_each. revert n. induction es as [|k es IH]; intros n Hn; [by exists n|].
  destruct (Hstep _ _ _ Hn) as (n' & Hu & Hn'). simpl. rewrite Hu. by apply IH.
Qed.

(** ** A step of unwrapping *)
Inductive unwraps : dom → dom → Prop :=
  | unwraps_here e pre e' s post :
      wrapper e' = true →
      unwraps (Elem e (pre ++ Elem e' [Text s] :: post)) (dom_normalize (Elem e (pre ++ Text s :: post)))
  | unwraps_below e pre c c' post :
      unwraps c c' → unwraps (Elem e (pre ++ c :: post)) (Elem e (pre ++ c' :: post)).

Definition wrappers_left (n : dom) : nat := length (querySelectorAll wrapper n).

Lemma count_cons e cs : wrappers_left (Elem e cs) = length (filter (λ e, wrapper e = true) (cs ≫= dom_elements)).
Proof. done. Qed.
Lemma count_app e pre post : wrappers_left (Elem e (pre ++ post)) = (wrappers_left (Elem e pre) + wrappers_left (Elem e post))%nat.
Proof. rewrite !count_cons. by rewrite bind_app, filter_app, length_app. Qed.
Lemma count_elem e f cs post : wrappers_left (Elem e (Elem f cs :: post)) = ((if wrapper f then 1 else 0) + wrappers_left (Elem f cs) + wrappers_left (Elem e post))%nat.
Proof.
  rewrite !count_cons, bind_cons. cbn [dom_elements]. change ((f :: ?l) ++ ?k) with (f :: (l ++ k)).
  rewrite filter_cons, filter_app. destruct (wrapper f); cbn [length]; [rewrite decide_True by done|rewrite decide_False by done];
    cbn [length]; rewrite length_app; lia.
Qed.
Lemma count_normalize n : wrappers_left (dom_normalize n) = wrappers_left n.
Proof.
  destruct n as [s|s|e cs]; [done..|]. rewrite normalize_elem, !count_cons, merge_text_elements. do 2 f_equal.
  induction cs as [|c cs IH]; [done|]. by rewrite fmap_cons, !bind_cons, normalize_elements, IH.
Qed.

Lemma unwraps_alike n n' : unwraps n n' → alike n n'.
Proof. by destruct 1. Qed.
Lemma unwraps_strip n n' : unwraps n n' → same_strip [n'] [n].
Proof.
  induction 1 as [e pre e' s post He|e pre c c' post Hc IH].
  - rewrite same_strip_normalize. apply same_strip_elem, (app_same_strip pre pre); [done|].
    apply (app_same_strip [_] [_]); [|done]. symmetry. by apply same_strip_wrapper.
  - apply same_strip_elem, (app_same_strip pre pre); [done|]. by apply (app_same_strip [_] [_]).
Qed.
Lemma unwraps_count n n' : unwraps n n' → wrappers_left n = S (wrappers_left n').
Proof.
  induction 1 as [e pre e' s post He|e pre c c' post Hc IH].
  - rewrite count_normalize, !count_app, count_elem, He. change (wrappers_left (Elem e (Text s :: post))) with (wrappers_left (Elem e post)).
    change (wrappers_left (Elem e' [Text s])) with 0%nat. lia.
  - rewrite !count_app. pose proof (unwraps_alike _ _ Hc) as Ha. destruct Hc; cbn [dom_normalize] in *; rewrite !count_elem, IH; lia.
Qed.

Lemma unwraps_middle (P : element → list dom → Prop) e pre c c' post :
  P e (pre ++ c' :: post) → every P c' → every P (Elem e (pre ++ c :: post)) → every P (Elem e (pre ++ c' :: post)).
Proof.
  rewrite !every_elem, !Forall_app, !Forall_cons. tauto.
Qed.
Lemma leaf_inner e cs : leaf e cs → existsb (λ c, match c with Elem _ _ => true | _ => false end) cs = true → wrapper e = false.
Proof. intros Hl Hc. destruct (wrapper e) eqn:He; [|done]. destruct (Hl He) as (_ & _ & s & _ & ->). done. Qed.
Lemma unwraps_leaf n n' : unwraps n n' → every leaf n → every leaf n'.
Proof.
  intros Hu. induction Hu as [e pre e' s post He|e pre c c' post Hc IH]; intros Hn.
  - apply normalize_every.
    + intros f cs Hf Hw. destruct (Hf Hw) as (? & ? & t & ? & ->). split_and!; [done..|]. exists t. by destruct t.
    + eapply unwraps_middle; [|done|exact Hn]. apply every_elem in Hn as [Hn _]. intros Hw.
      rewrite (leaf_inner _ _ Hn) in Hw; [done|]. rewrite existsb_app. simpl. apply orb_true_r.
  - eapply unwraps_middle; [|apply IH|exact Hn]; apply every_elem in Hn as [Hn Hns].
    + intros Hw. rewrite (leaf_inner _ _ Hn) in Hw; [done|]. rewrite existsb_app. destruct Hc; simpl; apply orb_true_r.
    + by apply Forall_app in Hns as [_ [? _]%Forall_cons].
Qed.
Lemma normalized_settled n : normalized n → every settled_seams n.
Proof. apply every_impl. intros e cs Hm. by left. Qed.
Lemma unwraps_settled n n' : unwraps n n' → every settled_seams n → every settled_seams n'.
Proof.
  intros Hu. induction Hu as [e pre e' s post He|e pre c c' post Hc IH]; intros Hn.
  - apply normalized_settled, normalize_normalized.
  - eapply unwraps_middle; [|apply IH|exact Hn]; apply every_elem in Hn as [Hn Hns].
    + eapply settled_stable; [|exact Hn]. apply Forall2_app; [by apply Forall_Forall2_diag, Forall_true|].
      constructor; [by apply unwraps_alike|]. by apply Forall_Forall2_diag, Forall_true.
    + by apply Forall_app in Hns as [_ [? _]%Forall_cons].
Qed.

(** What the code does is such a step, as long as there is a wrapper. *)
Notation unwrap_children := (unwrap_children st).
Notation unwrap_first := (unwrap_first st).
Definition unwrapping (n : dom) (r : option (option dom)) : Prop :=
  match r with None => wrappers_left n = 0%nat | Some r => ∃ n', r = Some n' ∧ unwraps n n' end.

Lemma unwrap_children_spec f e cs :
  Forall (every leaf) cs → Forall (λ c, unwrapping c (f c)) cs →
  match unwrap_children f cs with
  | None => wrappers_left (Elem e cs) = 0%nat
  | Some r =>
      ∃ pre c post, cs = pre ++ c :: post ∧
        ((∃ e' s, c = Elem e' [Text s] ∧ wrapper e' = true ∧ r = Some (pre ++ Text s :: post, true)) ∨
         (∃ c', unwraps c c' ∧ r = Some (pre ++ c' :: post, false)))
  end.
Proof.
  intros Hl Hf. induction Hf as [|c cs Hc Hcs IH]; [done|]. apply Forall_cons in Hl as [Hlc Hl]. specialize (IH Hl).
  cbn [Highlight.unwrap_children].
  assert (wrappers_left c = 0%nat → wraps c = false →
    match (λ r : option (list dom * bool), '(cs', here) ← r; Some (c :: cs', here)) <$> unwrap_children f cs with
    | None => wrappers_left (Elem e (c :: cs)) = 0%nat
    | Some r => ∃ pre c0 post, c :: cs = pre ++ c0 :: post ∧
        ((∃ e' s, c0 = Elem e' [Text s] ∧ wrapper e' = true ∧ r = Some (pre ++ Text s :: post, true)) ∨
         (∃ c', unwraps c0 c' ∧ r = Some (pre ++ c' :: post, false))) end) as Hgo.
  { intros Hc0 Hwc. destruct (unwrap_children f cs) as [r|]; cbn [fmap option_fmap option_map].
    - destruct IH as (pre & c0 & post & -> & [(e' & s & -> & He' & ->)|(c' & Hu & ->)]); exists (c :: pre); eauto 10.
    - destruct c as [s|s|f' ks]; [by rewrite count_cons in *..|]. simpl in Hwc. by rewrite count_elem, Hwc, Hc0, IH. }
  destruct c as [s|s|e' [|x ks]]; [by apply Hgo..| |].
  - destruct (wrapper e') eqn:He'; [|by apply Hgo]. apply every_elem in Hlc as [Hlc _]. destruct (Hlc He') as (_ & _ & s & _ & [=]).
  - destruct (wrapper e') eqn:He'.
    + apply every_elem in Hlc as [Hlc _]. destruct (Hlc He') as (_ & _ & s & _ & [= -> ->]). exists [], (Elem e' [Text s]), cs. eauto 10.
    + unfold unwrapping in Hc. destruct (f (Elem e' (x :: ks))) as [r|]; [|by apply Hgo]. destruct Hc as (c' & -> & Hu).
      exists [], (Elem e' (x :: ks)), cs. eauto 10.
Qed.
Lemma unwrap_first_spec n : every leaf n → unwrapping n (unwrap_first n).
Proof.
  induction n as [s|s|e cs IH] using node_ind'; [done..|]. intros Hl. apply every_elem in Hl as [_ Hl]. cbn [Highlight.unwrap_first].
  assert (Forall (λ c, unwrapping c (unwrap_first c)) cs) as Hf.
  { induction IH; [done|]. apply Forall_cons in Hl as [??]. constructor; auto. }
  pose proof (unwrap_children_spec unwrap_first e cs Hl Hf) as Hs.
  destruct (unwrap_children unwrap_first cs) as [r|]; [|done].
  destruct Hs as (pre & c & post & -> & [(e' & s & -> & He' & ->)|(c' & Hu & ->)]); eexists; (split; [done|]); by constructor.
Qed.

(** The loop ends with no wrapper left. *)
Lemma unwrap_loop_spec k n :
  every leaf n → every settled_seams n → (wrappers_left n <= k)%nat →
  ∃ n', unwrap_loop st k n = Some n' ∧ same_strip [n'] [n] ∧ alike n n' ∧ every leaf n' ∧ every settled_seams n' ∧ wrappers_left n' = 0%nat.
Proof.
  revert n. induction k as [|k IH]; intros n Hl Hs Hk; cbn [unwrap_loop].
  { exists n. split_and!; [done..|lia]. }
  pose proof (unwrap_first_spec n Hl) as Hu. destruct (unwrap_first n) as [r|]; [|by exists n].
  destruct Hu as (n1 & -> & Hu). pose proof (unwraps_count _ _ Hu) as Hc.
  destruct (IH n1) as (n' & Hn' & Hst & Ha & Hl' & Hs' & H0); [by eapply unwraps_leaf|by eapply unwraps_settled|lia|].
  exists n'. split_and!; [done| | |done..].
  - rewrite Hst. by apply unwraps_strip.
  - pose proof (unwraps_alike _ _ Hu). destruct n, n1, n'; simplify_eq/=; done.
Qed.

Lemma count_unwrapped n : wraps n = false → wrappers_left n = 0%nat → unwrapped n.
Proof.
  induction n as [s|s|f ks IHk] using node_ind'; [done..|]. intros Hf H0. apply every_elem. split; [done|].
  clear Hf. revert f H0. induction IHk as [|k ks Hk Hks IH]; [done|]. intros f Hc. destruct k as [s|s|g js].
  1,2: constructor; [done|]; by apply (IH f).
  rewrite count_elem in Hc. destruct (wrapper g) eqn:Hg; [lia|]. constructor; [apply Hk; [done|lia]|apply (IH f); lia].
Qed.

(** ** Where wrappers are *)

(** Only below elements of a list. *)
Fixpoint confined (es : list nat) (n : dom) : Prop :=
  match n with
  | Elem e cs => (∃ k, e_key e = Some k ∧ k ∈ es) ∨ (wrapper e = false ∧ foldr (λ c Q, confined es c ∧ Q) True cs)
  | _ => True
  end.
Lemma confined_elem es e cs : confined es (Elem e cs) ↔ (∃ k, e_key e = Some k ∧ k ∈ es) ∨ (wrapper e = false ∧ Forall (confined es) cs).
Proof. simpl. by rewrite foldr_Forall. Qed.

Lemma unwrapped_confined es n : unwrapped n → confined es n.
Proof.
  induction n as [s|s|e cs IH] using node_ind'; [done..|]. intros [He Hcs]%every_elem. apply confined_elem. right.
  split; [done|]. clear He. induction IH; [done|]. apply Forall_cons in Hcs as [??]. constructor; auto.
Qed.
Lemma confined_unwrapped n : confined [] n → unwrapped n.
Proof.
  induction n as [s|s|e cs IH] using node_ind'; [done..|]. intros [(k & _ & []%not_elem_of_nil)|[He Hcs]]%confined_elem.
  apply every_elem. split; [done|]. clear He. induction IH as [|c cs Hc _ IH']; [done|].
  apply Forall_cons in Hcs as [??]. constructor; [by apply Hc|by apply IH'].
Qed.
Lemma update_confined (P : element → list dom → Prop) k f es es' n n' :
  (∀ j, j ∈ es → j = k ∨ j ∈ es') →
  (∀ e cs m', e_key e = Some k → every P (Elem e cs) → f (Elem e cs) = Some m' → confined es' m') →
  every P n → confined es n → on_element k f n = Some n' → confined es' n'.
Proof.
  intros Hes Hf. revert n'. induction n as [s|s|e cs IH] using node_ind'; intros n' Hn Hc; cbn [on_element]; [by intros [= <-]..|].
  case_bool_decide as Hk; [by apply Hf|]. intros (ds & Hm & ->)%fmap_Some. apply confined_elem.
  apply confined_elem in Hc as [(j & Hj & Hin)|[He Hcs]].
  { left. exists j. split; [done|]. destruct (Hes j Hin) as [->|]; done. }
  right. split; [done|]. clear He Hk. apply every_elem in Hn as [_ Hn]. apply mapM_Some in Hm.
  induction Hm as [|c d cs ds Hcd Hm IH']; [done|].
  apply Forall_cons in IH as [IHc IH], Hn as [Hnc Hn], Hcs as [Hcc Hcs]. constructor; auto.
Qed.

(** ** Wrapping and unwrapping a page *)

(** What is true of the page at any time: it reads like [doc] without
    wrappers, which are below the elements [es]. *)
Record wrapped_page (doc : dom) (es : list nat) (n : dom) : Prop := WrappedPage {
  page_leaf : every leaf n;
  page_settled : every settled_seams n;
  page_confined : confined es n;
  page_strip : same_strip [n] [doc];
  page_root : alike doc n
}.

Lemma unwrapped_page doc es : unwrapped doc → normalized doc → wrapped_page doc es doc.
Proof.
  intros Hu Hn. split; [| |by apply unwrapped_confined|done|by destruct doc].
  - eapply every_impl; [|exact Hu]. intros e cs He He'. by rewrite He in He'.
  - by apply normalized_settled.
Qed.
Lemma settled_normalized n : every settled_seams n → unwrapped n → normalized n.
Proof.
  induction n as [s|s|e cs IH] using node_ind'; [done..|]. intros [Hs Hss]%every_elem [He Hes]%every_elem. apply every_elem.
  split.
  - destruct Hs as [|Hw]; [done|]. apply existsb_exists in Hw as (c & Hin%list_elem_of_In & Hw).
    rewrite Forall_forall in Hes. specialize (Hes c Hin). destruct c as [| |f ks]; try done.
    apply every_elem in Hes as [Hf _]. simpl in Hw. congruence.
  - clear Hs He. induction IH as [|c cs Hc _ IH']; [done|]. apply Forall_cons in Hss as [??], Hes as [??].
    constructor; [by apply Hc|by apply IH'].
Qed.
Lemma wrapped_page_nil e cs n :
  unwrapped (Elem e cs) → normalized (Elem e cs) → wrapped_page (Elem e cs) [] n → n = Elem e cs.
Proof.
  intros Hu Hn [Hl Hs Hc Hst Ha]. apply confined_unwrapped in Hc. destruct n as [s|s|f ds]; [done..|].
  apply same_strip_eq; [done|by apply settled_normalized|done..].
Qed.

Lemma highlight_element_elem words e cs n :
  highlight_element canonicalize st words (Elem e cs) = Some n → highlightNode words true (Elem e cs) = Some [n] ∧ alike (Elem e cs) n.
Proof.
  unfold highlight_element. cbn [Highlight.highlightNode]. destruct (skipped e); [by intros [= <-]|].
  destruct (mapM _ cs); [|done]. by intros [= <-].
Qed.
Lemma highlight_element_total words e cs :
  Forall (λ w, w ≠ []) words → is_Some (highlight_element canonicalize st words (Elem e cs)).
Proof.
  intros Hw. destruct (highlightNode_total words true (Elem e cs) Hw) as [l Hl]. unfold highlight_element. rewrite Hl.
  revert Hl. cbn [Highlight.highlightNode]. destruct (skipped e); [intros [= <-]; by eexists|].
  intros (ls & _ & ->)%fmap_Some. by eexists.
Qed.

Lemma highlight_element_every (P : element → list dom → Prop) words e cs n :
  P = leaf ∨ P = settled_seams → Forall (λ w, w ≠ []) words → every leaf (Elem e cs) → every P (Elem e cs) →
  highlight_element canonicalize st words (Elem e cs) = Some n → every P n.
Proof.
  intros HP Hw Hl Hn [Hh _]%highlight_element_elem.
  assert (every (λ e cs, leaf e cs ∧ P e cs) (Elem e cs)) as Hboth by by apply every_and.
  eapply (highlightNode_every (λ e cs, leaf e cs ∧ P e cs)) in Hh as [Hh _]%Forall_cons; [|done| | |exact Hboth].
  - eapply every_impl; [|exact Hh]. by intros ?? [].
  - intros t w Ht _ _. apply every_elem. split; [|by apply Forall_singleton].
    assert (leaf (Element None (hl_element st) (hl_className st) true None) [Text t]) as Hlt.
    { intros _. split_and!; [done| |by exists t]. unfold Highlight.is_highlight, tagName. simpl.
      by rewrite !bool_decide_eq_true_2. }
    split; [done|]. destruct HP as [->| ->]; [done|]. left. by destruct t.
  - intros f ds ls Hsk [Hlf HPf] Hm. assert (wrapper f = false) as Hf.
    { destruct (wrapper f) eqn:Hf; [|done]. destruct (Hlf Hf) as (_ & Hi & _). unfold Highlight.skipped in Hsk.
      by rewrite Hi, orb_true_r in Hsk. }
    split; [intros Hf'; congruence|]. destruct HP as [->| ->]; [intros Hf'; congruence|]. by eapply settled_highlighted.
Qed.

Lemma highlight_step words doc es k n :
  Forall (λ w, w ≠ []) words → k ∈ es → wrapped_page doc es n →
  ∃ n', on_element k (highlight_element canonicalize st words) n = Some n' ∧ wrapped_page doc es n'.
Proof.
  intros Hw Hk [Hl Hs Hc Hst Ha].
  destruct (update_total leaf k (highlight_element canonicalize st words) n) as [n' Hn']; [|done|].
  { intros e cs _. by apply highlight_element_total. }
  exists n'. split; [done|].
  assert (every leaf n' ∧ alike n n') as [Hl' Ha'].
  { eapply update_every; [apply leaf_stable| |exact Hl|exact Hn']. intros e cs m Hm He. split.
    - eapply highlight_element_every; [by left|done..].
    - by apply highlight_element_elem in He as [_ ?]. }
  assert (every (λ e cs, leaf e cs ∧ settled_seams e cs) n' ∧ alike n n') as [Hs' _].
  { eapply update_every; [| |by apply every_and|exact Hn'].
    - intros e cs ds Hcs [??]. split; [by eapply leaf_stable|by eapply settled_stable].
    - intros e cs m Hm He. split; [|by apply highlight_element_elem in He as [_ ?]].
      assert (every leaf (Elem e cs)) by (eapply every_impl; [|exact Hm]; by intros ?? []).
      apply every_and; (eapply highlight_element_every; [auto|done|done| |exact He]); (eapply every_impl; [|exact Hm]); by intros ?? []. }
  split; [done|eapply every_impl; [|exact Hs']; by intros ?? []| | |].
  - eapply (update_confined leaf k); [| |exact Hl|exact Hc|exact Hn']; [by auto|].
    intros e cs m Hek _ [_ He]%highlight_element_elem. destruct m as [| |f ds]; try done. simpl in He. subst f.
    apply confined_elem. left. by exists k.
  - rewrite <-Hst. eapply (update_strip leaf); [|exact Hl|exact Hn']. intros e cs m _ [He _]%highlight_element_elem.
    by apply highlightNode_strip in He.
  - destruct doc, n, n'; simplify_eq/=; done.
Qed.

Lemma unhighlight_step doc es k n :
  wrapped_page doc (k :: es) n →
  ∃ n', on_element k (unhighlight_element st) n = Some n' ∧ wrapped_page doc es n'.
Proof.
  intros [Hl Hs Hc Hst Ha]. set (P := λ e cs, leaf e cs ∧ settled_seams e cs).
  assert (∀ e cs, every P (Elem e cs) → ∃ n', unhighlight_element st (Elem e cs) = Some n' ∧ same_strip [n'] [Elem e cs] ∧
    alike (Elem e cs) n' ∧ every leaf n' ∧ every settled_seams n' ∧ wrappers_left n' = 0%nat) as Hu.
  { intros e cs Hm. apply unwrap_loop_spec; [| |done]; (eapply every_impl; [|exact Hm]); by intros ?? []. }
  assert (every P n) as HP by by apply every_and.
  destruct (update_total P k (unhighlight_element st) n) as [n' Hn']; [|done|].
  { intros e cs Hm. destruct (Hu e cs Hm) as (n' & -> & _). by eexists. }
  exists n'. split; [done|].
  assert (every P n' ∧ alike n n') as [HP' Ha'].
  { eapply update_every; [| |exact HP|exact Hn'].
    - intros e cs ds Hcs [??]. split; [by eapply leaf_stable|by eapply settled_stable].
    - intros e cs m Hm He. destruct (Hu e cs Hm) as (m' & He' & _ & Hal & Hl' & Hs' & _). rewrite He in He'. injection He' as <-.
      split; [by apply every_and|done]. }
  split; [eapply every_impl; [|exact HP']; by intros ?? []|eapply every_impl; [|exact HP']; by intros ?? []| | |].
  - eapply (update_confined P k); [| |exact HP|exact Hc|exact Hn']; [by intros j [->|]%elem_of_cons; auto|].
    intros e cs m Hek Hm He. destruct (Hu e cs Hm) as (m' & He' & _ & Hal & _ & _ & H0). rewrite He in He'. injection He' as <-.
    apply unwrapped_confined, count_unwrapped; [|done]. destruct m as [| |f ds]; try done. simpl in Hal. subst f.
    apply every_elem in Hm as [[Hlf _] _]. simpl. destruct (wrapper e) eqn:Hwe; [|done]. destruct (Hlf Hwe) as [Hno _]. congruence.
  - rewrite <-Hst. eapply (update_strip P); [|exact HP|exact Hn']. intros e cs m Hm He.
    destruct (Hu e cs Hm) as (m' & He' & Hst' & _). rewrite He in He'. by injection He' as <-.
  - destruct doc, n, n'; simplify_eq/=; done.
Qed.
End theorems.
