(* ===== verification/HighlightClaims.v ===== *)
(** * What the highlighter promises *)

From S2P Require Import Prelude JSValue WordPattern Dom Highlight HighlightTheorems.

(** ** Text *)
Section text.
Context (canonicalize : N → N) (st : hl_settings).
Hypothesis wrapper_new : wrapper st (Element None (hl_element st) (hl_className st) true None) = true.

(** The texts the highlighter looks into. *)
Fixpoint searched_texts (html : bool) (n : dom) : list jsstr :=
  match n with
  | Text s => if html then [s] else []
  | Other _ => []
  | Elem e cs => if skipped st e then [] else cs ≫= searched_texts (xhtml e)
  end.

Lemma highlight_text_content fuel words s l : highlight_text canonicalize st fuel words s = Some l → l ≫= textContent = s.
Proof.
  revert s l. induction fuel as [|fuel IH]; intros s l; cbn [highlight_text];
    destruct (exec canonicalize words s) as [[i n]|]; try done; [by intros [= <-]; simpl; rewrite app_nil_r| |by intros [= <-]; simpl; rewrite app_nil_r].
  intros (l' & Hl & ->)%fmap_Some. rewrite !bind_cons, (IH _ _ Hl). simpl. by rewrite app_nil_r, !take_drop.
Qed.
Lemma highlightNode_content words h n l : highlightNode canonicalize st words h n = Some l → l ≫= textContent = textContent n.
Proof.
  revert h l. induction n as [s|s|e cs IH] using node_ind'; intros h l; cbn [highlightNode].
  - destruct h; [apply highlight_text_content|intros [= <-]; simpl; by rewrite app_nil_r].
  - by intros [= <-].
  - destruct (skipped st e); [intros [= <-]; simpl; by rewrite app_nil_r|]. intros (ls & Hm & ->)%fmap_Some.
    simpl. rewrite app_nil_r. apply mapM_Some in Hm. induction Hm as [|c k cs ls Hc Hcs IH']; [done|].
    apply Forall_cons in IH as [IHc IH]. simpl. rewrite bind_app, (IHc _ _ Hc). f_equal. auto.
Qed.

Lemma new_searched h s : searched_texts h (new_highlight st s) = [].
Proof.
  unfold searched_texts, new_highlight, skipped, is_highlight, tagName. cbn. rewrite !bool_decide_eq_true_2 by done.
  by rewrite orb_true_r.
Qed.
Lemma highlight_text_searched fuel words s l :
  Forall (λ w, w ≠ []) words → highlight_text canonicalize st fuel words s = Some l →
  Forall (λ t, occurs canonicalize words t = false) (l ≫= searched_texts true).
Proof.
  intros Hw. revert s l. induction fuel as [|fuel IH]; intros s l; cbn [highlight_text];
    destruct (exec canonicalize words s) as [[i n]|] eqn:He; try done.
  1,3: intros [= <-]; apply Forall_singleton, bool_decide_eq_false; rewrite He; by intros [? [=]].
  intros (l' & Hl & ->)%fmap_Some. rewrite !bind_cons, new_searched. constructor; [by eapply exec_before|]. by eapply IH.
Qed.
Lemma highlightNode_searched words h n l :
  Forall (λ w, w ≠ []) words → highlightNode canonicalize st words h n = Some l →
  Forall (λ t, occurs canonicalize words t = false) (l ≫= searched_texts h).
Proof.
  intros Hw. revert h l. induction n as [s|s|e cs IH] using node_ind'; intros h l; cbn [highlightNode].
  - destruct h; [by apply highlight_text_searched|by intros [= <-]].
  - by intros [= <-].
  - destruct (skipped st e) eqn:Hsk; [intros [= <-]; simpl; by rewrite Hsk|]. intros (ls & Hm & ->)%fmap_Some.
    simpl. rewrite Hsk, app_nil_r. apply mapM_Some in Hm. induction Hm as [|c k cs ls Hc Hcs IH']; [constructor|].
    apply Forall_cons in IH as [IHc IH]. simpl. rewrite bind_app. apply Forall_app. split; auto.
Qed.

(** Without an occurrence nothing is wrapped. *)
Lemma highlightNode_none words h n :
  Forall (λ t, occurs canonicalize words t = false) (searched_texts h n) → highlightNode canonicalize st words h n = Some [n].
Proof.
  revert h. induction n as [s|s|e cs IH] using node_ind'; intros h; cbn [highlightNode searched_texts]; [|done|].
  - destruct h; [|done]. intros [Hs _]%Forall_cons. apply bool_decide_eq_false in Hs.
    destruct (exec canonicalize words s) as [p|] eqn:He; [by destruct Hs|]. destruct s; cbn [length highlight_text]; by rewrite He.
  - destruct (skipped st e); [done|]. intros Hs. assert (mapM (highlightNode canonicalize st words (xhtml e)) cs = Some ((λ c, [c]) <$> cs)) as ->.
    { apply mapM_Some, Forall2_fmap_r. induction IH as [|c cs Hc Hcs IH']; [done|]. rewrite bind_cons in Hs.
      apply Forall_app in Hs as [??]. constructor; auto. }
    simpl. do 3 f_equal. clear. induction cs as [|c cs IH]; [done|]. simpl. by f_equal.
Qed.
End text.

Definition search_new : wrapper search_marks (Element None (js "mark") (js "search") true None) = true := eq_refl.

(** C28. Highlighting an element wraps the words exactly: it always ends, no
    character of the text is lost, every wrapper holds one of the words up to
    case, no other text the highlighter may touch still contains one, and a
    text without any is left as it was. *)
Theorem highlight_exact (canonicalize : N → N) (words : list jsstr) (e : element) (cs : list dom) :
  Forall (λ w, w ≠ []) words → unwrapped search_marks (Elem e cs) →
  ∃ n, highlight_element canonicalize search_marks words (Elem e cs) = Some n ∧
    textContent n = textContent (Elem e cs) ∧
    every (λ f ds, wrapper search_marks f = true → ∃ w t, w ∈ words ∧ ds = [Text t] ∧ canonicalize <$> w = canonicalize <$> t) n ∧
    Forall (λ t, occurs canonicalize words t = false) (searched_texts search_marks true n) ∧
    (Forall (λ t, occurs canonicalize words t = false) (searched_texts search_marks true (Elem e cs)) → n = Elem e cs).
Proof.
  intros Hw Hu. destruct (highlight_element_total canonicalize search_marks words e cs Hw) as [n Hn].
  exists n. split; [done|]. destruct (highlight_element_elem _ _ _ _ _ _ Hn) as [Hh _]. split_and!.
  - apply highlightNode_content in Hh. simpl in Hh. by rewrite app_nil_r in Hh.
  - eapply (highlightNode_every canonicalize search_marks (λ f ds, wrapper search_marks f = true → is_highlight search_marks f = true ∧ _) words)
      in Hh as [Hh _]%Forall_cons; [eapply every_impl; [|exact Hh]; intros f ds Hf Hf'; exact (proj2 (Hf Hf'))|done| | |].
    + intros t w _ Hin Hct. apply every_elem. split; [|by apply Forall_singleton]. intros _. split; [done|]. by exists w, t.
    + intros f ds ls Hsk Hf _ Hwf. exfalso. destruct (Hf Hwf) as [Hi _]. unfold skipped in Hsk. by rewrite Hi, orb_true_r in Hsk.
    + eapply every_impl; [|exact Hu]. intros f ds Hf Hf'. simpl in *. congruence.
  - apply highlightNode_searched in Hh; [|done]. simpl in Hh. by rewrite app_nil_r in Hh.
  - intros Ho. apply (highlightNode_none canonicalize search_marks) in Ho. unfold highlight_element in Hn. rewrite Ho in Hn.
    by injection Hn as <-.
Qed.

(** Building the pattern of a search and reading it as a regular
    expression gives back the words: whatever characters they contain, each is
    matched literally. *)
Theorem word_pattern_literal (w : jsstr) (ws : list jsstr) : parse (word_pattern (w :: ws)) = Some (w :: ws).
Proof. apply (parse_words _ escaped_class w ws []). Qed.

(** The words of a term are not empty. *)
Lemma words_of_nonempty search : Forall (λ w, w ≠ []) (words_of search).
Proof. apply Forall_forall. intros w [Hw _]%list_elem_of_filter ->. done. Qed.

(** Highlighting a page ends, and keeps it a page with wrappers. *)
Lemma highlight_page canonicalize doc es words n :
  Forall (λ w, w ≠ []) words → wrapped_page search_marks doc es n →
  ∃ n', highlight canonicalize search_marks es words n = Some n' ∧ wrapped_page search_marks doc es n'.
Proof.
  intros Hw Hn. destruct words as [|w ws]; [by exists n|]. unfold highlight.
  change (parse (word_pattern (w :: ws))) with (parse_alternatives (join_on vbar (regexEscape <$> w :: ws) ++ js ")") []).
  rewrite (parse_words _ escaped_class). cbn [mbind option_bind app].
  destruct (for_each_inv (λ es' n, wrapped_page search_marks doc es n ∧ es' ⊆ es) (highlight_element canonicalize search_marks (w :: ws)) es n)
    as (n' & Hf & Hn' & _); [|done|by exists n'].
  intros k es' m [Hm Hsub]. destruct (highlight_step canonicalize search_marks search_new (w :: ws) doc es k m) as (m' & Hu & Hm');
    [done|set_solver|done|]. exists m'. split_and!; [done..|set_solver].
Qed.
Lemma unhighlight_page doc es n :
  wrapped_page search_marks doc es n → ∃ n', unhighlight search_marks es n = Some n' ∧ wrapped_page search_marks doc [] n'.
Proof.
  intros Hn. apply (for_each_inv (λ es n, wrapped_page search_marks doc es n)); [|done].
  intros k es' m Hm. by apply unhighlight_step.
Qed.

(** C26. Removing the highlighting restores the page: from a page without
    marks, in normal form, whatever list of elements was highlighted with
    whatever words, unhighlighting the same elements gives exactly the page
    there was before. *)
Theorem unhighlight_highlight (canonicalize : N → N) (es : list nat) (words : list jsstr) (e : element) (cs : list dom) :
  Forall (λ w, w ≠ []) words → unwrapped search_marks (Elem e cs) → normalized (Elem e cs) →
  ∃ doc, highlight canonicalize search_marks es words (Elem e cs) = Some doc ∧ unhighlight search_marks es doc = Some (Elem e cs).
Proof.
  intros Hw Hu Hn. pose proof (unwrapped_page search_marks _ es Hu Hn) as Hp.
  destruct (highlight_page canonicalize _ es words _ Hw Hp) as (doc & Hh & Hd). exists doc. split; [done|].
  destruct (unhighlight_page _ _ _ Hd) as (n & -> & Hnil). f_equal. by apply wrapped_page_nil in Hnil.
Qed.

(** ** An example *)
Definition page_el (k : nat) (t c : string) : element := Element (Some k) (js t) (js c) true None.
Definition page1 : list dom :=
  [Elem (page_el 1 "div" "highlightable") [Text (js "Job queue: a job"); Elem (page_el 2 "script" "") [Text (js "job()")];
     Elem (page_el 3 "a" "") [Text (js "jobs")]; Text (js " end")]].

Lemma highlight_exact_witness :
  ∃ n, highlight_element ascii_upper search_marks [js "JOB"; js "queue"] (Elem (page_el 0 "body" "") page1) = Some n ∧ textContent n = js "Job queue: a jobjob()jobs end".
Proof.
  destruct (highlight_exact ascii_upper [js "JOB"; js "queue"] (page_el 0 "body" "") page1) as (n & Hn & Ht & _).
  - repeat constructor; done.
  - repeat constructor; done.
  - exists n. split; [exact Hn|exact Ht].
Defined.
Lemma unhighlight_highlight_witness :
  ∃ doc, highlight ascii_upper search_marks [1%nat] [js "JOB"; js "queue"] (Elem (page_el 0 "body" "") page1) = Some doc ∧
    unhighlight search_marks [1%nat] doc = Some (Elem (page_el 0 "body" "") page1).
Proof. apply (unhighlight_highlight ascii_upper [1%nat]); repeat constructor; done. Defined.
