(* ===== verification/PageSearch.v ===== *)
(** * Search within the page (theme.js, functions [mark], [unmark],
    [searchInputHandler], [initSearch])

    An expandable box or a menu entry with a match below it is opened, and its
    state before that kept in its dataset under a marker class; removing the
    marks closes it again. Typing into a search field keeps the term for the
    next page and shows its matches in this one; the fields of the page show the
    same term. On the search page the term is searched for as well, and what is
    found is marked. *)

From S2P Require Import Prelude JSValue WordPattern Dom Highlight.

(** * Opening what hides a match *)

(** The state of an expandable box ([open], [dataset.open], the class
    [expand-marked]) or of the checkbox of a menu entry ([checked],
    [dataset.checked], [menu-marked]). *)
Record toggle := Toggle { value : bool; dataset : option jsstr; marked : bool }.
#[export] Instance toggle_inhabited : Inhabited toggle := populate (Toggle false None false).
Abbreviation toggles := (gmap nat toggle).

Definition bool_string (b : bool) : jsstr := if b then js "true" else js "false".
Definition mark_toggle (t : toggle) : toggle := Toggle true (Some (bool_string (value t))) true.
(** [dataset.x = null] stores the word null. *)
Definition unmark_toggle (t : toggle) : toggle := Toggle (bool_decide (dataset t = Some (js "true"))) (Some (js "null")) false.

(** The first of some elements without the marker class is opened. *)
Definition first_where (b : bool) (es : list nat) (m : toggles) : option nat :=
  snd <$> list_find (λ k, marked (m !!! k) = b) es.
Definition mark_first (es : list nat) (m : toggles) : toggles :=
  match first_where false es m with Some k => <[k := mark_toggle (m !!! k)]> m | None => m end.
Definition unmark_first (es : list nat) (m : toggles) : toggles :=
  match first_where true es m with Some k => <[k := unmark_toggle (m !!! k)]> m | None => m end.

(** ** The ancestors of the matches *)

(** An ancestor: itself, its parent, and the checkboxes below it. *)
Record frame := Frame { f_el : element; f_parent : option element; f_inputs : list nat }.

Definition lower_tag (e : element) : jsstr :=
  (λ c, if ((65 <=? c) && (c <=? 90))%N then (c + 32)%N else c) <$> tagName e.
Definition inputs_below (n : dom) : list nat := omap e_key (querySelectorAll (λ e, bool_decide (localName e = js "input")) n).

(** For each match in document order its ancestors, from its parent up. *)
Fixpoint mark_frames (up : list frame) (n : dom) : list (list frame) :=
  match n with
  | Elem e cs =>
      (if wrapper search_marks e then [up] else []) ++
      (cs ≫= mark_frames (Frame e (f_el <$> head up) (inputs_below n) :: up))
  | _ => []
  end.

(** [parent.classList.contains('expand')]: the box itself is opened once. *)
Definition expand_of (f : frame) : list nat := if has_class (js "expand") (f_el f) then option_list (e_key (f_el f)) else [].
(** [li] in [ul.collapsible-menu]: its checkboxes are candidates. *)
Definition menu_of (f : frame) : list nat :=
  if bool_decide (lower_tag (f_el f) = js "li") &&
     match f_parent f with
     | Some p => bool_decide (lower_tag p = js "ul") && has_class (js "collapsible-menu") p
     | None => false
     end
  then f_inputs f else [].

(** The loops over the matches and their ancestors. *)
Definition mark_frame (s : toggles * toggles) (f : frame) : toggles * toggles :=
  (mark_first (expand_of f) (fst s), mark_first (menu_of f) (snd s)).
Definition unmark_frame (s : toggles * toggles) (f : frame) : toggles * toggles :=
  let checked := unmark_first (menu_of f) (snd s) in
  (unmark_first (expand_of f) (fst s), checked).
Definition open_marked (doc : dom) (s : toggles * toggles) : toggles * toggles :=
  foldl (foldl mark_frame) s (mark_frames [] doc).
Definition close_marked (doc : dom) (s : toggles * toggles) : toggles * toggles :=
  foldl (foldl unmark_frame) s (mark_frames [] doc).

(** ** Theorems *)

(** Toggles that look the same: the datasets, which only keep what was, may
    differ while the marker is off. *)
Definition looks (t : toggle) : bool * bool * option jsstr := (value t, marked t, if marked t then dataset t else None).
Record same_looks (m m' : toggles) : Prop := SameLooks { looks_at : ∀ k, looks (m !!! k) = looks (m' !!! k) }.
#[export] Instance same_looks_equiv : Equivalence same_looks.
Proof.
  split; [done|by intros m m' [H]; constructor|]. intros a b c [Hab] [Hbc]. constructor. intros k. by rewrite Hab.
Qed.
Definition unmarked (m : toggles) : Prop := ∀ k, marked (m !!! k) = false.

Lemma first_where_spec b es m :
  match first_where b es m with
  | Some k => ∃ pre post, es = pre ++ k :: post ∧ marked (m !!! k) = b ∧ ∀ j, j ∈ pre → marked (m !!! j) ≠ b
  | None => ∀ j, j ∈ es → marked (m !!! j) ≠ b
  end.
Proof.
  unfold first_where. destruct (list_find _ es) as [[i k]|] eqn:Hf; cbn.
  - apply list_find_Some in Hf as (Hi & Hk & Hno). exists (take i es), (drop (S i) es). split; [by rewrite take_drop_middle|]. split; [done|].
    intros j (i' & Hj)%list_elem_of_lookup_1. pose proof (lookup_lt_Some _ _ _ Hj) as Hlt. rewrite length_take in Hlt.
    rewrite lookup_take_lt in Hj by lia. eapply Hno; [done|lia].
  - apply list_find_None in Hf. by rewrite Forall_forall in Hf.
Qed.
Lemma first_where_unique b pre k post m :
  marked (m !!! k) = b → (∀ j, j ∈ pre → marked (m !!! j) ≠ b) → first_where b (pre ++ k :: post) m = Some k.
Proof.
  intros Hk Hpre. unfold first_where. rewrite list_find_app_r.
  - simpl. by rewrite decide_True.
  - apply list_find_None, Forall_forall. done.
Qed.
Lemma first_where_none b es m : (∀ j, j ∈ es → marked (m !!! j) ≠ b) → first_where b es m = None.
Proof. intros Hno. unfold first_where. apply fmap_None, list_find_None, Forall_forall. done. Qed.
Lemma first_where_looks b es m m' : same_looks m m' → first_where b es m = first_where b es m'.
Proof.
  intros [Hs]. unfold first_where. f_equal. induction es as [|k es IH]; [done|]. simpl. rewrite IH.
  assert (marked (m !!! k) = marked (m' !!! k)) as Hk by (specialize (Hs k); unfold looks in Hs; by injection Hs).
  by rewrite Hk.
Qed.

#[export] Instance mark_first_proper : Proper ((=) ==> same_looks ==> same_looks) mark_first.
Proof.
  intros es ? <- m m' Hs. unfold mark_first. rewrite <-(first_where_looks _ _ _ _ Hs). destruct (first_where _ _ _) as [k|]; [|done].
  destruct Hs as [Hs]. constructor. intros j. destruct (decide (j = k)) as [->|Hj].
  - rewrite !lookup_total_insert_eq. specialize (Hs k). unfold looks, mark_toggle in *. injection Hs as Hv _ _. simpl. by rewrite Hv.
  - by rewrite !lookup_total_insert_ne.
Qed.

(** What is marked stays as it is. *)
Lemma mark_all_marked ops m k : marked (m !!! k) = true → foldl (flip mark_first) m ops !!! k = m !!! k.
Proof.
  revert m. induction ops as [|es ops IH]; intros m Hk; [done|]. simpl.
  assert (mark_first es m !!! k = m !!! k) as He; [|by rewrite IH; rewrite He].
  unfold mark_first. pose proof (first_where_spec false es m) as Hf. destruct (first_where false es m) as [j|]; [|done].
  destruct Hf as (_ & _ & _ & Hj & _). rewrite lookup_total_insert_ne; [done|]. intros ->. congruence.
Qed.

(** Unmarking repeats the choices of marking: between the two, what marking
    has marked by now is what unmarking has restored. *)
Lemma replay ops m u :
  (∀ k, if marked (m !!! k) then marked (u !!! k) = false else u !!! k = foldl (flip mark_first) m ops !!! k) →
  ∀ k, if marked (m !!! k) then foldl (flip unmark_first) u ops !!! k = u !!! k
       else looks (foldl (flip unmark_first) u ops !!! k) = looks (m !!! k).
Proof.
  revert m u. induction ops as [|es ops IH]; intros m u Hu k.
  { specialize (Hu k). simpl in *. destruct (marked (m !!! k)); congruence. }
  simpl in *. pose proof (first_where_spec false es m) as Hf.
  destruct (first_where false es m) as [j|] eqn:Hm.
  - destruct Hf as (pre & post & -> & Hj & Hpre). pose proof (Hu j) as Huj. rewrite Hj in Huj.
    set (m1 := <[j := mark_toggle (m !!! j)]> m).
    assert (mark_first (pre ++ j :: post) m = m1) as Hm1 by (unfold mark_first; by rewrite Hm). rewrite Hm1 in *.
    assert (marked (m1 !!! j) = true) as Hj1 by (unfold m1; by rewrite lookup_total_insert_eq).
    rewrite (mark_all_marked _ _ _ Hj1) in Huj. unfold m1 in Huj at 1. rewrite lookup_total_insert_eq in Huj.
    assert (unmark_first (pre ++ j :: post) u = <[j := unmark_toggle (u !!! j)]> u) as Hu1.
    { unfold unmark_first. rewrite first_where_unique; [done|by rewrite Huj|].
      intros i Hi. specialize (Hpre i Hi). specialize (Hu i). destruct (marked (m !!! i)); [congruence|done]. }
    rewrite Hu1. clear Hu1. assert (∀ i, if marked (m1 !!! i) then marked (<[j := unmark_toggle (u !!! j)]> u !!! i) = false
        else <[j := unmark_toggle (u !!! j)]> u !!! i = foldl (flip mark_first) m1 ops !!! i) as Hu1.
    { intros i. destruct (decide (i = j)) as [->|Hij]; [by rewrite Hj1, lookup_total_insert_eq|].
      rewrite lookup_total_insert_ne by congruence. unfold m1 at 1. rewrite lookup_total_insert_ne by congruence. apply Hu. }
    specialize (IH m1 _ Hu1 k). destruct (decide (k = j)) as [->|Hkj].
    + rewrite Hj1 in IH. rewrite Hj, IH, lookup_total_insert_eq, Huj. unfold looks. simpl. rewrite Hj. do 2 f_equal.
      destruct (value (m !!! j)); vm_compute; reflexivity.
    + unfold m1 in IH. rewrite !lookup_total_insert_ne in IH by congruence. exact IH.
  - assert (mark_first es m = m) as Hm1 by (unfold mark_first; by rewrite Hm). rewrite Hm1 in *.
    assert (unmark_first es u = u) as ->; [|by apply IH].
    unfold unmark_first. rewrite first_where_none; [done|]. intros i Hi. specialize (Hf i Hi). specialize (Hu i).
    destruct (marked (m !!! i)); congruence.
Qed.
Lemma replay_unmarked ops m :
  unmarked m → same_looks (foldl (flip unmark_first) (foldl (flip mark_first) m ops) ops) m.
Proof.
  intros Hm. constructor. intros k. pose proof (replay ops m (foldl (flip mark_first) m ops)) as Hr.
  specialize (Hr ltac:(intros i; by rewrite Hm) k). by rewrite Hm in Hr.
Qed.

(** The boxes and the menu entries are opened independently. *)
Lemma open_marked_eq doc b m :
  open_marked doc (b, m) =
    (foldl (flip mark_first) b (expand_of <$> mjoin (mark_frames [] doc)), foldl (flip mark_first) m (menu_of <$> mjoin (mark_frames [] doc))).
Proof.
  unfold open_marked. generalize (mark_frames [] doc). intros fss. revert b m.
  induction fss as [|fs fss IH]; intros b m; [done|]. simpl. rewrite !fmap_app, !foldl_app, <-IH. f_equal.
  clear. revert b m. induction fs as [|f fs IH]; intros b m; [done|]. simpl. by rewrite <-IH.
Qed.
Lemma close_marked_eq doc b m :
  close_marked doc (b, m) =
    (foldl (flip unmark_first) b (expand_of <$> mjoin (mark_frames [] doc)), foldl (flip unmark_first) m (menu_of <$> mjoin (mark_frames [] doc))).
Proof.
  unfold close_marked. generalize (mark_frames [] doc). intros fss. revert b m.
  induction fss as [|fs fss IH]; intros b m; [done|]. simpl. rewrite !fmap_app, !foldl_app, <-IH. f_equal.
  clear. revert b m. induction fs as [|f fs IH]; intros b m; [done|]. simpl. by rewrite <-IH.
Qed.

(** Closing after opening: every box and entry is as it was. *)
Lemma close_open doc b m :
  unmarked b → unmarked m →
  same_looks (fst (close_marked doc (open_marked doc (b, m)))) b ∧ same_looks (snd (close_marked doc (open_marked doc (b, m)))) m.
Proof. intros Hb Hm. rewrite open_marked_eq, close_marked_eq. split; by apply replay_unmarked. Qed.

Lemma fold_mark_proper ops m m' : same_looks m m' → same_looks (foldl (flip mark_first) m ops) (foldl (flip mark_first) m' ops).
Proof. revert m m'. induction ops as [|es ops IH]; intros m m' H; [done|]. simpl. apply IH. unfold flip. by rewrite H. Qed.
Lemma open_marked_looks doc b m b' m' :
  same_looks b b' → same_looks m m' →
  same_looks (fst (open_marked doc (b, m))) (fst (open_marked doc (b', m'))) ∧
  same_looks (snd (open_marked doc (b, m))) (snd (open_marked doc (b', m'))).
Proof. intros Hb Hm. rewrite !open_marked_eq. split; by apply fold_mark_proper. Qed.
Lemma same_looks_unmarked m m' : same_looks m m' → unmarked m' → unmarked m.
Proof. intros [Hs] Hm k. specialize (Hs k). specialize (Hm k). unfold looks in Hs. by injection Hs as _ -> _. Qed.

(** * Marking and the search fields *)

(** ** Links of the content *)

Definition ordered_set (l : list jsstr) : list jsstr :=
  foldl (λ acc x, if bool_decide (x ∈ acc) then acc else acc ++ [x]) [] l.
(** [element.classList.add(c)] *)
Definition classList_add (c : jsstr) (e : element) : element :=
  Element (e_key e) (localName e) (join_on 32%N (ordered_set (classList e ++ [c]))) (xhtml e) (data_code e).

(** [a:not(.lightbox-link):not(.btn):not(.lightbox-back)] *)
Definition is_link (e : element) : bool :=
  bool_decide (localName e = js "a") &&
  negb (has_class (js "lightbox-link") e || has_class (js "btn") e || has_class (js "lightbox-back") e).
(** [body]: the element with the id R-body-inner. *)
Fixpoint mark_links (body : nat) (inside : bool) (n : dom) : dom :=
  match n with
  | Elem e cs =>
      Elem (if inside && is_link e then classList_add (js "highlight") e else e)
           (mark_links body (inside || bool_decide (e_key e = Some body)) <$> cs)
  | _ => n
  end.

(** ** The page *)

Record marked_page := Page {
  p_doc : dom;
  p_body : nat;                (* the element #R-body-inner *)
  boxes : toggles;             (* expandable boxes *)
  menus : toggles;             (* checkboxes of the menu *)
  stored : option jsstr;       (* search-value in the session storage *)
  fields : list jsstr          (* the values of input.search-by *)
}.
Definition set_doc d b m (p : marked_page) : marked_page := Page d (p_body p) b m (stored p) (fields p).
Definition set_stored v (p : marked_page) : marked_page := Page (p_doc p) (p_body p) (boxes p) (menus p) v (fields p).
Definition set_fields v (p : marked_page) : marked_page := Page (p_doc p) (p_body p) (boxes p) (menus p) (stored p) v.

(** [document.querySelectorAll('.highlightable')] *)
Definition highlightables (doc : dom) : list nat :=
  omap e_key (filter (λ e, has_class (js "highlightable") e = true) (dom_elements doc)).

Section page.
Context (canonicalize : N → N).

Definition mark (p : marked_page) : option marked_page :=
  match words_of (stored p) with
  | [] => Some p
  | words =>
      let d := mark_links (p_body p) false (p_doc p) in
      d ← highlight canonicalize search_marks (highlightables d) words d;
      let '(b, m) := open_marked d (boxes p, menus p) in
      Some (set_doc d b m p)
  end.
Definition unmark (p : marked_page) : option marked_page :=
  let '(b, m) := close_marked (p_doc p) (boxes p, menus p) in
  d ← unhighlight search_marks (highlightables (p_doc p)) (p_doc p);
  Some (set_doc d b m p).

Definition searchInputHandler (v : jsstr) (p : marked_page) : option marked_page :=
  p ← unmark (set_stored None p);
  match v with [] => Some p | _ => mark (set_stored (Some v) p) end.

(** The handler of [input] on the [i]th field, whose value is [v] by now. *)
Definition on_input (i : nat) (p : marked_page) : option marked_page :=
  v ← fields p !! i;
  p ← searchInputHandler v p;
  Some (set_fields (imap (λ j w, if (j =? i)%nat then w else v) (fields p)) p).
(** The key Escape in a field. *)
Definition on_escape (p : marked_page) : option marked_page :=
  p ← searchInputHandler [] p;
  Some (set_fields ((λ _, []) <$> fields p) p).

(** For each field: a new value, and its handler. *)
Definition fill_field (v : jsstr) (i : nat) (p : marked_page) : option marked_page := on_input i (set_fields (<[i := v]> (fields p)) p).
Definition fill_all (v : jsstr) (p : marked_page) : option marked_page :=
  foldl (λ p i, p ≫= fill_field v i) (Some p) (seq 0 (length (fields p))).
(** A click on an element with [data-search-clear]. *)
Definition on_clear (p : marked_page) : option marked_page := p ← fill_all [] p; unmark (set_stored None p).

(** Loading the page with the term of its address: the fields. *)
Definition init_fields (url_value : option jsstr) (p : marked_page) : option marked_page :=
  p ← match url_value with
      | Some ((_ :: _) as v) => mark (set_stored (Some v) p)
      | _ => Some p
      end;
  match stored p with
  | Some ((_ :: _) as search) => fill_all search p
  | _ => Some p
  end.

(** What the user does in the fields. *)
Inductive search_event := Type_into (i : nat) (v : jsstr) | Escape | Clear.
Definition handle_search (ev : search_event) (p : marked_page) : option marked_page :=
  match ev with
  | Type_into i v => fill_field v i p
  | Escape => on_escape p
  | Clear => on_clear p
  end.
Definition search_events (evs : list search_event) (p : marked_page) : option marked_page := foldl (λ p ev, p ≫= handle_search ev) (Some p) evs.
(** ** The search page

    One of the fields may be #R-search-by-detail, the one of the search page; its
    term is then searched for, with the results listed below it. *)
Record search_part := SearchPart {
  sp_page : marked_page;
  sp_detail : option nat;        (* which of the fields that is *)
  sp_hint : nat;                 (* the elements .searchhint and #R-searchresults *)
  sp_results : nat;
  sp_script : bool;              (* window.relearn.executeInitialSearch is there *)
  isSearchInterfaceReady : bool;
  isSearchEngineReady : bool;
  sp_asked : list jsstr;         (* searches the adapter has not answered *)
}.
Definition set_page p s := SearchPart p (sp_detail s) (sp_hint s) (sp_results s) (sp_script s) (isSearchInterfaceReady s) (isSearchEngineReady s) (sp_asked s).
Definition set_interface b s := SearchPart (sp_page s) (sp_detail s) (sp_hint s) (sp_results s) (sp_script s) b (isSearchEngineReady s) (sp_asked s).
Definition set_engine b s := SearchPart (sp_page s) (sp_detail s) (sp_hint s) (sp_results s) (sp_script s) (isSearchInterfaceReady s) b (sp_asked s).
Definition set_asked l s := SearchPart (sp_page s) (sp_detail s) (sp_hint s) (sp_results s) (sp_script s) (isSearchInterfaceReady s) (isSearchEngineReady s) l.

(** New children for the element [k]. *)
Fixpoint change_children (k : nat) (f : list dom → list dom) (n : dom) : dom :=
  match n with
  | Elem e cs => Elem e (if bool_decide (e_key e = Some k) then f cs else change_children k f <$> cs)
  | _ => n
  end.
Definition change_at (k : nat) (f : list dom → list dom) (s : search_part) : search_part :=
  let p := sp_page s in set_page (set_doc (change_children k f (p_doc p)) (boxes p) (menus p) p) s.

(** [executeSearch(value)] up to the answer of the adapter. *)
Definition executeSearch_dom (v : jsstr) (s : search_part) : search_part :=
  set_asked (sp_asked s ++ [v]) (change_at (sp_results s) (λ _, []) (change_at (sp_hint s) (λ _, []) s)).
Definition executeInitialSearch_dom (s : search_part) : search_part :=
  if isSearchInterfaceReady s && isSearchEngineReady s then
    match sp_detail s ≫= (λ i, fields (sp_page s) !! i) with Some v => executeSearch_dom v s | None => s end
  else s.

(** Loading the page. *)
Definition initSearch (url_value : option jsstr) (s : search_part) : option search_part :=
  p ← init_fields url_value (sp_page s);
  let s := set_interface true (set_page p s) in
  Some (if sp_script s then executeInitialSearch_dom s else s).

(** The engine has loaded the pages; without search.js its call fails. *)
Definition engine_ready (s : search_part) : option search_part :=
  let s := set_engine true s in if sp_script s then Some (executeInitialSearch_dom s) else None.
(** The answer to the first search: the message and the results as they are
    rendered; what is found is marked once more. *)
Definition answered_dom (msg : jsstr) (rs : list dom) (s : search_part) : option search_part :=
  match sp_asked s with
  | [] => Some s
  | v :: l =>
      let s := set_asked l s in
      let say := change_at (sp_hint s) (λ _, [Text msg]) in
      match rs with
      | [] => Some (match v with [] => s | _ => say s end)
      | _ => let s := change_at (sp_results s) (λ cs, cs ++ rs) (say s) in p ← mark (sp_page s); Some (set_page p s)
      end
  end.

(** What happens to a page. *)
Inductive page_event := User (ev : search_event) | Engine_ready | Answered (msg : jsstr) (rs : list dom).
Definition handle_page (ev : page_event) (s : search_part) : option search_part :=
  match ev with
  | User ev => p ← handle_search ev (sp_page s); Some (set_page p s)
  | Engine_ready => engine_ready s
  | Answered msg rs => answered_dom msg rs s
  end.
Definition page_events (evs : list page_event) (s : search_part) : option search_part := foldl (λ s ev, s ≫= handle_page ev) (Some s) evs.
End page.
