(* ===== verification/PageSearchTheorems.v ===== *)
(** * Search within the page: the term last typed is what is shown *)

From S2P Require Import Prelude JSValue WordPattern Dom Highlight HighlightTheorems HighlightClaims PageSearch.

(** ** Classes *)

Lemma ordered_set_ind (Q : list jsstr → Prop) l :
  Q [] → (∀ acc x, x ∈ l → x ∉ acc → Q acc → Q (acc ++ [x])) → Q (ordered_set l).
Proof.
  intros H0 Hstep. unfold ordered_set.
  assert (∀ acc, Q acc → Q (foldl (λ acc x, if bool_decide (x ∈ acc) then acc else acc ++ [x]) acc l)) as H; [|by apply H].
  clear H0. induction l as [|x l IH]; intros acc Hacc; [done|]. simpl. apply IH.
  - intros acc' y Hy. apply Hstep. set_solver.
  - case_bool_decide; [done|]. apply Hstep; [set_solver|done..].
Qed.
Lemma ordered_set_Forall (P : jsstr → Prop) l : Forall P l → Forall P (ordered_set l).
Proof.
  rewrite Forall_forall. intros Hl. apply ordered_set_ind; [done|]. intros acc x Hx _ Hacc.
  apply Forall_app. split; [done|]. apply Forall_singleton. auto.
Qed.
Lemma elem_of_ordered_set x l : x ∈ ordered_set l ↔ x ∈ l.
Proof.
  unfold ordered_set. assert (∀ acc, x ∈ foldl (λ acc x, if bool_decide (x ∈ acc) then acc else acc ++ [x]) acc l ↔ x ∈ acc ∨ x ∈ l) as H.
  { induction l as [|y l IH]; intros acc; simpl; [set_solver|]. rewrite IH. case_bool_decide; set_solver. }
  rewrite H. set_solver.
Qed.
Lemma ordered_set_id l : NoDup l → ordered_set l = l.
Proof.
  unfold ordered_set. assert (∀ acc, NoDup (acc ++ l) → foldl (λ acc x, if bool_decide (x ∈ acc) then acc else acc ++ [x]) acc l = acc ++ l) as H.
  { induction l as [|y l IH]; intros acc Hn; simpl; [by rewrite app_nil_r|]. rewrite bool_decide_eq_false_2.
    - rewrite IH by (by rewrite <-app_assoc). by rewrite <-app_assoc.
    - apply NoDup_app in Hn as (_ & Hn & _). intros Hy. by apply (Hn y Hy), elem_of_cons; left. }
  intros Hl. by apply (H []).
Qed.
Lemma ordered_set_NoDup l : NoDup (ordered_set l).
Proof.
  apply ordered_set_ind; [constructor|]. intros acc x _ Hx Hacc. apply NoDup_app. split_and!; [done|set_solver|apply NoDup_singleton].
Qed.
Lemma ordered_set_snoc l c : c ∈ l → ordered_set (l ++ [c]) = ordered_set l.
Proof. intros Hc. unfold ordered_set. rewrite foldl_app. simpl. by rewrite bool_decide_eq_true_2 by by apply elem_of_ordered_set. Qed.

(** A token of a class list. *)
Definition token (w : jsstr) : Prop := w ≠ [] ∧ Forall (λ c, html_space c = false) w.
Lemma classList_tokens e : Forall token (classList e).
Proof.
  apply Forall_forall. intros w [Hne Hw]%list_elem_of_filter. split; [done|]. apply Forall_forall. intros c Hc.
  apply not_true_iff_false. intros Hs. pose proof (split_on_clean _ _ _ Hw) as H32.
  assert (c ∈ (λ c, if html_space c then 32%N else c) <$> className e) as Hin.
  { rewrite <-(join_split 32%N (_ <$> className e)). revert Hw Hc. generalize (split_on 32%N ((λ c, if html_space c then 32%N else c) <$> className e)).
    induction l as [|v l IH]; [by intros []%not_elem_of_nil|]. intros [->|Hw]%elem_of_cons Hc; destruct l as [|u l]; simpl; set_solver. }
  apply list_elem_of_fmap in Hin as (d & -> & _). destruct (html_space d) eqn:Hd; [done|]. congruence.
Qed.
Lemma classList_join k n x o l : l ≠ [] → Forall token l → classList (Element k n (join_on 32%N l) x o) = l.
Proof.
  intros Hne Hl. unfold classList. cbn [className].
  assert ((λ c, if html_space c then 32%N else c) <$> join_on 32%N l = join_on 32%N l) as ->.
  { clear Hne. induction Hl as [|w l [_ Hw] Hl IH]; [done|]. assert ((λ c, if html_space c then 32%N else c) <$> w = w) as Hid.
    { clear -Hw. induction Hw as [|c w Hc Hw IH]; [done|]. rewrite fmap_cons, Hc. by f_equal. }
    destruct l as [|v l]; [done|]. change (join_on 32%N (w :: v :: l)) with (w ++ 32%N :: join_on 32%N (v :: l)).
    by rewrite fmap_app, fmap_cons, Hid, IH. }
  rewrite split_join; [|done|].
  - induction Hl as [|w l [Hw _] Hl IH]; [done|]. rewrite filter_cons, decide_True by done. f_equal. destruct l; [done|]. by apply IH.
  - eapply Forall_impl; [exact Hl|]. intros w [_ Hw] Hin. rewrite Forall_forall in Hw. by specialize (Hw _ Hin).
Qed.
Lemma classList_add_spec c e : token c → classList (classList_add c e) = ordered_set (classList e ++ [c]).
Proof.
  intros Hc. apply classList_join.
  - intros Hn. assert (c ∈ ordered_set (classList e ++ [c])) as Hin by (apply elem_of_ordered_set; set_solver).
    rewrite Hn in Hin. by apply not_elem_of_nil in Hin.
  - apply ordered_set_Forall, Forall_app. split; [apply classList_tokens|by apply Forall_singleton].
Qed.
Lemma classList_add_twice c e : token c → classList_add c (classList_add c e) = classList_add c e.
Proof.
  intros Hc. unfold classList_add at 1. rewrite classList_add_spec by done. cbn [e_key localName xhtml classList_add].
  rewrite ordered_set_snoc by (apply elem_of_ordered_set; set_solver). by rewrite ordered_set_id by apply ordered_set_NoDup.
Qed.
Lemma has_class_add c d e : token c → c ≠ d → has_class d (classList_add c e) = has_class d e.
Proof.
  intros Hc Hd. unfold has_class. apply bool_decide_ext. rewrite classList_add_spec, elem_of_ordered_set by done. set_solver.
Qed.

(** ** Links *)
Lemma highlight_token : token (js "highlight").
Proof. split; [done|]. repeat constructor. Qed.
Lemma is_link_add e : is_link (classList_add (js "highlight") e) = is_link e.
Proof.
  unfold is_link. by rewrite !(has_class_add _ _ _ highlight_token) by (intros [=]).
Qed.
Lemma mark_links_twice body b n : mark_links body b (mark_links body b n) = mark_links body b n.
Proof.
  revert b. induction n as [s|s|e cs IH] using node_ind'; intros b; [done..|]. cbn [mark_links].
  set (e' := if b && is_link e then classList_add (js "highlight") e else e).
  assert (e_key e' = e_key e) as Hk by (unfold e'; by destruct (b && is_link e)).
  assert ((if b && is_link e' then classList_add (js "highlight") e' else e') = e') as ->.
  { unfold e'. destruct (b && is_link e) eqn:Hb; [|by rewrite Hb]. rewrite is_link_add, Hb.
    by apply classList_add_twice, highlight_token. }
  rewrite Hk. f_equal. rewrite <-list_fmap_compose. apply list_fmap_ext. intros i c Hc. rewrite Forall_lookup in IH. by eapply IH.
Qed.
Lemma mark_links_every (P : element → list dom → Prop) body b n :
  (∀ b e cs, P e cs → P (if b && is_link e then classList_add (js "highlight") e else e) cs) →
  (∀ b e cs, P e cs → P e (mark_links body b <$> cs)) →
  every P n → every P (mark_links body b n).
Proof.
  intros He Hcs. revert b. induction n as [s|s|e cs IH] using node_ind'; intros b; [done..|]. cbn [mark_links]. rewrite !every_elem.
  intros [Hp Hps]. split; [by apply Hcs, He|]. apply Forall_fmap. clear Hp. induction IH as [|c cs Hc _ IH']; [done|].
  apply Forall_cons in Hps as [??]. constructor; [by apply Hc|by apply IH'].
Qed.
Lemma mark_links_unwrapped body b n : unwrapped search_marks n → unwrapped search_marks (mark_links body b n).
Proof.
  apply mark_links_every; [|done]. intros b' e _ He. destruct (b' && is_link e) eqn:Hl; [|done].
  apply andb_true_iff in Hl as [_ [Ha _]%andb_true_iff]. apply bool_decide_eq_true in Ha.
  unfold wrapper, selects. cbn [localName classList_add]. by rewrite Ha.
Qed.
Lemma mark_links_normalized body b n : normalized n → normalized (mark_links body b n).
Proof.
  apply mark_links_every; [done|]. intros b' e cs. rewrite !merge_text_tidy. clear. induction cs as [|c cs IH]; [done|].
  rewrite fmap_cons. destruct c as [s|s|f ks]; cbn [mark_links tidy]; [|done..]. rewrite !andb_true_iff.
  intros [[Hs Hn] Ht]. split_and!; [done| |auto]. by destruct cs as [|[t|t|g js] cs].
Qed.

(** ** The elements of a class, with and without highlighting *)
Section elements.
Context (canonicalize : N → N) (sel : element → bool).
Hypothesis sel_new : sel (Element None (hl_element search_marks) (hl_className search_marks) true None) = false.
Definition selected (l : list dom) : list element := filter (λ e, sel e = true) (l ≫= dom_elements).

Lemma selected_app l k : selected (l ++ k) = selected l ++ selected k.
Proof. unfold selected. by rewrite bind_app, filter_app. Qed.
Lemma selected_elem e cs : selected [Elem e cs] = (if sel e then [e] else []) ++ selected cs.
Proof.
  unfold selected. rewrite bind_cons. cbn [dom_elements]. rewrite app_nil_r, filter_cons. destruct (sel e).
  - by rewrite decide_True.
  - by rewrite decide_False.
Qed.
Lemma selected_all (cs : list dom) (ds : list (list dom)) :
  Forall2 (λ c l, selected l = selected [c]) cs ds → selected (mjoin ds) = selected cs.
Proof.
  induction 1 as [|c l cs ds Hc Hcs IH]; [done|]. simpl. rewrite selected_app, Hc, IH. by rewrite <-selected_app.
Qed.

Lemma highlight_text_selected fuel words s l : highlight_text canonicalize search_marks fuel words s = Some l → selected l = [].
Proof.
  revert s l. induction fuel as [|fuel IH]; intros s l; cbn [highlight_text];
    destruct (exec canonicalize words s) as [[i n]|]; try done; [by intros [= <-]| |by intros [= <-]].
  intros (l' & Hl & ->)%fmap_Some. apply IH in Hl.
  change (selected ([Text (take i s)] ++ [new_highlight search_marks (take n (drop i s))] ++ l') = []).
  rewrite !selected_app, Hl. unfold new_highlight. by rewrite selected_elem, sel_new.
Qed.
Lemma highlightNode_selected words h n l : highlightNode canonicalize search_marks words h n = Some l → selected l = selected [n].
Proof.
  revert h l. induction n as [s|s|e cs IH] using node_ind'; intros h l; cbn [highlightNode].
  - destruct h; [apply highlight_text_selected|by intros [= <-]].
  - by intros [= <-].
  - destruct (skipped search_marks e); [by intros [= <-]|]. intros (ls & Hm & ->)%fmap_Some. rewrite !selected_elem. f_equal.
    apply selected_all. apply mapM_Some in Hm. induction Hm as [|c k cs ls Hc Hcs IH']; [done|].
    apply Forall_cons in IH as [IHc IH]. constructor; [by eapply IHc|auto].
Qed.
Lemma on_element_selected k f n n' :
  (∀ e cs m, f (Elem e cs) = Some m → selected [m] = selected [Elem e cs]) → on_element k f n = Some n' → selected [n'] = selected [n].
Proof.
  intros Hf. revert n'. induction n as [s|s|e cs IH] using node_ind'; intros n'; cbn [on_element]; [by intros [= <-]..|].
  case_bool_decide; [apply Hf|]. intros (ds & Hm & ->)%fmap_Some. rewrite !selected_elem. f_equal.
  rewrite <-(selected_all cs ((λ d, [d]) <$> ds)).
  - f_equal. clear. induction ds as [|d ds IH]; [done|]. simpl. by f_equal.
  - apply Forall2_fmap_r. apply mapM_Some in Hm. induction Hm as [|c d cs ds Hc Hcs IH']; [done|].
    apply Forall_cons in IH as [IHc IH]. constructor; auto.
Qed.
Lemma highlight_selected es words n n' : highlight canonicalize search_marks es words n = Some n' → selected [n'] = selected [n].
Proof.
  destruct words as [|w ws]; [by intros [= <-]|]. unfold highlight. destruct (parse _) as [ws'|]; [|done]. cbn [mbind option_bind].
  unfold for_each. revert n. induction es as [|k es IH]; intros n; [by intros [= <-]|]. cbn [foldl mbind option_bind].
  destruct (on_element k (highlight_element canonicalize search_marks ws') n) as [m|] eqn:Hm.
  - intros Hn'. rewrite (IH m Hn'). eapply on_element_selected; [|exact Hm].
    intros e cs d [Hd _]%highlight_element_elem. by apply highlightNode_selected in Hd.
  - intros Hn'. exfalso. clear -Hn'. induction es as [|j es IH]; [done|]. by apply IH.
Qed.
End elements.

Lemma highlight_highlightables canonicalize es words n n' :
  highlight canonicalize search_marks es words n = Some n' → highlightables n' = highlightables n.
Proof.
  intros Hn. unfold highlightables. f_equal.
  pose proof (highlight_selected canonicalize (has_class (js "highlightable")) ltac:(vm_compute; reflexivity) _ _ _ _ Hn) as Hs.
  unfold selected in Hs. by rewrite !bind_cons, !app_nil_r in Hs.
Qed.

(** Without a match there is nothing to open. *)
Lemma unwrapped_frames up n : unwrapped search_marks n → mark_frames up n = [].
Proof.
  revert up. induction n as [s|s|e cs IH] using node_ind'; intros up; [done..|]. intros [He Hcs]%every_elem. cbn [mark_frames].
  rewrite He. simpl. generalize (Frame e (f_el <$> head up) (inputs_below (Elem e cs)) :: up). intros up'. clear He.
  induction IH as [|c cs Hc _ IH']; [done|]. apply Forall_cons in Hcs as [??]. rewrite bind_cons, Hc by done. by apply IH'.
Qed.

(** ** Marking and unmarking *)
Section session.
Context (canonicalize : N → N) (p0 : marked_page).
Notation mark := (mark canonicalize).

(** A page without marks, in normal form, nothing opened by marks. *)
Record plain_page (p : marked_page) : Prop := PlainPage {
  plain_unwrapped : unwrapped search_marks (p_doc p);
  plain_normalized : normalized (p_doc p);
  plain_root : ∃ e cs, p_doc p = Elem e cs;
  plain_boxes : unmarked (boxes p);
  plain_menus : unmarked (menus p)
}.
(** Pages alike up to the class that links get, and to old datasets. *)
Record same_page (p q : marked_page) : Prop := SamePage {
  same_body : p_body p = p_body q;
  same_doc : mark_links (p_body q) false (p_doc p) = mark_links (p_body q) false (p_doc q);
  same_boxes : same_looks (boxes p) (boxes q);
  same_menus : same_looks (menus p) (menus q)
}.
#[export] Instance same_page_equiv : Equivalence same_page.
Proof.
  split; [done|intros p q [Hb Hd ??]; split; [done|by rewrite Hb, Hd|by symmetry..]|].
  intros p q r [Hb Hd ??] [Hb' Hd' ??]. split; [congruence|rewrite Hb' in *; congruence|by etrans..].
Qed.

Lemma mark_total p : plain_page p → is_Some (mark p).
Proof.
  intros [Hu Hn _ _ _]. unfold PageSearch.mark. pose proof (words_of_nonempty (stored p)) as Hw.
  destruct (words_of (stored p)) as [|w ws]; [by eexists|].
  destruct (highlight_page canonicalize (mark_links (p_body p) false (p_doc p)) (highlightables (mark_links (p_body p) false (p_doc p)))
    (w :: ws) (mark_links (p_body p) false (p_doc p))) as (d & Hd & _); [done|apply unwrapped_page; [by apply mark_links_unwrapped|by apply mark_links_normalized]|].
  cbn [mbind option_bind] in *. rewrite Hd. unfold mbind, option_bind. destruct (open_marked d (boxes p, menus p)). by eexists.
Qed.
Lemma mark_frame_fields p q : mark p = Some q → stored q = stored p ∧ fields q = fields p ∧ p_body q = p_body p.
Proof.
  unfold PageSearch.mark. destruct (words_of (stored p)) as [|w ws]; [by intros [= <-]|].
  destruct (highlight _ _ _ _ _) as [d|]; [|done]. unfold mbind, option_bind. destruct (open_marked d (boxes p, menus p)). by intros [= <-].
Qed.

(** Removing the marks gives the page before, up to the class of links. *)
Lemma unmark_mark p q : plain_page p → mark p = Some q →
  ∃ p', unmark q = Some p' ∧ plain_page p' ∧ same_page p' p ∧ stored p' = stored q ∧ fields p' = fields q.
Proof.
  intros [Hu Hn (e & cs & He) Hb Hm] Hq. set (d := mark_links (p_body p) false (p_doc p)).
  assert (∃ es doc, (words_of (stored p) = [] ∧ q = p ∧ doc = p_doc p ∨ doc = d ∧
      q = set_doc (p_doc q) (fst (open_marked (p_doc q) (boxes p, menus p))) (snd (open_marked (p_doc q) (boxes p, menus p))) p) ∧
      highlightables (p_doc q) = es ∧ wrapped_page search_marks doc es (p_doc q)) as (es & doc & Hcase & Hes & Hw).
  { unfold PageSearch.mark in Hq. pose proof (words_of_nonempty (stored p)) as Hw. destruct (words_of (stored p)) as [|w ws].
    - injection Hq as <-. exists (highlightables (p_doc p)), (p_doc p). split_and!; [by left|done|]. by apply unwrapped_page.
    - change (mark_links (p_body p) false (p_doc p)) with d in Hq. exists (highlightables d), d.
      destruct (highlight_page canonicalize d (highlightables d) (w :: ws) d Hw) as (d' & Hd' & Hw').
      { apply unwrapped_page; [by apply mark_links_unwrapped|by apply mark_links_normalized]. }
      rewrite Hd' in Hq. unfold mbind, option_bind in Hq. destruct (open_marked d' (boxes p, menus p)) as [b m] eqn:Ho. injection Hq as <-.
      cbn [p_doc set_doc]. rewrite Ho. split_and!; [by right|by eapply highlight_highlightables|done]. }
  assert (mark_links (p_body p) false doc = d ∧ unwrapped search_marks doc ∧ normalized doc ∧ ∃ f ds, doc = Elem f ds) as (Hl & Hu' & Hn' & f & ds & Hf).
  { destruct Hcase as [(_ & _ & ->)|[-> _]].
    - split_and!; eauto.
    - unfold d. split_and!; [apply mark_links_twice|by apply mark_links_unwrapped|by apply mark_links_normalized|].
      rewrite He. cbn [mark_links]. eauto. }
  destruct (unhighlight_page _ _ _ Hw) as (n & Hn1 & Hn2). subst doc. apply (wrapped_page_nil _ _ _ _ Hu' Hn') in Hn2. subst n.
  unfold unmark. rewrite Hes, Hn1. unfold mbind, option_bind.
  assert (same_looks (fst (close_marked (p_doc q) (boxes q, menus q))) (boxes p) ∧
          same_looks (snd (close_marked (p_doc q) (boxes q, menus q))) (menus p) ∧ p_body q = p_body p) as (Hsb & Hsm & Hbody).
  { destruct Hcase as [(_ & -> & _)|[_ ->]].
    - unfold close_marked. rewrite unwrapped_frames by done. done.
    - cbn [boxes menus p_doc set_doc p_body]. rewrite <-!surjective_pairing. destruct (close_open (p_doc q) (boxes p) (menus p)) as [??]; done. }
  destruct (close_marked (p_doc q) (boxes q, menus q)) as [b m]. eexists. split; [done|]. cbn in Hsb, Hsm. split_and!; [| |done..].
  - split; cbn [p_body p_doc boxes menus set_doc]; [done|done|eauto|by eapply same_looks_unmarked|by eapply same_looks_unmarked].
  - split; cbn [p_body p_doc boxes menus set_doc]; [done|by rewrite Hl|done|done].
Qed.

(** ** A session *)

(** What the storage keeps of a term. *)
Definition kept (v : jsstr) : option jsstr := match v with [] => None | _ => Some v end.
Definition shows (v : jsstr) (p : marked_page) : Prop :=
  length (fields p) = length (fields p0) ∧
  ∃ q, plain_page q ∧ same_page q p0 ∧ stored q = kept v ∧ mark q = Some p.
(** The same for some term, whatever is stored. *)
Definition some_marks (p : marked_page) : Prop :=
  length (fields p) = length (fields p0) ∧
  ∃ q x, plain_page q ∧ same_page q p0 ∧ mark q = Some (set_stored x p).

Lemma plain_set_stored x p : plain_page p → plain_page (set_stored x p).
Proof. by intros [????]. Qed.
Lemma same_set_stored x p q : same_page p q → same_page (set_stored x p) q.
Proof. by intros [????]. Qed.
Lemma unmark_set_stored x p : unmark (set_stored x p) = set_stored x <$> unmark p.
Proof.
  unfold unmark. cbn [p_doc boxes menus set_stored]. destruct (close_marked _ _). by destruct (unhighlight _ _ _).
Qed.
Lemma mark_set_fields l p : mark (set_fields l p) = set_fields l <$> mark p.
Proof.
  unfold PageSearch.mark. cbn [p_doc p_body boxes menus stored set_fields]. destruct (words_of (stored p)); [done|].
  destruct (highlight _ _ _ _ _) as [d|]; [|done]. unfold mbind, option_bind. by destruct (open_marked d (boxes p, menus p)).
Qed.
Lemma set_stored_self p : set_stored (stored p) p = p.
Proof. by destruct p. Qed.
Lemma shows_some v p : shows v p → some_marks p.
Proof. intros (Hl & q & Hq & Hs & _ & Hm). split; [done|]. exists q, (stored p). by rewrite set_stored_self. Qed.
Lemma some_marks_set_fields l p : length l = length (fields p) → some_marks p → some_marks (set_fields l p).
Proof.
  intros Hl (Hlen & q & x & Hq & Hs & Hm). split; [cbn; congruence|]. exists (set_fields l q), x. split_and!.
  - by destruct Hq.
  - by destruct Hs.
  - by rewrite mark_set_fields, Hm.
Qed.
Lemma shows_set_fields v l p : length l = length (fields p) → shows v p → shows v (set_fields l p).
Proof.
  intros Hl (Hlen & q & Hq & Hs & Hv & Hm). split; [cbn; congruence|]. exists (set_fields l q). split_and!.
  - by destruct Hq.
  - by destruct Hs.
  - done.
  - by rewrite mark_set_fields, Hm.
Qed.

Lemma unmark_some p : some_marks p →
  ∃ p', unmark (set_stored None p) = Some p' ∧ plain_page p' ∧ same_page p' p0 ∧ stored p' = None ∧ fields p' = fields p.
Proof.
  intros (Hlen & q & x & Hq & Hs & Hm). destruct (unmark_mark q _ Hq Hm) as (p' & Hu & Hp' & Hs' & _ & Hf).
  rewrite unmark_set_stored in Hu. apply fmap_Some in Hu as (p2 & Hu & ->).
  exists (set_stored None p2). rewrite unmark_set_stored, Hu. split_and!; [done|by destruct Hp'| |done|done].
  etrans; [|exact Hs]. etrans; [|exact Hs']. by split.
Qed.
Lemma plain_shows p : length (fields p) = length (fields p0) → plain_page p → same_page p p0 → stored p = None → shows [] p.
Proof. intros Hl Hp Hs Hst. split; [done|]. exists p. split_and!; [done..|]. unfold PageSearch.mark. by rewrite Hst. Qed.

Lemma searchInputHandler_shows v p :
  some_marks p → ∃ p', searchInputHandler canonicalize v p = Some p' ∧ shows v p' ∧ fields p' = fields p ∧ stored p' = kept v.
Proof.
  intros Hp. pose proof Hp as [Hlen _]. destruct (unmark_some p Hp) as (p1 & Hu & Hp1 & Hs1 & Hst1 & Hf1).
  unfold searchInputHandler. rewrite Hu. cbn [mbind option_bind]. destruct v as [|a v].
  - exists p1. split_and!; [done| |done|done]. by apply plain_shows; [rewrite Hf1| | |].
  - destruct (mark_total (set_stored (Some (a :: v)) p1)) as [p' Hp']; [by apply plain_set_stored|].
    destruct (mark_frame_fields _ _ Hp') as (Hst' & Hf' & _). exists p'. split_and!; [done| |by rewrite Hf'|done].
    split; [by rewrite Hf'; cbn; rewrite Hf1|]. eexists. split_and!; [by apply plain_set_stored|by apply same_set_stored|done|done].
Qed.

Definition shows_all (v : jsstr) (p : marked_page) : Prop := shows v p ∧ Forall (eq v) (fields p) ∧ stored p = kept v.

Lemma fill_field_shows v i p :
  (i < length (fields p))%nat → some_marks p → ∃ p', fill_field canonicalize v i p = Some p' ∧ shows_all v p'.
Proof.
  intros Hi Hp. unfold fill_field, on_input. cbn [fields set_fields]. rewrite list_lookup_insert_eq by done. cbn [mbind option_bind].
  set (l := <[i:=v]> (fields p)).
  destruct (searchInputHandler_shows v (set_fields l p)) as (p' & -> & Hp' & Hf' & Hst').
  { apply some_marks_set_fields; [apply length_insert|done]. }
  eexists. split; [done|]. split_and!; [|cbn [fields set_fields]|done].
  - apply shows_set_fields; [apply length_imap|done].
  - rewrite Hf'. apply Forall_lookup. intros j w Hj. rewrite list_lookup_imap in Hj. apply fmap_Some in Hj as (w' & Hw' & ->).
    destruct (j =? i)%nat eqn:Hji; [|done]. apply Nat.eqb_eq in Hji as ->. unfold l in Hw'. cbn [fields set_fields] in Hw'.
    rewrite list_lookup_insert_eq in Hw' by done. by injection Hw'.
Qed.
Lemma fill_fields_shows v ks p :
  ks ≠ [] → Forall (λ i, (i < length (fields p0))%nat) ks → some_marks p →
  ∃ p', foldl (λ p i, p ≫= fill_field canonicalize v i) (Some p) ks = Some p' ∧ shows_all v p'.
Proof.
  revert p. induction ks as [|i ks IH]; intros p Hne Hks Hp; [done|]. apply Forall_cons in Hks as [Hi Hks].
  destruct (fill_field_shows v i p) as (p1 & Hp1 & Hs1); [by destruct Hp as [-> _]|done|]. cbn [foldl mbind option_bind]. rewrite Hp1.
  destruct ks as [|j ks]; [by exists p1|]. apply IH; [done..|]. by eapply shows_some, Hs1.
Qed.
Lemma fill_all_shows v p : fields p0 ≠ [] → some_marks p → ∃ p', fill_all canonicalize v p = Some p' ∧ shows_all v p'.
Proof.
  intros Hne Hp. pose proof Hp as [Hlen _]. apply (fill_fields_shows v _ p); [|rewrite Hlen; apply Forall_seq; lia|done].
  rewrite Hlen. by destruct (fields p0).
Qed.

Definition valid_event (ev : search_event) : Prop :=
  match ev with Type_into i _ => (i < length (fields p0))%nat | _ => True end.
Definition term_after (v : jsstr) (ev : search_event) : jsstr := match ev with Type_into _ v => v | _ => [] end.

Lemma handle_shows v ev p :
  fields p0 ≠ [] → valid_event ev → shows v p → ∃ p', handle_search canonicalize ev p = Some p' ∧ shows_all (term_after v ev) p'.
Proof.
  intros Hne Hev Hp%shows_some. pose proof Hp as [Hlen _]. destruct ev as [i v'| |]; cbn [handle_search term_after].
  - apply fill_field_shows; [by rewrite Hlen|done].
  - unfold on_escape. destruct (searchInputHandler_shows [] p Hp) as (p' & -> & Hp' & Hf' & Hst'). eexists. split; [done|].
    split_and!; [apply shows_set_fields; [apply length_fmap|done]|cbn [fields set_fields]; apply Forall_fmap, Forall_true; done|done].
  - unfold on_clear. destruct (fill_all_shows [] p Hne Hp) as (p1 & -> & Hp1 & Hf1 & _).
    destruct (unmark_some p1) as (p2 & Hu & Hp2 & Hs2 & Hst2 & Hf2); [by eapply shows_some|]. cbn [mbind option_bind]. rewrite Hu.
    exists p2. split; [done|]. split_and!; [|by rewrite Hf2|done]. apply plain_shows; [rewrite Hf2; apply Hp1|done..].
Qed.
Lemma session_shows v evs p :
  fields p0 ≠ [] → Forall valid_event evs → shows_all v p →
  ∃ p', search_events canonicalize evs p = Some p' ∧ shows_all (foldl term_after v evs) p'.
Proof.
  intros Hne. unfold search_events. revert v p. induction evs as [|ev evs IH]; intros v p Hevs Hp; [by exists p|].
  apply Forall_cons in Hevs as [Hev Hevs]. destruct (handle_shows v ev p Hne Hev (proj1 Hp)) as (p1 & Hp1 & Hs1).
  cbn [foldl mbind option_bind]. rewrite Hp1. by apply IH.
Qed.

(** Two pages that mark the same term are alike. *)
Lemma shows_same v p :
  shows v p → plain_page p0 → ∃ q, mark (set_stored (kept v) p0) = Some q ∧ same_page p q ∧ (words_of (kept v) ≠ [] → p_doc p = p_doc q).
Proof.
  intros (_ & q & Hq & [Hb Hd Hbx Hm] & Hst & Hmk) Hp0.
  destruct (mark_total (set_stored (kept v) p0)) as [r Hr]; [by apply plain_set_stored|]. exists r. split; [done|]. revert Hmk Hr.
  unfold PageSearch.mark. rewrite Hst. cbn [stored p_body p_doc boxes menus set_stored].
  destruct (words_of (kept v)) as [|w ws]; [by intros [= ->] [= <-]|]. rewrite Hb, Hd.
  destruct (highlight _ _ _ _ _) as [d|]; [|done]. unfold mbind, option_bind.
  destruct (open_marked_looks d (boxes q) (menus q) (boxes p0) (menus p0) Hbx Hm) as [H1 H2].
  destruct (open_marked d (boxes q, menus q)), (open_marked d (boxes p0, menus p0)). intros [= <-] [= <-]. split; [|done]. by split.
Qed.
End session.

(** The term of a page right after loading. *)
Definition loaded_term (url_value : option jsstr) (p : marked_page) : jsstr :=
  match url_value with Some ((_ :: _) as v) => v | _ => default [] (stored p) end.

Lemma init_fields_shows canonicalize url_value p0 :
  plain_page p0 → fields p0 ≠ [] → Forall (eq []) (fields p0) → stored p0 ≠ Some [] →
  ∃ p, init_fields canonicalize url_value p0 = Some p ∧ shows_all canonicalize p0 (loaded_term url_value p0) p.
Proof.
  intros Hp Hne Hf Hst. assert (∀ x, mark canonicalize (set_stored None p0) = Some (set_stored None (set_stored x p0))) as Hm by done.
  assert (∀ x, some_marks canonicalize p0 (set_stored x p0)) as Hsome.
  { intros x. split; [done|]. exists (set_stored None p0), None. split_and!; [by apply plain_set_stored|by apply same_set_stored|done]. }
  unfold init_fields. destruct url_value as [[|a u]|].
  2: { destruct (mark_total canonicalize (set_stored (Some (a :: u)) p0)) as [p Hp']; [by apply plain_set_stored|].
    destruct (mark_frame_fields _ _ _ Hp') as (Hs & Hf' & _). rewrite Hp'. cbn [mbind option_bind]. rewrite Hs. cbn [stored set_stored].
    apply (fill_all_shows canonicalize p0 (a :: u)); [done|]. split; [by rewrite Hf'|].
    exists (set_stored (Some (a :: u)) p0), (stored p). rewrite set_stored_self. split_and!; [by apply plain_set_stored|by apply same_set_stored|done]. }
  all: cbn [mbind option_bind loaded_term]; specialize (Hsome (stored p0)); rewrite set_stored_self in Hsome.
  all: destruct (stored p0) as [[|a u]|] eqn:Hs; [done|by apply fill_all_shows|].
  all: exists p0; split; [done|]; split_and!; [by apply plain_shows|done|by rewrite Hs].
Qed.

(** Other pages than the search page have no field to search for, and no answer
    comes. *)
Record other_page (s : search_part) : Prop := OtherPage {
  op_detail : sp_detail s = None;
  op_asked : sp_asked s = [];
  op_script : sp_script s = true;
}.
Definition user_events (evs : list page_event) : list search_event := omap (λ ev, match ev with User ev => Some ev | _ => None end) evs.

Lemma no_initial_search s : sp_detail s = None → executeInitialSearch_dom s = s.
Proof. intros Hd. unfold executeInitialSearch_dom. rewrite Hd. by destruct (_ && _). Qed.
Lemma page_events_users canonicalize evs s p :
  other_page s → search_events canonicalize (user_events evs) (sp_page s) = Some p →
  ∃ s', page_events canonicalize evs s = Some s' ∧ sp_page s' = p.
Proof.
  unfold search_events, page_events. revert s p. induction evs as [|ev evs IH]; intros s p Hs; [intros [= <-]; by exists s|].
  destruct Hs as [Hd Ha Hsc]. destruct ev as [ev| |msg rs]; cbn [user_events omap list_omap foldl mbind option_bind handle_page].
  - destruct (handle_search canonicalize ev (sp_page s)) as [q|]; [by apply (IH (set_page q s))|].
    intros H. exfalso. clear -H. unfold user_events in H. induction (omap _ evs) as [|e l IHl]; [done|by apply IHl].
  - unfold engine_ready. cbn [sp_script set_engine]. rewrite Hsc, no_initial_search by done. by apply (IH (set_engine true s)).
  - unfold answered_dom. rewrite Ha. by apply IH.
Qed.

(** C12. Whatever the user does with the search fields, the page shows the last
    term and nothing else, on every page but the search page: after loading,
    with a term in the address or one kept from the page before, and after any
    sequence of typing, Escape and clearing, whenever the engine gets ready,
    every field holds the last term, the storage keeps it, and the page is as if
    that term alone had been marked in the page as loaded (text, wrappers, opened
    boxes and menu entries). (The search page marks its results, too; see
    [search_page_marks_again].) *)
Theorem search_session (canonicalize : N → N) (s0 : search_part) (url_value : option jsstr) (evs : list page_event) :
  let p0 := sp_page s0 in
  other_page s0 → plain_page p0 → fields p0 ≠ [] → Forall (eq []) (fields p0) → stored p0 ≠ Some [] →
  Forall (valid_event p0) (user_events evs) →
  let v := foldl term_after (loaded_term url_value p0) (user_events evs) in
  ∃ s q, (initSearch canonicalize url_value s0 ≫= page_events canonicalize evs) = Some s ∧
    Forall (eq v) (fields (sp_page s)) ∧ stored (sp_page s) = kept v ∧
    mark canonicalize (set_stored (kept v) p0) = Some q ∧ same_page (sp_page s) q ∧
    (words_of (kept v) ≠ [] → p_doc (sp_page s) = p_doc q).
Proof.
  intros p0 Ho Hp Hne Hf Hst Hevs v.
  destruct (init_fields_shows canonicalize url_value p0) as (p1 & Hi & Hp1); [done..|].
  destruct (session_shows canonicalize p0 (loaded_term url_value p0) (user_events evs) p1) as (p & Hs & Hsh & Hfs & Hsp); [done..|].
  destruct (shows_same canonicalize p0 v p) as (q & Hq & Hsame & Hdoc); [done..|].
  destruct Ho as [Hd Ha Hsc].
  destruct (page_events_users canonicalize evs (set_interface true (set_page p1 s0)) p) as (s & Hrun & Hsp'); [by split|done|].
  exists s, q. unfold initSearch. change (sp_page s0) with p0. rewrite Hi. cbn [mbind option_bind sp_script set_interface set_page].
  rewrite Hsc, no_initial_search by done. rewrite Hsp'. by split_and!.
Qed.

(** ** An example

    A menu entry with two matches below it and a nested entry without any. *)
Definition el (k : nat) (t c : string) : element := Element (Some k) (js t) (js c) true None.
Definition txt (s : string) : dom := Text (js s).
Definition menu_page : dom :=
  Elem (el 0 "body" "") [
    Elem (el 1 "div" "highlightable") [
      Elem (el 2 "ul" "collapsible-menu") [
        Elem (el 3 "li" "") [
          Elem (el 4 "input" "") []; Elem (el 5 "a" "") [txt "Jobs"];
          Elem (el 6 "ul" "collapsible-menu") [
            Elem (el 7 "li" "") [Elem (el 8 "a" "") [txt "Job states"]];
            Elem (el 9 "li" "") [Elem (el 10 "input" "") []; Elem (el 11 "a" "") [txt "Queues"]]]]]];
    Elem (el 12 "main" "highlightable") [Elem (el 13 "div" "box expand") [txt "a job"]; Elem (el 14 "a" "") [txt "see"];
      Elem (el 15 "div" "searchhint") []; Elem (el 16 "div" "") []]].
Definition menu_start : marked_page := Page menu_page 12 ∅ ∅ None [[]; []].

Lemma unmarked_empty : unmarked ∅.
Proof. intros k. by rewrite lookup_total_empty. Qed.
Lemma menu_start_plain : plain_page menu_start.
Proof. split; [repeat constructor; done|repeat constructor; done|by do 2 eexists|apply unmarked_empty|apply unmarked_empty]. Qed.

Definition menu_part (detail : option nat) : search_part := SearchPart menu_start detail 15 16 true false false [].

Lemma search_session_witness :
  ∃ s q, (initSearch ascii_upper (Some (js "queue")) (menu_part None) ≫=
      page_events ascii_upper [User (Type_into 1 (js "job x")); Engine_ready; User Escape; User (Type_into 0 (js "job"))]) = Some s ∧
    Forall (eq (js "job")) (fields (sp_page s)) ∧ mark ascii_upper (set_stored (Some (js "job")) menu_start) = Some q ∧ p_doc (sp_page s) = p_doc q.
Proof.
  destruct (search_session ascii_upper (menu_part None) (Some (js "queue")) [User (Type_into 1 (js "job x")); Engine_ready; User Escape; User (Type_into 0 (js "job"))])
    as (s & q & H1 & H2 & _ & H3 & _ & H4).
  - done.
  - apply menu_start_plain.
  - done.
  - by repeat constructor.
  - done.
  - repeat constructor; cbn; lia.
  - exists s, q. split; [exact H1|]. split; [exact H2|]. split; [exact H3|]. apply H4. discriminate.
Defined.

(** A second match below the same entry opens the next entry inside it, which
    has no match at all. *)
Lemma second_match_opens_other_entry :
  (λ p, (looks (menus p !!! 4%nat), looks (menus p !!! 10%nat))) <$> mark ascii_upper (set_stored (Some (js "job")) menu_start) =
  Some ((true, true, Some (js "false")), (true, true, Some (js "false"))) ∧
  (λ p, looks (menus p !!! 10%nat)) <$> mark ascii_upper (set_stored (Some (js "jobs")) menu_start) = Some (false, false, None).
Proof. vm_compute. split; reflexivity. Qed.

(** On the search page the term of the address is marked when the page is
    loaded, and marked again, without unmarking, when the results arrive: this
    opens one more entry, and clearing the fields leaves it open. *)
Lemma search_page_marks_again :
  let run evs := initSearch ascii_upper (Some (js "jobs")) (menu_part (Some 1%nat)) ≫= page_events ascii_upper evs in
  let queues s := looks (menus (sp_page s) !!! 10%nat) in
  queues <$> run [Engine_ready] = Some (false, false, None) ∧
  sp_asked <$> run [Engine_ready] = Some [js "jobs"] ∧
  queues <$> run [Engine_ready; Answered (js "1 result") [Elem (el 20 "a" "") [txt "Jobs"]]; User Escape] = Some (true, true, Some (js "false")).
Proof. vm_compute. split_and!; reflexivity. Qed.
