(* ===== verification/Flyouts.v ===== *)
(** * The sidebar, the flyouts of the topbar and the keyboard (theme.js, from
    [initMenuScrollbar] to [initSwipeHandler])

    On small screens the sidebar is a flyout, and buttons of the topbar open
    flyouts of their own. Classes of the body and of the buttons say what is
    open. *)

From S2P Require Import Prelude JSValue.

(** ** State *)

(** What has the focus: the content, a scroll bar, an element. *)
Inductive focus :=
  | On_content | On_nav_scrollbar | On_button_scrollbar (button : nat)
  | On_nav_link | On_button_link (button : nat) | On_search | On_other.

(** [button_open]: the buttons with class topbar-flyout. *)
Record chrome := Chrome {
  sidebar_flyout : bool;          (* classes of the body *)
  topbar_flyout : bool;
  button_open : gset nat;
  focused : focus;
  swipe : option (Z * Z)          (* startx, starty *)
}.
Definition set_sidebar b (c : chrome) := Chrome b (topbar_flyout c) (button_open c) (focused c) (swipe c).
Definition set_topbar b o (c : chrome) := Chrome (sidebar_flyout c) b o (focused c) (swipe c).
Definition set_focus f (c : chrome) := Chrome (sidebar_flyout c) (topbar_flyout c) (button_open c) f (swipe c).
Definition set_swipe s (c : chrome) := Chrome (sidebar_flyout c) (topbar_flyout c) (button_open c) (focused c) s.

(** What the page has. *)
Record furniture := Furniture {
  topbar_buttons : list nat;      (* in document order *)
  with_scrollbar : nat → bool;    (* pst.get(button) *)
  with_link : nat → bool;         (* has an a in its flyout *)
  nav_scrollbar : bool;           (* psm *)
  nav_link : bool;                (* #R-sidebar a *)
  search_field : bool;            (* #R-search-by *)
  toc_button : option nat;
  edit_link : bool;
  print_link : bool
}.

Section flyouts.
Context (p : furniture).

(** ** Sidebar and flyouts *)

Definition documentFocus (c : chrome) : chrome := set_focus On_content c.

Definition closeNav (c : chrome) : chrome := documentFocus (set_sidebar false c).

Definition closeTopbarButtonFlyout (button : nat) (c : chrome) : chrome :=
  documentFocus (set_topbar false (button_open c ∖ {[button]}) c).
(** [document.querySelector('.topbar-button.topbar-flyout')] *)
Definition someButton (c : chrome) : option nat := snd <$> list_find (λ b, b ∈ button_open c) (topbar_buttons p).
Definition closeSomeTopbarButtonFlyout (c : chrome) : chrome * option nat :=
  match someButton c with
  | Some b => (closeTopbarButtonFlyout b c, Some b)
  | None => (c, None)
  end.

Definition openNav (c : chrome) : chrome :=
  let c := set_sidebar true (closeSomeTopbarButtonFlyout c).1 in
  let c := if nav_scrollbar p then set_focus On_nav_scrollbar c else c in
  if nav_link p then set_focus On_nav_link c else c.
Definition toggleNav (c : chrome) : chrome := if sidebar_flyout c then closeNav c else openNav c.

Definition openTopbarButtonFlyout (button : nat) (c : chrome) : chrome :=
  let c := closeNav c in
  let c := set_topbar true ({[button]} ∪ button_open c) c in
  let c := if with_scrollbar p button then set_focus (On_button_scrollbar button) c else c in
  if with_link p button then set_focus (On_button_link button) c else c.
Definition toggleTopbarButtonFlyout (button : option nat) (c : chrome) : chrome :=
  let '(c, some) := closeSomeTopbarButtonFlyout c in
  match button with
  | Some b => if bool_decide (some = Some b) then c else openTopbarButtonFlyout b c
  | None => c
  end.

(** An element by the ancestors up from it: the topbar buttons among them. *)
Definition getTopbarButtonParent (ancestors : list (option nat)) : option nat := head (omap id ancestors).
Definition toggleTopbarFlyout (ancestors : list (option nat)) (c : chrome) : chrome :=
  match getTopbarButtonParent ancestors with
  | Some b => toggleTopbarButtonFlyout (Some b) c
  | None => c
  end.
(** A click in the flyout, on an element with some classes. *)
Definition scrollbar_classes : list jsstr :=
  js <$> ["topbar-content"; "topbar-content-wrapper"; "ps__rail-x"; "ps__rail-y"; "ps__thumb-x"; "ps__thumb-y"]%string.
Definition toggleTopbarFlyoutEvent (classes : list jsstr) (ancestors : list (option nat)) (c : chrome) : chrome :=
  if existsb (λ k, bool_decide (k ∈ classes)) scrollbar_classes then c else toggleTopbarFlyout ancestors c.
Definition toggleToc (c : chrome) : chrome := toggleTopbarButtonFlyout (toc_button p) c.

Definition showSearch (c : chrome) : chrome :=
  if search_field p then
    match focused c with
    | On_search => documentFocus (if sidebar_flyout c then closeNav c else c)
    | _ => set_focus On_search (if sidebar_flyout c then c else openNav c)
    end
  else c.

(** ** Keys *)

Record key_event := Key { shiftKey : bool; ctrlKey : bool; altKey : bool; metaKey : bool; key : jsstr; which : N; on_form : bool; hovered : bool }.
Definition shortcut (letter : N) (e : key_event) : bool :=
  negb (shiftKey e) && altKey e && ctrlKey e && negb (metaKey e) && (which e =? letter)%N.
Definition escape_key (e : key_event) : bool := bool_decide (key e = js "Escape").

(** A link that is clicked leaves the page. *)
Inductive action := Follow_edit | Follow_print.
Definition editShortcutHandler (e : key_event) : list action := if shortcut 87 e && edit_link p then [Follow_edit] else [].
Definition printShortcutHandler (e : key_event) : list action := if shortcut 80 e && print_link p then [Follow_print] else [].
Definition navShortcutHandler (e : key_event) (c : chrome) : chrome := if shortcut 78 e then toggleNav c else c.
Definition searchShortcutHandler (e : key_event) (c : chrome) : chrome := if shortcut 70 e then showSearch c else c.
Definition tocShortcutHandler (e : key_event) (c : chrome) : chrome := if shortcut 84 e then toggleToc c else c.
Definition navEscapeHandler (e : key_event) (c : chrome) : chrome := if escape_key e then closeNav c else c.
Definition topbarFlyoutEscapeHandler (e : key_event) (c : chrome) : chrome :=
  if escape_key e then (closeSomeTopbarButtonFlyout c).1 else c.

(** The keys that scroll go to the flyout that is open. *)
Definition scrollKeyHandler (e : key_event) (c : chrome) : chrome :=
  if shiftKey e || altKey e || ctrlKey e || metaKey e || (which e <? 32)%N || (40 <? which e)%N then c
  else if hovered e || on_form e then c
  else if topbar_flyout c then
    match someButton c with Some b => if with_scrollbar p b then set_focus (On_button_scrollbar b) c else c | None => c end
  else if sidebar_flyout c then (if nav_scrollbar p then set_focus On_nav_scrollbar c else c)
  else set_focus On_content c.

(** The variable [autofocus] is set at first; the listener above unsets it, and
    one that is added after those of the scroll bars takes the focus from them
    where it is set. *)
Definition scrollFocusHandler (e : key_event) (s : bool * chrome) : bool * chrome := (false, scrollKeyHandler e s.2).
Definition unfocusHandler (s : bool * chrome) : bool * chrome :=
  let '(autofocus, c) := s in
  if autofocus then
    (false, match focused c with On_nav_scrollbar | On_button_scrollbar _ => set_focus On_other c | _ => c end)
  else (autofocus, c).
(** All listeners of [keydown], in the order they were added; that of
    [unfocusHandler] is left out, it never finds [autofocus] set
    ([scrollbar_keeps_focus]). *)
Definition keydown (e : key_event) (c : chrome) : chrome * list action :=
  let c := scrollKeyHandler e c in
  let a := editShortcutHandler e in
  let c := navShortcutHandler e c in
  let a := a ++ printShortcutHandler e in
  let c := searchShortcutHandler e c in
  let c := tocShortcutHandler e c in
  let c := navEscapeHandler e c in
  let c := topbarFlyoutEscapeHandler e c in
  (c, a).

Lemma scrollbar_keeps_focus e autofocus c : unfocusHandler (scrollFocusHandler e (autofocus, c)) = (false, scrollKeyHandler e c).
Proof. done. Qed.

(** ** Swiping the sidebar away *)

Definition handleStartX (x y : Z) (c : chrome) : chrome := set_swipe (Some (x, y)) c.
(** [diffx / Math.abs(diffy) < 2], where a [diffy] of zero counts as 0.1. *)
Definition mostly_vertical (diffx diffy : Z) : bool :=
  if (diffy =? 0)%Z then (10 * diffx <? 2)%Z else (diffx <? 2 * Z.abs diffy)%Z.
Definition handleMoveX (x y : Z) (c : chrome) : chrome :=
  match swipe c with
  | Some (startx, starty) =>
      let diffx := (startx - x)%Z in
      let diffy := (starty - y)%Z in
      if mostly_vertical diffx diffy then set_swipe (Some (x, starty)) c
      else if (30 <? diffx)%Z then closeNav (set_swipe None c)
      else c
  | None => c
  end.
Definition handleEndX (c : chrome) : chrome := set_swipe None c.

(** ** Events *)
Inductive chrome_event :=
  | Keydown (e : key_event)
  | Click_flyout (classes : list jsstr) (ancestors : list (option nat))   (* inside a flyout *)
  | Click_button (b : nat)                                                (* onclick of a button *)
  | Click_nav | Click_body_overlay | Click_main_overlay | Focus_other
  | Touchstart (x y : Z) | Touchmove (x y : Z) | Touchend.
Definition chrome_step (ev : chrome_event) (c : chrome) : chrome :=
  match ev with
  | Keydown e => (keydown e c).1
  | Click_flyout classes ancestors => toggleTopbarFlyoutEvent classes ancestors c
  | Click_button b => toggleTopbarFlyout [Some b] c
  | Click_nav => toggleNav c
  | Click_body_overlay => closeNav c
  | Click_main_overlay => (closeSomeTopbarButtonFlyout c).1
  | Focus_other => set_focus On_other c
  | Touchstart x y => handleStartX x y c
  | Touchmove x y => handleMoveX x y c
  | Touchend => handleEndX c
  end.
Definition chrome_run (evs : list chrome_event) (c : chrome) : chrome := foldl (flip chrome_step) c evs.
(** After [initToc]. *)
Definition chrome_start : chrome := Chrome false false ∅ On_content None.

(** ** At most one flyout *)

(** Events come from elements of the page. *)
Definition of_page (ev : chrome_event) : Prop :=
  match ev with
  | Click_flyout _ ancestors => ∀ b, Some b ∈ ancestors → b ∈ topbar_buttons p
  | Click_button b => b ∈ topbar_buttons p
  | _ => True
  end.

(** The sidebar, or one button, or nothing. *)
Inductive one_flyout (c : chrome) : Prop :=
  | only_sidebar : topbar_flyout c = false → button_open c = ∅ → one_flyout c
  | only_button b : sidebar_flyout c = false → topbar_flyout c = true → button_open c = {[b]} → b ∈ topbar_buttons p → one_flyout c.

Lemma someButton_none c : button_open c = ∅ → someButton c = None.
Proof. intros Ho. unfold someButton. apply fmap_None, list_find_None, Forall_true. rewrite Ho. set_solver. Qed.
Lemma someButton_one c b : button_open c = {[b]} → b ∈ topbar_buttons p → someButton c = Some b.
Proof.
  intros Ho Hb. unfold someButton. destruct (list_find (λ k, k ∈ button_open c) (topbar_buttons p)) as [[i k]|] eqn:Hf; simpl.
  - apply list_find_Some in Hf as (_ & Hk & _). rewrite Ho in Hk. f_equal. set_solver.
  - apply list_find_None in Hf. rewrite Forall_forall in Hf. destruct (Hf b Hb). rewrite Ho. set_solver.
Qed.

Lemma one_flyout_closed c : topbar_flyout c = false → button_open c = ∅ → ∀ f, one_flyout (set_focus f c).
Proof. intros ? ? f. by apply only_sidebar. Qed.
Lemma one_flyout_focus f c : one_flyout (set_focus f c) ↔ one_flyout c.
Proof. split; (intros [?|b]; [by apply only_sidebar|by apply (only_button _ b)]). Qed.
Lemma closeSome_closes c : one_flyout c →
  let c' := (closeSomeTopbarButtonFlyout c).1 in topbar_flyout c' = false ∧ button_open c' = ∅ ∧ sidebar_flyout c' = sidebar_flyout c.
Proof.
  unfold closeSomeTopbarButtonFlyout. intros [Ht Ho|b Hs Ht Ho Hb].
  - by rewrite someButton_none.
  - rewrite (someButton_one _ b) by done. cbn. rewrite Ho. split_and!; [done|set_solver|done].
Qed.
Lemma closeNav_one c : one_flyout c → one_flyout (closeNav c).
Proof. unfold closeNav, documentFocus. rewrite one_flyout_focus. intros [?|b]; [by apply only_sidebar|by apply (only_button _ b)]. Qed.
Lemma openNav_one c : one_flyout c → one_flyout (openNav c).
Proof.
  intros Hc. pose proof (closeSome_closes c Hc) as (Ht & Ho & _). unfold openNav.
  assert (one_flyout (set_sidebar true (closeSomeTopbarButtonFlyout c).1)) by by apply only_sidebar.
  by destruct (nav_scrollbar p), (nav_link p); rewrite ?one_flyout_focus.
Qed.
Lemma toggleNav_one c : one_flyout c → one_flyout (toggleNav c).
Proof. unfold toggleNav. destruct (sidebar_flyout c); [apply closeNav_one|apply openNav_one]. Qed.
Lemma closeSome_one c : one_flyout c → one_flyout (closeSomeTopbarButtonFlyout c).1.
Proof. intros Hc. destruct (closeSome_closes c Hc) as (? & ? & _). by apply only_sidebar. Qed.
Lemma toggleButton_one b c : (∀ k, b = Some k → k ∈ topbar_buttons p) → one_flyout c → one_flyout (toggleTopbarButtonFlyout b c).
Proof.
  intros Hb Hc. unfold toggleTopbarButtonFlyout. pose proof (closeSome_closes c Hc) as (Ht & Ho & _). pose proof (closeSome_one c Hc).
  destruct (closeSomeTopbarButtonFlyout c) as [c' some]. destruct b as [b|]; [|done]. case_bool_decide; [done|].
  unfold openTopbarButtonFlyout, closeNav, documentFocus. cbn in Ho.
  assert (one_flyout (set_topbar true ({[b]} ∪ button_open c') (set_focus On_content (set_sidebar false c')))) as Hone.
  { apply (only_button _ b); cbn; [done|done|rewrite Ho; set_solver|by apply Hb]. }
  cbn in Hone |- *. by destruct (with_scrollbar p b), (with_link p b); rewrite ?one_flyout_focus.
Qed.
Lemma toggleFlyout_one l c : (∀ b, Some b ∈ l → b ∈ topbar_buttons p) → one_flyout c → one_flyout (toggleTopbarFlyout l c).
Proof.
  intros Hl Hc. unfold toggleTopbarFlyout. destruct (getTopbarButtonParent l) as [b|] eqn:Hb; [|done].
  apply toggleButton_one; [|done]. intros k [= <-]. apply Hl. unfold getTopbarButtonParent in Hb.
  clear Hl. induction l as [|[k|] l IH]; simpl in *; [done|injection Hb as ->; by left|right; by apply IH].
Qed.
Lemma showSearch_one c : one_flyout c → one_flyout (showSearch c).
Proof.
  intros Hc. unfold showSearch. destruct (search_field p); [|done].
  destruct (focused c), (sidebar_flyout c); unfold documentFocus; rewrite ?one_flyout_focus; auto using closeNav_one, openNav_one.
Qed.
Lemma keydown_one e c : (∀ k, toc_button p = Some k → k ∈ topbar_buttons p) → one_flyout c → one_flyout (keydown e c).1.
Proof.
  intros Htoc Hc. unfold keydown. cbn [fst].
  unfold topbarFlyoutEscapeHandler, navEscapeHandler, tocShortcutHandler, searchShortcutHandler, navShortcutHandler, toggleToc.
  assert (one_flyout (scrollKeyHandler e c)) as Hs.
  { unfold scrollKeyHandler. destruct (shiftKey e || _ || _ || _ || _ || _); [done|]. destruct (hovered e || on_form e); [done|].
    destruct (topbar_flyout c); [destruct (someButton c) as [b|]; [destruct (with_scrollbar p b)|]; by rewrite ?one_flyout_focus|].
    destruct (sidebar_flyout c); [destruct (nav_scrollbar p)|]; by rewrite ?one_flyout_focus. }
  revert Hs. generalize (scrollKeyHandler e c). intros c1 Hc1.
  destruct (shortcut 78 e), (shortcut 70 e), (shortcut 84 e), (escape_key e);
    auto 10 using closeSome_one, closeNav_one, toggleButton_one, showSearch_one, toggleNav_one.
Qed.

Lemma chrome_step_one ev c :
  (∀ k, toc_button p = Some k → k ∈ topbar_buttons p) → of_page ev → one_flyout c → one_flyout (chrome_step ev c).
Proof.
  intros Htoc Hev Hc. destruct ev as [e|cl l|b| | | | |x y|x y|]; cbn [chrome_step of_page] in *.
  - by apply keydown_one.
  - unfold toggleTopbarFlyoutEvent. destruct (existsb _ _); [done|]. by apply toggleFlyout_one.
  - apply toggleFlyout_one; [|done]. intros k Hk. apply list_elem_of_singleton in Hk as [= ->]. done.
  - by apply toggleNav_one.
  - by apply closeNav_one.
  - by apply closeSome_one.
  - by rewrite one_flyout_focus.
  - destruct Hc as [?|k]; [by apply only_sidebar|by apply (only_button _ k)].
  - unfold handleMoveX. destruct (swipe c) as [[sx sy]|]; [|done]. destruct (mostly_vertical _ _); [|destruct (30 <? sx - x)%Z; [apply closeNav_one|done]].
    all: destruct Hc as [?|k]; [by apply only_sidebar|by apply (only_button _ k)].
  - destruct Hc as [?|k]; [by apply only_sidebar|by apply (only_button _ k)].
Qed.

(** C34. At most one flyout is open at any time, and the classes agree: after
    any sequence of keys, clicks and touches the sidebar and the topbar are
    never both flown out, no two buttons are, the class of the body says
    whether one is, and Escape closes whatever is open and gives the focus
    back to the content. *)
Theorem flyouts_exclusive (evs : list chrome_event) (e : key_event) :
  (∀ k, toc_button p = Some k → k ∈ topbar_buttons p) → Forall of_page evs →
  let c := chrome_run evs chrome_start in
  ¬ (sidebar_flyout c = true ∧ topbar_flyout c = true) ∧
  (topbar_flyout c = true ↔ ∃ b, b ∈ button_open c) ∧
  (∀ b b', b ∈ button_open c → b' ∈ button_open c → b = b') ∧
  (escape_key e = true → which e = 27%N →
   let c' := (keydown e c).1 in sidebar_flyout c' = false ∧ topbar_flyout c' = false ∧ button_open c' = ∅ ∧ focused c' = On_content).
Proof.
  intros Htoc Hevs c. assert (one_flyout c) as Hc.
  { unfold c, chrome_run. assert (one_flyout chrome_start) as H0 by by apply only_sidebar. revert H0. generalize chrome_start.
    induction Hevs as [|ev evs Hev Hevs IH]; intros c0 Hc0; [done|]. simpl. apply IH. by apply chrome_step_one. }
  clearbody c. split_and!.
  - destruct Hc; intros []; congruence.
  - destruct Hc as [Ht Ho|b Hs Ht Ho _]; rewrite Ht, Ho; set_solver.
  - destruct Hc as [Ht Ho|b Hs Ht Ho _]; rewrite Ho; set_solver.
  - intros He Hw. unfold keydown. cbn [fst].
    assert (scrollKeyHandler e c = c) as ->.
    { unfold scrollKeyHandler. rewrite Hw. by destruct (shiftKey e), (altKey e), (ctrlKey e), (metaKey e). }
    unfold navShortcutHandler, searchShortcutHandler, tocShortcutHandler, shortcut, navEscapeHandler, topbarFlyoutEscapeHandler.
    rewrite Hw, He, !andb_false_r. cbn zeta. pose proof (closeNav_one c Hc) as Hn.
    destruct (closeSome_closes _ Hn) as (Ht & Ho & Hs). rewrite Hs, Ht, Ho. split_and!; [done..|].
    unfold closeSomeTopbarButtonFlyout. by destruct (someButton (closeNav c)).
Qed.
End flyouts.

(** A page with a table of contents and a menu of more buttons. *)
Definition two_buttons : furniture :=
  Furniture [1%nat; 2%nat] (λ _, true) (λ b, (b =? 1)%nat) true true true (Some 1%nat) true true.
Definition plain_key (k : string) (w : N) : key_event := Key false false false false (js k) w false false.
Definition alt_ctrl (w : N) : key_event := Key false true true false [w] w false false.
Lemma flyouts_exclusive_witness :
  let c := chrome_run two_buttons [Keydown (alt_ctrl 78); Click_button 2; Keydown (alt_ctrl 84)] chrome_start in
  topbar_flyout c = true ∧ ¬ (sidebar_flyout c = true ∧ topbar_flyout c = true) ∧
  focused (keydown two_buttons (plain_key "Escape" 27) c).1 = On_content.
Proof.
  destruct (flyouts_exclusive two_buttons [Keydown (alt_ctrl 78); Click_button 2; Keydown (alt_ctrl 84)] (plain_key "Escape" 27))
    as (H1 & _ & _ & H2).
  - intros k [= <-]. by left.
  - repeat constructor.
  - split; [vm_compute; reflexivity|]. split; [exact H1|]. apply H2; vm_compute; reflexivity.
Defined.
