(* ===== verification/Tabs.v ===== *)
(** * Tabs (theme.js, functions [fixCodeTabs], [switchTab],
    [restoreTabSelections])

    Panels of tabs with the same group switch together, and the choice is kept
    in the local storage for other pages and later visits. *)

From S2P Require Import Prelude JSValue JSColl.

(** An element with [data-tab-item]: a button or a content. *)
Record tab_element := TabElement {
  tab_item : jsstr;
  is_button : bool;
  tab_active : bool;            (* class active *)
  aria_expanded : option bool;
  has_tabindex : bool;
  style_initial : bool;         (* class initial *)
  style_code : bool;            (* class code *)
  codify : bool;                (* class codify *)
  single_code : bool            (* contains nothing but a block of code *)
}.
(** [inner_items]: the values of [data-tab-item] in panels inside this one. *)
Record tab_panel := TabPanel { tab_group : jsstr; tab_elements : list tab_element; inner_items : list jsstr }.

Definition set_active (b : bool) (e : tab_element) : tab_element :=
  TabElement (tab_item e) (is_button e) b (Some b) b (style_initial e) (style_code e) (codify e) (single_code e).
Definition set_elements l (p : tab_panel) : tab_panel := TabPanel (tab_group p) l (inner_items p).

(** ** Code blocks *)

Definition initial_to_code (e : tab_element) : tab_element :=
  TabElement (tab_item e) (is_button e) (tab_active e) (aria_expanded e) (has_tabindex e) false true (codify e) (single_code e).
Definition set_codify (e : tab_element) : tab_element :=
  TabElement (tab_item e) (is_button e) (tab_active e) (aria_expanded e) (has_tabindex e) (style_initial e) (style_code e) true (single_code e).
(** One content, the [i]th element of its panel; it needs its button. *)
Definition fix_content (l : list tab_element) (i : nat) : option (list tab_element) :=
  match l !! i with
  | Some c =>
      if negb (is_button c) && single_code c then
        if style_initial c then
          '(j, b) ← list_find (λ b, is_button b = true ∧ tab_item b = tab_item c) l;
          Some (<[i := set_codify (initial_to_code c)]> (<[j := initial_to_code b]> l))
        else Some (<[i := set_codify c]> l)
      else Some l
  | None => Some l
  end.
Definition fix_panel (p : tab_panel) : option tab_panel :=
  (λ l, set_elements l p) <$> foldl (λ l i, l ≫= λ l, fix_content l i) (Some (tab_elements p)) (seq 0 (length (tab_elements p))).
Definition fixCodeTabs (ps : list tab_panel) : option (list tab_panel) := mapM fix_panel ps.

(** ** Switching *)

(** [e.querySelector('[data-tab-item=…]')] also looks into inner panels. *)
Definition contains_item (i : jsstr) (p : tab_panel) : bool :=
  bool_decide (i ∈ (tab_item <$> tab_elements p) ++ inner_items p).
Definition switch_panel (g i : jsstr) (p : tab_panel) : tab_panel :=
  if bool_decide (tab_group p = g) && contains_item i p then
    set_elements ((λ e, if bool_decide (tab_item e = i) then set_active true (set_active false e) else set_active false e) <$> tab_elements p) p
  else p.

(** The panels of the page and the object kept in the storage. *)
Record tabs := Tabs { panels : list tab_panel; tab_selections : option (list (jsstr * jsstr)) }.
Definition switchTab (button_event : bool) (g i : jsstr) (t : tabs) : tabs :=
  let ps := switch_panel g i <$> panels t in
  if button_event then Tabs ps (Some (jm_set g i (default [] (tab_selections t)))) else Tabs ps (tab_selections t).
Definition restoreTabSelections (t : tabs) : tabs :=
  foldl (λ t p, switchTab false p.1 p.2 t) t (obj_entries (default [] (tab_selections t))).

(** Clicks, each on a button of a panel. *)
Definition tab_clicks (cs : list (jsstr * jsstr)) (t : tabs) : tabs := foldl (λ t c, switchTab true c.1 c.2 t) t cs.

(** ** Theorems *)

Lemma switch_panel_group g i p : tab_group (switch_panel g i p) = tab_group p.
Proof. unfold switch_panel. by destruct (_ && _). Qed.
Lemma switch_panel_contains j g i p : contains_item j (switch_panel g i p) = contains_item j p.
Proof.
  unfold switch_panel. destruct (_ && _); [|done]. unfold contains_item, set_elements. cbn [tab_elements inner_items].
  rewrite <-list_fmap_compose. erewrite (list_fmap_ext (tab_item ∘ _)); [done|]. intros k e _. simpl. by case_bool_decide.
Qed.
(** A later choice in the same panel takes over. *)
Lemma switch_panel_again g i j p : contains_item j p = true → switch_panel g j (switch_panel g i p) = switch_panel g j p.
Proof.
  intros Hj. unfold switch_panel at 1 3. rewrite switch_panel_group, switch_panel_contains, Hj.
  unfold switch_panel. case_bool_decide; [|done]. cbn [andb]. destruct (contains_item i p); [|done].
  unfold set_elements. cbn [tab_group tab_elements inner_items]. f_equal. rewrite <-list_fmap_compose.
  apply list_fmap_ext. intros k e _. simpl. by repeat case_bool_decide.
Qed.

Definition restore_panel (l : list (jsstr * jsstr)) (p : tab_panel) : tab_panel := foldl (λ p s, switch_panel s.1 s.2 p) p l.
Lemma restore_other l p : tab_group p ∉ l.*1 → restore_panel l p = p.
Proof.
  unfold restore_panel. induction l as [|[g i] l IH]; intros Hg; [done|]. csimpl in *. rewrite <-IH at 2 by set_solver.
  f_equal. unfold switch_panel. rewrite bool_decide_eq_false_2 by set_solver. done.
Qed.
Lemma restore_panel_spec l p :
  jm_wf l → restore_panel l p = match jm_get (tab_group p) l with Some i => switch_panel (tab_group p) i p | None => p end.
Proof.
  unfold jm_wf, restore_panel. induction l as [|[g i] l IH]; [done|]. csimpl. intros [Hg Hl]%NoDup_cons.
  case_decide as Hd.
  - subst g. apply restore_other. by rewrite switch_panel_group.
  - rewrite <-IH by done. f_equal. unfold switch_panel. by rewrite bool_decide_eq_false_2 by congruence.
Qed.
Lemma restore_tabs ps s :
  panels (restoreTabSelections (Tabs ps s)) = restore_panel (obj_entries (default [] s)) <$> ps ∧
  tab_selections (restoreTabSelections (Tabs ps s)) = s.
Proof.
  unfold restoreTabSelections. cbn [tab_selections]. generalize (obj_entries (default [] s)) as l. intros l. revert ps.
  induction l as [|[g i] l IH]; intros ps; cbn [foldl].
  - split; [|done]. simpl. symmetry. apply list_fmap_id.
  - unfold switchTab at 2 4. cbn [panels tab_selections fst snd]. destruct (IH (switch_panel g i <$> ps)) as [-> ->].
    split; [|done]. by rewrite <-list_fmap_compose.
Qed.
Lemma restore_perm l p : jm_wf l → restore_panel (obj_entries l) p = restore_panel l p.
Proof.
  intros Hl. rewrite !restore_panel_spec by (done || by apply obj_entries_wf). by rewrite obj_entries_get.
Qed.

(** The panels of a group offer the same tabs. *)
Definition same_offer (ps : list tab_panel) : Prop :=
  ∀ p q, p ∈ ps → q ∈ ps → tab_group p = tab_group q → ∀ i, contains_item i p = contains_item i q.
Definition click_on (ps : list tab_panel) (c : jsstr * jsstr) : Prop :=
  ∃ p, p ∈ ps ∧ tab_group p = c.1 ∧ contains_item c.2 p = true.

(** C36. The choice of tabs survives: on a page where the panels of a group
    offer the same tabs, the panels after any clicks are as they are after
    loading the page again with what the storage holds then. *)
Theorem tabs_persist (ps : list tab_panel) (s : list (jsstr * jsstr)) (cs : list (jsstr * jsstr)) :
  jm_wf s → same_offer ps → Forall (click_on ps) cs →
  let t := tab_clicks cs (restoreTabSelections (Tabs ps (Some s))) in
  panels (restoreTabSelections (Tabs ps (tab_selections t))) = panels t.
Proof.
  intros Hs Hps Hcs. assert (∀ s t, jm_wf s → panels t = restore_panel s <$> ps → tab_selections t = Some s →
    ∃ s', jm_wf s' ∧ panels (tab_clicks cs t) = restore_panel s' <$> ps ∧ tab_selections (tab_clicks cs t) = Some s') as Hrun.
  { induction Hcs as [|[g i] cs Hc Hcs IH]; intros s0 t Hs0 Hp Hsel; [by exists s0|]. cbn [tab_clicks foldl fst snd].
    apply (IH (jm_set g i s0)); [by apply jm_wf_set| |unfold switchTab; by rewrite Hsel].
    unfold switchTab. cbn [panels]. rewrite Hp, <-list_fmap_compose. apply list_fmap_ext. intros k p Hk%list_elem_of_lookup_2. simpl.
    rewrite !restore_panel_spec by (try apply jm_wf_set; done). rewrite jm_get_set.
    destruct (decide (tab_group p = g)) as [<-|Hg].
    - destruct Hc as (q & Hq & Hgq & Hcq). cbn in Hgq, Hcq. rewrite (Hps q p) in Hcq by done.
      destruct (jm_get (tab_group p) s0) as [j|]; [|done]. by apply switch_panel_again.
    - unfold switch_panel at 1. rewrite bool_decide_eq_false_2; [done|].
      destruct (jm_get _ _); by rewrite ?switch_panel_group. }
  cbn zeta. destruct (restore_tabs ps (Some s)) as [Hp0 Hs0].
  destruct (Hrun s (restoreTabSelections (Tabs ps (Some s))) Hs) as (s' & Hs' & -> & ->); [|done|].
  - rewrite Hp0. apply list_fmap_ext. intros k p _. by apply restore_perm.
  - destruct (restore_tabs ps (Some s')) as [-> _]. apply list_fmap_ext. intros k p _. by apply restore_perm.
Qed.

(** What a choice does to a panel. *)
Lemma switch_panel_spec g i p e :
  tab_group p = g → contains_item i p = true → e ∈ tab_elements (switch_panel g i p) →
  tab_active e = bool_decide (tab_item e = i) ∧ aria_expanded e = Some (tab_active e) ∧ has_tabindex e = tab_active e.
Proof.
  intros Hg Hi. unfold switch_panel. rewrite bool_decide_eq_true_2, Hi by done. cbn. intros (d & -> & _)%list_elem_of_fmap.
  case_bool_decide as Hd; cbn; [by rewrite bool_decide_eq_true_2|by rewrite bool_decide_eq_false_2].
Qed.

(** ** Examples *)
Definition tab (i : string) (button active : bool) : tab_element := TabElement (js i) button active (Some active) active false false false false.
Definition os_panel : tab_panel := TabPanel (js "os") [tab "linux" true true; tab "mac" true false; tab "linux" false true; tab "mac" false false] [].
Definition shell_panel : tab_panel := TabPanel (js "shell") [tab "bash" true true; tab "fish" true false; tab "bash" false true; tab "fish" false false] [].

Lemma tabs_persist_witness :
  let t := tab_clicks [(js "os", js "mac"); (js "shell", js "fish"); (js "os", js "linux"); (js "os", js "mac")]
    (restoreTabSelections (Tabs [os_panel; shell_panel; os_panel] (Some [(js "os", js "linux")]))) in
  panels (restoreTabSelections (Tabs [os_panel; shell_panel; os_panel] (tab_selections t))) = panels t ∧
  tab_active <$> (panels t ≫= tab_elements) = [false; true; false; true; false; true; false; true; false; true; false; true].
Proof.
  split; [|vm_compute; reflexivity]. apply (tabs_persist _ [(js "os", js "linux")]).
  - apply NoDup_singleton.
  - intros p q Hp Hq Hg i. rewrite !elem_of_cons in Hp, Hq. destruct Hp as [->|[->|[->|[]%not_elem_of_nil]]], Hq as [->|[->|[->|[]%not_elem_of_nil]]]; done.
  - repeat constructor; (exists os_panel; split; [by left|done]) || (exists shell_panel; split; [right; by left|done]).
Defined.

(** Where the panels of a group offer different tabs, a panel loses its choice:
    the storage keeps the last one of the group. *)
Definition os_panel2 : tab_panel := TabPanel (js "os") [tab "linux" true true; tab "mac" true false; tab "bsd" true false] [].
Lemma other_offer_forgets :
  let t := tab_clicks [(js "os", js "mac"); (js "os", js "bsd")] (Tabs [os_panel; os_panel2] None) in
  (tab_active <$> (panels t ≫= tab_elements), tab_active <$> (panels (restoreTabSelections (Tabs [os_panel; os_panel2] (tab_selections t))) ≫= tab_elements)) =
  ([false; true; false; true; false; false; true], [true; false; true; false; false; false; true]).
Proof. vm_compute. reflexivity. Qed.

(** A choice in an inner panel of the same group leaves the outer one without
    an active tab, which hides the inner panel itself. *)
Lemma inner_choice_hides_outer :
  let outer := TabPanel (js "os") (tab_elements os_panel) [js "arch"; js "debian"] in
  tab_active <$> tab_elements (switch_panel (js "os") (js "arch") outer) = [false; false; false; false].
Proof. vm_compute. reflexivity. Qed.
