(* ===== verification/ScrollHistory.v ===== *)
(** * Scroll positions and visited pages (theme.js, from [clearHistory] to
    [scrollToPositions], and [debounce])

    The position of the content is kept in the session storage while the user
    scrolls, moves into the entry of the browser history when the page is left,
    and is taken from there when the user comes back. *)

From S2P Require Import Prelude JSValue JSColl WordPattern Dom Highlight SearchPage.

(** ** One timer for all that is debounced *)
Inductive debounced := Save_position | Mark_words.

Record scroller := Scroller {
  content_top : Z;                    (* elc.scrollTop *)
  kept_position : option Z;           (* the session storage at scrollPositionKey *)
  history_state : option hstate;      (* window.history.state *)
  isPrintPreview : bool;
  ticking : bool;
  frame_requested : bool;             (* the callback of requestAnimationFrame *)
  debounceTimeout : option debounced;
  marked_again : nat                  (* how often a debounced mark ran *)
}.
Definition set_top z (s : scroller) := Scroller z (kept_position s) (history_state s) (isPrintPreview s) (ticking s) (frame_requested s) (debounceTimeout s) (marked_again s).
Definition set_kept k (s : scroller) := Scroller (content_top s) k (history_state s) (isPrintPreview s) (ticking s) (frame_requested s) (debounceTimeout s) (marked_again s).
Definition set_hstate h (s : scroller) := Scroller (content_top s) (kept_position s) h (isPrintPreview s) (ticking s) (frame_requested s) (debounceTimeout s) (marked_again s).
Definition set_printing b (s : scroller) := Scroller (content_top s) (kept_position s) (history_state s) b (ticking s) (frame_requested s) (debounceTimeout s) (marked_again s).
Definition set_ticking b f (s : scroller) := Scroller (content_top s) (kept_position s) (history_state s) (isPrintPreview s) b f (debounceTimeout s) (marked_again s).
Definition set_debounce d (s : scroller) := Scroller (content_top s) (kept_position s) (history_state s) (isPrintPreview s) (ticking s) (frame_requested s) d (marked_again s).
Definition set_marked n (s : scroller) := Scroller (content_top s) (kept_position s) (history_state s) (isPrintPreview s) (ticking s) (frame_requested s) (debounceTimeout s) n.

(** [debounce(func, delay)()]: whatever was waiting is dropped. *)
Definition debounce (func : debounced) (s : scroller) : scroller := set_debounce (Some func) s.

Definition savePosition (s : scroller) : scroller := if isPrintPreview s then s else set_kept (Some (content_top s)) s.
(** The listener of [scroll]. *)
Definition on_scroll (z : Z) (s : scroller) : scroller :=
  let s := set_top z s in if ticking s then s else set_ticking true true s.
Definition on_frame (s : scroller) : scroller :=
  if frame_requested s then set_ticking false false (debounce Save_position s) else s.
Definition on_debounced (s : scroller) : scroller :=
  match debounceTimeout s with
  | Some Save_position => savePosition (set_debounce None s)
  | Some Mark_words => set_marked (S (marked_again s)) (set_debounce None s)
  | None => s
  end.

Definition transferScrollToHistory (s : scroller) : scroller :=
  if isPrintPreview s then s
  else match kept_position s with
       | Some z => set_kept None (set_hstate (Some (HState (h_search (default no_state (history_state s))) (Some z))) s)
       | None => s
       end.

Inductive scroll_event :=
  | Scroll (z : Z) | Frame | Debounced
  | Diagram_drawn                     (* postRenderCallback of a diagram *)
  | Leaving                           (* click, pagehide, beforeunload *)
  | Beforeprint | Afterprint.
Definition scroll_step (e : scroll_event) (s : scroller) : scroller :=
  match e with
  | Scroll z => on_scroll z s
  | Frame => on_frame s
  | Debounced => on_debounced s
  | Diagram_drawn => debounce Mark_words s
  | Leaving => transferScrollToHistory s
  | Beforeprint => set_printing true s
  | Afterprint => set_printing false s
  end.
Definition scroll_run (es : list scroll_event) (s : scroller) : scroller := foldl (flip scroll_step) s es.

(** ** Where a page is scrolled to *)

(** [Into_view] happens at once, the others after ten milliseconds. *)
Inductive scroll_target := Position (z : Z) | Into_view (e : element) | Fragment (hash : jsstr).
Section target.
Context (canonicalize : N → N).

(** [None]: nothing to do; the term kept for the page search comes before the
    fragment even when nothing is found. *)
Definition scroll_target_of (state : option hstate) (search : option jsstr) (content : dom) (hash : jsstr) : option scroll_target :=
  match h_scroll (default no_state state) with
  | Some z => Some (Position z)
  | None =>
      match words_of search with
      | (_ :: _) as words =>
          found ← elementContains canonicalize words content;
          Into_view <$> head found
      | [] => if (1 <? length hash)%nat then Some (Fragment hash) else None
      end
  end.
(** [scrollToPositions], on [popstate] and navigation, until its timers ran. *)
Definition scrollToPositions (search : option jsstr) (content : dom) (hash : jsstr) (s : scroller) : scroller :=
  match scroll_target_of (history_state s) search content hash with
  | Some (Position z) => on_scroll z s
  | _ => s
  end.
End target.

(** ** Visited pages *)

(** The session storage, and the entries of the menu: their [data-nav-id] and
    whether they have the class visited. *)
Record visits := Visits { storage : list (jsstr * jsstr); nav : list (jsstr * bool) }.
Section visits.
Context (visitedItem : jsstr).

Definition visited_url (item : jsstr) : option jsstr :=
  if bool_decide (take (length visitedItem) item = visitedItem) then Some (drop (length visitedItem) item) else None.
Definition set_visited (b : bool) (url : jsstr) (l : list (jsstr * bool)) : list (jsstr * bool) :=
  (λ p, if bool_decide (p.1 = url) then (p.1, b) else p) <$> l.

Definition clearHistory (v : visits) : visits :=
  foldl (λ v item,
      match visited_url item with
      | Some url => Visits (jm_delete item (storage v)) (set_visited false url (nav v))
      | None => v
      end) v (storage v).*1.
Definition initHistory (origin : jsstr) (v : visits) : visits :=
  let v := Visits (jm_set (visitedItem ++ origin) (js "1") (storage v)) (nav v) in
  foldl (λ v item,
      match visited_url item with
      | Some url => if bool_decide (jm_get item (storage v) = Some (js "1")) then Visits (storage v) (set_visited true url (nav v)) else v
      | None => v
      end) v (storage v).*1.
End visits.

(** ** Theorems *)

Definition no_scroll_yet (h : option hstate) : scroller := Scroller 0 None h false false false None 0.

Lemma frame_when_ticking es h : frame_requested (scroll_run es (no_scroll_yet h)) = ticking (scroll_run es (no_scroll_yet h)).
Proof.
  unfold scroll_run. assert (frame_requested (no_scroll_yet h) = ticking (no_scroll_yet h)) as H0 by done. revert H0.
  generalize (no_scroll_yet h). induction es as [|e es IH]; intros s Hs; [done|]. simpl. apply IH.
  destruct e; cbn [flip scroll_step].
  - unfold on_scroll. destruct (ticking (set_top z s)) eqn:Ht; [exact Hs|done].
  - unfold on_frame. destruct (frame_requested s) eqn:Hf; [done|congruence].
  - unfold on_debounced, savePosition. destruct (debounceTimeout s) as [[]|]; simpl; [by destruct (isPrintPreview s)|exact Hs..].
  - done.
  - unfold transferScrollToHistory. destruct (isPrintPreview s); [done|]. by destruct (kept_position s).
  - done.
  - done.
Qed.

(** C37. The user comes back to where he was: whatever happened before, once a
    position has been scrolled to and the frame and the debounced save ran,
    leaving the page puts it into the history entry (and nothing else of the
    entry changes), and returning to this entry scrolls there, whatever page
    search or fragment there is. *)
Theorem position_restored (canonicalize : N → N) (es : list scroll_event) (h : option hstate) (z : Z) search content hash (s' : scroller) :
  isPrintPreview (scroll_run es (no_scroll_yet h)) = false →
  let s := scroll_run (es ++ [Scroll z; Frame; Debounced; Leaving]) (no_scroll_yet h) in
  history_state s = Some (HState (h_search (default no_state (history_state (scroll_run es (no_scroll_yet h))))) (Some z)) ∧
  (history_state s' = history_state s → content_top (scrollToPositions canonicalize search content hash s') = z).
Proof.
  intros Hp. pose proof (frame_when_ticking es h) as Hf. cbn zeta. unfold scroll_run in *. rewrite foldl_app.
  destruct (foldl (flip scroll_step) (no_scroll_yet h) es) as [top kept hs pr ti fr de ma]. cbn in Hp, Hf. subst pr fr.
  assert (history_state (foldl (flip scroll_step) (Scroller top kept hs false ti ti de ma) [Scroll z; Frame; Debounced; Leaving]) =
    Some (HState (h_search (default no_state hs)) (Some z))) as Hs.
  { destruct ti; reflexivity. }
  split; [exact Hs|]. rewrite Hs. intros Hs'. unfold scrollToPositions, scroll_target_of. rewrite Hs'. cbn.
  unfold on_scroll. cbn. by destruct (ticking s').
Qed.
Lemma position_restored_witness :
  let s := scroll_run ([Scroll 10; Beforeprint; Frame; Afterprint; Scroll 25; Debounced; Leaving; Diagram_drawn] ++ [Scroll 400; Frame; Debounced; Leaving]) (no_scroll_yet None) in
  history_state s = Some (HState None (Some 400%Z)) ∧
  content_top (scrollToPositions ascii_upper (Some (js "job")) (Text []) (js "#top") s) = 400%Z.
Proof.
  destruct (position_restored ascii_upper [Scroll 10; Beforeprint; Frame; Afterprint; Scroll 25; Debounced; Leaving; Diagram_drawn] None 400
    (Some (js "job")) (Text []) (js "#top") (scroll_run ([Scroll 10; Beforeprint; Frame; Afterprint; Scroll 25; Debounced; Leaving; Diagram_drawn] ++
      [Scroll 400; Frame; Debounced; Leaving]) (no_scroll_yet None))) as [H1 H2].
  - reflexivity.
  - split; [exact H1|]. apply H2. reflexivity.
Defined.

(** A diagram drawn after the frame takes over the one timer: the position is
    not saved. The other way round, scrolling drops the marking of a diagram. *)
Lemma diagram_drops_position :
  history_state (scroll_run [Scroll 400; Frame; Diagram_drawn; Debounced; Leaving] (no_scroll_yet None)) = None ∧
  marked_again (scroll_run [Diagram_drawn; Scroll 400; Frame; Debounced; Leaving] (no_scroll_yet None)) = 0%nat.
Proof. done. Qed.

(** The first match may be in a script, which is nowhere on the page, while the
    highlighter leaves scripts alone. *)
Lemma first_match_in_script :
  let script := Element (Some 1%nat) (js "script") [] true None in
  let main := Elem (Element (Some 0%nat) (js "main") [] true None) [Elem script [Text (js "start(job)")]; Text (js "a job")] in
  scroll_target_of ascii_upper None (Some (js "job")) main [] = Some (Into_view script) ∧ skipped search_marks script = true.
Proof. vm_compute. done. Qed.

(** *** Visited pages *)
Section visited.
Context (visitedItem : jsstr).
Notation visited_url := (visited_url visitedItem).

Lemma visited_url_spec item url : visited_url item = Some url ↔ item = visitedItem ++ url.
Proof.
  unfold ScrollHistory.visited_url. case_bool_decide as Hi; split.
  - intros [= <-]. by rewrite <-Hi at 1; rewrite take_drop.
  - intros ->. by rewrite drop_app_length.
  - done.
  - intros ->. by rewrite take_app_length in Hi.
Qed.

Lemma set_visited_fmap b url (f : jsstr → bool) (l : list (jsstr * bool)) :
  set_visited b url ((λ p, if f p.1 then (p.1, b) else p) <$> l) = (λ p, if f p.1 || bool_decide (p.1 = url) then (p.1, b) else p) <$> l.
Proof.
  unfold set_visited. rewrite <-list_fmap_compose. apply list_fmap_ext. intros i [k c] _. simpl.
  destruct (f k) eqn:Hf; simpl; case_bool_decide; by rewrite ?Hf.
Qed.

(** The loops: the entries of the menu whose item is among those listed. *)
Lemma clear_loop (items : list jsstr) v :
  foldl (λ v item, match visited_url item with
      | Some url => Visits (jm_delete item (storage v)) (set_visited false url (nav v)) | None => v end) v items =
  Visits (filter (λ p, ¬ (p.1 ∈ items ∧ is_Some (visited_url p.1))) (storage v))
         ((λ p, if bool_decide (visitedItem ++ p.1 ∈ items) then (p.1, false) else p) <$> nav v).
Proof.
  revert v. induction items as [|item items IH]; intros v; simpl.
  - destruct v as [st nv]. f_equal.
    + simpl. clear nv. induction st as [|p st IH]; [done|]. rewrite filter_cons_True by (by intros [[]%not_elem_of_nil _]). by f_equal.
    + simpl. by rewrite list_fmap_id.
  - rewrite IH. clear IH. destruct (visited_url item) as [url|] eqn:Hu; simpl.
    + pose proof Hu as ->%visited_url_spec. f_equal.
      * unfold jm_delete. rewrite list_filter_filter. apply list_filter_iff. intros [k x]. simpl. rewrite elem_of_cons.
        split; [intros [H1 H2] [[->|H] H3]; [done|by apply H1]|intros H; split; [intros [H1 H2]; by apply H; split; [right|]|intros ->; apply H; split; [by left|by rewrite Hu]]].
      * unfold set_visited. rewrite <-list_fmap_compose. apply list_fmap_ext. intros i [k c] _. simpl.
        destruct (decide (k = url)) as [->|Hk].
        -- rewrite (bool_decide_eq_true_2 (url = url)) by done. simpl. rewrite (bool_decide_eq_true_2 (_ ∈ _ :: _)) by left.
           by destruct (bool_decide _).
        -- rewrite (bool_decide_eq_false_2 (k = url)) by done. simpl.
           erewrite (bool_decide_ext (_ ∈ items)); [done|]. rewrite elem_of_cons.
           split; [by right|intros [Heq%app_inv_head|]; done].
    + f_equal.
      * apply list_filter_iff. intros [k x]. simpl. rewrite elem_of_cons. split.
        -- intros H [[->|H1] H2]; [rewrite Hu in H2; by destruct H2|by apply H].
        -- intros H [H1 H2]. apply H. by split; [right|].
      * apply list_fmap_ext. intros i [k c] _. simpl. assert (visitedItem ++ k ≠ item) as Hne.
        { intros <-. by rewrite (proj2 (visited_url_spec _ k)) in Hu. }
        erewrite (bool_decide_ext (_ ∈ items)); [done|]. rewrite elem_of_cons. split; [by right|by intros [|]].
Qed.

Lemma mark_loop (items : list jsstr) v :
  foldl (λ v item, match visited_url item with
      | Some url => if bool_decide (jm_get item (storage v) = Some (js "1")) then Visits (storage v) (set_visited true url (nav v)) else v
      | None => v end) v items =
  Visits (storage v) ((λ p, if bool_decide (visitedItem ++ p.1 ∈ items ∧ jm_get (visitedItem ++ p.1) (storage v) = Some (js "1")) then (p.1, true) else p) <$> nav v).
Proof.
  revert v. induction items as [|item items IH]; intros [st nv]; cbn [foldl].
  - f_equal. cbn [nav storage]. rewrite <-(list_fmap_id nv) at 1. apply list_fmap_ext. intros i p _.
    rewrite bool_decide_eq_false_2; [done|]. by intros [[]%not_elem_of_nil _].
  - rewrite IH. clear IH. destruct (visited_url item) as [url|] eqn:Hu; cbn [storage nav].
    + pose proof Hu as ->%visited_url_spec. case_bool_decide as Hg; cbn [storage nav]; f_equal.
      * unfold set_visited. rewrite <-list_fmap_compose. apply list_fmap_ext. intros i [k c] _. simpl.
        destruct (decide (k = url)) as [->|Hk].
        -- rewrite (bool_decide_eq_true_2 (url = url)) by done. simpl.
           rewrite (bool_decide_eq_true_2 (_ ∈ _ :: _ ∧ _)) by (split; [by left|done]). by destruct (bool_decide _).
        -- rewrite (bool_decide_eq_false_2 (k = url)) by done. simpl.
           erewrite (bool_decide_ext (_ ∈ items ∧ _)); [done|]. rewrite elem_of_cons.
           split; [intros [??]; auto|intros [[Heq%app_inv_head|] ?]; done].
      * apply list_fmap_ext. intros i [k c] _. simpl.
        erewrite (bool_decide_ext (_ ∈ items ∧ _)); [done|]. rewrite elem_of_cons.
        split; [intros [??]; auto|intros [[->%app_inv_head|] ?]; done].
    + f_equal. apply list_fmap_ext. intros i [k c] _. simpl.
      erewrite (bool_decide_ext (_ ∈ items ∧ _)); [done|]. rewrite elem_of_cons.
      split; [intros [??]; auto|intros [[<-|] ?]; [|done]]. by rewrite (proj2 (visited_url_spec _ k)) in Hu.
Qed.

(** The entries marked are those the storage has as visited, now including the
    page itself; clearing forgets them all, in the storage and in the menu, and
    leaves every other item of the storage alone. *)
Lemma visited_pages_spec origin v :
  let w := initHistory visitedItem origin v in
  nav w = (λ p, if bool_decide (jm_get (visitedItem ++ p.1) (storage w) = Some (js "1")) then (p.1, true) else p) <$> nav v ∧
  jm_get (visitedItem ++ origin) (storage w) = Some (js "1") ∧
  (∀ item, item ∈ (storage (clearHistory visitedItem w)).*1 ↔ item ∈ (storage v).*1 ∧ visited_url item = None) ∧
  (∀ url b, (url, b) ∈ nav (clearHistory visitedItem w) → b = true → (url, true) ∈ nav v ∧ visitedItem ++ url ∉ (storage w).*1).
Proof.
  set (st := jm_set (visitedItem ++ origin) (js "1") (storage v)).
  assert (initHistory visitedItem origin v = Visits st ((λ p, if bool_decide (jm_get (visitedItem ++ p.1) st = Some (js "1")) then (p.1, true) else p) <$> nav v)) as Hw.
  { unfold initHistory. fold st. cbn [storage]. rewrite mark_loop. cbn [storage nav]. f_equal. apply list_fmap_ext. intros i [k c] _. simpl.
    erewrite (bool_decide_ext (_ ∈ _ ∧ _)); [done|]. split; [by intros [_ ?]|]. intros Hg. split; [|done].
    apply jm_get_Some_elem in Hg. apply list_elem_of_fmap. by eexists (_, _). }
  rewrite Hw. cbn [storage nav]. unfold clearHistory. cbn [storage]. rewrite clear_loop. cbn [storage nav]. split_and!; [done|apply jm_get_set_eq| |].
  - intros item. rewrite list_elem_of_fmap. split.
    + intros ([k x] & -> & [Hno Hin]%list_elem_of_filter). simpl in *.
      assert (visited_url k = None) as Hk. { apply eq_None_not_Some. intros Hs. apply Hno. split; [|done]. apply list_elem_of_fmap. by exists (k, x). }
      split; [|done]. assert (k ∈ st.*1) as Hst by (apply list_elem_of_fmap; by exists (k, x)). unfold st in Hst. rewrite jm_set_keys, elem_of_set_add in Hst.
      destruct Hst as [->|?]; [|done]. by rewrite (proj2 (visited_url_spec _ origin)) in Hk.
    + intros [Hin Hk]. assert (item ∈ st.*1) as Hst by (unfold st; rewrite jm_set_keys, elem_of_set_add; by right).
      apply list_elem_of_fmap in Hst as ([k x] & -> & Hkx). exists (k, x). split; [done|]. apply list_elem_of_filter. split; [|done].
      simpl in *. intros [_ Hs]. rewrite Hk in Hs. by destruct Hs.
  - intros url b Hin ->. apply list_elem_of_fmap in Hin as ([k c] & Hp & Hin). simpl in Hp. case_bool_decide as Hk; [done|].
    injection Hp as <- ->. apply list_elem_of_fmap in Hin as ([k' c'] & Hp' & Hin). simpl in Hp'. case_bool_decide as Hk'.
    + injection Hp' as ->. exfalso. apply Hk. apply jm_get_Some_elem in Hk'. apply list_elem_of_fmap. by eexists (_, _).
    + by injection Hp' as -> <-.
Qed.
End visited.
