(* ===== verification/PageServices.v ===== *)
(** * Small services of the page (theme.js): arrow keys, toasts, colours, the
    switcher of versions

    [initArrowVerticalNav]: Alt and an arrow up or down moves from heading to
    heading; [initArrowHorizontalNav]: the arrows left and right go to the
    neighbouring pages once the content is at its edge. [showToast],
    [normalizeColor], [initVersionIndex], [handleVersionSwitcher],
    [handleLanguageSwitcher]. [initAnchorClipboard]: the links of headings, with
    the encoding of an identifier as a part of an address. *)

From S2P Require Import Prelude JSValue WordPattern.

(** ** Headings

    Positions are in layout units, 64 to a pixel. [tops] are those of the
    headings relative to the top of the content, in document order. *)
Definition pixel : Z := 64.

(** Where the content is scrolled: to the block around it or to a heading. *)
Inductive heading_target := Wrapper | Heading (i : nat).

(** [elems.some(…)]: [target] is the heading before the [i]th. *)
Fixpoint up_from (i : nat) (target : heading_target) (tops : list Z) : option heading_target :=
  match tops with
  | [] => None
  | topBoundary :: tops =>
      if (- pixel <? topBoundary)%Z then Some target else up_from (S i) (Heading i) tops
  end.
Definition arrow_up (tops : list Z) : option heading_target := up_from 0 Wrapper tops.

Fixpoint down_from (i : nat) (tops : list Z) : option heading_target :=
  match tops with
  | [] => None
  | topBoundary :: rest =>
      if ((- pixel <? topBoundary) && (topBoundary <? pixel))%Z then
        match rest with [] => None | _ => Some (Heading (S i)) end
      else if (pixel <=? topBoundary)%Z then Some (Heading i)
      else down_from (S i) rest
  end.
Definition arrow_down (tops : list Z) : option heading_target := down_from 0 tops.

Record alt_arrow := AltArrow { a_shift : bool; a_ctrl : bool; a_alt : bool; a_meta : bool; a_which : N }.
Definition vertical_keydown (e : alt_arrow) (tops : list Z) : option heading_target :=
  if negb (a_shift e) && negb (a_ctrl e) && a_alt e && negb (a_meta e) then
    if (a_which e =? 38)%N then arrow_up tops
    else if (a_which e =? 40)%N then arrow_down tops
    else None
  else None.

(** ** Theorems on headings *)

(** [k] headings are above the visible part. *)
Lemma up_from_spec i t above tops :
  Forall (λ z, z <= - pixel)%Z above →
  up_from i t (above ++ tops) = up_from (i + length above) (match length above with O => t | S k => Heading (i + k) end) tops.
Proof.
  intros Ha. revert i t. induction Ha as [|z above Hz Ha IH]; intros i t; [by rewrite Nat.add_0_r|].
  simpl. rewrite (proj2 (Z.ltb_ge _ _)) by done. rewrite IH. f_equal; [lia|].
  destruct above as [|z' above]; simpl; [f_equal; lia|f_equal; lia].
Qed.

(** Up goes to the last heading above what is at the top, or to the block
    around the content when there is none above. *)
Lemma arrow_up_spec above z tops :
  Forall (λ z, z <= - pixel)%Z above → (- pixel < z)%Z →
  arrow_up (above ++ z :: tops) = Some (match length above with O => Wrapper | S k => Heading k end).
Proof.
  intros Ha Hz. unfold arrow_up. rewrite up_from_spec by done. simpl. rewrite (proj2 (Z.ltb_lt _ _)) by done. done.
Qed.
(** Below the last heading it does nothing. *)
Lemma arrow_up_below above : Forall (λ z, z <= - pixel)%Z above → arrow_up above = None.
Proof. intros Ha. unfold arrow_up. rewrite <-(app_nil_r above), up_from_spec by done. done. Qed.

Lemma down_from_spec i above tops :
  Forall (λ z, z <= - pixel)%Z above → down_from i (above ++ tops) = down_from (i + length above) tops.
Proof.
  intros Ha. revert i. induction Ha as [|z above Hz Ha IH]; intros i; [by rewrite Nat.add_0_r|].
  simpl. rewrite (proj2 (Z.ltb_ge _ _)) by done. rewrite (proj2 (Z.leb_gt _ _)) by (unfold pixel in *; lia).
  simpl. rewrite IH. f_equal. lia.
Qed.
(** Down goes to the heading after the one at the top, or to the first one
    below the top. *)
Lemma arrow_down_at above z tops :
  Forall (λ z, z <= - pixel)%Z above → (- pixel < z < pixel)%Z →
  arrow_down (above ++ z :: tops) = match tops with [] => None | _ => Some (Heading (S (length above))) end.
Proof.
  intros Ha Hz. unfold arrow_down. rewrite down_from_spec by done. simpl.
  by rewrite (proj2 (Z.ltb_lt _ _)), (proj2 (Z.ltb_lt _ _)) by lia.
Qed.
Lemma arrow_down_below above z tops :
  Forall (λ z, z <= - pixel)%Z above → (pixel <= z)%Z → arrow_down (above ++ z :: tops) = Some (Heading (length above)).
Proof.
  intros Ha Hz. unfold arrow_down. rewrite down_from_spec by done. simpl.
  by rewrite (proj2 (Z.ltb_ge z _)), andb_false_r, (proj2 (Z.leb_le _ _)) by lia.
Qed.

(** ** Neighbouring pages *)

(** [scrollStart], [scrollEnd]: 0, -1 while the key is down, or a timer. *)
Inductive edge_guard := No_scroll | Key_down | Scroll_timer.

Record sideways := Sideways {
  scrollStart : edge_guard; scrollEnd : edge_guard;
  prev_clicks : nat; next_clicks : nat
}.
(** The content: its position, its width and that of what it shows, as
    rounded by [toFixed]; [dir_scroll] is -1 where text runs to the left. *)
Record viewport := Viewport { scrollLeft : Z; clientWidth : Z; scrollWidth : Z; dir_scroll : Z; has_prev : bool; has_next : bool }.

Definition at_start (v : viewport) : bool := (scrollLeft v * dir_scroll v <=? 0)%Z.
Definition at_end (v : viewport) : bool := (scrollWidth v <=? scrollLeft v * dir_scroll v + clientWidth v)%Z.
Definition idle (g : edge_guard) : bool := match g with No_scroll => true | _ => false end.

Inductive side_event :=
  | Keydown_start (v : viewport) | Keydown_end (v : viewport)   (* outside of forms, no modifiers *)
  | Keyup_start | Keyup_end
  | Timer_start | Timer_end.                                    (* 300 ms after the key came up *)

Definition side_step (e : side_event) (s : sideways) : sideways :=
  match e with
  | Keydown_start v =>
      Sideways Key_down (scrollEnd s) (if idle (scrollStart s) && at_start v && has_prev v then S (prev_clicks s) else prev_clicks s) (next_clicks s)
  | Keydown_end v =>
      Sideways (scrollStart s) Key_down (prev_clicks s) (if idle (scrollEnd s) && at_end v && has_next v then S (next_clicks s) else next_clicks s)
  | Keyup_start => Sideways (match scrollStart s with Key_down => Scroll_timer | g => g end) (scrollEnd s) (prev_clicks s) (next_clicks s)
  | Keyup_end => Sideways (scrollStart s) (match scrollEnd s with Key_down => Scroll_timer | g => g end) (prev_clicks s) (next_clicks s)
  | Timer_start => Sideways (match scrollStart s with Scroll_timer => No_scroll | g => g end) (scrollEnd s) (prev_clicks s) (next_clicks s)
  | Timer_end => Sideways (scrollStart s) (match scrollEnd s with Scroll_timer => No_scroll | g => g end) (prev_clicks s) (next_clicks s)
  end.
Definition side_run (es : list side_event) (s : sideways) : sideways := foldl (flip side_step) s es.
Definition side_start : sideways := Sideways No_scroll No_scroll 0 0.

Definition timer_starts (es : list side_event) : nat := length (List.filter (λ e, match e with Timer_start => true | _ => false end) es).
Definition timer_ends (es : list side_event) : nat := length (List.filter (λ e, match e with Timer_end => true | _ => false end) es).

(** A key that is held turns one page: between two turns the key has come up
    and stayed so until the timer ran. *)
Lemma held_key_turns_once es :
  let s := side_run es side_start in
  (prev_clicks s <= S (timer_starts es))%nat ∧ (next_clicks s <= S (timer_ends es))%nat.
Proof.
  assert (∀ es s, let t := side_run es s in
    ((if idle (scrollStart t) then 1 else 0) + prev_clicks t <= (if idle (scrollStart s) then 1 else 0) + prev_clicks s + timer_starts es)%nat ∧
    ((if idle (scrollEnd t) then 1 else 0) + next_clicks t <= (if idle (scrollEnd s) then 1 else 0) + next_clicks s + timer_ends es)%nat) as H.
  { clear es. induction es as [|e es IH]; intros [a b p n]; cbn zeta; [cbn; lia|].
    unfold side_run in *. cbn [foldl]. specialize (IH (flip side_step (Sideways a b p n) e)). cbn zeta in IH.
    set (t := foldl _ _ es) in *. clearbody t. unfold timer_starts, timer_ends in *.
    destruct e as [v|v| | | |]; cbn in *; [destruct a, (at_start v), (has_prev v)|destruct b, (at_end v), (has_next v)|destruct a|destruct b|destruct a|destruct b];
      cbn in *; lia. }
  specialize (H es side_start). cbn in H. cbn zeta. lia.
Qed.

(** ** Toasts *)
Record toast := Toast { toast_id : nat; toast_text : jsstr; toast_hiding : bool }.
(** The timers of a toast: hiding after 2000 ms, then removal after 300 ms. *)
Inductive toast_timer := Hide (t : nat) | Remove (t : nat).
Record toasts := Toasts { container : option (list toast); toast_timers : list toast_timer; next_toast : nat }.

Definition showToast (message : jsstr) (s : toasts) : toasts :=
  match message, container s with
  | _ :: _, Some l => Toasts (Some (l ++ [Toast (next_toast s) message false])) (toast_timers s ++ [Hide (next_toast s)]) (S (next_toast s))
  | _, _ => s
  end.
Definition fire_toast (t : toast_timer) (s : toasts) : toasts :=
  let l := default [] (container s) in
  match t with
  | Hide i => Toasts ((λ _, (λ t, if (toast_id t =? i)%nat then Toast i (toast_text t) true else t) <$> l) <$> container s) (toast_timers s ++ [Remove i]) (next_toast s)
  | Remove i => Toasts ((λ _, filter (λ t, toast_id t ≠ i) l) <$> container s) (toast_timers s) (next_toast s)
  end.
(** The timer set first runs. *)
Definition toast_tick (s : toasts) : toasts :=
  match toast_timers s with [] => s | t :: ts => fire_toast t (Toasts (container s) ts (next_toast s)) end.

Definition due (s : toasts) : list nat := (λ t, match t with Hide i | Remove i => i end) <$> toast_timers s.
Definition all_due (s : toasts) : Prop := ∀ l t, container s = Some l → t ∈ l → toast_id t ∈ due s.
Definition toast_cost (s : toasts) : nat := sum_list_with (λ t, match t with Hide _ => 2 | Remove _ => 1 end) (toast_timers s).

Lemma showToast_due m s : all_due s → all_due (showToast m s).
Proof.
  intros Hs. unfold showToast. destruct m as [|c m]; [done|]. destruct (container s) as [l|] eqn:Hl; [|done].
  intros l' t [= <-]. unfold due. cbn. rewrite fmap_app. intros [Ht| ->%list_elem_of_singleton]%elem_of_app; apply elem_of_app.
  - left. by apply (Hs l).
  - right. by left.
Qed.
Lemma toast_tick_due s : all_due s → all_due (toast_tick s).
Proof.
  intros Hs. unfold toast_tick. destruct (toast_timers s) as [|[i|i] ts] eqn:Ht; [done|..].
  - intros l t (l0 & Hl & ->)%fmap_Some. cbn in Hl |- *. rewrite Hl. cbn. intros (t' & -> & Ht')%list_elem_of_fmap.
    specialize (Hs l0 t' Hl Ht'). unfold due in *. rewrite Ht in Hs. cbn in *. rewrite fmap_app.
    assert (toast_id (if toast_id t' =? i then Toast i (toast_text t') true else t')%nat = toast_id t') as ->.
    { destruct (toast_id t' =? i)%nat eqn:Hi; [|done]. by apply Nat.eqb_eq in Hi. }
    apply elem_of_cons in Hs as [->|Hs]; apply elem_of_app; [right; by left|by left].
  - intros l t (l0 & Hl & ->)%fmap_Some. cbn in Hl |- *. rewrite Hl. cbn. intros [Hti Ht']%list_elem_of_filter.
    specialize (Hs l0 t Hl Ht'). unfold due in *. rewrite Ht in Hs. cbn in *. by apply elem_of_cons in Hs as [|].
Qed.

(** Every toast goes: two runs of timers for each shown one empty the
    container. *)
Lemma toasts_go ms s :
  all_due s → let t := foldl (flip showToast) s ms in
  toast_timers (Nat.iter (toast_cost t) toast_tick t) = [] ∧ ∀ l, container (Nat.iter (toast_cost t) toast_tick t) = Some l → l = [].
Proof.
  intros Hs. cbn zeta. assert (all_due (foldl (flip showToast) s ms)) as Ht.
  { revert s Hs. induction ms as [|m ms IH]; intros s Hs; [done|]. simpl. by apply IH, showToast_due. }
  revert Ht. generalize (foldl (flip showToast) s ms). clear s Hs ms. intros s Hs.
  assert (∀ n s, toast_cost s = n → all_due s → toast_timers (Nat.iter n toast_tick s) = [] ∧ all_due (Nat.iter n toast_tick s)) as Hn.
  { clear s Hs. induction n as [|n IH]; intros s Hc Hs.
    - split; [|done]. unfold toast_cost in Hc. simpl. destruct (toast_timers s) as [|[i|i] ts]; simpl in Hc; [done|lia..].
    - rewrite Nat.iter_succ_r. apply IH; [|by apply toast_tick_due]. unfold toast_cost, toast_tick in *.
      destruct (toast_timers s) as [|[i|i] ts]; simpl in *; [lia| |lia]. rewrite sum_list_with_app. simpl. lia. }
  destruct (Hn _ s eq_refl Hs) as [Ht Ha]. split; [done|]. intros [|t l] Hl; [done|].
  specialize (Ha _ t Hl (list_elem_of_here _ _)). unfold due in Ha. rewrite Ht in Ha. by apply not_elem_of_nil in Ha.
Qed.

(** ** Colours *)

Fixpoint drop_white (s : jsstr) : jsstr :=
  match s with c :: s' => if is_white c then drop_white s' else s | [] => [] end.
Definition trim_white (s : jsstr) : jsstr := reverse (drop_white (reverse (drop_white s))).
Fixpoint take_run (f : N → bool) (s : jsstr) : jsstr * jsstr :=
  match s with
  | c :: s' => if f c then let '(a, b) := take_run f s' in (c :: a, b) else ([], s)
  | [] => ([], [])
  end.
(** [s.replace(/A*c B*/g, out)], with the classes [A] before and [B] after. *)
Fixpoint replace_around (fuel : nat) (before after : N → bool) (c : N) (out s : jsstr) : jsstr :=
  match fuel with
  | O => s
  | S fuel =>
      let '(run, rest) := take_run before s in
      match rest with
      | [] => run
      | d :: rest => if (d =? c)%N then out ++ replace_around fuel before after c out (take_run after rest).2
                     else run ++ d :: replace_around fuel before after c out rest
      end
  end.
Definition replace_all (before after : N → bool) (c : N) (out s : jsstr) : jsstr := replace_around (S (length s)) before after c out s.
Definition is_zero (c : N) : bool := (c =? 48)%N.
Definition nothing (c : N) : bool := false.
(** [/ +/g] *)
Fixpoint squeeze (s : jsstr) : jsstr :=
  match s with
  | 32%N :: ((32%N :: _) as s') => squeeze s'
  | c :: s' => c :: squeeze s'
  | [] => []
  end.

Definition normalizeColor (c : jsstr) : jsstr :=
  let c := trim_white c in
  let c := replace_all is_white is_white 40 (js "( ") c in
  let c := replace_all is_white is_white 41 (js " )") c in
  let c := replace_all is_white is_white 44 (js ", ") c in
  let c := replace_all is_zero nothing 46 (js ".") c in
  squeeze c.

Lemma normalizeColor_example : normalizeColor (js "  rgba(  10 ,20,30 , 0.50)  ") = js "rgba( 10, 20, 30, .50 )".
Proof. vm_compute. reflexivity. Qed.
(** The zeros before a point are dropped whatever stands before them: a width
    of 80.5 becomes 8.5. *)
Lemma normalizeColor_loses_zeros : normalizeColor (js "80.5rem") = js "8.5rem".
Proof. vm_compute. reflexivity. Qed.

(** The fuel is enough: more changes nothing. *)
Lemma take_run_length f s : (length (take_run f s).1 + length (take_run f s).2 = length s)%nat.
Proof.
  induction s as [|c s IH]; [done|]. simpl. destruct (f c); [|done]. destruct (take_run f s) as [a b]. simpl in *. lia.
Qed.
Lemma replace_around_fuel n m before after c out s :
  (length s < n)%nat → (length s < m)%nat → replace_around n before after c out s = replace_around m before after c out s.
Proof.
  revert m s. induction n as [|n IH]; intros m s Hn Hm; [lia|]. destruct m as [|m]; [lia|]. cbn [replace_around].
  pose proof (take_run_length before s) as Hl. destruct (take_run before s) as [run rest]. cbn in Hl.
  destruct rest as [|d rest]; [done|]. cbn in Hl. pose proof (take_run_length after rest) as Hl'.
  destruct (d =? c)%N; [f_equal|do 2 f_equal]; apply IH; lia.
Qed.

(** ** Versions *)
Record version := Version { v_value : jsstr; v_title : jsstr; v_baseURL : jsstr; v_identifier : jsstr; v_isAbs : bool }.
(** An [option]: what [initVersionIndex] writes, and [data-selected]. *)
Record voption := VOption { o_version : version; o_selected : bool }.
Record vselect := VSelect { options : list voption; selectedIndex : option nat }.
Definition o_value (o : voption) : jsstr := v_value (o_version o).

(** [select.querySelector('option[value="…"]')] *)
Definition find_option (v : jsstr) (l : list voption) : option nat := fst <$> list_find (λ o, o_value o = v) l.
Definition add_missing (o : voption) (l : list voption) : list voption :=
  match find_option (o_value o) l with Some _ => l | None => l ++ [o] end.

Definition initVersionIndex (index : list version) (s : vselect) : vselect :=
  match index with
  | [] => s
  | _ =>
      let preSelectedOption := snd <$> list_find (λ o, o_selected o = true) (options s) in
      let selectedOption := i ← selectedIndex s; options s !! i in
      let l := (λ v, VOption v false) <$> index in
      let l := match preSelectedOption with
               | Some o =>
                   match find_option (o_value o) l with
                   | Some i => alter (λ o, VOption (o_version o) true) i l
                   | None => l ++ [o]
                   end
               | None => l
               end in
      match selectedOption with
      | Some o => let l := add_missing o l in VSelect l (find_option (o_value o) l)
      | None => VSelect l (match l with [] => None | _ => Some 0%nat end)
      end
  end.

(** The listener of [change]: the place to go to; the choice shown goes back to
    the preselected option. *)
Definition version_url (relBaseUri path : jsstr) (s : vselect) (value : jsstr) : option jsstr :=
  i ← find_option value (options s); o ← options s !! i;
  Some ((if v_isAbs (o_version o) then [] else relBaseUri) ++ v_baseURL (o_version o) ++ path).
Definition handleVersionSwitcher (relBaseUri path : jsstr) (i : nat) (s : vselect) : option (vselect * jsstr) :=
  o ← options s !! i;
  url ← version_url relBaseUri path s (o_value o);
  let back := default (o_value o) (o_value ∘ snd <$> list_find (λ o, o_selected o = true) (options s)) in
  Some (VSelect (options s) (find_option back (options s)), url).

Lemma find_option_spec v l : match find_option v l with Some i => ∃ o, l !! i = Some o ∧ o_value o = v | None => v ∉ (o_value <$> l) end.
Proof.
  unfold find_option. destruct (list_find _ l) as [[i o]|] eqn:Hf; cbn.
  - apply list_find_Some in Hf as (? & ? & _). by exists o.
  - apply list_find_None in Hf. rewrite Forall_forall in Hf. intros (o & -> & Ho)%list_elem_of_fmap. by apply (Hf o).
Qed.
Lemma find_option_present v l : v ∈ (o_value <$> l) → is_Some (find_option v l).
Proof. intros Hv. pose proof (find_option_spec v l). destruct (find_option v l); [by eexists|done]. Qed.

(** The fresh index replaces the options: its versions come first and in its
    order, at most the preselected and the selected option of the page are kept
    behind them, the choice of the user stays, and so does the preselection. *)
Lemma initVersionIndex_spec index s :
  index ≠ [] →
  let t := initVersionIndex index s in
  (∃ rest, o_value <$> options t = (v_value <$> index) ++ rest ∧ (length rest <= 2)%nat) ∧
  (∀ i o, selectedIndex s = Some i → options s !! i = Some o →
    ∃ j o', selectedIndex t = Some j ∧ options t !! j = Some o' ∧ o_value o' = o_value o) ∧
  (∀ o, snd <$> list_find (λ o, o_selected o = true) (options s) = Some o →
    ∃ o', o' ∈ options t ∧ o_selected o' = true ∧ o_value o' = o_value o).
Proof.
  intros Hne. unfold initVersionIndex. destruct index as [|v0 vs] eqn:Hi; [done|]. rewrite <-Hi in *. clear Hi v0 vs.
  set (l0 := (λ v, VOption v false) <$> index).
  assert (o_value <$> l0 = v_value <$> index) as Hl0 by (unfold l0; by rewrite <-list_fmap_compose).
  set (pre := snd <$> list_find (λ o, o_selected o = true) (options s)).
  set (l1 := match pre with Some o => match find_option (o_value o) l0 with Some i => alter (λ o, VOption (o_version o) true) i l0 | None => l0 ++ [o] end | None => l0 end).
  assert ((∃ rest, o_value <$> l1 = (v_value <$> index) ++ rest ∧ (length rest <= 1)%nat) ∧
          (∀ o, pre = Some o → ∃ o', o' ∈ l1 ∧ o_selected o' = true ∧ o_value o' = o_value o)) as [(r1 & Hr1 & Hlen1) Hpre].
  { subst l1. destruct pre as [o|] eqn:Hp; [|split; [exists []; rewrite app_nil_r, Hl0; split; [done|simpl; lia]|done]].
    assert (o_selected o = true) as Ho.
    { unfold pre in Hp. apply fmap_Some in Hp as ([k o1] & Hf & ->). by apply list_find_Some in Hf as (_ & ? & _). }
    pose proof (find_option_spec (o_value o) l0) as Hf. destruct (find_option (o_value o) l0) as [i|].
    - destruct Hf as (o1 & Hi & Ho1). split.
      + exists []. rewrite app_nil_r, <-Hl0. split; [|simpl; lia]. apply list_eq. intros j. rewrite !list_lookup_fmap.
        destruct (decide (j = i)) as [->|Hj]; [by rewrite list_lookup_alter_eq, Hi|by rewrite list_lookup_alter_ne].
      + intros o2 [= <-]. exists (VOption (o_version o1) true). split_and!; [|done|done].
        apply list_elem_of_lookup_2 with i. by rewrite list_lookup_alter_eq, Hi.
    - split; [exists [o_value o]; split; [by rewrite fmap_app, Hl0|simpl; lia]|].
      intros o2 [= <-]. exists o. split_and!; [set_solver|done|done]. }
  clearbody l1 pre. destruct (selectedIndex s) as [i|]; cbn [mbind option_bind].
  - destruct (options s !! i) as [o|] eqn:Ho.
    + assert (∃ r, add_missing o l1 = l1 ++ r ∧ (length r <= 1)%nat) as (r & Hr & Hlr).
      { unfold add_missing. destruct (find_option _ l1); [exists []|exists [o]]; rewrite ?app_nil_r; split; simpl; (done || lia). }
      cbn [options selectedIndex]. split_and!.
      * exists (r1 ++ (o_value <$> r)). rewrite Hr, fmap_app, Hr1, <-app_assoc. split; [done|]. rewrite length_app, length_fmap. lia.
      * intros i' o' [= <-] Ho'. rewrite Ho in Ho'. injection Ho' as <-. assert (o_value o ∈ o_value <$> add_missing o l1) as Hin.
        { unfold add_missing. pose proof (find_option_spec (o_value o) l1) as Hf. destruct (find_option (o_value o) l1) as [k|].
          - destruct Hf as (o1 & Hk & <-). apply list_elem_of_fmap. exists o1. split; [done|]. by eapply list_elem_of_lookup_2.
          - rewrite fmap_app. set_solver. }
        pose proof (find_option_spec (o_value o) (add_missing o l1)) as Hf. destruct (find_option _ _) as [j|]; [|done].
        destruct Hf as (o1 & Hj & Ho1). by exists j, o1.
      * intros o' Ho'. destruct (Hpre o' Ho') as (o1 & Hin & ?). exists o1. split; [|done]. rewrite Hr. set_solver.
    + cbn [options selectedIndex]. split_and!; [exists r1; split; [done|lia]|intros i' o' [= <-] Ho'; congruence|done].
  - cbn [options selectedIndex]. split_and!; [exists r1; split; [done|lia]|done|done].
Qed.

(** ** Languages *)

(** An option of the switcher: its identifier, value and [data-url], and whether
    it is marked as the language of the page. *)
Record loption := LOption { lo_id : jsstr; lo_value : jsstr; lo_url : jsstr; lo_selected : bool }.
Definition language_id (v : jsstr) : jsstr := js "R-select-language-" ++ v.
(** The listener of [change], with the options and the value chosen: the value
    shown then, and the place to go to. *)
Definition handleLanguageSwitcher (l : list loption) (value : jsstr) : result (jsstr * jsstr) :=
  match list_find (λ o, lo_id o = language_id value) l with
  | None => Throw TypeError
  | Some (_, o) => Ok (default value (lo_value ∘ snd <$> list_find (λ o, lo_selected o = true) l), lo_url o)
  end.

(** Where every option carries its value in its identifier, choosing one goes
    to its page and shows the language of this page again. *)
Lemma handleLanguageSwitcher_spec l o own :
  Forall (λ o, lo_id o = language_id (lo_value o)) l → NoDup (lo_value <$> l) → o ∈ l → own ∈ l → lo_selected own = true →
  (∀ o', o' ∈ l → lo_selected o' = true → o' = own) → handleLanguageSwitcher l (lo_value o) = Ok (lo_value own, lo_url o).
Proof.
  intros Hid Hnd Ho Hown Hsel Huniq. unfold handleLanguageSwitcher. destruct (list_find (λ o', lo_id o' = _) l) as [[i o']|] eqn:Hf.
  - apply list_find_Some in Hf as (Hi & Hv & _). rewrite Forall_forall in Hid. pose proof (list_elem_of_lookup_2 _ _ _ Hi) as Hin.
    rewrite (Hid o' Hin) in Hv. apply app_inv_head in Hv. apply list_elem_of_lookup_1 in Ho as [j Hj].
    assert (i = j) as ->.
    { eapply NoDup_lookup; [exact Hnd|..]; rewrite list_lookup_fmap; [by rewrite Hi|rewrite Hj; cbn; by rewrite Hv]. }
    rewrite Hi in Hj. injection Hj as ->. destruct (list_find (λ o, lo_selected o = true) l) as [[k o2]|] eqn:Hg.
    + apply list_find_Some in Hg as (Hk & Hs & _). by rewrite (Huniq o2 (list_elem_of_lookup_2 _ _ _ Hk) Hs).
    + apply list_find_None in Hg. rewrite Forall_forall in Hg. by destruct (Hg own Hown).
  - apply list_find_None in Hf. rewrite Forall_forall in Hf, Hid. destruct (Hf o Ho). by apply Hid.
Qed.

(** ** Links of headings ([initAnchorClipboard]) *)

(** The code points of a string; a surrogate without its other half is an
    error of [encodeURIComponent]. *)
Definition between_units (lo hi c : N) : bool := ((lo <=? c) && (c <=? hi))%N.
Fixpoint string_points (s : jsstr) : option (list N) :=
  match s with
  | [] => Some []
  | c :: s' =>
      if between_units 56320 57343 c then None
      else if between_units 55296 56319 c then
        match s' with
        | d :: s'' => if between_units 56320 57343 d then ((c - 55296) * 1024 + (d - 56320) + 65536 ::.)%N <$> string_points s'' else None
        | [] => None
        end
      else (c ::.) <$> string_points s'
  end.
Definition utf8 (c : N) : list N :=
  if (c <? 128)%N then [c]
  else if (c <? 2048)%N then [192 + c / 64; 128 + c mod 64]%N
  else if (c <? 65536)%N then [224 + c / 4096; 128 + c / 64 mod 64; 128 + c mod 64]%N
  else [240 + c / 262144; 128 + c / 4096 mod 64; 128 + c / 64 mod 64; 128 + c mod 64]%N.
Definition hex_digit (d : N) : N := (if d <? 10 then 48 + d else 55 + d)%N.
Definition percent_byte (b : N) : jsstr := [37; hex_digit (b / 16); hex_digit (b mod 16)]%N.
Definition unreserved (c : N) : bool :=
  between_units 48 57 c || between_units 65 90 c || between_units 97 122 c || bool_decide (c ∈ js "-_.!~*'()").
Definition encode_point (c : N) : jsstr := if unreserved c then [c] else utf8 c ≫= percent_byte.
Definition encodeURIComponent (s : jsstr) : option jsstr := (λ l, l ≫= encode_point) <$> string_points s.

(** The address of the page: of its origin, or where that is the string ['null']
    of protocol and host, with its path. *)
Record location := Location { l_origin : jsstr; l_protocol : jsstr; l_host : jsstr; l_pathname : jsstr }.
Definition page_address (l : location) : jsstr :=
  if bool_decide (l_origin l = js "null") then l_protocol l ++ js "//" ++ l_host l ++ l_pathname l else l_origin l ++ l_pathname l.
Record anchor := Anchor { a_parent_id : jsstr; a_copy : bool; a_scroll : bool; a_text : option jsstr }.
(** The loop over the anchors; an identifier that cannot be encoded ends it. *)
Fixpoint initAnchorClipboard (l : location) (anchors : list anchor) : list anchor * result unit :=
  match anchors with
  | [] => ([], Ok tt)
  | a :: rest =>
      match encodeURIComponent (a_parent_id a) with
      | None => (a :: rest, Throw (PlainError "URIError"))
      | Some id =>
          let '(rest, r) := initAnchorClipboard l rest in
          (Anchor (a_parent_id a) (a_copy a) (a_scroll a) (Some (page_address l ++ js "#" ++ id)) :: rest, r)
      end
  end.
(** Clicks: what is copied, a toast, the heading scrolled to, the entry added to
    the history. *)
Inductive anchor_effect := Write_text (s : jsstr) | Show_toast (key : string) | Scroll_into_view | Push_state (url : jsstr).
Definition click_anchor (has_clipboard : bool) (a : anchor) : list anchor_effect :=
  let text := default [] (a_text a) in
  (if a_copy a then
     if has_clipboard then [Write_text text; Show_toast "T_Link_copied_to_clipboard"] else [Show_toast "T_Browser_unsupported_feature"]
   else []) ++
  (if a_scroll a then [Scroll_into_view; Push_state text] else []).

Lemma utf8_first c d :
  (c < 1114112)%N → (d < 1114112)%N → head (utf8 c) = head (utf8 d) → length (utf8 c) = length (utf8 d).
Proof.
  intros Hc Hd. unfold utf8.
  destruct (N.ltb_spec c 128), (N.ltb_spec d 128), (N.ltb_spec c 2048), (N.ltb_spec d 2048), (N.ltb_spec c 65536), (N.ltb_spec d 65536);
    cbn [head length]; intros [= H']; try done; exfalso; clear - H' Hc Hd H H0 H1 H2 H3 H4; zify; Z.to_euclidean_division_equations; lia.
Qed.
Lemma utf8_inj c d : (c < 1114112)%N → (d < 1114112)%N → utf8 c = utf8 d → c = d.
Proof.
  intros Hc Hd. unfold utf8.
  destruct (N.ltb_spec c 128), (N.ltb_spec d 128), (N.ltb_spec c 2048), (N.ltb_spec d 2048), (N.ltb_spec c 65536), (N.ltb_spec d 65536);
    intros [=]; try done; zify; Z.to_euclidean_division_equations; lia.
Qed.
Lemma utf8_bytes c : (c < 1114112)%N → Forall (λ b, (b < 256)%N) (utf8 c).
Proof.
  intros Hc. unfold utf8. destruct (N.ltb_spec c 128), (N.ltb_spec c 2048), (N.ltb_spec c 65536);
    repeat (constructor; [zify; Z.to_euclidean_division_equations; lia|]); constructor.
Qed.

Lemma hex_digit_inj a b : (a < 16)%N → (b < 16)%N → hex_digit a = hex_digit b → a = b.
Proof. intros Ha Hb. unfold hex_digit. destruct (N.ltb_spec a 10), (N.ltb_spec b 10); lia. Qed.
Lemma percent_bytes_inj l l' r r' :
  Forall (λ b, (b < 256)%N) l → Forall (λ b, (b < 256)%N) l' → length l = length l' →
  (l ≫= percent_byte) ++ r = (l' ≫= percent_byte) ++ r' → l = l' ∧ r = r'.
Proof.
  intros Hl. revert l'. induction Hl as [|a l Ha Hl IH]; intros [|b l'] Hl' Hlen H; try done. apply Forall_cons in Hl' as [Hb Hl'].
  rewrite !bind_cons in H. cbn [percent_byte app] in H. injection H as H1 H2 H3. injection Hlen as Hlen.
  destruct (IH _ Hl' Hlen H3) as [-> ->]. split; [|done]. f_equal.
  apply hex_digit_inj in H1; [|zify; Z.to_euclidean_division_equations; lia..]. apply hex_digit_inj in H2; [|zify; Z.to_euclidean_division_equations; lia..].
  zify; Z.to_euclidean_division_equations; lia.
Qed.
Lemma unreserved_not_percent c : unreserved c = true → c ≠ 37%N.
Proof. intros H ->. vm_compute in H. done. Qed.

Lemma encode_point_inj c d r r' :
  (c < 1114112)%N → (d < 1114112)%N → encode_point c ++ r = encode_point d ++ r' → c = d ∧ r = r'.
Proof.
  intros Hc Hd. unfold encode_point.
  assert (∀ x, ∃ b t, utf8 x = b :: t ∧ head (utf8 x) = Some b) as Hne.
  { intros x. unfold utf8. repeat case_match; eexists _, _; by split. }
  destruct (unreserved c) eqn:Uc, (unreserved d) eqn:Ud.
  - by intros [= -> ->].
  - destruct (Hne d) as (b & t & Hb & _). rewrite Hb. intros [= H _]. by destruct (unreserved_not_percent _ Uc).
  - destruct (Hne c) as (b & t & Hb & _). rewrite Hb. intros [= H _]. by destruct (unreserved_not_percent _ Ud).
  - intros H. assert (head (utf8 c) = head (utf8 d)) as Hh.
    { destruct (Hne c) as (b & t & Hb & _), (Hne d) as (b' & t' & Hb' & _). rewrite Hb, Hb' in *. cbn [head]. f_equal.
      pose proof (utf8_bytes c Hc) as Fc. pose proof (utf8_bytes d Hd) as Fd. rewrite Hb in Fc. rewrite Hb' in Fd.
      apply Forall_cons in Fc as [Fc _]. apply Forall_cons in Fd as [Fd _]. rewrite !bind_cons, <-!app_assoc in H.
      destruct (percent_bytes_inj [b] [b'] ((t ≫= percent_byte) ++ r) ((t' ≫= percent_byte) ++ r')) as [[= ->] _]; [by constructor..|done| |done].
      rewrite !bind_cons. exact H. }
    apply percent_bytes_inj in H as [H ->]; [|by apply utf8_bytes..|by apply utf8_first]. split; [|done]. by apply utf8_inj.
Qed.
Lemma encode_points_inj l l' :
  Forall (λ c, (c < 1114112)%N) l → Forall (λ c, (c < 1114112)%N) l' → l ≫= encode_point = l' ≫= encode_point → l = l'.
Proof.
  assert (∀ c (r : jsstr), encode_point c ++ r ≠ []) as Hne.
  { intros c r. unfold encode_point. destruct (unreserved c); [done|]. unfold utf8. by repeat case_match. }
  intros Hl. revert l'. induction Hl as [|c l Hc _ IH]; intros [|d l'] Hl' H; [done|symmetry in H; rewrite bind_cons in H; by destruct (Hne _ _ H)|rewrite bind_cons in H; by destruct (Hne _ _ H)|].
  apply Forall_cons in Hl' as [Hd Hl']. rewrite !bind_cons in H. apply encode_point_inj in H as [-> H]; [|done..]. f_equal. by apply IH.
Qed.

(** A string is put together again from its code points. *)
Definition code_units (c : N) : jsstr :=
  if (c <? 65536)%N then [c] else [55296 + (c - 65536) / 1024; 56320 + (c - 65536) mod 1024]%N.
Lemma code_points_units s l :
  Forall (λ c, (c < 65536)%N) s → string_points s = Some l → l ≫= code_units = s ∧ Forall (λ c, (c < 1114112)%N) l.
Proof.
  remember (length s) as n eqn:Hn. assert (length s <= n)%nat as Hle by lia. clear Hn. revert s l Hle.
  induction n as [|n IH]; intros [|c s] l Hle Hs; cbn in Hle; try lia; cbn [string_points]; [by intros [= <-]|by intros [= <-]|].
  apply Forall_cons in Hs as [Hc Hs]. destruct (between_units 56320 57343 c) eqn:H1; [done|]. destruct (between_units 55296 56319 c) eqn:H2.
  - destruct s as [|d s]; [done|]. apply Forall_cons in Hs as [Hd Hs]. destruct (between_units 56320 57343 d) eqn:H3; [|done].
    intros (l' & Hl & ->)%fmap_Some. cbn in Hle. destruct (IH s l') as [IH1 IH2]; [lia|done|done|].
    unfold between_units in H2, H3. rewrite andb_true_iff, !N.leb_le in H2, H3.
    assert ((c - 55296) * 1024 + (d - 56320) < 1048576)%N as Hr by nia. split; [|constructor; [lia|done]].
    rewrite bind_cons, IH1. unfold code_units. rewrite (proj2 (N.ltb_ge _ _)) by lia. cbn [app].
    f_equal; [|f_equal]; zify; Z.to_euclidean_division_equations; lia.
  - intros (l' & Hl & ->)%fmap_Some. destruct (IH s l') as [IH1 IH2]; [lia|done|done|]. split; [|constructor; [lia|done]].
    rewrite bind_cons, IH1. unfold code_units. by rewrite (proj2 (N.ltb_lt _ _)).
Qed.

(** Different identifiers have different links. *)
Lemma encodeURIComponent_inj s s' e :
  Forall (λ c, (c < 65536)%N) s → Forall (λ c, (c < 65536)%N) s' → encodeURIComponent s = Some e → encodeURIComponent s' = Some e → s = s'.
Proof.
  unfold encodeURIComponent. intros Hs Hs' (l & Hl & ->)%fmap_Some (l' & Hl' & H)%fmap_Some.
  destruct (code_points_units s l Hs Hl) as [<- Fl], (code_points_units s' l' Hs' Hl') as [<- Fl']. f_equal. by apply encode_points_inj.
Qed.
(** An encoded identifier holds nothing that has a meaning in an address. *)
Lemma encodeURIComponent_plain s e : Forall (λ c, (c < 65536)%N) s → encodeURIComponent s = Some e → Forall (λ c, unreserved c = true ∨ c = 37%N) e.
Proof.
  unfold encodeURIComponent. intros Hs (l & Hl & ->)%fmap_Some. destruct (code_points_units s l Hs Hl) as [_ Fl]. clear Hl Hs s.
  induction Fl as [|c l Hc _ IH]; [constructor|]. rewrite bind_cons. apply Forall_app. split; [|exact IH]. unfold encode_point.
  destruct (unreserved c) eqn:Hu; [by constructor; [left|]|]. pose proof (utf8_bytes c Hc) as Hb. clear -Hb. revert Hb. generalize (utf8 c). intros bs Hb.
  induction Hb as [|b bs Hb _ IH]; [constructor|]. rewrite bind_cons. apply Forall_app. split; [|exact IH].
  assert (∀ d, (d < 16)%N → unreserved (hex_digit d) = true) as Hd.
  { intros d Hd. unfold hex_digit, unreserved, between_units. destruct (N.ltb_spec d 10).
    - by rewrite (proj2 (N.leb_le 48 _)), (proj2 (N.leb_le _ 57)) by lia.
    - rewrite (proj2 (N.leb_le 65 _)), (proj2 (N.leb_le _ 90)) by lia. by rewrite orb_true_r. }
  constructor; [by right|]. constructor; [left; apply Hd; zify; Z.to_euclidean_division_equations; lia|].
  constructor; [left; apply Hd; zify; Z.to_euclidean_division_equations; lia|constructor].
Qed.

(** Once the loop is through, every anchor holds the address of the page with
    its encoded identifier, and equal links have equal identifiers. *)
Lemma anchors_linked l anchors anchors' :
  Forall (λ a, Forall (λ c, (c < 65536)%N) (a_parent_id a)) anchors → initAnchorClipboard l anchors = (anchors', Ok tt) →
  Forall2 (λ a b, a_parent_id b = a_parent_id a ∧
    ∃ id, encodeURIComponent (a_parent_id a) = Some id ∧ a_text b = Some (page_address l ++ js "#" ++ id)) anchors anchors' ∧
  ∀ a b, a ∈ anchors' → b ∈ anchors' → a_text a = a_text b → a_parent_id a = a_parent_id b.
Proof.
  intros Hs Hrun.
  assert (Forall2 (λ a b, a_parent_id b = a_parent_id a ∧
    ∃ id, encodeURIComponent (a_parent_id a) = Some id ∧ a_text b = Some (page_address l ++ js "#" ++ id)) anchors anchors') as Hall.
  { clear Hs. revert anchors' Hrun. induction anchors as [|a rest IH]; intros as'; cbn [initAnchorClipboard]; [by intros [= <-]|].
    destruct (encodeURIComponent (a_parent_id a)) as [id|] eqn:Hid; [|done]. destruct (initAnchorClipboard l rest) as [rest' r].
    intros [= <- ->]. constructor; [|by apply IH]. split; [done|]. by exists id. }
  split; [exact Hall|]. intros a b Ha Hb Hab.
  assert (∀ b, b ∈ anchors' → Forall (λ c, (c < 65536)%N) (a_parent_id b) ∧
    ∃ id, encodeURIComponent (a_parent_id b) = Some id ∧ a_text b = Some (page_address l ++ js "#" ++ id)) as Hin.
  { intros x Hx. apply list_elem_of_lookup_1 in Hx as [i Hi]. destruct (Forall2_lookup_r _ _ _ _ _ Hall Hi) as (y & Hy & -> & id & H1 & H2).
    split; [|by exists id]. rewrite Forall_forall in Hs. apply Hs. by eapply list_elem_of_lookup_2. }
  destruct (Hin a Ha) as (Fa & ia & Ia & Ta), (Hin b Hb) as (Fb & ib & Ib & Tb). rewrite Ta, Tb in Hab. injection Hab as Hab.
  apply app_inv_head in Hab. injection Hab as Hab. subst ib. by eapply encodeURIComponent_inj.
Qed.
Example anchor_link :
  (λ a, a_text a) <$> (initAnchorClipboard (Location (js "null") (js "file:") [] (js "/docs/")) [Anchor [252; 32; 97]%N true false None]).1
  = [Some (js "file:///docs/#%C3%BC%20a")].
Proof. vm_compute. reflexivity. Qed.
