(* ===== verification/Excerpt.v ===== *)
(** * The excerpt of a search result (search.js, function [renderItem])

    Below the title of a result stands the first place of the page where a
    match occurs as a word, with at most two words before and after it. The
    place is found by a regular expression; [match_ends] lists the ends of its matches
    in the order the backtracking matcher tries them. *)

From S2P Require Import Prelude JSValue WordPattern Dom.

(** ** The patterns used *)
Inductive pattern :=
  | Many (f : N → bool)                 (* [x*], greedy *)
  | Some_of (f : N → bool)              (* [x+], greedy *)
  | Word_boundary                       (* [\b] *)
  | One_of (words : list jsstr)         (* [(?:v|w)], up to case *)
  | Then (p q : pattern)
  | Up_to (n : nat) (p : pattern).      (* [(?:p){0,n}], greedy *)

Section matcher.
Context (canonicalize : N → N) (s : jsstr).

Definition char_at (i : nat) : option N := s !! i.
Definition word_at (i : nat) : bool := match char_at i with Some c => word_character c | None => false end.
Definition boundary (i : nat) : bool :=
  xorb (match i with O => false | S j => word_at j end) (word_at i).

(** How many characters of a class follow. *)
Fixpoint run_length (f : N → bool) (t : jsstr) : nat :=
  match t with c :: t => if f c then S (run_length f t) else O | [] => O end.
(** [i + n, …, i + 1, i] *)
Fixpoint down_to (i n : nat) : list nat := match n with O => [i] | S n => (i + S n)%nat :: down_to i n end.

Fixpoint match_ends (p : pattern) (i : nat) : list nat :=
  match p with
  | Many f => down_to i (run_length f (drop i s))
  | Some_of f => match run_length f (drop i s) with O => [] | S n => down_to (S i) n end
  | Word_boundary => if boundary i then [i] else []
  | One_of words => (λ w, (i + length w)%nat) <$> filter (λ w, begins canonicalize w (drop i s) = true) words
  | Then p q => match_ends p i ≫= match_ends q
  | Up_to n p =>
      (fix up (n i : nat) : list nat :=
         match n with
         | O => [i]
         | S n => (match_ends p i ≫= λ j, if (j =? i)%nat then [] else up n j) ++ [i]
         end) n i
  end.

(** The leftmost match, its start and its end. *)
Fixpoint search_from (p : pattern) (fuel i : nat) : option (nat * nat) :=
  match match_ends p i with
  | j :: _ => Some (i, j)
  | [] => match fuel with O => None | S fuel => search_from p fuel (S i) end
  end.
Definition match_pattern (p : pattern) : option jsstr :=
  '(i, j) ← search_from p (length s) 0; Some (take (j - i) (drop i s)).
End matcher.

(** ** Rendering *)

Definition not_white (c : N) : bool := negb (is_white c).
Definition blank_char (c : N) : bool := (c =? 32)%N.
Definition numContextWords : nat := 2.
(** [(?:\S+ +){0,2}\S*\b(?:…)\b\S*(?: +\S+){0,2}] *)
Definition context_pattern (words : list jsstr) : pattern :=
  Then (Up_to numContextWords (Then (Some_of not_white) (Some_of blank_char)))
  (Then (Many not_white) (Then Word_boundary (Then (One_of words) (Then Word_boundary (Then (Many not_white)
  (Up_to numContextWords (Then (Some_of blank_char) (Some_of not_white)))))))).

Definition escapeRegex (s : jsstr) : jsstr := escape_with syntax_character s.
(** The words between the parentheses of the pattern, as they are read. *)
Definition group_words (words : list jsstr) : option (list jsstr) :=
  parse (js "(" ++ join_on vbar (escapeRegex <$> words) ++ js ")").

Record result_page := ResultPage { page_uri : jsstr; page_title : jsstr; page_breadcrumb : option jsstr; page_content : jsstr }.
Record result_item := ResultItem { item_page : result_page; item_matches : list jsstr }.
(** What is put on the page for a result. *)
Record shown_result := Suggestion { sg_href : jsstr; sg_title : jsstr; sg_breadcrumb : jsstr; sg_context : option jsstr }.

Section render.
Context (canonicalize : N → N) (relBaseUri : jsstr).

Definition excerpt (content : jsstr) (words : list jsstr) : option jsstr :=
  ws ← group_words words; match_pattern canonicalize content (context_pattern ws).
(** The item is changed: its first match is dropped when it does not occur as a
    word. *)
Definition renderItem (item : result_item) : shown_result * result_item :=
  let content := page_content (item_page item) in
  let '(context, matches_at) :=
    match item_matches item with
    | [] => (Some [], [])
    | m :: ms => match excerpt content [m] with Some c => (Some c, m :: ms) | None => (excerpt content ms, ms) end
    end in
  (Suggestion (relBaseUri ++ page_uri (item_page item)) (page_title (item_page item)) (default [] (page_breadcrumb (item_page item))) context,
   ResultItem (item_page item) matches_at).
End render.
(** ** What a match is *)
Section matching.
Context (canonicalize : N → N) (s : jsstr).

(** The text from [i] to [j]. *)
Definition piece (i j : nat) : jsstr := take (j - i) (drop i s).
Definition all_between (f : N → bool) (i j : nat) : Prop := (i <= j)%nat ∧ ∀ k, (i <= k < j)%nat → ∃ c, s !! k = Some c ∧ f c = true.

(** The declarative reading of a pattern. *)
Fixpoint matches_at (p : pattern) (i j : nat) : Prop :=
  match p with
  | Many f => all_between f i j
  | Some_of f => all_between f i j ∧ (i < j)%nat
  | Word_boundary => i = j ∧ boundary s i = true
  | One_of words => ∃ w, w ∈ words ∧ begins canonicalize w (drop i s) = true ∧ j = (i + length w)%nat
  | Then p q => ∃ k, matches_at p i k ∧ matches_at q k j
  | Up_to n p =>
      (fix up (n i : nat) : Prop :=
         match n with O => i = j | S n => i = j ∨ ∃ k, matches_at p i k ∧ k ≠ i ∧ up n k end) n i
  end.

Lemma elem_of_down_to j i n : j ∈ down_to i n ↔ (i <= j <= i + n)%nat.
Proof.
  induction n as [|n IH]; simpl; [rewrite list_elem_of_singleton; lia|]. rewrite elem_of_cons, IH. lia.
Qed.
Lemma run_length_spec f i j : all_between f i j ↔ (i <= j <= i + run_length f (drop i s))%nat.
Proof.
  assert (∀ t n, (n <= run_length f t)%nat ↔ ∀ k, (k < n)%nat → ∃ c, t !! k = Some c ∧ f c = true) as H.
  { intros t. induction t as [|c t IH]; intros n; simpl.
    - split; [lia|]. intros Hn. destruct n; [lia|]. destruct (Hn 0%nat) as (c & ? & _); [lia|done].
    - destruct (f c) eqn:Hc.
      + destruct n as [|n]; [split; lia|]. rewrite <-Nat.succ_le_mono, IH. split.
        * intros Hn [|k] Hk; [by exists c|]. apply Hn. lia.
        * intros Hn k Hk. apply (Hn (S k)). lia.
      + split; [lia|]. intros Hn. destruct n; [lia|]. destruct (Hn 0%nat) as (d & [= <-] & ?); [lia|congruence]. }
  unfold all_between. split.
  - intros [Hij Hk]. split; [done|]. assert (j - i <= run_length f (drop i s))%nat; [|lia]. apply H. intros k Hk'.
    rewrite lookup_drop. apply Hk. lia.
  - intros [Hij Hj]. split; [done|]. intros k Hk. destruct (proj1 (H (drop i s) (j - i)%nat) ltac:(lia) (k - i)%nat) as (c & Hc & ?); [lia|].
    rewrite lookup_drop in Hc. exists c. split; [|done]. by replace k with (i + (k - i))%nat by lia.
Qed.

(** The matcher tries exactly the ends of matches. *)
Lemma ends_spec p i j : j ∈ match_ends canonicalize s p i ↔ matches_at p i j.
Proof.
  revert i j. induction p as [f|f| |words|p IHp q IHq|n p IHp]; intros i j; cbn [match_ends matches_at].
  - by rewrite elem_of_down_to, run_length_spec.
  - rewrite run_length_spec. destruct (run_length f (drop i s)) as [|n]; [|rewrite elem_of_down_to; lia].
    split; [by intros []%not_elem_of_nil|lia].
  - destruct (boundary s i); [rewrite list_elem_of_singleton|]; [naive_solver|]. split; [by intros []%not_elem_of_nil|by intros []].
  - rewrite list_elem_of_fmap. setoid_rewrite list_elem_of_filter. naive_solver.
  - rewrite list_elem_of_bind. setoid_rewrite IHp. setoid_rewrite IHq. naive_solver.
  - revert i. induction n as [|n IH]; intros i; [rewrite list_elem_of_singleton; naive_solver|].
    rewrite elem_of_app, list_elem_of_singleton, list_elem_of_bind. split.
    + intros [(k & Hk & Hp)|]; [|by left]. right. apply IHp in Hp. exists k. destruct (k =? i)%nat eqn:Hki; [by apply not_elem_of_nil in Hk|].
      apply Nat.eqb_neq in Hki. split_and!; [done..|]. by apply IH.
    + intros [->|(k & Hp & Hki & Hk)]; [by right|]. left. exists k. rewrite (proj2 (Nat.eqb_neq k i) Hki). split; [by apply IH|by apply IHp].
Qed.

(** The leftmost match, and none only when there is none. *)
Lemma search_from_spec p fuel i :
  match search_from canonicalize s p fuel i with
  | Some (a, b) => (i <= a)%nat ∧ matches_at p a b ∧ ∀ k j, (i <= k < a)%nat → ¬ matches_at p k j
  | None => ∀ k j, (i <= k <= i + fuel)%nat → ¬ matches_at p k j
  end.
Proof.
  revert i. induction fuel as [|fuel IH]; intros i; simpl; destruct (match_ends canonicalize s p i) as [|j l] eqn:He.
  - intros k j Hk Hm%ends_spec. replace k with i in Hm by lia. rewrite He in Hm. by apply not_elem_of_nil in Hm.
  - split_and!; [lia| |intros; lia]. apply ends_spec. rewrite He. by left.
  - assert (∀ j, ¬ matches_at p i j) as Hno. { intros j Hm%ends_spec. rewrite He in Hm. by apply not_elem_of_nil in Hm. }
    specialize (IH (S i)). destruct (search_from _ _ _ _ _) as [[a b]|].
    + destruct IH as (? & ? & Hl). split_and!; [lia|done|]. intros k j Hk. destruct (decide (k = i)) as [->|]; [apply Hno|apply Hl; lia].
    + intros k j Hk. destruct (decide (k = i)) as [->|]; [apply Hno|apply IH; lia].
  - split_and!; [lia| |intros; lia]. apply ends_spec. rewrite He. by left.
Qed.

(** ** At most two words on either side *)

(** The runs of white space in a text. *)
Fixpoint blank_runs (after : bool) (t : jsstr) : nat :=
  match t with
  | [] => O
  | c :: t => if is_white c && negb after then S (blank_runs true t) else blank_runs (is_white c) t
  end.
Lemma blank_runs_after b t : (blank_runs b t <= blank_runs false t <= S (blank_runs b t))%nat.
Proof.
  destruct b; [|lia]. destruct t as [|c t]; [simpl; lia|]. cbn [blank_runs negb]. rewrite !andb_false_r, !andb_true_r.
  destruct (is_white c); lia.
Qed.
Lemma blank_runs_app b t u : (blank_runs b (t ++ u) <= blank_runs b t + blank_runs false u)%nat.
Proof.
  revert b. induction t as [|c t IH]; intros b; [apply blank_runs_after|]. cbn [app blank_runs].
  destruct (is_white c && negb b); [specialize (IH true)|specialize (IH (is_white c))]; lia.
Qed.

Lemma piece_app i k j : (i <= k <= j)%nat → piece i j = piece i k ++ piece k j.
Proof.
  intros Hk. unfold piece. rewrite <-(take_drop (k - i) (take (j - i) (drop i s))). rewrite take_take, skipn_firstn_comm, drop_drop.
  f_equal; [f_equal; lia|f_equal; [lia|f_equal; lia]].
Qed.
Lemma matches_le p i j : matches_at p i j → (i <= j)%nat.
Proof.
  revert i j. induction p as [f|f| |words|p IHp q IHq|n p IHp]; intros i j; cbn [matches_at].
  - by intros [].
  - by intros [[] _].
  - by intros [-> _].
  - intros (w & _ & _ & ->). lia.
  - intros (k & Hp%IHp & Hq%IHq). lia.
  - revert i. induction n as [|n IH]; intros i; [lia|]. intros [->|(k & Hp%IHp & _ & Hk%IH)]; lia.
Qed.
Lemma all_between_piece f i j : all_between f i j → Forall (λ c, f c = true) (piece i j).
Proof.
  intros [Hij Hk]. apply Forall_lookup. intros k c Hc. unfold piece in Hc. pose proof (lookup_lt_Some _ _ _ Hc) as Hlt.
  rewrite length_take in Hlt. rewrite lookup_take_lt, lookup_drop in Hc by lia.
  destruct (Hk (i + k)%nat) as (d & Hd & ?); [lia|]. congruence.
Qed.
Lemma solid_runs b t : Forall (λ c, not_white c = true) t → blank_runs b t = 0%nat.
Proof.
  intros Ht. revert b. induction Ht as [|c t Hc Ht IH]; intros b; [done|]. unfold not_white in Hc. cbn [blank_runs].
  destruct (is_white c); [done|]. apply IH.
Qed.
Lemma blank_one b t : Forall (λ c, blank_char c = true) t → (blank_runs b t <= 1)%nat.
Proof.
  intros Ht. assert (∀ t, Forall (λ c, blank_char c = true) t → blank_runs true t = 0%nat) as H0.
  { clear. induction 1 as [|c t Hc _ IH]; [done|]. cbn [blank_runs]. apply N.eqb_eq in Hc as ->. by rewrite andb_false_r. }
  destruct Ht as [|c t Hc Ht]; [simpl; lia|]. cbn [blank_runs]. apply N.eqb_eq in Hc as ->. rewrite (H0 t Ht).
  change (is_white 32) with true. rewrite (H0 t Ht). destruct (true && negb b); lia.
Qed.
Lemma up_to_runs p n i j :
  (∀ i j, matches_at p i j → blank_runs false (piece i j) <= 1)%nat → matches_at (Up_to n p) i j → (blank_runs false (piece i j) <= n)%nat.
Proof.
  intros Hp. revert i. induction n as [|n IH]; intros i; cbn [matches_at].
  - intros ->. unfold piece. by rewrite Nat.sub_diag.
  - intros [->|(k & Hk & _ & Hj)]; [unfold piece; rewrite Nat.sub_diag; simpl; lia|].
    pose proof (matches_le _ _ _ Hk). pose proof (matches_le (Up_to n p) k j Hj). rewrite (piece_app i k j) by lia.
    pose proof (blank_runs_app false (piece i k) (piece k j)). specialize (Hp _ _ Hk). specialize (IH k Hj). lia.
Qed.
Lemma group_runs f g i j :
  (∀ i j, all_between f i j → all_between g i j → True) → (f = not_white ∧ g = blank_char) ∨ (f = blank_char ∧ g = not_white) →
  matches_at (Then (Some_of f) (Some_of g)) i j → (blank_runs false (piece i j) <= 1)%nat.
Proof.
  intros _ Hfg (k & [Hf Hik] & [Hg Hkj]). rewrite (piece_app i k j) by lia.
  pose proof (blank_runs_app false (piece i k) (piece k j)) as Happ. apply all_between_piece in Hf, Hg.
  destruct Hfg as [[-> ->]|[-> ->]]; rewrite (solid_runs _ _ ltac:(eassumption)) in Happ;
    [pose proof (blank_one false _ Hg)|pose proof (blank_one false _ Hf)]; lia.
Qed.

(** An occurrence of a word of its own. *)
Definition occurs_as_word (w : jsstr) (k : nat) : Prop :=
  begins canonicalize w (drop k s) = true ∧ boundary s k = true ∧ boundary s (k + length w) = true.
Lemma context_matches words i j :
  matches_at (context_pattern words) i j →
  ∃ w k, w ∈ words ∧ occurs_as_word w k ∧ (i <= k)%nat ∧ (k + length w <= j)%nat ∧
    (blank_runs false (piece i k) <= 2)%nat ∧ (blank_runs false (piece (k + length w) j) <= 2)%nat.
Proof.
  unfold context_pattern. intros (a & Ha & k & Hk & k1 & [<- Hb] & e & (w & Hw & Hbg & ->) & e1 & [<- Hb'] & c & Hc & Hj).
  exists w, k. pose proof (matches_le _ _ _ Ha). pose proof (matches_le _ _ _ Hj). pose proof (proj1 Hk). pose proof (proj1 Hc).
  split_and!; [done|by split_and!|lia|lia| |].
  - rewrite (piece_app i a k) by lia. pose proof (blank_runs_app false (piece i a) (piece a k)).
    apply all_between_piece in Hk. rewrite (solid_runs _ _ Hk) in *.
    assert (blank_runs false (piece i a) <= 2)%nat; [|lia]. eapply (up_to_runs _ numContextWords); [|exact Ha].
    intros i' j'. apply group_runs; auto.
  - rewrite (piece_app _ c j) by lia. pose proof (blank_runs_app false (piece (k + length w) c) (piece c j)).
    apply all_between_piece in Hc. rewrite (solid_runs _ _ Hc) in *.
    assert (blank_runs false (piece c j) <= 2)%nat; [|lia]. eapply (up_to_runs _ numContextWords); [|exact Hj].
    intros i' j'. apply group_runs; auto.
Qed.
Lemma occurs_matches words w k : w ∈ words → occurs_as_word w k → matches_at (context_pattern words) k (k + length w).
Proof.
  intros Hw (Hb & H1 & H2). unfold context_pattern. exists k. split; [by left|]. exists k. split; [split; [done|intros; lia]|].
  exists k. split; [done|]. exists (k + length w)%nat. split; [by exists w|]. exists (k + length w)%nat. split; [done|].
  exists (k + length w)%nat. split; [split; [done|intros; lia]|by left].
Qed.
Lemma boundary_length k : boundary s k = true → (k <= length s)%nat.
Proof.
  unfold boundary, word_at, char_at. intros Hb. destruct (decide (k <= length s)%nat); [done|exfalso].
  destruct k as [|k]; [lia|]. rewrite !lookup_ge_None_2 in Hb by lia. done.
Qed.
End matching.

Lemma group_words_spec w ws : group_words (w :: ws) = Some (w :: ws).
Proof. apply (parse_words _ syntax_class w ws []). Qed.

(** C32. The excerpt shows the match in its context: it is the part of the page
    around an occurrence of one of the words as a word of its own, up to case,
    with at most two words before and after it; there is no excerpt only when
    no word occurs so, whatever characters the words have. *)
Theorem excerpt_spec (canonicalize : N → N) (content : jsstr) (w : jsstr) (ws : list jsstr) :
  match excerpt canonicalize content (w :: ws) with
  | Some c =>
      ∃ v before after i, v ∈ w :: ws ∧ c = before ++ take (length v) (drop (i + length before) content) ++ after ∧
        c = take (length c) (drop i content) ∧ occurs_as_word canonicalize content v (i + length before) ∧
        (blank_runs false before <= 2)%nat ∧ (blank_runs false after <= 2)%nat
  | None => ∀ v k, v ∈ w :: ws → ¬ occurs_as_word canonicalize content v k
  end.
Proof.
  unfold excerpt. rewrite group_words_spec. cbn [mbind option_bind]. unfold match_pattern.
  pose proof (search_from_spec canonicalize content (context_pattern (w :: ws)) (length content) 0) as Hs.
  destruct (search_from _ _ _ _ _) as [[i j]|]; cbn [mbind option_bind].
  - destruct Hs as (_ & Hm & _). pose proof (context_matches _ _ _ _ _ Hm) as (v & k & Hv & Hocc & Hik & Hkj & Hb & Ha).
    pose proof Hocc as (_ & Hbk & Hbe). apply boundary_length in Hbk, Hbe.
    assert (length (piece content i k) = (k - i)%nat) as Hlen by (unfold piece; rewrite length_take, length_drop; lia).
    exists v, (piece content i k), (piece content (k + length v) j), i. rewrite Hlen. replace (i + (k - i))%nat with k by lia.
    split_and!; [done| | |done..].
    + change (take (j - i) (drop i content)) with (piece content i j).
      rewrite (piece_app content i k j), (piece_app content k (k + length v) j) by lia. do 2 f_equal.
      unfold piece. f_equal. lia.
    + rewrite length_take. destruct (Nat.min_spec (j - i) (length (drop i content))) as [[_ ->]|[Hle ->]]; [done|].
      rewrite !take_ge by lia. done.
  - intros v k Hv Hocc. pose proof Hocc as (_ & Hbk & _). apply boundary_length in Hbk.
    eapply (Hs k); [lia|]. by eapply occurs_matches.
Qed.

(** A word that does not begin and end with a letter, digit or underscore of
    ASCII never has a context: the boundary is on the wrong side. *)
Lemma excerpt_needs_ascii : excerpt ascii_upper (js "about c++ code") [js "c++"] = None ∧ is_Some (excerpt ascii_upper (js "about c code") [js "c"]).
Proof. vm_compute. split; [reflexivity|by eexists]. Qed.
