(* ===== verification/AutoComplete.v ===== *)
(** * The suggestion box (auto-complete/auto-complete.js)

    One search field with its list of suggestions, as a state machine whose
    steps are the handlers: keys, focus, blur, the mouse, timers that fire and
    answers of the source that arrive. The page is reduced to what the
    handlers read and write of it: the suggestions shown as children of the
    container, the one whose class list holds [selected], and whether
    [style.display] is ['none'], and how far the list is scrolled. [render] is
    what the HTML of [renderItem] becomes in the page, one element per item, and
    [lay] how the browser lays these out. *)

From S2P Require Import Excerpt Adapter.
From S2P Require Import Prelude JSColl JSValue WordPattern Dom.

(** The attributes read of a suggestion: [data-val] and [href]. *)
Record suggestion := Suggestion { data_val : option jsstr; href : jsstr }.

(** ** The list on the screen

    Lengths are in layout units, 64 to a pixel. Of a list of suggestions: its
    [max-height], if that is a number, [offsetHeight] of the first suggestion,
    the distance of the upper edge of each from the start of the content, its
    height, and how far the content can be scrolled. The code reads neither the
    heights of the others nor the height of the first again. *)
Record layout := Layout { ly_maxHeight : option Z; ly_height : Z; ly_tops : list Z; ly_heights : list Z; ly_range : Z }.
(** What the container keeps of it; nothing was measured where a property is
    undefined, 0 or not a number. *)
Record pane := Pane { pn_scrollTop : Z; pn_maxHeight : option Z; pn_suggestionHeight : Z }.
(** [scrollTop = z] *)
Definition scroll_to (ly : layout) (z : Z) (p : pane) : pane :=
  Pane (Z.max 0 (Z.min (ly_range ly) z)) (pn_maxHeight p) (pn_suggestionHeight p).
Definition measure (ly : layout) (p : pane) : pane :=
  Pane (pn_scrollTop p)
    (match pn_maxHeight p with Some 0%Z | None => ly_maxHeight ly | m => m end)
    (if (pn_suggestionHeight p =? 0)%Z then ly_height ly else pn_suggestionHeight p).
(** The list is scrolled so that [next] is seen; without it to the start. *)
Definition show_next (ly : layout) (next : option nat) (p : pane) : pane :=
  let h := pn_suggestionHeight p in
  if (h =? 0)%Z then p
  else
    match next with
    | None => scroll_to ly 0 p
    | Some i =>
        let scrTop := pn_scrollTop p in
        let selTop := (default 0 (ly_tops ly !! i) - scrTop)%Z in
        let below := match pn_maxHeight p with Some m => (selTop + h - m)%Z | None => 0%Z end in
        if (0 <? below)%Z then scroll_to ly (below + scrTop) p
        else if (selTop <? 0)%Z then scroll_to ly (selTop + scrTop) p
        else p
    end.

(** Names every object inherits, with the [length] of what they name; the
    accessor [__proto__] is left out. *)
Definition inherited_names : list (jsstr * nat) :=
  [(js "constructor", 1); (js "hasOwnProperty", 1); (js "isPrototypeOf", 1); (js "propertyIsEnumerable", 1);
   (js "toLocaleString", 0); (js "toString", 0); (js "valueOf", 0);
   (js "__defineGetter__", 2); (js "__defineSetter__", 2); (js "__lookupGetter__", 1); (js "__lookupSetter__", 1)]%nat.

Section box.
Context {item : Type}.

(** What the cache holds under a name: suggestions, or a function it
    inherits. *)
Inductive cached := Found (l : list item) | Builtin (arity : nat).
Definition cached_length (d : cached) : nat := match d with Found l => length l | Builtin n => n end.

Record box := Box {
  value : jsstr;                       (* what is typed *)
  last_val : jsstr;
  cache : list (jsstr * cached);
  timer : option jsstr;                (* the search the timer will start *)
  requests : list jsstr;               (* searches whose answer is outstanding *)
  hidden : bool;                       (* style.display is 'none' *)
  items : list suggestion;
  selected : option nat;
  hides : nat;                         (* timers that will hide the list *)
  leaving : list nat;                  (* timers that will unselect *)
  on_screen : pane;
}.

Definition new_box (v : jsstr) : box := Box v [] [] None [] false [] None 0 [] (Pane 0 None 0).

Definition set_value v (b : box) := Box v (last_val b) (cache b) (timer b) (requests b) (hidden b) (items b) (selected b) (hides b) (leaving b) (on_screen b).
Definition set_last_val v (b : box) := Box (value b) v (cache b) (timer b) (requests b) (hidden b) (items b) (selected b) (hides b) (leaving b) (on_screen b).
Definition set_cache c (b : box) := Box (value b) (last_val b) c (timer b) (requests b) (hidden b) (items b) (selected b) (hides b) (leaving b) (on_screen b).
Definition set_timer t (b : box) := Box (value b) (last_val b) (cache b) t (requests b) (hidden b) (items b) (selected b) (hides b) (leaving b) (on_screen b).
Definition set_requests r (b : box) := Box (value b) (last_val b) (cache b) (timer b) r (hidden b) (items b) (selected b) (hides b) (leaving b) (on_screen b).
Definition set_hidden h (b : box) := Box (value b) (last_val b) (cache b) (timer b) (requests b) h (items b) (selected b) (hides b) (leaving b) (on_screen b).
Definition set_selected s (b : box) := Box (value b) (last_val b) (cache b) (timer b) (requests b) (hidden b) (items b) s (hides b) (leaving b) (on_screen b).
Definition set_hides n (b : box) := Box (value b) (last_val b) (cache b) (timer b) (requests b) (hidden b) (items b) (selected b) n (leaving b) (on_screen b).
Definition set_leaving l (b : box) := Box (value b) (last_val b) (cache b) (timer b) (requests b) (hidden b) (items b) (selected b) (hides b) l (on_screen b).
Definition set_pane p (b : box) := Box (value b) (last_val b) (cache b) (timer b) (requests b) (hidden b) (items b) (selected b) (hides b) (leaving b) p.
(** New elements take the place of the old ones: none is selected, and the
    timers of the old ones do nothing any more. *)
Definition set_innerHTML l (b : box) := Box (value b) (last_val b) (cache b) (timer b) (requests b) (hidden b) l None (hides b) [] (on_screen b).

(** What a handler asks of the browser. *)
Inductive effect := PreventDefault | StopImmediatePropagation | Focus | OnSelect (val : option jsstr) (i : nat).

Context (lay : list suggestion → layout) (render : item → jsstr → suggestion) (minChars : nat) (o_cache : bool).

(** [that.cache[v]] and [v in that.cache] *)
Definition cache_get (v : jsstr) (b : box) : option cached :=
  match jm_get v (cache b) with
  | Some d => Some d
  | None => Builtin <$> jm_get v inherited_names
  end.

(** [updateSC(0, next)] of a field with an element to put the list into: the
    list is shown and measured, and [next] is scrolled into view. *)
Definition updateSC (next : option nat) (b : box) : box :=
  let ly := lay (items b) in
  set_pane (show_next ly next (measure ly (on_screen b))) (set_hidden false b).

(** [suggest(data)]: rendering an element of a function, which is
    [undefined], fails. *)
Definition suggest (data : cached) : M box unit := λ b,
  let val := value b in
  let b := set_cache (jm_set val data (cache b)) b in
  if (0 <? cached_length data)%nat && (minChars <=? length val)%nat then
    match data with
    | Found l => (updateSC None (set_innerHTML ((λ d, render d val) <$> l) b), Ok tt)
    | Builtin _ => (b, Throw TypeError)
    end
  else (set_hidden true b, Ok tt).

(** The loop over the prefixes of the term that are longer than [minChars]:
    a search for one of them found nothing. [n] prefixes are left, the next
    one is shorter than the term by [i]. *)
Fixpoint prefix_was_empty (val : jsstr) (i n : nat) (b : box) : bool :=
  match n with
  | O => false
  | S n =>
      let part := take (length val - i) val in
      match cache_get part b with
      | Some d => if (cached_length d =? 0)%nat then true else prefix_was_empty val (S i) n b
      | None => prefix_was_empty val (S i) n b
      end
  end.

(** [keyupHandler]; [key] is 0 where the event has none. *)
Definition keyupHandler (key : Z) : M box unit := λ b,
  if (key =? 0)%Z || (((key <? 35) || (40 <? key)) && negb (key =? 13) && negb (key =? 27))%Z then
    let val := value b in
    if (minChars <=? length val)%nat then
      if bool_decide (val ≠ last_val b) then
        let b := set_timer None (set_last_val val b) in
        let search := (set_timer (Some val) b, Ok tt) in
        if o_cache then
          match cache_get val b with
          | Some d => suggest d b
          | None => if prefix_was_empty val 1 (length val - minChars - 1) b then suggest (Found []) b else search
          end
        else search
      else (b, Ok tt)
    else (set_hidden true (set_last_val val b), Ok tt)
  else (b, Ok tt).

Definition focusHandler : M box unit := modify (set_last_val [10%N]);; keyupHandler 0.

(** Selecting the suggestion [i]: its [data-val], where it has one, is put
    into the field. *)
Definition select (i : nat) (b : box) : box :=
  let b := set_selected (Some i) b in
  match items b !! i with
  | Some (Suggestion (Some (c :: v)) _) => set_value (c :: v) b
  | _ => b
  end.

Definition sibling (down : bool) (i : nat) (b : box) : option nat :=
  if down then if (S i <? length (items b))%nat then Some (S i) else None
  else match i with O => None | S i => Some i end.

(** The arrow keys. *)
Definition arrow (down : bool) (b : box) : box :=
  let b := match selected b with
           | None => select (if down then 0%nat else length (items b) - 1) b
           | Some i => match sibling down i b with
                       | Some next => select next (set_selected None b)
                       | None => set_value (last_val b) (set_selected None b)
                       end
           end in
  updateSC (selected b) b.

Definition selected_val (b : box) (i : nat) : option jsstr := items b !! i ≫= data_val.

Definition keydownHandler (key : Z) (b : box) : box * list effect :=
  if ((key =? 40) || (key =? 38))%Z && (0 <? length (items b))%nat then (arrow (key =? 40)%Z b, [PreventDefault])
  else if (key =? 27)%Z then
    if negb (hidden b) then
      (set_hidden true b, [PreventDefault; StopImmediatePropagation] ++ match selected b with Some _ => [Focus] | None => [] end)
    else (set_value [] b, [])
  else if ((key =? 13) || (key =? 9))%Z then
    match selected b with
    | Some i => if negb (hidden b) then (set_hides (S (hides b)) b, [OnSelect (selected_val b i) i]) else (b, [])
    | None => (b, [])
    end
  else (b, []).

(** [blurHandler]; [over_sb]: the pointer is over the list, [active]: the
    field has the focus. Timers that give the focus back are effects. *)
Definition blurHandler (over_sb active : bool) (b : box) : box * list effect :=
  if over_sb then (b, if active then [] else [Focus])
  else (set_hides (S (hides b)) (set_hidden true (set_last_val (value b) b)), []).

(** The mouse over, pressed on and leaving the suggestion [i]. *)
Definition mouseover (i : nat) (b : box) : box := set_selected (Some i) b.
Definition mousedown (i : nat) (b : box) : box * list effect :=
  (set_hidden true (set_value (default [] (selected_val b i)) b), [OnSelect (selected_val b i) i]).
Definition mouseleave (b : box) : box :=
  match selected b with Some i => set_leaving (leaving b ++ [i]) b | None => b end.

(** ** Timers and answers *)
Definition search_timer (b : box) : box :=
  match timer b with Some v => set_timer None (set_requests (requests b ++ [v]) b) | None => b end.
Definition hide_timer (b : box) : box :=
  match hides b with O => b | S n => set_hides n (set_hidden true b) end.
Definition leave_timer (b : box) : box :=
  match leaving b with
  | [] => b
  | i :: l => set_leaving l (if bool_decide (selected b = Some i) then set_selected None b else b)
  end.

(** The answer to the request number [n] arrives. *)
Definition answer_arrives (n : nat) (data : list item) : M box unit := λ b,
  match requests b !! n with
  | None => (b, Ok tt)
  | Some _ => suggest (Found data) (set_requests (delete n (requests b)) b)
  end.

(** ** Events *)
Inductive event :=
  | Typed (v : jsstr)                          (* the browser changes the field *)
  | KeyDown (key : Z) | KeyUp (key : Z) | Focused | Blurred (over_sb active : bool)
  | MouseOver (i : nat) | MouseDown (i : nat) | MouseLeave
  | SearchTimer | HideTimer | LeaveTimer
  | Answer (n : nat) (data : list item)
  | Scrolled (z : Z).                          (* by the user, or by the browser *)

(** Events on a suggestion reach one that is there; the list is scrolled to
    a place in it. *)
Definition possible (e : event) (b : box) : Prop :=
  match e with
  | MouseOver i | MouseDown i => (i < length (items b))%nat
  | Scrolled z => (0 <= z <= ly_range (lay (items b)))%Z
  | _ => True
  end.

Definition handle (e : event) : M box unit :=
  match e with
  | Typed v => modify (set_value v)
  | KeyDown key => modify (λ b, (keydownHandler key b).1)
  | KeyUp key => keyupHandler key
  | Focused => focusHandler
  | Blurred over_sb active => modify (λ b, (blurHandler over_sb active b).1)
  | MouseOver i => modify (mouseover i)
  | MouseDown i => modify (λ b, (mousedown i b).1)
  | MouseLeave => modify mouseleave
  | SearchTimer => modify search_timer
  | HideTimer => modify hide_timer
  | LeaveTimer => modify leave_timer
  | Answer n data => answer_arrives n data
  | Scrolled z => modify (λ b, set_pane (scroll_to (lay (items b)) z (on_screen b)) b)
  end.

(** The field's life: a handler that throws leaves what it did before. *)
Inductive reachable (allowed : event → box → Prop) (b0 : box) : box → Prop :=
  | reach_start : reachable allowed b0 b0
  | reach_step b e : reachable allowed b0 b → possible e b → allowed e b → reachable allowed b0 (handle e b).1.
End box.
Arguments cached item : clear implicits.
Arguments box item : clear implicits.
Arguments event item : clear implicits.

(** ** Setting up and [destroy]

    A field as the constructor changes it: its attribute [autocomplete], what it
    keeps of that, whether its handlers are attached, and the ancestors of its
    container of suggestions, the parent first. *)
Record box_field := Field {
  f_autocomplete : option jsstr;
  f_saved : option jsstr;
  f_handlers : bool;
  f_sc : list nat;
}.

Section fields.
(** The body, and the ancestors of an element. *)
Context (body : nat) (ancestors : nat → list nat).

(** [target]: what [selectorToInsert] finds, where it is a selector. *)
Definition init_field (target : option (option nat)) (f : box_field) : box_field :=
  let n := match target with Some (Some n) => n | _ => body end in
  Field (Some (js "off")) (f_autocomplete f) true (n :: ancestors n).

Definition removeChild (n : nat) (f : box_field) : result box_field :=
  if bool_decide (head (f_sc f) = Some n) then Ok (Field (f_autocomplete f) (f_saved f) (f_handlers f) [])
  else Throw (PlainError "NotFoundError").
Definition destroy_field (target : option (option nat)) (f : box_field) : box_field * result unit :=
  let f := Field (match f_saved f with Some (c :: v) => Some (c :: v) | _ => None end) (f_saved f) false (f_sc f) in
  let removed :=
    match target with
    | Some None => Throw TypeError
    | Some (Some n) => if bool_decide (n ∈ f_sc f) then removeChild n f else removeChild body f
    | None => removeChild body f
    end in
  match removed with Ok f => (f, Ok tt) | Throw e => (f, Throw e) end.
(** An exception leaves the fields after it as they are. *)
Fixpoint destroy (target : option (option nat)) (l : list box_field) : list box_field * result unit :=
  match l with
  | [] => ([], Ok tt)
  | f :: l =>
      match destroy_field target f with
      | (f, Ok _) => let '(l, r) := destroy target l in (f :: l, r)
      | (f, Throw e) => (f :: l, Throw e)
      end
  end.
End fields.

(** The handlers of every field are closures over the one variable [that],
    which after the loop is the last field: they act on its box. What is typed
    goes into the field itself. *)
Section boxes.
Context {item : Type} (lay : list suggestion → layout) (render : item → jsstr → suggestion) (minChars : nat) (o_cache : bool).
Definition field_event (j : nat) (e : event item) : M (list (box item)) unit := λ l,
  let at_box n := match l !! n with
                  | Some b => let '(b, r) := handle lay render minChars o_cache e b in (<[n := b]> l, r)
                  | None => (l, Ok tt)
                  end in
  match e with Typed _ => at_box j | _ => at_box (length l - 1)%nat end.
End boxes.

(** ** The box of the site (search.js)

    A result is rendered as a link to its page, without [data-val]; choosing one
    goes to the address of its link. *)
Definition site_render (canonicalize : N → N) (relBaseUri : jsstr) (item : Excerpt.result_item) (_term : jsstr) : suggestion :=
  Suggestion None (Excerpt.sg_href (Excerpt.renderItem canonicalize relBaseUri item).1).
(** What [renderItem] reads of a page of the index, where title, uri and
    content are texts and the breadcrumb is one or absent. *)
Definition text_prop (v : jsval) (k : string) : option jsstr :=
  match get_prop v (js k) with Ok (JStr s) => Some s | _ => None end.
Definition shown_page (v : jsval) : option Excerpt.result_page :=
  uri ← text_prop v "uri"; title ← text_prop v "title"; content ← text_prop v "content";
  Some (Excerpt.ResultPage uri title (text_prop v "breadcrumb") content).
(** An element of the list that the adapter answers with. *)
Definition shown_item (r : Adapter.search_result) : option Excerpt.result_item :=
  v ← Adapter.sr_page r; p ← shown_page v; Some (Excerpt.ResultItem p (Adapter.sr_matches r)).
(** [onSelect(e, term, item)] *)
Definition onSelect {item} (i : nat) (b : box item) : option jsstr := href <$> items b !! i.
