(* ===== verification/AutoCompleteTheorems.v ===== *)
(** * The suggestion box: theorems

    The selection stays within the list whatever happens; the arrow keys walk
    the list and come back to what was typed; the cache answers as the source
    would, except for texts it gives up, as long as answers arrive before the
    text changes again; the selected suggestion is seen from its upper edge on. At the end the box is
    put together with the search it asks: from a word typed to the page. *)

From S2P Require Import JSNum BKD BKDTheorems Tokenizer Excerpt Adapter DatabaseTheorems AdapterTheorems.
From S2P Require Import Prelude JSColl JSValue WordPattern Dom AutoComplete.

Section theorems.
Context {item : Type} (lay : list suggestion → layout) (render : item → jsstr → suggestion) (minChars : nat) (o_cache : bool).

(** ** What always holds *)
Definition well_selected (b : box item) : Prop :=
  (∀ i, selected b = Some i → (i < length (items b))%nat) ∧
  Forall (λ i, (i < length (items b))%nat) (leaving b) ∧
  (∀ v, timer b = Some v → (minChars <= length v)%nat) ∧ Forall (λ v, (minChars <= length v)%nat) (requests b).

Lemma suggest_selected d b : well_selected b → well_selected (suggest lay render minChars d b).1.
Proof.
  intros (Hs & Hl & Ht & Hr). unfold suggest. destruct (_ && _); [|by split_and!]. destruct d; by split_and!.
Qed.

Lemma keyup_selected key b : well_selected b → well_selected (keyupHandler lay render minChars o_cache key b).1.
Proof.
  intros H. unfold keyupHandler. destruct (_ || _); [|done]. destruct (Nat.leb_spec minChars (length (value b))) as [Hlen|]; [|by destruct H as (?&?&?&?); split_and!].
  assert (well_selected (set_timer None (set_last_val (value b) b))) as Hb by by destruct H as (?&?&?&?); split_and!.
  assert (well_selected (set_timer (Some (value b)) (set_last_val (value b) b))) as Hb' by by destruct H as (?&?&?&?); split_and!; [..|intros ? [= <-]|].
  case_bool_decide; [|done]. destruct o_cache; [|done]. destruct (cache_get _ _); [by apply suggest_selected|].
  destruct (prefix_was_empty _ _ _ _); [by apply suggest_selected|done].
Qed.

Lemma select_items i (b : box item) : items (select i b) = items b ∧ leaving (select i b) = leaving b ∧ timer (select i b) = timer b ∧
  requests (select i b) = requests b ∧ selected (select i b) = Some i ∧ hidden (select i b) = hidden b ∧ last_val (select i b) = last_val b.
Proof. unfold select. cbn. by destruct (items b !! i) as [[[[|]|]]|]. Qed.

Lemma arrow_selected down b : (0 < length (items b))%nat → well_selected b → well_selected (arrow lay down b).
Proof.
  intros Hn (Hs & Hl & Ht & Hr). unfold arrow, updateSC.
  assert (∀ i b', (i < length (items b))%nat → items b' = items b → leaving b' = leaving b → timer b' = timer b → requests b' = requests b →
    well_selected (select i b')) as Hsel.
  { intros i b' Hi Hit Hle Hti Hre. destruct (select_items i b') as (H1 & H2 & H3 & H4 & H5 & _).
    unfold well_selected. cbn. rewrite H1, H2, H3, H4, H5, Hit, Hle, Hti, Hre. split_and!; [by intros ? [= <-]|done..]. }
  match goal with |- well_selected (set_pane _ (set_hidden _ ?b')) => enough (well_selected b') by done end.
  destruct (selected b) as [i|] eqn:Hi.
  - specialize (Hs i eq_refl). unfold sibling. destruct down.
    + destruct (Nat.ltb_spec (S i) (length (items b))); [by apply Hsel|]. by split_and!.
    + destruct i as [|i]; [by split_and!|]. apply Hsel; done || lia.
  - apply Hsel; try done. destruct down; lia.
Qed.

Lemma handle_selected e b : well_selected b → possible lay e b → well_selected (handle lay render minChars o_cache e b).1.
Proof.
  intros Hb Hp. pose proof Hb as (Hs & Hl & Ht & Hr).
  destruct e; cbn [handle]; try (by apply keyup_selected); unfold modify; cbn [fst].
  - by split_and!.
  - unfold keydownHandler. destruct (((key =? 40) || (key =? 38))%Z && _) eqn:Hk; bool_to_prop; [by apply arrow_selected|]. clear Hk.
    destruct (key =? 27)%Z; [destruct (negb _); by split_and!|]. destruct ((key =? 13) || (key =? 9))%Z; [|done].
    destruct (selected b) eqn:Hsel; [|done]. destruct (negb _); [|done]. by (split_and!; cbn; rewrite ?Hsel).
  - unfold blurHandler. destruct over_sb; [done|]. by split_and!.
  - cbn in Hp. split_and!; [by intros ? [= <-]|done..].
  - by split_and!.
  - unfold mouseleave. destruct (selected b) as [i|] eqn:Hi; [|done]. specialize (Hs i eq_refl).
    split_and!; cbn; [by rewrite Hi; intros ? [= <-]| |done..]. apply Forall_app. by split; [|constructor].
  - unfold search_timer. destruct (timer b) as [v|] eqn:Hv; [|done]. split_and!; cbn; [done..|]. apply Forall_app. split; [done|]. by constructor; [apply Ht|].
  - unfold hide_timer. destruct (hides b); [done|]. by split_and!.
  - unfold leave_timer. destruct (leaving b) as [|i l] eqn:Hle; [done|]. apply Forall_cons in Hl as [_ Hl].
    case_bool_decide; by split_and!.
  - unfold answer_arrives. destruct (requests b !! n); [|done]. apply suggest_selected. split_and!; try done. cbn. by apply Forall_delete.
  - by split_and!.
Qed.

Lemma reachable_selected allowed v b : reachable lay render minChars o_cache allowed (new_box v) b → well_selected b.
Proof. induction 1; [by split_and!|]. by apply handle_selected. Qed.

(** ** The arrow keys *)
Lemma arrow_first (b : box item) : selected b = None → arrow lay true b = updateSC lay (Some 0) (select 0 b).
Proof. unfold arrow. intros ->. by destruct (select_items 0 b) as (_ & _ & _ & _ & -> & _). Qed.
Lemma arrow_next (b : box item) i :
  selected b = Some i → (S i < length (items b))%nat → arrow lay true b = updateSC lay (Some (S i)) (select (S i) (set_selected None b)).
Proof.
  unfold arrow. intros ->. unfold sibling. destruct (Nat.ltb_spec (S i) (length (items b))); [|lia]. intros _.
  by destruct (select_items (S i) (set_selected None b)) as (_ & _ & _ & _ & -> & _).
Qed.
Lemma arrow_end (b : box item) i :
  selected b = Some i → (length (items b) <= S i)%nat → arrow lay true b = updateSC lay None (set_value (last_val b) (set_selected None b)).
Proof. unfold arrow. intros ->. unfold sibling. by destruct (Nat.ltb_spec (S i) (length (items b))); [lia|]. Qed.

Lemma down_walk (b : box item) k :
  selected b = None → (k < length (items b))%nat →
  let b' := Nat.iter (S k) (@arrow item lay true) b in
  selected b' = Some k ∧ items b' = items b ∧ last_val b' = last_val b ∧ hidden b' = false ∧
  ∃ b1, items b1 = items b ∧ b' = updateSC lay (Some k) (select k b1).
Proof.
  intros Hb. induction k as [|k IH]; intros Hk; cbn zeta.
  - change (Nat.iter 1 (@arrow item lay true) b) with (arrow lay true b). rewrite arrow_first by done. destruct (select_items 0 b) as (H1 & _ & _ & _ & H2 & _ & H3). split_and!; try done. eauto.
  - destruct IH as (Hs & Hi & Hl & _); [lia|]. rewrite Nat.iter_succ. set (b1 := Nat.iter (S k) (@arrow item lay true) b) in *. clearbody b1.
    rewrite (arrow_next b1 k Hs) by by rewrite Hi.
    destruct (select_items (S k) (set_selected None b1)) as (H1 & _ & _ & _ & H2 & _ & H3). cbn. rewrite H1, H2, H3. split_and!; try done.
    by exists (set_selected None b1).
Qed.

(** Pressing the down key walks the suggestions one by one; at each the
    field shows its [data-val], if it has one; after the last the selection is
    gone and the field shows again what was typed. *)
Theorem down_cycle (b : box item) :
  selected b = None → (0 < length (items b))%nat →
  (∀ k, (k < length (items b))%nat →
     let b' := Nat.iter (S k) (λ b : box item, (keydownHandler lay 40 b).1) b in
     selected b' = Some k ∧ hidden b' = false ∧
     (∀ v, selected_val b k = Some v → v ≠ [] → value b' = v)) ∧
  let b' := Nat.iter (S (length (items b))) (λ b : box item, (keydownHandler lay 40 b).1) b in
  selected b' = None ∧ value b' = last_val b ∧ items b' = items b.
Proof.
  intros Hb Hn.
  assert (∀ k, (k <= length (items b))%nat → Nat.iter (S k) (λ b : box item, (keydownHandler lay 40 b).1) b = Nat.iter (S k) (@arrow item lay true) b) as Heq.
  { induction k as [|k IH]; intros Hk.
    - change ((keydownHandler lay 40 b).1 = arrow lay true b). unfold keydownHandler. by destruct (Nat.ltb_spec 0 (length (items b))); [|lia].
    - rewrite Nat.iter_succ, IH, (Nat.iter_succ (S k)) by lia. destruct (down_walk b k Hb) as (_ & Hi & _); [lia|].
      unfold keydownHandler. rewrite Hi. by destruct (Nat.ltb_spec 0 (length (items b))); [|lia]. }
  split.
  - intros k Hk. cbn zeta. rewrite Heq by lia. destruct (down_walk b k Hb Hk) as (Hs & _ & _ & Hh & b1 & Hi & Hb1). split_and!; [done..|].
    intros v Hv Hne. rewrite Hb1. unfold select, updateSC. cbn. rewrite Hi. unfold selected_val in Hv.
    destruct (items b !! k) as [[[[|c w]|] h]|]; cbn in *; by simplify_eq.
  - cbn zeta. rewrite Heq by lia. destruct (length (items b)) as [|k] eqn:Hlen; [lia|].
    destruct (down_walk b k Hb) as (Hs1 & Hi1 & Hl1 & _); [lia|]. rewrite Nat.iter_succ, (arrow_end _ k) by (done || rewrite Hi1; lia). by split_and!.
Qed.
End theorems.

(** Suggestions of 20 pixels in a list of at most 200. *)
Definition flat_list (l : list suggestion) : layout :=
  Layout (Some (200 * 64))%Z (20 * 64)%Z ((λ i, 20 * 64 * Z.of_nat i)%Z <$> seq 0 (length l)) (replicate (length l) (20 * 64)%Z) (Z.max 0 (20 * 64 * Z.of_nat (length l) - 200 * 64)).

Lemma down_cycle_witness :
  let b := set_last_val (js "jo") (set_innerHTML [Suggestion (Some (js "job")) []; Suggestion None (js "/x")] (new_box (item := nat) (js "jo"))) in
  value (Nat.iter 1 (λ b, (keydownHandler flat_list 40 b).1) b) = js "job" ∧ value (Nat.iter 3 (λ b, (keydownHandler flat_list 40 b).1) b) = js "jo".
Proof.
  set (b := set_last_val (js "jo") _).
  destruct (down_cycle flat_list b) as [Hk He]; [reflexivity|cbn; lia|]. split.
  - destruct (Hk 0%nat) as (_ & _ & Hv); [cbn; lia|]. apply Hv; [reflexivity|done].
  - destruct He as (_ & Hv & _). exact Hv.
Defined.

(** ** The cache *)
Section cache.
Context {item : Type} (lay : list suggestion → layout) (render : item → jsstr → suggestion) (minChars : nat) (o_cache : bool).
Context (source : jsstr → list item).

(** Answers that arrive while their term is still in the field. *)
Definition prompt (e : event item) (b : box item) : Prop :=
  match e with
  | Answer n data => ∀ v, requests b !! n = Some v → value b = v ∧ data = source v
  | _ => True
  end.

(** A beginning of [v], longer than [minChars], for which the source has
    nothing, or that names an inherited function without parameters, which looks
    like an empty answer. *)
Definition given_up (v : jsstr) : Prop :=
  ∃ u, u `prefix_of` v ∧ u ≠ v ∧ (minChars < length u)%nat ∧ (source u = [] ∨ (u, 0%nat) ∈ inherited_names).
(** What may be cached under [v]; names that objects inherit are found in
    every cache. *)
Definition as_source (v : jsstr) (d : cached item) : Prop :=
  match d with
  | Found l => l = source v ∨ l = [] ∧ given_up v
  | Builtin n => (v, n) ∈ inherited_names
  end.
Definition box_cache_ok (b : box item) : Prop := ∀ v d, jm_get v (cache b) = Some d → as_source v d.

Lemma cache_get_ok v b d : box_cache_ok b → cache_get v b = Some d → as_source v d.
Proof.
  intros Hb. unfold cache_get. destruct (jm_get v (cache b)) as [d'|] eqn:Hd; [intros [= <-]; by apply Hb|].
  intros (n & Hn & ->)%fmap_Some. by apply jm_get_Some_elem.
Qed.

Lemma prefix_was_empty_ok val i n b :
  (0 < i)%nat → (i + n + minChars = length val)%nat → box_cache_ok b → prefix_was_empty val i n b = true → as_source val (Found []).
Proof.
  intros Hi Hlen Hb. revert i Hi Hlen. induction n as [|n IH]; intros i Hi Hlen; cbn [prefix_was_empty]; [done|].
  assert (prefix_was_empty val (S i) n b = true → as_source val (Found [])) as Hnext by (apply IH; lia).
  destruct (cache_get _ b) as [d|] eqn:Hd; [|exact Hnext]. destruct (cached_length d =? 0)%nat eqn:H0; [|exact Hnext]. intros _. bool_to_prop.
  apply cache_get_ok in Hd; [|done]. set (part := take (length val - i) val) in *.
  assert (length part = length val - i)%nat as Hp by (unfold part; rewrite length_take; lia).
  assert (part `prefix_of` val) as Hpre by apply prefix_take. clearbody part. right. split; [done|].
  assert (part ≠ val) as Hne by (intros ->; lia).
  destruct d as [l|k]; cbn in H0, Hd; [|subst k; exists part; split_and!; [done..|lia|by right]].
  apply nil_length_inv in H0 as ->. destruct Hd as [Hd|(_ & u & Hu1 & Hu2 & Hu3 & Hu4)].
  - exists part. split_and!; [done..|lia|by left].
  - exists u. split_and!; [by etrans| |done..]. intros ->. apply prefix_length in Hu1. lia.
Qed.

Lemma suggest_cache d b : box_cache_ok b → as_source (value b) d → box_cache_ok (suggest lay render minChars d b).1.
Proof.
  intros Hb Hd. assert (box_cache_ok (set_cache (jm_set (value b) d (cache b)) b)) as Hset.
  { intros v d'. cbn. destruct (decide (v = value b)) as [->|Hne]; [rewrite jm_get_set_eq; by intros [= <-]|].
    rewrite jm_get_set_ne by done. apply Hb. }
  unfold suggest. destruct (_ && _); [|exact Hset]. by destruct d.
Qed.

Lemma keyup_cache key b : box_cache_ok b → box_cache_ok (keyupHandler lay render minChars o_cache key b).1.
Proof.
  intros Hb. unfold keyupHandler. destruct (_ || _); [|done]. destruct (_ <=? _)%nat; [|done]. case_bool_decide; [|done].
  destruct o_cache; [|done]. set (b1 := set_timer None _). destruct (cache_get _ _) as [d|] eqn:Hd; [apply suggest_cache; [done|by eapply (cache_get_ok _ b1)]|].
  destruct (prefix_was_empty _ _ _ _) eqn:Hp; [|done]. apply suggest_cache; [done|].
  destruct (length (value b) - minChars - 1)%nat as [|n] eqn:Hn; [done|]. apply (prefix_was_empty_ok (value b) 1 (S n) b1); [lia|lia|exact Hb|exact Hp].
Qed.

Lemma select_cache i (b : box item) : cache (select i b) = cache b.
Proof. unfold select. cbn. by destruct (items b !! i) as [[[[|]|]]|]. Qed.

Lemma keydown_cache key (b : box item) : cache (keydownHandler lay key b).1 = cache b.
Proof.
  unfold keydownHandler. destruct (((key =? 40) || (key =? 38))%Z && _).
  - cbn. unfold arrow. destruct (selected b); [destruct (sibling _ _ _)|]; cbn; rewrite ?select_cache; done.
  - destruct (key =? 27)%Z; [by destruct (negb _)|]. destruct ((key =? 13) || (key =? 9))%Z; [|done].
    destruct (selected b); [by destruct (negb _)|done].
Qed.

Lemma handle_cache e b : box_cache_ok b → prompt e b → box_cache_ok (handle lay render minChars o_cache e b).1.
Proof.
  intros Hb Hp. destruct e; cbn [handle]; try (by apply keyup_cache); unfold modify; cbn [fst]; try done.
  - intros v. rewrite keydown_cache. apply Hb.
  - by destruct over_sb.
  - unfold mouseleave. by destruct (selected b).
  - unfold search_timer. by destruct (timer b).
  - unfold hide_timer. by destruct (hides b).
  - unfold leave_timer. destruct (leaving b); [done|]. by case_bool_decide.
  - unfold answer_arrives. destruct (requests b !! n) as [v|] eqn:Hr; [|done]. destruct (Hp v Hr) as [<- ->].
    apply suggest_cache; [done|]. by left.
Qed.

(** C27. The cache: in every sequence of events in which answers arrive while
    their term is still in the field, a list cached for a text is the answer the
    source has for it, except that it is empty for a text that was given up: the
    source has nothing for a beginning of it longer than [minChars], or such a
    beginning is the name of an inherited function without parameters. Functions
    are cached only under their own names. *)
Theorem cache_as_source (v0 v : jsstr) (b : box item) (d : cached item) :
  reachable lay render minChars o_cache prompt (new_box v0) b → jm_get v (cache b) = Some d → as_source v d.
Proof.
  intros Hr. revert v d. change (box_cache_ok b). induction Hr as [|b e _ IH _ Hp]; [done|]. by apply handle_cache.
Qed.
End cache.

(** ** A session on the site *)
Definition lookup_pages (v : jsstr) : list jsstr := if bool_decide (v = js "jobs") then [] else [v].
Definition show_page (p v : jsstr) : suggestion := Suggestion None p.
Definition after (es : list (event jsstr)) : box jsstr :=
  foldl (λ b e, (handle flat_list show_page 3 true e b).1) (new_box []) es.

(** An answer that arrives after the text has changed is kept as the answer
    for the new text, and the search for that is never made. *)
Example late_answer :
  let b := after [Typed (js "job"); KeyUp 66; SearchTimer; Typed (js "jobs"); Answer 0 [js "job"]; KeyUp 83] in
  value b = js "jobs" ∧ items b = [Suggestion None (js "job")] ∧ hidden b = false ∧ timer b = None ∧ requests b = [] ∧
  jm_get (js "jobs") (cache b) = Some (Found [js "job"]).
Proof. vm_compute. split_and!; reflexivity. Qed.

(** Pressing the mouse on a suggestion of the site, which has no [data-val],
    empties the field. *)
Example mousedown_empties :
  value (after [Typed (js "job"); KeyUp 66; SearchTimer; Answer 0 [js "job"]; MouseDown 0]) = [].
Proof. reflexivity. Qed.

(** A text that names an inherited function is never searched. *)
Example inherited_name :
  let b := after [Typed (js "constructor"); KeyUp 82] in
  timer b = None ∧ requests b = [] ∧ (keyupHandler flat_list show_page 3 true 82 (set_value (js "constructor") (new_box []))).2 = Throw TypeError.
Proof. vm_compute. split_and!; reflexivity. Qed.

(** Nothing is found for jobs, so that jobs x is not searched. *)
Lemma cache_as_source_witness :
  ∃ b, reachable flat_list show_page 3 true (prompt lookup_pages) (new_box []) b ∧ timer b = None ∧ requests b = [] ∧
    jm_get (js "jobs x") (cache b) = Some (Found []) ∧ as_source 3 lookup_pages (js "jobs x") (Found []).
Proof.
  set (es := [Typed (js "jobs"); KeyUp 66; SearchTimer; Answer 0 []; Typed (js "jobs x"); KeyUp 88] : list (event jsstr)).
  assert (reachable flat_list show_page 3 true (prompt lookup_pages) (new_box []) (after es)) as Hr.
  { unfold after, es. cbn [foldl]. repeat (eapply reach_step; [|exact I|try exact I]); [apply reach_start|]. by intros v [= <-]. }
  assert (jm_get (js "jobs x") (cache (after es)) = Some (Found [])) as Hc by (vm_compute; reflexivity).
  exists (after es). split; [exact Hr|]. split; [vm_compute; reflexivity|]. split; [vm_compute; reflexivity|]. split; [exact Hc|].
  exact (cache_as_source flat_list show_page 3 true lookup_pages [] (js "jobs x") (after es) (Found []) Hr Hc).
Defined.

(** ** What is seen of the list *)
Section visible.
Context {item : Type} (lay : list suggestion → layout) (render : item → jsstr → suggestion) (minChars : nat) (o_cache : bool).
(** Every list has the same [max-height] [m]; suggestions may differ in
    height. The first one of a list can be seen and fits, and all of them lie
    within what can be scrolled to. *)
Context (m : Z).
Record lays_out (l : list suggestion) : Prop := {
  lo_max : ly_maxHeight (lay l) = Some m;
  lo_height : l ≠ [] → (0 < ly_height (lay l) <= m)%Z;
  lo_range : (0 <= ly_range (lay l))%Z;
  lo_tops i : (i < length l)%nat → ∃ top hi, ly_tops (lay l) !! i = Some top ∧ ly_heights (lay l) !! i = Some hi ∧
    (0 <= top ∧ 0 <= hi ∧ top + hi <= ly_range (lay l) + m)%Z;
}.
Context (Hlay : ∀ l, lays_out l).

(** Between the events: what was measured is the [max-height] and the height of
    some first suggestion, and the list is scrolled to somewhere in it. *)
Definition pane_measured (p : pane) : Prop :=
  (pn_maxHeight p = None ∨ pn_maxHeight p = Some m) ∧ (pn_suggestionHeight p = 0 ∨ 0 < pn_suggestionHeight p <= m)%Z.
Definition pane_ok (b : box item) : Prop :=
  pane_measured (on_screen b) ∧ (0 <= pn_scrollTop (on_screen b) <= ly_range (lay (items b)))%Z.

Lemma measured l p : l ≠ [] → pane_measured p →
  ∃ h, measure (lay l) p = Pane (pn_scrollTop p) (Some m) h ∧ (0 < h <= m)%Z.
Proof.
  intros Hl [H1 H2]. pose proof (lo_height _ (Hlay l) Hl) as Hh. unfold measure. rewrite (lo_max _ (Hlay l)).
  exists (if (pn_suggestionHeight p =? 0)%Z then ly_height (lay l) else pn_suggestionHeight p). split.
  - f_equal. destruct H1 as [-> | ->]; [done|]. destruct m; [lia|done..].
  - destruct (Z.eqb_spec (pn_suggestionHeight p) 0); [done|]. by destruct H2.
Qed.
Lemma shown_start l z h : (0 < h)%Z → show_next (lay l) None (Pane z (Some m) h) = Pane 0 (Some m) h.
Proof.
  intros Hh. unfold show_next, scroll_to. cbn. destruct (Z.eqb_spec h 0); [lia|]. f_equal. pose proof (lo_range _ (Hlay l)). lia.
Qed.
Lemma shown_next l z i h : (0 < h <= m)%Z → (i < length l)%nat → (0 <= z <= ly_range (lay l))%Z →
  ∃ z' top hi, show_next (lay l) (Some i) (Pane z (Some m) h) = Pane z' (Some m) h ∧
    ly_tops (lay l) !! i = Some top ∧ ly_heights (lay l) !! i = Some hi ∧
    (0 <= z' <= ly_range (lay l))%Z ∧ (z' <= top ∧ top + Z.min h hi <= z' + m)%Z.
Proof.
  intros Hh Hi Hz. destruct (lo_tops _ (Hlay l) i Hi) as (top & hi & Ht & Hhi & Ht1 & Ht2 & Ht3). unfold show_next, scroll_to. cbn. rewrite Ht. cbn.
  destruct (Z.eqb_spec h 0); [lia|].
  destruct (Z.ltb_spec 0 (top - z + h - m)); [|destruct (Z.ltb_spec (top - z) 0)]; eexists _, top, hi; split_and!; (done || lia).
Qed.
Lemma updateSC_start (b : box item) : items b ≠ [] → pane_measured (on_screen b) →
  pane_ok (updateSC lay None b) ∧ pn_scrollTop (on_screen (updateSC lay None b)) = 0%Z.
Proof.
  intros Hi Hp. destruct (measured (items b) _ Hi Hp) as (h & Hm & Hh). unfold pane_ok, pane_measured, updateSC. cbn. rewrite Hm, shown_start by lia.
  pose proof (lo_range _ (Hlay (items b))). cbn. split; [|done]. split; [split; by right|lia].
Qed.
(** The upper part of suggestion [i] is seen, as far as the height measured
    goes. *)
Definition seen_from_top (i : nat) (b : box item) : Prop :=
  ∃ top hi, ly_tops (lay (items b)) !! i = Some top ∧ ly_heights (lay (items b)) !! i = Some hi ∧
    (0 < pn_suggestionHeight (on_screen b) ∧ pn_scrollTop (on_screen b) <= top ∧
     top + Z.min (pn_suggestionHeight (on_screen b)) hi <= pn_scrollTop (on_screen b) + m)%Z.
Lemma updateSC_next (b : box item) i : pane_ok b → (i < length (items b))%nat →
  pane_ok (updateSC lay (Some i) b) ∧ seen_from_top i (updateSC lay (Some i) b).
Proof.
  intros [Hp Hz] Hi. destruct (measured (items b) _ ltac:(destruct (items b); [cbn in Hi; lia|done]) Hp) as (h & Hm & Hh).
  unfold pane_ok, pane_measured, seen_from_top, updateSC. cbn. rewrite Hm.
  destruct (shown_next (items b) (pn_scrollTop (on_screen b)) i h) as (z & top & hi & -> & Ht & Hhi & Hz' & Hs); [done..|]. cbn.
  split; [split; [split; by right|lia]|]. exists top, hi. split_and!; (done || lia).
Qed.

(** The arrow keys end with [updateSC] at what is then selected. *)
Lemma arrow_shows down (b : box item) : well_selected minChars b → (0 < length (items b))%nat →
  ∃ b1, arrow lay down b = updateSC lay (selected b1) b1 ∧ items b1 = items b ∧ on_screen b1 = on_screen b ∧
    ∀ i, selected b1 = Some i → (i < length (items b))%nat.
Proof.
  intros (Hs & _) Hn. unfold arrow. eexists. split; [reflexivity|].
  assert (∀ i (b' : box item), items (select i b') = items b' ∧ on_screen (select i b') = on_screen b' ∧ selected (select i b') = Some i) as Hsel.
  { intros i b'. unfold select. cbn. by destruct (items b' !! i) as [[[[|]|]]|]. }
  destruct (selected b) as [i|] eqn:Hi.
  - specialize (Hs i eq_refl). destruct (sibling down i b) as [j|] eqn:Hj; [|by split_and!].
    destruct (Hsel j (set_selected None b)) as (-> & -> & ->). split_and!; [done..|]. intros ? [= <-]. unfold sibling in Hj.
    destruct down; [destruct (Nat.ltb_spec (S i) (length (items b))); by simplify_eq|]. destruct i; simplify_eq. lia.
  - destruct (Hsel (if down then 0%nat else length (items b) - 1) b) as (-> & -> & ->). split_and!; [done..|]. intros ? [= <-]. destruct down; lia.
Qed.
Lemma arrow_visible down (b : box item) : well_selected minChars b → pane_ok b → (0 < length (items b))%nat →
  let b' := arrow lay down b in
  pane_ok b' ∧ (∀ i, selected b' = Some i → seen_from_top i b') ∧ (selected b' = None → pn_scrollTop (on_screen b') = 0%Z).
Proof.
  intros Hw Hp Hn. destruct (arrow_shows down b Hw Hn) as (b1 & -> & Hi & Ho & Hs).
  assert (pane_ok b1) as Hp1 by (unfold pane_ok in *; by rewrite Hi, Ho). cbn zeta.
  change (selected (updateSC lay (selected b1) b1)) with (selected b1). destruct (selected b1) as [i|] eqn:Hb1.
  - destruct (updateSC_next b1 i Hp1) as [H1 H2]; [rewrite Hi; by apply Hs|]. split_and!; [done| |done]. by intros ? [= <-].
  - destruct (updateSC_start b1) as [H1 H2]; [rewrite Hi; by destruct (items b); [cbn in Hn; lia|]|by destruct Hp1|]. by split_and!.
Qed.

Lemma suggest_pane d (b : box item) : pane_ok b → pane_ok (suggest lay render minChars d b).1.
Proof.
  intros Hp. unfold suggest. destruct (_ && _) eqn:Hc; [|exact Hp]. destruct d as [l|]; [|exact Hp]. destruct Hp as [Hp _].
  apply (updateSC_start (set_innerHTML _ (set_cache _ b))); [|exact Hp]. destruct l; [|done]. cbn in Hc. done.
Qed.
Lemma keyup_pane key (b : box item) : pane_ok b → pane_ok (keyupHandler lay render minChars o_cache key b).1.
Proof.
  intros Hp. unfold keyupHandler. destruct (_ || _); [|done]. destruct (_ <=? _)%nat; [|exact Hp]. case_bool_decide; [|exact Hp].
  destruct o_cache; [|exact Hp]. destruct (cache_get _ _); [by apply suggest_pane|]. destruct (prefix_was_empty _ _ _ _); [by apply suggest_pane|exact Hp].
Qed.
Lemma handle_pane e (b : box item) :
  well_selected minChars b → pane_ok b → possible lay e b → pane_ok (handle lay render minChars o_cache e b).1.
Proof.
  intros Hw Hb Hp. destruct e; cbn [handle]; try (by apply keyup_pane); unfold modify; cbn [fst]; try exact Hb.
  - unfold keydownHandler. destruct (((key =? 40) || (key =? 38))%Z && _) eqn:Hk; [bool_to_prop; by apply arrow_visible|].
    destruct (key =? 27)%Z; [by destruct (negb _)|]. destruct ((key =? 13) || (key =? 9))%Z; [|done].
    destruct (selected b); [by destruct (negb _)|done].
  - unfold blurHandler. by destruct over_sb.
  - unfold mouseleave. by destruct (selected b).
  - unfold search_timer. by destruct (timer b).
  - unfold hide_timer. by destruct (hides b).
  - unfold leave_timer. destruct (leaving b); [done|]. by case_bool_decide.
  - unfold answer_arrives. destruct (requests b !! n); [|done]. by apply suggest_pane.
  - destruct Hb as [Hm _]. cbn in Hp. unfold pane_ok, scroll_to. cbn. split; [exact Hm|lia].
Qed.

(** C29. Whatever was typed, answered, scrolled or clicked before, after an
    arrow key the list is open; the selected suggestion is seen from its upper
    edge on, for at least the height the code has measured once, at the first
    suggestion of some list, and so wholly if it is no higher; where none is
    selected, the list shows its start. *)
Theorem selection_visible (allowed : event item → box item → Prop) (v0 : jsstr) (b : box item) (key : Z) :
  reachable lay render minChars o_cache allowed (new_box v0) b → (0 < length (items b))%nat → (key = 40 ∨ key = 38)%Z →
  let b' := (handle lay render minChars o_cache (KeyDown key) b).1 in
  hidden b' = false ∧
  (∀ i, selected b' = Some i → seen_from_top i b') ∧
  (selected b' = None → pn_scrollTop (on_screen b') = 0%Z).
Proof.
  intros Hr Hn Hk. assert (well_selected minChars b ∧ pane_ok b) as [Hw Hp].
  { clear Hn Hk. induction Hr as [|b e Hr [Hw Hp] He _]; [split; [by split_and!|]|].
    - unfold pane_ok, pane_measured. cbn. pose proof (lo_range _ (Hlay [])). split; [split; by left|lia].
    - split; [by eapply handle_selected|by apply handle_pane]. }
  cbn [handle]. unfold modify. cbn [fst]. unfold keydownHandler.
  assert (((key =? 40) || (key =? 38))%Z && (0 <? length (items b))%nat = true) as Hc.
  { rewrite (proj2 (Nat.ltb_lt _ _)) by done. destruct Hk as [-> | ->]; done. }
  rewrite Hc. cbn [fst]. split; [done|]. by apply arrow_visible.
Qed.
End visible.

(** Suggestions of the heights given, in a list of at most 200 pixels. *)
Definition stack (hs : list Z) (l : list suggestion) : layout :=
  let hs := take (length l) (hs ++ replicate (length l) 20%Z) in
  Layout (Some (200 * 64))%Z (64 * default 0 (head hs))%Z ((λ i, 64 * foldr Z.add 0 (take i hs))%Z <$> seq 0 (length l)) ((λ h, 64 * h)%Z <$> hs)
    (Z.max 0 (64 * foldr Z.add 0 hs - 200 * 64))%Z.

Lemma flat_lays_out l : lays_out flat_list (200 * 64) l.
Proof.
  split; [done|cbn; lia|cbn; lia|]. intros i Hi. exists (20 * 64 * Z.of_nat i)%Z, (20 * 64)%Z. split_and!; [|by apply lookup_replicate|cbn; lia..].
  cbn. rewrite list_lookup_fmap, lookup_seq_lt by done. done.
Qed.

(** Twelve suggestions, ten of which fit: two after the tenth. *)
Definition twelve_pages (v : jsstr) : list jsstr := replicate 12 v.
Lemma selection_visible_witness :
  ∃ b : box jsstr, reachable flat_list show_page 3 true (λ _ _, True) (new_box []) b ∧ selected b = Some 10%nat ∧
    (let b' := (handle flat_list show_page 3 true (KeyDown 40) b).1 in
     selected b' = Some 11%nat ∧ pn_scrollTop (on_screen b') = (40 * 64)%Z ∧ seen_from_top flat_list (200 * 64) 11 b').
Proof.
  set (es := [Typed (js "job"); KeyUp 66; SearchTimer; Answer 0 (twelve_pages (js "job"))] ++ replicate 11 (KeyDown 40)).
  assert (reachable flat_list show_page 3 true (λ _ _, True) (new_box []) (after es)) as Hr.
  { unfold after, es. cbn [foldl app replicate]. repeat (eapply reach_step; [|exact I|exact I]). apply reach_start. }
  exists (after es). split; [exact Hr|]. split; [vm_compute; reflexivity|]. split; [vm_compute; reflexivity|]. split; [vm_compute; reflexivity|].
  destruct (selection_visible flat_list show_page 3 true (200 * 64) flat_lays_out (λ _ _, True) [] (after es) 40 Hr) as (_ & Hs & _);
    [vm_compute; lia|by left|]. apply Hs. vm_compute. reflexivity.
Defined.

(** The code takes every suggestion to be as high as the first one ever shown:
    with a fifth one of 80 pixels, after four of 40, only the upper half of it is
    seen when it is selected, though the list could be scrolled further. *)
Example higher_suggestion_cut :
  let lay := stack [40; 40; 40; 40; 80]%Z in
  let b := foldl (λ b e, (handle lay show_page 3 true e b).1) (new_box [])
    ([Typed (js "job"); KeyUp 66; SearchTimer; Answer 0 (replicate 5 (js "job"))] ++ replicate 5 (KeyDown 40)) in
  selected b = Some 4%nat ∧ ly_tops (lay (items b)) !! 4%nat = Some (160 * 64)%Z ∧ ly_heights (lay (items b)) !! 4%nat = Some (80 * 64)%Z ∧
  pn_scrollTop (on_screen b) = 0%Z ∧ ly_range (lay (items b)) = (40 * 64)%Z.
Proof. vm_compute. split_and!; reflexivity. Qed.

(** ** Setting up and tearing down *)

(** Where the element for the lists is the same as it was, [destroy] undoes the
    setting up of every field, except that an empty attribute [autocomplete] is
    taken away. *)
Lemma destroy_init body ancestors target l :
  target ≠ Some None →
  destroy body target (init_field body ancestors target <$> l) =
    ((λ f, Field (match f_autocomplete f with Some [] => None | a => a end) (f_autocomplete f) false []) <$> l, Ok tt).
Proof.
  intros Ht. induction l as [|[a s hs sc] l IH]; [done|]. rewrite fmap_cons. cbn [destroy]. unfold init_field at 1, destroy_field, removeChild. cbn.
  destruct target as [[n|]|]; [|done|].
  - rewrite (bool_decide_eq_true_2 (n ∈ _)) by by left. rewrite bool_decide_eq_true_2 by done. cbn in IH. rewrite IH. cbn. by destruct a as [[|]|].
  - rewrite bool_decide_eq_true_2 by done. cbn in IH. rewrite IH. cbn. by destruct a as [[|]|].
Qed.
(** Where it is gone, the first field fails, and the others keep handlers and
    lists. *)
Lemma destroy_gone body ancestors target f l :
  let l' := init_field body ancestors target <$> l in
  destroy body (Some None) (init_field body ancestors target f :: l') = ((destroy_field body (Some None) (init_field body ancestors target f)).1 :: l', Throw TypeError).
Proof. done. Qed.

(** With two fields what is typed in the first is never searched: its handlers
    see the text of the second. *)
Example first_field_ignored :
  let run := foldl (λ l e, (field_event flat_list show_page 3 true e.1 e.2 l).1) [new_box []; new_box []] in
  let l := run [(0, Typed (js "job")); (0, KeyUp 66); (0, SearchTimer)]%nat in
  Forall (λ b, timer b = None ∧ requests b = [] ∧ items b = []) l ∧ value <$> l !! 0%nat = Some (js "job").
Proof. vm_compute. by repeat constructor. Qed.

(** ** Choosing a page *)

Lemma down_items {item : Type} (lay : list suggestion → layout) (b : box item) k :
  selected b = None → (k < length (items b))%nat →
  let b' := Nat.iter (S k) (λ b : box item, (keydownHandler lay 40 b).1) b in
  selected b' = Some k ∧ hidden b' = false ∧ items b' = items b.
Proof.
  intros Hb. induction k as [|k IH]; intros Hk; cbn zeta.
  - change (let b' := (keydownHandler lay 40 b).1 in selected b' = Some 0%nat ∧ hidden b' = false ∧ items b' = items b). unfold keydownHandler.
    rewrite (proj2 (Nat.ltb_lt _ _)) by done. cbn [Z.eqb Pos.eqb orb andb fst]. rewrite arrow_first by done.
    destruct (select_items 0 b) as (H1 & _ & _ & _ & H2 & _). by split_and!.
  - destruct IH as (Hs & _ & Hi); [lia|]. rewrite Nat.iter_succ. set (b1 := Nat.iter (S k) _ b) in *. clearbody b1. unfold keydownHandler.
    rewrite (proj2 (Nat.ltb_lt _ _)) by (rewrite Hi; lia). cbn [Z.eqb Pos.eqb orb andb fst]. rewrite (arrow_next lay b1 k Hs) by by rewrite Hi.
    destruct (select_items (S k) (set_selected None b1)) as (H1 & _ & _ & _ & H2 & _). split_and!; [exact H2|done|etrans; [exact H1|exact Hi]].
Qed.

(** When the answer to a request arrives, the down key pressed [k + 1] times and
    Enter choose the [k]th result of the answer, and the browser goes to the
    page of that result. *)
Theorem chosen_page lay canonicalize relBaseUri minChars (b : box Excerpt.result_item) n (v : jsstr) data k d :
  requests b !! n = Some v → (minChars <= length (value b))%nat → data !! k = Some d →
  let b' := (handle lay (site_render canonicalize relBaseUri) minChars true (Answer n data) b).1 in
  let b' := Nat.iter (S k) (λ b, (handle lay (site_render canonicalize relBaseUri) minChars true (KeyDown 40) b).1) b' in
  (keydownHandler lay 13 b').2 = [OnSelect None k] ∧ onSelect k b' = Some (relBaseUri ++ Excerpt.page_uri (Excerpt.item_page d)).
Proof.
  intros Hr Hv Hk. cbn zeta. pose proof (lookup_lt_Some _ _ _ Hk) as Hlen.
  set (b1 := (handle lay (site_render canonicalize relBaseUri) minChars true (Answer n data) b).1).
  assert (items b1 = (λ d, site_render canonicalize relBaseUri d (value b)) <$> data ∧ selected b1 = None) as [Hi Hs].
  { unfold b1. cbn [handle]. unfold answer_arrives. rewrite Hr. unfold suggest. cbn [cached_length value set_requests].
    rewrite (proj2 (Nat.ltb_lt _ _)), (proj2 (Nat.leb_le _ _)) by (done || lia). done. }
  cbn [handle]. unfold modify. cbn [fst]. destruct (down_items lay b1 k Hs) as (S1 & S2 & S3); [by rewrite Hi, length_fmap|].
  set (b2 := Nat.iter (S k) _ b1) in *. clearbody b2. rewrite Hi in S3. unfold onSelect, keydownHandler, selected_val. cbn [Z.eqb Pos.eqb orb andb]. rewrite S1, S2, S3.
  rewrite list_lookup_fmap, Hk. cbn. split; [done|]. unfold Excerpt.renderItem. by destruct (match Excerpt.item_matches d with [] => _ | _ => _ end).
Qed.

Definition page_item (uri : string) : Excerpt.result_item := Excerpt.ResultItem (Excerpt.ResultPage (js uri) (js "Jobs") None (js "about jobs")) [js "job"].
Lemma chosen_page_witness :
  let b := set_requests [js "job"] (set_value (js "job") (new_box [])) in
  let b' := (handle flat_list (site_render id (js "..")) 3 true (Answer 0 [page_item "/one/"; page_item "/two/"]) b).1 in
  let b' := Nat.iter 2 (λ b, (handle flat_list (site_render id (js "..")) 3 true (KeyDown 40) b).1) b' in
  (keydownHandler flat_list 13 b').2 = [OnSelect None 1] ∧ onSelect 1 b' = Some (js "../two/").
Proof.
  exact (chosen_page flat_list id (js "..") 3 (set_requests [js "job"] (set_value (js "job") (new_box []))) 0 (js "job")
    [page_item "/one/"; page_item "/two/"] 1 (page_item "/two/") eq_refl (le_n 3) eq_refl).
Defined.

(** ** From the word typed to the page *)

Lemma foldl_replicate {A B} (f : A → B → A) x e n : foldl f x (replicate n e) = Nat.iter n (λ x, f x e) x.
Proof. revert x. induction n as [|n IH]; intros x; [done|]. cbn [replicate foldl]. rewrite IH. exact (eq_sym (Nat.iter_succ_r n (λ x, f x e) x)). Qed.

(** A term typed into the field is asked for, unless the cache knows better. *)
Lemma term_asked {item : Type} (lay : list suggestion → layout) render minChars (b : box item) term :
  let run := foldl (λ b e, (handle lay render minChars true e b).1) in
  (minChars <= length term)%nat → last_val b ≠ term → requests b = [] → cache_get term b = None →
  prefix_was_empty term 1 (length term - minChars - 1) b = false →
  let b' := run b [Typed term; KeyUp 0; SearchTimer] in requests b' = [term] ∧ value b' = term.
Proof.
  intros run Hlen Hlast Hr Hc Hp. unfold run. cbn [foldl handle]. unfold modify, keyupHandler. cbn [fst Z.eqb orb value set_value].
  rewrite (proj2 (Nat.leb_le _ _) Hlen). rewrite bool_decide_eq_true_2 by (cbn; congruence).
  change (cache_get term (set_timer None (set_last_val term (set_value term b)))) with (cache_get term b).
  rewrite Hc.
  assert (∀ v i n (x y : box item), cache x = cache y → prefix_was_empty v i n x = prefix_was_empty v i n y) as Hcong.
  { intros v i n x y Hxy. revert i. induction n as [|n IH]; intros i; [done|]. cbn. unfold cache_get. rewrite Hxy.
    destruct (match jm_get _ _ with Some _ => _ | None => _ end); [destruct (_ =? 0)%nat; [done|]|]; apply IH. }
  rewrite (Hcong _ _ _ _ b) by done. rewrite Hp. cbn. by rewrite Hr.
Qed.

Section search_and_go.
Import AdapterTheorems.
Context `{BKD.MathOps} (native : bool) (toLowerCase : jsstr → jsstr) (uid : jsstr) (localeCompare : jsstr → jsstr → jsstr → Z).
Context (lay : list suggestion → layout) (canonicalize : N → N) (relBaseUri : jsstr) (minChars : nat).

(** The pages found are shown. *)
Lemma found_shown (ds : list jsval) m (r : list (Z * JSNum.number)) :
  Forall (λ v, is_Some (shown_page v)) ds → (∀ d, d ∈ r.*1 → 1 <= d ∧ is_Some (ds !! Z.to_nat (d - 1)))%Z →
  ∃ data, mapM shown_item ((λ x, Adapter.SearchResult m (ds !! Z.to_nat (x.1 - 1))) <$> r) = Some data.
Proof.
  intros Hds Hr. apply mapM_is_Some. apply Forall_fmap, Forall_forall. intros x Hx. cbn.
  destruct (Hr x.1) as [_ [v Hv]]; [by apply list_elem_of_fmap_2|]. rewrite Hv. cbn.
  destruct (proj1 (Forall_lookup _ _) Hds _ _ Hv) as [p Hp]. unfold shown_item. cbn. rewrite Hp. by eexists.
Qed.

Lemma shown_nth (ds : list jsval) m (r : list (Z * JSNum.number)) data k x :
  mapM shown_item ((λ x, Adapter.SearchResult m (ds !! Z.to_nat (x.1 - 1))) <$> r) = Some data → r !! k = Some x →
  ∃ p, ds !! Z.to_nat (x.1 - 1) ≫= shown_page = Some p ∧ data !! k = Some (Excerpt.ResultItem p m).
Proof.
  intros Hdata%mapM_Some Hk. destruct (Forall2_lookup_l _ _ _ k (Adapter.SearchResult m (ds !! Z.to_nat (x.1 - 1))) Hdata) as (d & Hd & Hx); [by rewrite list_lookup_fmap, Hk|].
  unfold shown_item in Hx. cbn in Hx. destruct (ds !! _) as [v|]; [cbn in Hx|done]. destruct (shown_page v) as [p|] eqn:Hp; [|done].
  injection Hx as <-. by exists p.
Qed.

(** C2. From the word typed to the page: after any pages have been loaded and
    any searches made, a user types a term into a field that waits for no answer,
    did not have the term last, and has not cached an answer for it or an empty
    one for a beginning of it that is long enough; and the answer of the site
    search arrives. It lists the pages that answer the term (all of those in
    which all keywords are found, only such in which some keyword is), best
    first; pressing the down key [k + 1] times and Enter leads the browser to
    the [k]th of them. *)
Theorem search_and_go c ds a1 term (b : box Excerpt.result_item) :
  let a := (Adapter.init_index native toLowerCase uid c ds Adapter.new_adapter).1 in
  let run := foldl (λ b e, (handle lay (site_render canonicalize relBaseUri) minChars true e b).1) b in
  Forall page ds → Forall (λ v, is_Some (shown_page v)) ds → rtc (searched native toLowerCase localeCompare) a a1 →
  (minChars <= length term)%nat → last_val b ≠ term → requests b = [] → cache_get term b = None →
  prefix_was_empty term 1 (length term - minChars - 1) b = false →
  ∃ a2 results data r,
    Adapter.search native toLowerCase localeCompare term a1 = (a2, Ok results) ∧ mapM shown_item results = Some data ∧
    answers toLowerCase ds term r ∧
    ∀ k d, r.*1 !! k = Some d → (k < 99)%nat →
      ∃ p, ds !! Z.to_nat (d - 1) ≫= shown_page = Some p ∧
        let b' := run ([Typed term; KeyUp 0; SearchTimer; Answer 0 data] ++ replicate (S k) (KeyDown 40)) in
        (keydownHandler lay 13 b').2 = [OnSelect None k] ∧ onSelect k b' = Some (relBaseUri ++ Excerpt.page_uri p).
Proof.
  intros a run Hds Hshown Hreach Hlen Hlast Hreq Hcache Hpref.
  destruct (init_run native toLowerCase uid c ds Hds) as (a' & Ha' & Hpages). unfold a in Hreach. rewrite Ha' in Hreach. cbn [fst] in Hreach.
  destruct (search_holds native toLowerCase uid localeCompare c a1 ds term) as (a2 & r & Hs & _ & Hnd & Hsort & Hin); [by eapply searched_holds|].
  destruct (found_shown ds (term :: split_on Adapter.space term) (take 99 r) Hshown) as [data Hdata].
  { intros d Hd. assert (d ∈ r.*1) as Hr. { apply list_elem_of_fmap in Hd as (x & -> & Hx). apply list_elem_of_fmap_2. by eapply elem_of_take in Hx as (? & ? & _); eapply list_elem_of_lookup_2. }
    apply Hin in Hr as (H1 & v & ? & ? & ? & ? & Hv & _). split; [exact H1|]. rewrite Hv. by eexists. }
  eexists a2, _, data, r. split; [exact Hs|]. split; [exact Hdata|]. split; [exact (matches_answers toLowerCase ds term r Hnd Hsort Hin)|].
  intros k d Hk Hk99.
  apply list_lookup_fmap_Some in Hk as (x & -> & Hk). destruct (shown_nth ds _ _ data k x Hdata) as (p & Hp & Hdk); [by rewrite lookup_take_lt|].
  exists p. split; [exact Hp|]. unfold run. cbn [app foldl]. rewrite foldl_replicate.
  destruct (term_asked lay (site_render canonicalize relBaseUri) minChars b term) as [Hr' Hv']; [done..|].
  cbn [foldl] in Hr', Hv'. cbn [foldl]. set (b0 := (handle _ _ _ _ SearchTimer _).1) in *. clearbody b0.
  exact (chosen_page lay canonicalize relBaseUri minChars b0 0 term data k _ (f_equal (lookup 0%nat) Hr') (eq_ind_r (λ v, minChars <= length v)%nat Hlen Hv') Hdk).
Qed.
End search_and_go.

Lemma only_one (l : list Z) : NoDup l → 1%Z ∈ l → (∀ d, d ∈ l → d = 1%Z) → l = [1%Z].
Proof.
  intros Hnd H1 Hall. destruct l as [|x [|y l]]; [by apply elem_of_nil in H1|by rewrite (Hall x) by by left|].
  rewrite (Hall x), (Hall y) in Hnd by (by left || by right; left). apply NoDup_cons in Hnd as [[] _]. by left.
Qed.

Lemma search_and_go_witness :
  let step := λ b e, (handle flat_list (site_render id (js "..")) 3 true e b).1 in
  ∃ data, let b' := foldl step (new_box []) [Typed (js "start"); KeyUp 0; SearchTimer; Answer 0 data; KeyDown 40] in
  (keydownHandler flat_list 13 b').2 = [OnSelect None 0] ∧ onSelect 0 b' = Some (js "..intro").
Proof.
  intros step. set (ds := [AdapterTheorems.sample_page "Getting Started" "intro"]).
  destruct (search_and_go (H := BKDTheorems.no_math) true Tokenizer.ascii_lower (js "1") AdapterTheorems.no_locale flat_list id (js "..") 3 0 ds
    (Adapter.init_index (H := BKDTheorems.no_math) true Tokenizer.ascii_lower (js "1") 0 ds Adapter.new_adapter).1 (js "start") (new_box []))
    as (a2 & results & data & r & _ & _ & Hans & Hgo).
  - apply Forall_singleton, AdapterTheorems.sample_page_ok.
  - apply Forall_singleton. exists (Excerpt.ResultPage (js "intro") (js "Getting Started") None (js "some text")). reflexivity.
  - reflexivity.
  - apply (bool_decide_unpack _). vm_compute. done.
  - done.
  - reflexivity.
  - reflexivity.
  - vm_compute. reflexivity.
  - exists data. assert (∀ d, d ∈ r.*1 ↔ (1 <= d)%Z ∧ AdapterTheorems.keyword_found Tokenizer.ascii_lower ds d (js "start")) as Hin.
    { intros d. exact (AdapterTheorems.answers_one Tokenizer.ascii_lower ds (js "start") (js "start") r d Hans ltac:(vm_compute; reflexivity)). }
    assert (r.*1 = [1%Z]) as Hr.
    { apply only_one; [exact (AdapterTheorems.an_NoDup _ _ _ _ Hans)|apply Hin|].
      - split; [lia|]. apply (bool_decide_unpack _). vm_compute. done.
      - intros d [H1 (v & _ & _ & _ & Hv & _)]%Hin. apply lookup_lt_Some in Hv. cbn in Hv. lia. }
    destruct (Hgo 0%nat 1%Z) as (p & Hp & Hb); [by rewrite Hr|lia|]. vm_compute in Hp. injection Hp as <-. exact Hb.
Defined.

(** The site lists pages with any keyword, so that a term may find what its
    beginning does not; having found nothing for the beginning, the box does not
    ask for it. *)
Example skipped_search_misses :
  let a := (Adapter.init_index (H := BKDTheorems.no_math) true Tokenizer.ascii_lower (js "1") 0 [AdapterTheorems.sample_page "beta" "b"] Adapter.new_adapter).1 in
  let found t := match (Adapter.search (H := BKDTheorems.no_math) true Tokenizer.ascii_lower AdapterTheorems.no_locale t a).2 with
                 | Ok r => mapM shown_item r | Throw _ => None end in
  let b := foldl (λ b e, (handle flat_list (site_render id (js "..")) 3 true e b).1) (new_box [])
    [Typed (js "alpha"); KeyUp 65; SearchTimer; Answer 0 (default [] (found (js "alpha"))); Typed (js "alpha beta"); KeyUp 65] in
  found (js "alpha") = Some [] ∧ length <$> found (js "alpha beta") = Some 1%nat ∧
  items b = [] ∧ hidden b = true ∧ timer b = None ∧ requests b = [].
Proof. vm_compute. split_and!; reflexivity. Qed.
