(* ===== verification/Topbar.v ===== *)
(** * The buttons of the topbar (theme.js, the function around
    [moveAreaTopbarButtons])

    For each width of the window a button of the topbar stays in its area, is
    hidden, or moves to another area; a placeholder keeps its place. An area may
    itself be the content of a button. *)

From S2P Require Import Prelude JSValue.

(** ** Elements *)
Inductive kind := Button | Placeholder | Area | Hidden | Plain.
#[export] Instance kind_eq_dec : EqDecision kind.
Proof. solve_decision. Defined.

(** Elements of the page, and those added to a button or an area. *)
Inductive bid := Id (n : nat) | Placeholder_of (b : bid) | End_of (a : bid) | Hidden_of (a : bid) | Hidden_end_of (a : bid).
#[export] Instance bid_eq_dec : EqDecision bid.
Proof. solve_decision. Defined.

Record battrs := BAttrs {
  b_kind : kind;
  d_area : jsstr;                        (* data-area *)
  d_origin : option jsstr;
  d_action : option jsstr;
  d_width : list (N * jsstr);            (* data-width-s, -m, -l by the letter *)
  d_contentEmpty : jsstr;
  wrapper_content : option bool;         (* the content wrapper: is it blank? *)
  displayed : bool;
  b_disabled : bool
}.
Definition set_action (act : jsstr) (a : battrs) := BAttrs (b_kind a) (d_area a) (d_origin a) (Some act) (d_width a) (d_contentEmpty a) (wrapper_content a) (displayed a) (b_disabled a).
Definition set_origin (o : jsstr) (a : battrs) := BAttrs (b_kind a) (d_area a) (Some o) (d_action a) (d_width a) (d_contentEmpty a) (wrapper_content a) (displayed a) (b_disabled a).
Definition set_area (n : jsstr) (a : battrs) := BAttrs (b_kind a) n (d_origin a) (d_action a) (d_width a) (d_contentEmpty a) (wrapper_content a) (displayed a) (b_disabled a).
Definition set_empty (e : bool) (a : battrs) :=
  BAttrs (b_kind a) (d_area a) (d_origin a) (d_action a) (d_width a) (d_contentEmpty a) (wrapper_content a)
    (negb (e && bool_decide (d_contentEmpty a = js "hide"))) e.
Definition plain (k : kind) : battrs := BAttrs k [] None None [] [] None true false.

(** The children of a button are those of its content wrapper. *)
Inductive bar := Bar (i : bid) (a : battrs) (cs : list bar).
Definition bar_id (b : bar) : bid := match b with Bar i _ _ => i end.
Definition bar_attrs (b : bar) : battrs := match b with Bar _ a _ => a end.
Definition bar_children (b : bar) : list bar := match b with Bar _ _ cs => cs end.
Definition is_kind (k : kind) (b : bar) : bool := bool_decide (b_kind (bar_attrs b) = k).

Lemma bar_ind' (P : bar → Prop) : (∀ i a cs, Forall P cs → P (Bar i a cs)) → ∀ b, P b.
Proof.
  intros HP. fix IH 1. intros [i a cs]. apply HP. induction cs as [|c cs IHcs]; constructor; [apply IH|apply IHcs].
Qed.

(** ** Looking and moving *)

(** All elements, in document order. *)
Fixpoint all_bars (b : bar) : list bar := match b with Bar _ _ cs => b :: (cs ≫= all_bars) end.
Definition find_bar (i : bid) (t : bar) : option bar := head (filter (λ b, bar_id b = i) (all_bars t)).
Definition parentNode (i : bid) (t : bar) : option bar :=
  head (filter (λ b, i ∈ (bar_id <$> bar_children b)) (all_bars t)).
(** [button.nextSibling] *)
Definition nextSibling (i : bid) (parent : bar) : option bid :=
  '(j, _) ← list_find (λ b, bar_id b = i) (bar_children parent); bar_id <$> bar_children parent !! S j.

(** [topbar.querySelectorAll('.outer .topbar-button')] *)
Fixpoint buttons_in (outer : kind) (inside : bool) (b : bar) : list bid :=
  match b with
  | Bar i a cs =>
      (if inside && is_kind Button b then [i] else []) ++ (cs ≫= buttons_in outer (inside || is_kind outer b))
  end.

Fixpoint update_attrs (i : bid) (f : battrs → battrs) (b : bar) : bar :=
  match b with Bar j a cs => Bar j (if bool_decide (j = i) then f a else a) (update_attrs i f <$> cs) end.

(** Taking an element out of its parent. *)
Fixpoint detach (i : bid) (b : bar) : list bar * bar :=
  match b with
  | Bar j a cs =>
      let rs := (λ c, if bool_decide (bar_id c = i) then ([c], []) else let '(r, c) := detach i c in (r, [c])) <$> cs in
      (rs ≫= fst, Bar j a (rs ≫= snd))
  end.
(** Putting it before another one; [None]: that one is not there. *)
Fixpoint insert_children (f : bar → option bar) (i : bid) (x : bar) (cs : list bar) : option (list bar) :=
  match cs with
  | [] => None
  | c :: cs =>
      if bool_decide (bar_id c = i) then Some (x :: c :: cs)
      else match f c with
           | Some c => Some (c :: cs)
           | None => (λ cs, c :: cs) <$> insert_children f i x cs
           end
  end.
Fixpoint insert_before (i : bid) (x b : bar) : option bar :=
  match b with Bar j a cs => (λ cs, Bar j a cs) <$> insert_children (insert_before i x) i x cs end.
(** [target.insertAdjacentElement('beforebegin', i)] *)
Definition move_before (i target : bid) (t : bar) : option bar :=
  match detach i t with ([x], t) => insert_before target x t | _ => None end.

(** ** Infos and placeholders *)

Definition new_bar (i : bid) (k : kind) (act : option jsstr) : bar :=
  Bar i (match act with Some a => set_action a (plain k) | None => plain k end) [].
Definition area_prefix (a : jsstr) : jsstr := js "area-" ++ a.

(** What stands for an element afterwards: an area is followed by its hidden
    elements. *)
Fixpoint addTopbarButtonInfos (b : bar) : list bar :=
  match b with
  | Bar i a cs =>
      if is_kind Area b then
        let name := area_prefix (d_area a) in
        [Bar i (set_area name a)
           ((cs ≫= λ c,
               if is_kind Button c then
                 match addTopbarButtonInfos c with
                 | [Bar j b ds] => [Bar j (set_action (js "show") (set_origin name b)) ds; new_bar (Placeholder_of j) Placeholder (Some (js "show"))]
                 | l => l
                 end
               else addTopbarButtonInfos c) ++ [new_bar (End_of i) Plain None]);
         Bar (Hidden_of i) (set_area name (plain Hidden)) [new_bar (Hidden_end_of i) Plain None]]
      else [Bar i a (cs ≫= addTopbarButtonInfos)]
  end.

(** ** Moving the buttons *)

Definition show_again (button placeholder : bid) (t : bar) : option bar :=
  move_before button placeholder (update_attrs button (set_action (js "show")) (update_attrs placeholder (set_action (js "show")) t)).
Definition send (action : jsstr) (button placeholder dest : bid) (t : bar) : option bar :=
  move_before button dest (update_attrs button (set_action action) (update_attrs placeholder (set_action action) t)).

(** A hidden button goes back to its area. *)
Definition restore_hidden (button : bid) (t : bar) : option bar :=
  par ← parentNode button t;
  gp ← parentNode (bar_id par) t;
  placeholder ← head (filter (λ b, is_kind Placeholder b = true ∧ d_action (bar_attrs b) = Some (js "hide"))
                        (filter (λ b, is_kind Area b = true) (bar_children gp) ≫= λ area, bar_children area ≫= all_bars));
  show_again button (bar_id placeholder) t.

(** A moved button goes back to the area it came from. *)
Definition restore_moved (button : bid) (t : bar) : option bar :=
  b ← find_bar button t;
  let current_area := d_action (bar_attrs b) in
  let origin_area := d_origin (bar_attrs b) in
  if bool_decide (current_area ≠ Some (js "show") ∧ origin_area ≠ current_area) then
    placeholder ← head (filter (λ c, is_kind Placeholder c = true ∧ d_action (bar_attrs c) = current_area)
                         (filter (λ a, is_kind Area a = true ∧ Some (d_area (bar_attrs a)) = origin_area) (all_bars t) ≫= bar_children));
    show_again button (bar_id placeholder) t
  else Some t.

Definition width_action (width : N) (b : bar) : option jsstr := (list_to_map (d_width (bar_attrs b)) : gmap N jsstr) !! width.
(** A button goes where it is wanted for a width. *)
Definition place_button (width : N) (button : bid) (t : bar) : option bar :=
  b ← find_bar button t;
  parent ← parentNode button t;
  match width_action width b with
  | None => Some t
  | Some action =>
      if bool_decide (action = js "show") then Some t
      else
        gp ← parentNode (bar_id parent) t;
        if bool_decide (action = js "hide") then
          hidden ← head (filter (λ c, is_kind Hidden c = true) (bar_children gp) ≫= bar_children);
          placeholder ← nextSibling button parent;
          send action button placeholder (bar_id hidden) t
        else if bool_decide (action = d_area (bar_attrs parent)) then Some t
        else
          match head (filter (λ a, is_kind Area a = true ∧ d_area (bar_attrs a) = action) (bar_children gp ≫= all_bars) ≫= bar_children) with
          | Some dest => placeholder ← nextSibling button parent; send action button placeholder (bar_id dest) t
          | None => Some t
          end
  end.

Definition each (f : bid → bar → option bar) (l : list bid) (t : bar) : option bar := foldl (λ t b, t ≫= f b) (Some t) l.
Definition moveAreaTopbarButtons (width : N) (t : bar) : option bar :=
  t ← each restore_hidden (buttons_in Hidden false t) t;
  t ← each restore_moved (buttons_in Area false t) t;
  each (place_button width) (reverse (buttons_in Area false t)) t.

(** ** The width of the window *)

(** The classes menu-s-width, menu-m-width and menu-l-width of the body. *)
Record widths := Widths { width_s : bool; width_m : bool; width_l : bool }.
Definition moveTopbarButtons (w : widths) (t : bar) : option bar :=
  match width_s w, width_m w, width_l w with
  | true, false, false => moveAreaTopbarButtons 115 t
  | false, true, false => moveAreaTopbarButtons 109 t
  | false, false, true => moveAreaTopbarButtons 108 t
  | _, _, _ => Some t
  end.

(** ** Empty contents *)
Definition adjust_button (i : bid) (t : bar) : bar :=
  match find_bar i t with
  | Some b =>
      match wrapper_content (bar_attrs b) with
      | Some blank =>
          let isEmpty :=
            match filter (λ c, is_kind Area c = true) (bar_children b) with
            | area :: _ => forallb (λ c, negb (is_kind Button c && displayed (bar_attrs c))) (bar_children area)
            | [] => blank
            end in
          update_attrs i (set_empty isEmpty) t
      | None => t
      end
  | None => t
  end.
(** Inner buttons first. *)
Definition adjustEmptyTopbarContents (t : bar) : bar :=
  foldr adjust_button t (bar_id <$> filter (λ b, is_kind Button b = true ∧ wrapper_content (bar_attrs b) ≠ None) (all_bars t)).

(** One media query changes: [None] when the code throws. *)
Inductive width_event := Width_s (b : bool) | Width_m (b : bool) | Width_l (b : bool).
Definition set_width (e : width_event) (w : widths) : widths :=
  match e with
  | Width_s b => Widths b (width_m w) (width_l w)
  | Width_m b => Widths (width_s w) b (width_l w)
  | Width_l b => Widths (width_s w) (width_m w) b
  end.
Definition onWidthChange (e : width_event) (s : widths * bar) : option (widths * bar) :=
  let w := set_width e s.1 in
  t ← moveTopbarButtons w s.2; Some (w, adjustEmptyTopbarContents t).
Definition width_run (es : list width_event) (s : widths * bar) : option (widths * bar) := foldl (λ s e, s ≫= onWidthChange e) (Some s) es.

(** Loading the page; [t] is the topbar with the areas as the theme writes it. *)
Definition topbar_start (w : widths) (t : bar) : option (widths * bar) :=
  match addTopbarButtonInfos t with
  | [t] => t ← moveTopbarButtons w t; Some (w, adjustEmptyTopbarContents t)
  | _ => None
  end.

(** ** Nothing gets lost *)
Definition bar_ids (t : bar) : list bid := bar_id <$> all_bars t.
Definition all_ids (l : list bar) : list bid := l ≫= bar_ids.

Lemma ids_bar i a cs : bar_ids (Bar i a cs) = i :: all_ids cs.
Proof.
  unfold bar_ids at 1. cbn [all_bars]. rewrite fmap_cons. f_equal. unfold all_ids.
  induction cs as [|c cs IH]; [done|]. by rewrite !bind_cons, fmap_app, IH.
Qed.
Lemma all_ids_app l k : all_ids (l ++ k) = all_ids l ++ all_ids k.
Proof. apply bind_app. Qed.
Lemma all_ids_cons b l : all_ids (b :: l) = bar_ids b ++ all_ids l.
Proof. done. Qed.

Lemma update_ids i f t : bar_ids (update_attrs i f t) = bar_ids t.
Proof.
  induction t as [j a cs IH] using bar_ind'. cbn [update_attrs]. rewrite !ids_bar. f_equal.
  induction IH as [|c cs Hc Hcs IH']; [done|]. by rewrite fmap_cons, !all_ids_cons, Hc, IH'.
Qed.
Lemma detach_ids i t : let '(r, t') := detach i t in bar_ids t ≡ₚ all_ids r ++ bar_ids t'.
Proof.
  induction t as [j a cs IH] using bar_ind'. cbn [detach]. rewrite !ids_bar, <-Permutation_middle. apply perm_skip.
  induction IH as [|c cs Hc Hcs IH']; [done|]. rewrite fmap_cons, !bind_cons, all_ids_cons, !all_ids_app, IH'.
  case_bool_decide.
  - cbn [fst snd]. rewrite all_ids_cons. change (all_ids []) with (@nil bid). rewrite !app_nil_r. simpl. by rewrite <-app_assoc.
  - destruct (detach i c) as [r c']. cbn [fst snd]. rewrite Hc, all_ids_cons. change (all_ids []) with (@nil bid). rewrite app_nil_r.
    rewrite <-!app_assoc. apply Permutation_app_head. rewrite !app_assoc. apply Permutation_app_tail, Permutation_app_comm.
Qed.
Lemma insert_ids i x t t' : insert_before i x t = Some t' → bar_ids t' ≡ₚ bar_ids x ++ bar_ids t.
Proof.
  revert t'. induction t as [j a cs IH] using bar_ind'. intros t'. cbn [insert_before]. intros (ds & Hds & ->)%fmap_Some.
  rewrite !ids_bar, <-Permutation_middle. apply perm_skip. revert ds Hds.
  induction IH as [|c cs Hc Hcs IH']; intros ds; cbn [insert_children]; [done|]. case_bool_decide; [by intros [= <-]|].
  destruct (insert_before i x c) as [c'|].
  - intros [= <-]. rewrite !all_ids_cons, (Hc c') by done. by rewrite app_assoc.
  - intros (ds' & Hds' & ->)%fmap_Some. rewrite !all_ids_cons, (IH' ds') by done.
    rewrite !app_assoc. apply Permutation_app_tail, Permutation_app_comm.
Qed.
Lemma move_ids i j t t' : move_before i j t = Some t' → bar_ids t' ≡ₚ bar_ids t.
Proof.
  unfold move_before. pose proof (detach_ids i t) as Hd. destruct (detach i t) as [[|x [|]] u]; [done| |done].
  intros Hi%insert_ids. rewrite Hi, Hd. change (all_ids [x]) with (bar_ids x ++ []). by rewrite app_nil_r.
Qed.
Lemma show_again_ids i j t t' : show_again i j t = Some t' → bar_ids t' ≡ₚ bar_ids t.
Proof. intros H%move_ids. by rewrite !update_ids in H. Qed.
Lemma send_ids act i j k t t' : send act i j k t = Some t' → bar_ids t' ≡ₚ bar_ids t.
Proof. intros H%move_ids. by rewrite !update_ids in H. Qed.

Lemma each_ids f l t t' : (∀ b t t', f b t = Some t' → bar_ids t' ≡ₚ bar_ids t) → each f l t = Some t' → bar_ids t' ≡ₚ bar_ids t.
Proof.
  intros Hf. unfold each. revert t. induction l as [|b l IH]; intros t; [by intros [= <-]|]. cbn [foldl mbind option_bind].
  destruct (f b t) as [u|] eqn:Hb.
  - intros H%IH. rewrite H. by eapply Hf.
  - intros H. exfalso. clear -H. induction l as [|c l IH]; [done|]. by apply IH.
Qed.
Lemma restore_hidden_ids b t t' : restore_hidden b t = Some t' → bar_ids t' ≡ₚ bar_ids t.
Proof.
  unfold restore_hidden. intros (par & _ & H)%bind_Some. apply bind_Some in H as (gp & _ & H). apply bind_Some in H as (ph & _ & H).
  by eapply show_again_ids.
Qed.
Lemma restore_moved_ids b t t' : restore_moved b t = Some t' → bar_ids t' ≡ₚ bar_ids t.
Proof.
  unfold restore_moved. intros (x & _ & H)%bind_Some. case_bool_decide; [|by injection H as ->].
  apply bind_Some in H as (ph & _ & H). by eapply show_again_ids.
Qed.
Lemma place_ids w b t t' : place_button w b t = Some t' → bar_ids t' ≡ₚ bar_ids t.
Proof.
  unfold place_button. intros (x & _ & H)%bind_Some. apply bind_Some in H as (par & _ & H).
  destruct (width_action w x) as [act|]; [|by injection H as ->]. case_bool_decide; [by injection H as ->|].
  apply bind_Some in H as (gp & _ & H). case_bool_decide.
  - apply bind_Some in H as (h & _ & H). apply bind_Some in H as (ph & _ & H). by eapply send_ids.
  - case_bool_decide; [by injection H as ->|]. destruct (head _); [|by injection H as ->].
    apply bind_Some in H as (ph & _ & H). by eapply send_ids.
Qed.
Lemma moveArea_ids w t t' : moveAreaTopbarButtons w t = Some t' → bar_ids t' ≡ₚ bar_ids t.
Proof.
  unfold moveAreaTopbarButtons. intros (t1 & H1 & H)%bind_Some. apply bind_Some in H as (t2 & H2 & H3).
  apply each_ids in H1; [|intros; by eapply restore_hidden_ids]. apply each_ids in H2; [|intros; by eapply restore_moved_ids].
  apply each_ids in H3; [|intros; by eapply place_ids]. by rewrite H3, H2, H1.
Qed.
Lemma adjust_ids t : bar_ids (adjustEmptyTopbarContents t) = bar_ids t.
Proof.
  unfold adjustEmptyTopbarContents. generalize (bar_id <$> filter (λ b, is_kind Button b = true ∧ wrapper_content (bar_attrs b) ≠ None) (all_bars t)).
  intros l. induction l as [|b l IH]; [done|]. simpl. rewrite <-IH. unfold adjust_button.
  destruct (find_bar _ _) as [x|]; [|done]. destruct (wrapper_content _); [|done]. apply update_ids.
Qed.
Lemma moveTopbar_ids w t t' : moveTopbarButtons w t = Some t' → bar_ids t' ≡ₚ bar_ids t.
Proof. unfold moveTopbarButtons. destruct (width_s w), (width_m w), (width_l w); (apply moveArea_ids || by intros [= ->]). Qed.

(** No width makes an element of the topbar disappear or appear twice, as long
    as the code does not throw. *)
Lemma width_run_ids es s s' : width_run es s = Some s' → bar_ids s'.2 ≡ₚ bar_ids s.2.
Proof.
  unfold width_run. revert s. induction es as [|e es IH]; intros s; [by intros [= <-]|]. cbn [foldl mbind option_bind].
  destruct (onWidthChange e s) as [s1|] eqn:He.
  - intros H%IH. rewrite H. unfold onWidthChange in He. apply bind_Some in He as (t & Ht & [= <-]). cbn [snd].
    rewrite adjust_ids. by eapply moveTopbar_ids.
  - intros H. exfalso. clear -H. induction es as [|e' es IH]; [done|]. by apply IH.
Qed.

(** ** The topbar of the theme

    The layouts of the theme (baseof.html and the partials below topbar/) put the
    buttons for the sidebar and the table of contents into the area start, and
    those for editing, the source, Markdown, printing, the pages before and after,
    and the area more, which is empty, into the area end. Except for the first and
    the last they depend on the site and on the page. *)
Record page_config := PageConfig {
  has_toc : option bool;         (* the table of contents, and whether it is blank *)
  has_edit : bool; has_source : bool; has_markdown : bool; has_print : bool;
  has_prevnext : bool;
}.

(** func/button.html; [ml]: what it does at the two larger widths. *)
Definition button (n : nat) (onempty s ml : string) (content : option bool) (cs : list bar) : bar :=
  Bar (Id n) (BAttrs Button [] None None [(115%N, js s); (109%N, js ml); (108%N, js ml)] (js onempty) content true false) cs.
Definition link_button (n : nat) (s ml : string) : bar := button n "disable" s ml None [].
Definition area_of (n : nat) (name : string) (cs : list bar) : bar := Bar (Id n) (set_area (js name) (plain Area)) cs.
Definition if_some (b : bool) (x : bar) : list bar := if b then [x] else [].

(** area/start.html *)
Definition start_buttons (c : page_config) : list bar :=
  link_button 2 "show" "hide" :: match has_toc c with Some blank => [button 3 "hide" "show" "show" (Some blank) []] | None => [] end.
(** area/end.html *)
Definition end_buttons (c : page_config) : list bar :=
  if_some (has_edit c) (link_button 5 "area-more" "show") ++ if_some (has_source c) (link_button 6 "area-more" "show") ++
  if_some (has_markdown c) (link_button 7 "area-more" "show") ++ if_some (has_print c) (link_button 8 "area-more" "show") ++
  if_some (has_prevnext c) (link_button 9 "show" "show") ++ if_some (has_prevnext c) (link_button 10 "show" "show") ++
  [button 11 "hide" "show" "show" (Some true) [area_of 12 "more" []]].
Definition theme_topbar (c : page_config) : bar :=
  Bar (Id 0) (plain Plain) [area_of 1 "start" (start_buttons c); area_of 4 "end" (end_buttons c)].

(** The pages of this site have no address to edit them at, and no source. *)
Definition site_page : page_config := PageConfig (Some false) false false true true true.

(** The arrangement for a width, from the page as loaded. *)
Definition arrangement (c : page_config) (w : widths) : option bar := snd <$> topbar_start w (theme_topbar c).
Definition only_s := Widths true false false.
Definition only_m := Widths false true false.
Definition only_l := Widths false false true.
Definition distinct_width (w : widths) : bool :=
  match width_s w, width_m w, width_l w with true, false, false | false, true, false | false, false, true => true | _, _, _ => false end.

(** The buttons shown in an area, in order. *)
Definition shown_in (area : nat) (t : bar) : list bid :=
  match find_bar (Id area) t with
  | Some a => bar_id <$> filter (λ b, is_kind Button b = true) (bar_children a)
  | None => []
  end.
(** On a narrow window Markdown and printing move into the area more, on a wide
    one the button of the sidebar and that of the empty area are hidden. *)
Example site_arrangements :
  (λ t, (shown_in 1 t, shown_in 4 t, shown_in 12 t)) <$> arrangement site_page only_s =
    Some ([Id 2; Id 3], [Id 9; Id 10; Id 11], [Id 7; Id 8]) ∧
  (λ t, (shown_in 1 t, shown_in 4 t, shown_in 12 t, displayed <$> (bar_attrs <$> find_bar (Id 11) t))) <$> arrangement site_page only_m =
    Some ([Id 3], [Id 7; Id 8; Id 9; Id 10; Id 11], [], Some false).
Proof. vm_compute. split; reflexivity. Qed.

(** *** All pages, all widths *)
#[export] Instance battrs_eq_dec : EqDecision battrs.
Proof. solve_decision. Defined.
Fixpoint bar_eqb (x y : bar) : bool :=
  match x, y with
  | Bar i a cs, Bar j b ds =>
      bool_decide (i = j) && bool_decide (a = b) &&
      (fix all cs ds := match cs, ds with [], [] => true | c :: cs, d :: ds => bar_eqb c d && all cs ds | _, _ => false end) cs ds
  end.
Lemma bar_eqb_eq x y : bar_eqb x y = true → x = y.
Proof.
  revert y. induction x as [i a cs IH] using bar_ind'. intros [j b ds]. cbn [bar_eqb].
  rewrite !andb_true_iff, !bool_decide_eq_true. intros [[-> ->] Hcs]. f_equal. revert ds Hcs.
  induction IH as [|c cs Hc _ IHcs]; intros [|d ds]; try done. rewrite andb_true_iff. intros [H1 H2]. f_equal; [by apply Hc|by apply IHcs].
Qed.
Definition opt_bar_eqb (x y : option bar) : bool :=
  match x, y with Some x, Some y => bar_eqb x y | None, None => true | _, _ => false end.
Lemma opt_bar_eqb_eq x y : opt_bar_eqb x y = true → x = y.
Proof. destruct x, y; try done. intros H%bar_eqb_eq. by subst. Qed.

Definition all_bools : list bool := [true; false].
Definition all_widths : list widths := s ← all_bools; m ← all_bools; l ← all_bools; [Widths s m l].
Definition all_pages : list page_config :=
  toc ← [None; Some true; Some false]; e ← all_bools; so ← all_bools; md ← all_bools; pr ← all_bools; pn ← all_bools;
  [PageConfig toc e so md pr pn].
Lemma all_bools_in b : b ∈ all_bools.
Proof. destruct b; unfold all_bools; set_solver. Qed.
Lemma all_widths_in w : w ∈ all_widths.
Proof.
  destruct w as [s m l]. unfold all_widths. repeat (eapply list_elem_of_bind; eexists; split; [|apply all_bools_in]). by left.
Qed.
Lemma all_pages_in c : c ∈ all_pages.
Proof.
  destruct c as [toc e so md pr pn]. unfold all_pages. apply list_elem_of_bind. exists toc.
  split; [|destruct toc as [[]|]; set_solver].
  repeat (eapply list_elem_of_bind; eexists; split; [|apply all_bools_in]). by left.
Qed.

(** One change of the width: from the arrangement of any width the code gets to
    that of any other. *)
Definition follows (c : page_config) (t : bar) (w : widths) : bool :=
  opt_bar_eqb (t' ← moveTopbarButtons w t; Some (adjustEmptyTopbarContents t'))
    (if distinct_width w then arrangement c w else Some t).
Definition settled_bar (c : page_config) (t : bar) : bool := forallb (follows c t) all_widths.
Lemma pages_settled : forallb (λ c, forallb (λ w, from_option (settled_bar c) false (arrangement c w)) all_widths) all_pages = true.
Proof. vm_compute. reflexivity. Qed.
Lemma settled_arrangement c w : ∃ t, arrangement c w = Some t ∧ settled_bar c t = true.
Proof.
  pose proof pages_settled as H. rewrite forallb_forall in H. specialize (H c). rewrite <-list_elem_of_In, forallb_forall in H.
  specialize (H (all_pages_in c) w). rewrite <-list_elem_of_In in H. specialize (H (all_widths_in w)).
  destruct (arrangement c w) as [t|]; [|done]. by exists t.
Qed.
Lemma settled_follows c t w : settled_bar c t = true →
  (t' ← moveTopbarButtons w t; Some (adjustEmptyTopbarContents t')) = if distinct_width w then arrangement c w else Some t.
Proof.
  unfold settled_bar. rewrite forallb_forall. intros H. specialize (H w). rewrite <-list_elem_of_In in H. apply opt_bar_eqb_eq, H, all_widths_in.
Qed.
Lemma change_settled c e w t : settled_bar c t = true →
  ∃ t', onWidthChange e (w, t) = Some (set_width e w, t') ∧ settled_bar c t' = true ∧
    (distinct_width (set_width e w) = true → arrangement c (set_width e w) = Some t').
Proof.
  intros Ht. pose proof (settled_follows c t (set_width e w) Ht) as H. unfold onWidthChange. cbn [fst snd].
  destruct (settled_arrangement c (set_width e w)) as (ta & Ha & Hta).
  destruct (moveTopbarButtons (set_width e w) t) as [t'|]; cbn [mbind option_bind] in *.
  - eexists. split; [done|]. destruct (distinct_width (set_width e w)).
    + rewrite Ha in H. injection H as ->. by split.
    + injection H as ->. by split.
  - destruct (distinct_width (set_width e w)); [by rewrite Ha in H|done].
Qed.
Lemma run_settled c es w t : settled_bar c t = true → (distinct_width w = true → arrangement c w = Some t) →
  ∃ t', width_run es (w, t) = Some (foldl (flip set_width) w es, t') ∧
    (distinct_width (foldl (flip set_width) w es) = true → arrangement c (foldl (flip set_width) w es) = Some t').
Proof.
  revert w t. induction es as [|e es IH]; intros w t Ht Hw; [by exists t|].
  destruct (change_settled c e w t Ht) as (t1 & He & Ht1 & Hw1). unfold width_run. cbn [foldl mbind option_bind]. rewrite He. by apply IH.
Qed.

(** C35. The topbar follows the width of the window, on every page the layouts
    of the theme can produce: whichever of its buttons a page has, and however
    the media queries change, one after the other, the code never throws, and
    whenever exactly one width applies the buttons stand exactly as they would
    had the page been loaded with that width. No element is ever lost. (For other
    topbars see [hidden_area_throws].) *)
Theorem topbar_follows_width (c : page_config) (w0 : widths) (es : list width_event) :
  let w := foldl (flip set_width) w0 es in
  ∃ s t, topbar_start w0 (theme_topbar c) = Some s ∧ width_run es s = Some (w, t) ∧
    (distinct_width w = true → arrangement c w = Some t) ∧ bar_ids t ≡ₚ bar_ids s.2.
Proof.
  cbn zeta. destruct (settled_arrangement c w0) as (t0 & Ha & Ht0). pose proof Ha as Hs. unfold arrangement in Hs.
  destruct (topbar_start w0 (theme_topbar c)) as [[w0' t0']|] eqn:Hstart; [|done]. cbn in Hs. injection Hs as ->.
  assert (w0' = w0) as ->.
  { unfold topbar_start in Hstart. destruct (addTopbarButtonInfos _) as [|b [|]]; [done| |done].
    apply bind_Some in Hstart as (t & _ & [= -> _]). done. }
  destruct (run_settled c es w0 t0 Ht0) as (t' & Hr & Hd); [done|]. exists (w0, t0), t'. split_and!; [done..|].
  by apply width_run_ids in Hr.
Qed.

(** A hidden button that contains an area with a button of its own stops the
    code: the inner button is taken for a hidden one, and no placeholder waits
    for it. *)
Lemma hidden_area_throws :
  let more := Bar (Id 2) (BAttrs Button [] None None [(115%N, js "show"); (108%N, js "hide")] (js "hide") (Some true) true false) [area_of 3 "more" [link_button 4 "show" "show"]] in
  let t := Bar (Id 0) (plain Plain) [area_of 1 "end" [more]] in
  is_Some (topbar_start only_l t) ∧ (s ← topbar_start only_l t; width_run [Width_l false; Width_s true] s) = None.
Proof. vm_compute. split; [by eexists|reflexivity]. Qed.
