(* ===== verification/Diagrams.v ===== *)
(** * Diagrams and their theme (theme.js, function [initMermaid])

    The source of a diagram may begin with front matter and with a directive;
    [parseGraph] takes them apart, [serializeGraph] puts them together again.
    The page writes its theme into the front matter of every diagram whose
    author has not chosen one, keeps the source beside the drawing and draws
    again when the theme changes. YAML and JSON are parameters; what is drawn
    is the text given to Mermaid. *)

From S2P Require Import Prelude JSColl JSValue WordPattern PageServices.

(** ** Backtracking

    A part of a regular expression lists what it can read, in the order in
    which the matcher tries it, each with the rest of the text. *)
Definition reads (A : Type) : Type := jsstr → list (A * jsstr).

Definition newline (c : N) : bool := (c =? 10)%N || (c =? 13)%N.

Definition one (f : N → bool) : reads jsstr := λ s,
  match s with c :: s => if f c then [([c], s)] else [] | [] => [] end.
(** [f*] and [f*?] *)
Fixpoint greedy (f : N → bool) (s : jsstr) : list (jsstr * jsstr) :=
  match s with
  | c :: s' => (if f c then prod_map (cons c) id <$> greedy f s' else []) ++ [([], s)]
  | [] => [([], [])]
  end.
Fixpoint lazily (f : N → bool) (s : jsstr) : list (jsstr * jsstr) :=
  ([], s) :: match s with c :: s' => if f c then prod_map (cons c) id <$> lazily f s' else [] | [] => [] end.
Definition literal (w : jsstr) : reads jsstr := λ s, if decide (w `prefix_of` s) then [(w, drop (length w) s)] else [].
(** [p?] and, for a [p] that reads something, [p*]. *)
Definition optional {A} (p : reads A) : reads (option A) := λ s, (prod_map Some id <$> p s) ++ [(None, s)].
Fixpoint repeated (fuel : nat) (p : reads jsstr) (s : jsstr) : list jsstr :=
  match fuel with O => [] | S fuel => p s ≫= λ r, repeated fuel p r.2 end ++ [s].

(** ** The text of a diagram *)

(** [\s*[\n\r]] and [\s*[\n\r]+] *)
Definition blank_line : reads jsstr := λ s,
  '(w, s) ← greedy is_white s; '(n, s) ← one newline s; [(w ++ n, s)].
Definition blank_lines : reads jsstr := λ s,
  '(w, s) ← greedy is_white s; '(n, s) ← one newline s; '(m, s) ← greedy newline s; [(w ++ n ++ m, s)].
(** [-{3}(\s*[\n\r](?:.*?)[\n\r])-{3}(?:\s*[\n\r]+)+] *)
Definition dashes : jsstr := js "---".
Definition front_matter : reads jsstr := λ s,
  '(_, s) ← literal dashes s; '(w, s) ← blank_line s; '(b, s) ← lazily (λ _, true) s; '(n, s) ← one newline s;
  '(_, s) ← literal dashes s; '(_, s) ← blank_lines s; s ← repeated (length s) blank_lines s; [(w ++ b ++ n, s)].
(** [\s*(?:%%\s*\{\s*\w+\s*:([^%]*?)%%\s*[\n\r]?)] *)
Definition percent_sign : N := 37.
Definition directive : reads jsstr := λ s,
  '(_, s) ← greedy is_white s; '(_, s) ← literal [percent_sign; percent_sign] s; '(_, s) ← greedy is_white s; '(_, s) ← literal (js "{") s;
  '(_, s) ← greedy is_white s; '(_, s) ← one word_character s; '(_, s) ← greedy word_character s;
  '(_, s) ← greedy is_white s; '(_, s) ← literal (js ":") s; '(b, s) ← lazily (λ c, negb (c =? percent_sign)%N) s;
  '(_, s) ← literal [percent_sign; percent_sign] s; '(_, s) ← greedy is_white s; '(_, s) ← optional (one newline) s; [(b, s)].
(** The whole: blank lines, the two parts, which may be absent, and the rest. *)
Definition graph_parts : reads (option jsstr * option jsstr) := λ s,
  s ← repeated (length s) blank_line s; '(y, s) ← optional front_matter s; '(d, s) ← optional directive s; [((y, d), s)].

Record graph := Graph { g_yaml : jsval; g_dir : jsval; g_content : jsstr }.

(** [v[k] = x]; only objects keep it. *)
Definition put_prop (k : jsstr) (x v : jsval) : result jsval :=
  match v with
  | JUndef | JNull => Throw TypeError
  | JObj o => Ok (JObj (jm_set k x o))
  | v => Ok v
  end.
(** [Object.keys(v).length] *)
Definition key_count (v : jsval) : result nat :=
  match v with
  | JUndef | JNull => Throw TypeError
  | JObj o => Ok (length o)
  | JArr l => Ok (length l)
  | JStr s => Ok (length s)
  | JBool _ | JNum _ => Ok 0%nat
  end.

Section text.
Context (yaml_load : jsstr → result jsval) (yaml_dump : jsval → jsstr).
Context (json_parse : jsstr → result jsval) (json_stringify : jsval → jsstr).

Definition init_text : jsstr := js "{ " ++ 34%N :: js "init" ++ 34%N :: js ": ".
Definition parseGraph (text : jsstr) : result graph :=
  match graph_parts text with
  | ((y, d), rest) :: _ =>
      yaml ← match y with Some ((_ :: _) as y) => yaml_load y | _ => Ok (JObj []) end;
      dir ← match d with
            | Some ((_ :: _) as d) => v ← json_parse (init_text ++ d); get_prop v (js "init")
            | _ => Ok (JObj [])
            end;
      Ok (Graph yaml dir (trim_white (match rest with [] => text | _ => rest end)))
  | [] => Ok (Graph (JObj []) (JObj []) (trim_white text))
  end.

Definition serializeGraph (g : graph) : result jsstr :=
  y ← key_count (g_yaml g);
  d ← key_count (g_dir g);
  Ok ((if (y =? 0)%nat then [] else dashes ++ 10%N :: yaml_dump (g_yaml g) ++ dashes ++ [10%N]) ++
      (if (d =? 0)%nat then [] else js "%%{init: " ++ json_stringify (g_dir g) ++ js "}%%" ++ [10%N]) ++ g_content g).

(** ** Diagrams on the page *)

(** A diagram as the page was loaded: an element with the class [mermaid], its
    other attributes and its text. *)
Record raw_diagram := RawDiagram { rd_attrs : list (jsstr * jsstr); rd_classes : list jsstr; rd_text : jsstr }.
(** What replaces it: the source kept, and the element that is drawn into. *)
Record container := Container {
  ct_attrs : list (jsstr * jsstr);
  ct_classes : list jsstr;         (* of the new element around both *)
  ct_code : jsstr;                 (* the text of [.mermaid-code] *)
  ct_inner : list jsstr;           (* the classes of the diagram *)
  ct_shows : jsstr + jsstr;        (* its source, or the drawing of a source *)
  ct_processed : bool              (* [data-processed] *)
}.

Definition user_flag : jsstr := js "relearn_user_theme".
Definition theme_key : jsstr := js "theme".
Definition add_class (c : jsstr) (l : list jsstr) : list jsstr := if decide (c ∈ l) then l else l ++ [c].
Definition remove_class (c : jsstr) (l : list jsstr) : list jsstr := filter (.≠ c) l.
Definition mermaid_class : jsstr := js "mermaid".
Definition wrapper_class : jsstr := js "actionbar-wrapper".
Definition render_class : jsstr := js "mermaid-render".

(** [if (v.theme) v.relearn_user_theme = true] *)
Definition flag_theme (v : jsval) : result jsval :=
  t ← get_prop v theme_key; if truthy t then put_prop user_flag (JBool true) v else Ok v.
Definition user_chose (g : graph) : result bool :=
  a ← get_prop (g_yaml g) user_flag; if truthy a then Ok true else b ← get_prop (g_dir g) user_flag; Ok (truthy b).
Definition put_theme (theme : jsstr) (g : graph) : result graph :=
  y ← put_prop theme_key (JStr theme) (g_yaml g); Ok (Graph y (g_dir g) (g_content g)).

(** [v == theme], of strings *)
Definition is_theme (theme : jsstr) (v : jsval) : bool := match v with JStr t => bool_decide (t = theme) | _ => false end.

(** [init_func] for one element; [visible]: it has an [offsetParent]. *)
Definition init_diagram (theme : jsstr) (visible : bool) (e : raw_diagram) : result container :=
  parse ← parseGraph (rd_text e);
  y ← flag_theme (g_yaml parse);
  d ← flag_theme (g_dir parse);
  let parse := Graph y d (g_content parse) in
  own ← user_chose parse;
  parse ← (if (own : bool) then Ok parse else put_theme theme parse);
  text ← serializeGraph parse;
  let inner := [mermaid_class] ++ (if decide (wrapper_class ∈ rd_classes e) then [wrapper_class] else []) in
  Ok (Container (rd_attrs e) (remove_class wrapper_class (remove_class mermaid_class (add_class (js "mermaid-container") (rd_classes e))))
        text (if visible then inner ++ [render_class] else inner) (inl text) false).

(** [update_func] for one; the flag tells whether there is something to draw.
    A hidden diagram loses its class. *)
Definition update_diagram (theme : jsstr) (visible : bool) (e : container) : result (container * bool) :=
  parse ← parseGraph (ct_code e);
  done ← (if decide (render_class ∈ ct_inner e) then
            own ← user_chose parse;
            if (own : bool) then Ok true
            else y ← get_prop (g_yaml parse) theme_key;
                 if is_theme theme y then Ok true else d ← get_prop (g_dir parse) theme_key; Ok (is_theme theme d)
          else Ok false);
  if (done : bool) then Ok (e, false)
  else if visible then
    parse ← put_theme theme parse;
    text ← serializeGraph parse;
    Ok (Container (ct_attrs e) (ct_classes e) text (add_class render_class (ct_inner e)) (inl text) false, true)
  else Ok (Container (ct_attrs e) (ct_classes e) (ct_code e) (remove_class render_class (ct_inner e)) (ct_shows e) (ct_processed e), false).

(** [mermaid.run]: it draws the elements with the class that it has not
    processed yet. *)
Definition run_diagram (e : container) : container :=
  if decide (render_class ∈ ct_inner e) then
    if ct_processed e then e
    else Container (ct_attrs e) (ct_classes e) (ct_code e) (ct_inner e) (match ct_shows e with inl s => inr s | s => s end) true
  else e.

(** [init_func] and [update_func] for the page; each diagram comes with whether
    it is visible. An exception leaves those before it converted. *)
Fixpoint init_func (theme : jsstr) (l : list (bool * raw_diagram)) : list (bool * container) * list (bool * raw_diagram) * result bool :=
  match l with
  | [] => ([], [], Ok false)
  | (visible, e) :: l' =>
      match init_diagram theme visible e with
      | Throw x => ([], l, Throw x)
      | Ok k => let '(ks, rest, r) := init_func theme l' in ((visible, k) :: ks, rest, r ≫= λ _, Ok true)
      end
  end.
Fixpoint update_func (theme : jsstr) (l : list (bool * container)) : list (bool * container) * result bool :=
  match l with
  | [] => ([], Ok false)
  | (visible, e) :: l' =>
      match update_diagram theme visible e with
      | Throw x => (l, Throw x)
      | Ok (k, b) => let '(ks, r) := update_func theme l' in ((visible, k) :: ks, r ≫= λ b', Ok (b || b'))
      end
  end.
End text.

(** ** What the matcher reads *)
Lemma head_bind {A B} (l : list A) (f : A → list B) x y :
  head l = Some x → head (f x) = Some y → head (l ≫= f) = Some y.
Proof. destruct l as [|z l]; [done|]. intros [= ->]. rewrite bind_cons. by destruct (f x). Qed.

Lemma bind_of_fmap {A B C} (g : A → B) (f : B → list C) l : (g <$> l) ≫= f = l ≫= f ∘ g.
Proof. induction l as [|x l IH]; [done|]. by rewrite fmap_cons, !bind_cons, IH. Qed.

(** The text does not begin with such a character. *)
Definition starts_off (f : N → bool) (s : jsstr) : Prop := match s with c :: _ => f c = false | [] => True end.

Lemma newline_white c : newline c = true → is_white c = true.
Proof. unfold newline. rewrite orb_true_iff, !N.eqb_eq. by intros [->| ->]. Qed.
Lemma off_newline s : starts_off is_white s → starts_off newline s.
Proof. destruct s as [|c s]; [done|]. simpl. intros Hc. destruct (newline c) eqn:Hn; [|done]. apply newline_white in Hn. congruence. Qed.
Lemma one_off f s : starts_off f s → one f s = [].
Proof. destruct s as [|c s]; [done|]. simpl. by intros ->. Qed.
Lemma greedy_off f s : starts_off f s → greedy f s = [([], s)].
Proof. destruct s as [|c s]; [done|]. simpl. by intros ->. Qed.
Lemma greedy_one f c s : f c = true → starts_off f s → greedy f (c :: s) = [([c], s); ([], c :: s)].
Proof. intros Hc Hs. simpl. by rewrite Hc, greedy_off. Qed.
Lemma optional_none {A} (p : reads A) s : p s = [] → optional p s = [(None, s)].
Proof. intros H. unfold optional. by rewrite H. Qed.
Lemma optional_some {A} (p : reads A) s x : head (p s) = Some x → head (optional p s) = Some (Some x.1, x.2).
Proof. unfold optional. destruct (p s) as [|y l]; [done|]. by intros [= ->]. Qed.
Lemma repeated_none fuel p s : p s = [] → repeated fuel p s = [s].
Proof. intros H. destruct fuel; simpl; [done|]. by rewrite H. Qed.

Lemma lazily_first {B} p (f : jsstr * jsstr → list B) b t y :
  Forall (λ c, p c = true) b → (∀ k, (k < length b)%nat → f (take k b, drop k b ++ t) = []) → head (f (b, t)) = Some y →
  head (lazily p (b ++ t) ≫= f) = Some y.
Proof.
  revert f. induction b as [|c b IH]; intros f Hp Hf Hy.
  - destruct t; cbn [app lazily]; rewrite bind_cons; simpl in *; by destruct (f _).
  - apply Forall_cons in Hp as [Hc Hp]. cbn [app lazily]. rewrite bind_cons, Hc.
    pose proof (Hf 0%nat ltac:(simpl; lia)) as H0. simpl in H0. rewrite H0. cbn [app]. rewrite bind_of_fmap.
    apply (IH (f ∘ prod_map (cons c) id)); [done| |done]. intros k Hk. apply (Hf (S k)). simpl. lia.
Qed.

Lemma blank_line_off s : starts_off is_white s → blank_line s = [].
Proof. intros Hs. unfold blank_line. rewrite greedy_off by done. rewrite bind_cons. by rewrite one_off by by apply off_newline. Qed.
Lemma blank_lines_off s : starts_off is_white s → blank_lines s = [].
Proof. intros Hs. unfold blank_lines. rewrite greedy_off by done. rewrite bind_cons. by rewrite one_off by by apply off_newline. Qed.
Lemma blank_line_lf s : starts_off is_white s → blank_line (10%N :: s) = [([10%N], s)].
Proof. intros Hs. unfold blank_line. rewrite greedy_one by done. rewrite bind_cons. by rewrite one_off by by apply off_newline. Qed.
Lemma blank_lines_lf s : starts_off is_white s → blank_lines (10%N :: s) = [([10%N], s)].
Proof.
  intros Hs. unfold blank_lines. rewrite greedy_one by done. rewrite bind_cons, one_off by by apply off_newline.
  cbn. by rewrite greedy_off by by apply off_newline.
Qed.

Lemma dashes_within w v : dashes `prefix_of` w ++ 10%N :: v → dashes `prefix_of` w ++ [10%N].
Proof.
  intros [u Hu]. destruct w as [|a [|b [|c w]]]; try discriminate Hu.
  injection Hu as -> -> -> _. by exists (w ++ [10%N]).
Qed.

(** No line after the first begins with dashes. *)
Definition no_dashes (y : jsstr) : Prop := ∀ k c, y !! k = Some c → newline c = true → ¬ dashes `prefix_of` drop (S k) y.

Lemma front_matter_reads b r :
  starts_off is_white (b ++ [10%N]) → no_dashes (b ++ [10%N]) → starts_off is_white r →
  head (front_matter (dashes ++ 10%N :: b ++ 10%N :: dashes ++ 10%N :: r)) = Some (10%N :: b ++ [10%N], r).
Proof.
  intros Hb Hd Hr. unfold front_matter, literal. rewrite decide_True by by apply prefix_app_r.
  rewrite bind_cons, drop_app_length. rewrite app_nil_r.
  rewrite blank_line_lf by by destruct b. rewrite bind_cons, app_nil_r.
  apply lazily_first; [by apply Forall_true| |].
  - intros k Hk. destruct (lookup_lt_is_Some_2 b k Hk) as [c Hc]. rewrite (drop_S _ _ _ Hc). cbn [app one].
    destruct (newline c) eqn:Hn; [|done]. rewrite bind_cons, app_nil_r, decide_False; [done|]. intros Hp%dashes_within.
    apply (Hd k c); [by apply lookup_app_l_Some|done|]. by rewrite drop_app_le by lia.
  - cbn [one]. change (newline 10) with true. cbn iota. rewrite bind_cons, app_nil_r, decide_True by by apply prefix_app_r.
    rewrite bind_cons, app_nil_r, drop_app_length, blank_lines_lf by done. rewrite bind_cons, app_nil_r.
    by rewrite repeated_none by by apply blank_lines_off.
Qed.

Lemma directive_reads b c :
  Forall (λ c, negb (c =? percent_sign)%N = true) b → starts_off is_white c →
  head (directive (js "%%{init:" ++ b ++ [percent_sign; percent_sign] ++ 10%N :: c)) = Some (b, c).
Proof.
  intros Hb Hc. unfold directive.
  eapply head_bind; [reflexivity|]. eapply head_bind; [reflexivity|]. eapply head_bind; [reflexivity|].
  eapply head_bind; [reflexivity|]. eapply head_bind; [reflexivity|]. eapply head_bind; [reflexivity|].
  eapply head_bind; [reflexivity|]. eapply head_bind; [reflexivity|]. eapply head_bind; [reflexivity|].
  cbv beta iota. match goal with |- head (lazily _ ?t ≫= _) = _ => change t with (b ++ [percent_sign; percent_sign] ++ 10%N :: c) end.
  apply lazily_first; [done| |].
  - intros k Hk. destruct (lookup_lt_is_Some_2 b k Hk) as [x Hx]. rewrite (drop_S _ _ _ Hx). unfold literal.
    rewrite decide_False; [done|]. intros [u Hu]. injection Hu as -> _.
    rewrite Forall_lookup in Hb. by specialize (Hb _ _ Hx).
  - eapply head_bind; [reflexivity|]. cbv beta iota. cbn [length drop app]. eapply head_bind; [by rewrite greedy_one|].
    cbv beta iota. by rewrite optional_none by by apply one_off, off_newline.
Qed.

(** ** Reading back what was written *)
Section roundtrip.
Context (yaml_load : jsstr → result jsval) (yaml_dump : jsval → jsstr).
Context (json_parse : jsstr → result jsval) (json_stringify : jsval → jsstr).
Abbreviation parseGraph := (parseGraph yaml_load json_parse).
Abbreviation serializeGraph := (serializeGraph yaml_dump json_stringify).

(** YAML that can be front matter: whole lines, the first not indented, none a
    row of dashes. *)
Definition yaml_written (o : list (jsstr * jsval)) : Prop :=
  ∃ b, yaml_dump (JObj o) = b ++ [10%N] ∧ starts_off is_white (b ++ [10%N]) ∧ no_dashes (b ++ [10%N]) ∧
    yaml_load (10%N :: b ++ [10%N]) = Ok (JObj o).
(** JSON that can be a directive: no percent sign. *)
Definition json_written (d : list (jsstr * jsval)) : Prop :=
  Forall (λ c, negb (c =? percent_sign)%N = true) (json_stringify (JObj d)) ∧
  json_parse (init_text ++ 32%N :: json_stringify (JObj d) ++ js "}") = Ok (JObj [(js "init", JObj d)]).

(** Two objects, and a text that is not taken for a part in front of it. *)
Record writable (o d : list (jsstr * jsval)) (c : jsstr) : Prop := {
  wr_yaml : o ≠ [] → yaml_written o;
  wr_dir : d ≠ [] → json_written d;
  wr_content : c ≠ [] ∧ trim_white c = c ∧ starts_off is_white c;
  wr_start : (o = [] → d = [] → front_matter c = []) ∧ (d = [] → directive c = []);
}.

Definition yaml_part (o : list (jsstr * jsval)) : jsstr := match o with [] => [] | _ => dashes ++ 10%N :: yaml_dump (JObj o) ++ dashes ++ [10%N] end.
Definition dir_part (d : list (jsstr * jsval)) : jsstr := match d with [] => [] | _ => js "%%{init: " ++ json_stringify (JObj d) ++ js "}%%" ++ [10%N] end.
Lemma serialize_parts o d c : serializeGraph (Graph (JObj o) (JObj d) c) = Ok (yaml_part o ++ dir_part d ++ c).
Proof. by destruct o, d. Qed.

(** The captures of the two parts. *)
Lemma dir_part_reads o d c :
  writable o d c →
  head (optional directive (dir_part d ++ c)) =
    Some (match d with [] => None | _ => Some (32%N :: json_stringify (JObj d) ++ js "}") end, c).
Proof.
  intros Hw. destruct (wr_content _ _ _ Hw) as (_ & _ & Hc). destruct d as [|p d].
  { by rewrite optional_none by by apply Hw. }
  destruct (wr_dir _ _ _ Hw) as [Hj _]; [done|]. unfold dir_part. generalize dependent (json_stringify (JObj (p :: d))). intros j Hj.
  assert ((js "%%{init: " ++ j ++ js "}%%" ++ [10%N]) ++ c = js "%%{init:" ++ (32%N :: j ++ js "}") ++ [percent_sign; percent_sign] ++ 10%N :: c) as ->.
  { rewrite <-!app_assoc. simpl. by rewrite <-app_assoc. }
  erewrite optional_some; [|apply directive_reads; [|done]]; [done|]. constructor; [done|].
  apply Forall_app; split; [done|]. by repeat constructor.
Qed.

Lemma off_parts o d c : writable o d c → starts_off is_white (dir_part d ++ c).
Proof. intros Hw. destruct d; [apply Hw|done]. Qed.

Lemma yaml_part_reads o d c :
  writable o d c →
  head (optional front_matter (yaml_part o ++ dir_part d ++ c)) =
    Some (match o with [] => None | _ => Some (10%N :: yaml_dump (JObj o)) end, dir_part d ++ c).
Proof.
  intros Hw. destruct o as [|p o].
  { cbn [yaml_part app]. rewrite optional_none; [done|]. destruct d; [by apply Hw|done]. }
  destruct (wr_yaml _ _ _ Hw) as (b & Hb & Hoff & Hd & _); [done|]. unfold yaml_part. rewrite Hb.
  assert ((dashes ++ 10%N :: (b ++ [10%N]) ++ dashes ++ [10%N]) ++ dir_part d ++ c =
    dashes ++ 10%N :: b ++ 10%N :: dashes ++ 10%N :: dir_part d ++ c) as ->.
  { rewrite <-!app_assoc. cbn [app]. by rewrite <-!app_assoc. }
  erewrite optional_some; [|apply front_matter_reads; [done|done|by eapply off_parts]]. done.
Qed.

(** Reading a graph that was written gives the graph. *)
Lemma graph_roundtrip o d c :
  writable o d c → ∃ t, serializeGraph (Graph (JObj o) (JObj d) c) = Ok t ∧ parseGraph t = Ok (Graph (JObj o) (JObj d) c).
Proof.
  intros Hw. eexists. split; [apply serialize_parts|].
  assert (starts_off is_white (yaml_part o ++ dir_part d ++ c)) as Hoff.
  { destruct o; [by eapply off_parts|done]. }
  unfold Diagrams.parseGraph.
  assert (head (graph_parts (yaml_part o ++ dir_part d ++ c)) = Some
    ((match o with [] => None | _ => Some (10%N :: yaml_dump (JObj o)) end,
      match d with [] => None | _ => Some (32%N :: json_stringify (JObj d) ++ js "}") end), c)) as Hg.
  { unfold graph_parts. rewrite repeated_none by by apply blank_line_off. rewrite bind_cons, app_nil_r.
    eapply head_bind; [by apply yaml_part_reads|]. cbv beta iota. eapply head_bind; [by eapply dir_part_reads|]. done. }
  destruct (graph_parts _) as [|x l]; [done|]. injection Hg as ->.
  assert ((match match o with [] => None | _ => Some (10%N :: yaml_dump (JObj o)) end with
    Some ((_ :: _) as y) => yaml_load y | _ => Ok (JObj []) end) = Ok (JObj o)) as ->.
  { destruct o as [|p o]; [done|]. destruct (wr_yaml _ _ _ Hw) as (b & -> & _ & _ & Hl); done. }
  cbn [mbind result_mbind]. destruct (wr_content _ _ _ Hw) as (Hc & Ht & _).
  destruct d as [|p d]; cbn [mbind result_mbind].
  - destruct c; [done|]. by rewrite Ht.
  - destruct (wr_dir _ _ _ Hw) as [_ ->]; [done|]. destruct c; [done|]. cbn [mbind result_mbind].
    change (get_prop (JObj [(js "init", JObj (p :: d))]) (js "init")) with (Ok (JObj (p :: d))). cbn [mbind result_mbind]. by rewrite Ht.
Qed.
End roundtrip.

(** ** One diagram through its redrawings *)
Section diagrams.
Context (yaml_load : jsstr → result jsval) (yaml_dump : jsval → jsstr).
Context (json_parse : jsstr → result jsval) (json_stringify : jsval → jsstr).
Abbreviation parseGraph := (parseGraph yaml_load json_parse).
Abbreviation serializeGraph := (serializeGraph yaml_dump json_stringify).
Abbreviation init_diagram := (init_diagram yaml_load yaml_dump json_parse json_stringify).
Abbreviation update_diagram := (update_diagram yaml_load yaml_dump json_parse json_stringify).
Abbreviation writable := (writable yaml_load yaml_dump json_parse json_stringify).

(** The objects that can be written and read back, with the themes of the page. *)
Record formats (Plain : list (jsstr * jsval) → Prop) (Theme : jsstr → Prop) : Prop := {
  fm_yaml o : Plain o → o ≠ [] → yaml_written yaml_load yaml_dump o;
  fm_json d : Plain d → d ≠ [] → json_written json_parse json_stringify d;
  fm_theme o t : Plain o → Theme t → Plain (jm_set theme_key (JStr t) o);
  fm_flag o : Plain o → Plain (jm_set user_flag (JBool true) o);
  fm_name t : Theme t → t ≠ [];
}.
Context (Plain : list (jsstr * jsval) → Prop) (Theme : jsstr → Prop) (Hf : formats Plain Theme).

Definition truthy_at (k : jsstr) (o : list (jsstr * jsval)) : bool := truthy (default JUndef (jm_get k o)).
Definition flagged (o : list (jsstr * jsval)) : list (jsstr * jsval) := if truthy_at theme_key o then jm_set user_flag (JBool true) o else o.
(** The author has chosen a theme. *)
Definition own (o d : list (jsstr * jsval)) : bool := truthy_at user_flag (flagged o) || truthy_at user_flag (flagged d).

(** A diagram that can be read: its two objects and its content. *)
Record readable_source (e : raw_diagram) (o d : list (jsstr * jsval)) (c : jsstr) : Prop := {
  re_parse : parseGraph (rd_text e) = Ok (Graph (JObj o) (JObj d) c);
  re_plain : Plain o ∧ Plain d;
  re_content : c ≠ [] ∧ trim_white c = c ∧ starts_off is_white c;
  re_start : d = [] → directive c = [];
}.

(** The container [k] holds the graph of [o], [d] and [c]; a theme in the
    directive is the author's. *)
Record holds_graph (k : container) (o d : list (jsstr * jsval)) (c : jsstr) : Prop := {
  kp_text : serializeGraph (Graph (JObj o) (JObj d) c) = Ok (ct_code k);
  kp_plain : Plain o ∧ Plain d;
  kp_writable : writable o d c;
  kp_dir : truthy_at theme_key d = true → truthy_at user_flag d = true;
  kp_chosen : truthy_at user_flag o || truthy_at user_flag d = false → truthy_at theme_key o = true;
}.

Lemma has_set k k' x o : truthy_at k (jm_set k' x o) = if decide (k = k') then truthy x else truthy_at k o.
Proof. unfold truthy_at. rewrite jm_get_set. by destruct (decide (k = k')). Qed.
Lemma has_nonempty k o : truthy_at k o = true → o ≠ [].
Proof. by intros H ->. Qed.
Lemma flag_theme_run o : flag_theme (JObj o) = Ok (JObj (flagged o)).
Proof. unfold flag_theme, flagged, truthy_at. cbn [get_prop mbind result_mbind]. by destruct (truthy _). Qed.
Lemma user_chose_run o d c : user_chose (Graph (JObj o) (JObj d) c) = Ok (truthy_at user_flag o || truthy_at user_flag d).
Proof. unfold user_chose, truthy_at. cbn [g_yaml g_dir get_prop mbind result_mbind]. by destruct (truthy _). Qed.
Lemma put_theme_run t o d c : put_theme t (Graph (JObj o) (JObj d) c) = Ok (Graph (JObj (jm_set theme_key (JStr t) o)) (JObj d) c).
Proof. done. Qed.
Lemma flagged_plain o : Plain o → Plain (flagged o).
Proof. intros Ho. unfold flagged. destruct (truthy_at theme_key o); [by apply (fm_flag _ _ Hf)|done]. Qed.
Lemma flagged_own o : truthy_at theme_key (flagged o) = true → truthy_at user_flag (flagged o) = true.
Proof. unfold flagged. destruct (truthy_at theme_key o) eqn:Ho; [|congruence]. intros _. by rewrite has_set, decide_True. Qed.

Lemma plain_writable o d c :
  Plain o → Plain d → c ≠ [] ∧ trim_white c = c ∧ starts_off is_white c → (o ≠ [] ∨ d ≠ []) → (d = [] → directive c = []) → writable o d c.
Proof. intros Ho Hd Hc Hne Hs. split; [intros; by apply (fm_yaml _ _ Hf)|intros; by apply (fm_json _ _ Hf)|done|]. split; [|done]. by intros -> ->; destruct Hne. Qed.

Lemma keeps_parse k o d c : holds_graph k o d c → parseGraph (ct_code k) = Ok (Graph (JObj o) (JObj d) c).
Proof.
  intros Hk. destruct (graph_roundtrip _ _ _ _ o d c (kp_writable _ _ _ _ Hk)) as (t & Ht & Hp). rewrite (kp_text _ _ _ _ Hk) in Ht.
  by injection Ht as <-.
Qed.

(** Loading: the theme of the page unless the author chose one. *)
Definition loaded_yaml (t : jsstr) (o d : list (jsstr * jsval)) : list (jsstr * jsval) :=
  if own o d then flagged o else jm_set theme_key (JStr t) (flagged o).

Lemma init_keeps e o d c t v :
  readable_source e o d c → Theme t →
  ∃ k, init_diagram t v e = Ok k ∧ holds_graph k (loaded_yaml t o d) (flagged d) c ∧ ct_shows k = inl (ct_code k) ∧
    ct_processed k = false ∧ (render_class ∈ ct_inner k ↔ v = true).
Proof.
  intros He Ht. destruct (re_plain _ _ _ _ He) as [Ho Hd].
  set (o' := loaded_yaml t o d). set (d' := flagged d).
  assert (Plain o' ∧ Plain d') as [Ho' Hd'].
  { split; [|by apply flagged_plain]. unfold o', loaded_yaml. destruct (own o d); [by apply flagged_plain|].
    apply (fm_theme _ _ Hf); [by apply flagged_plain|done]. }
  assert (truthy_at user_flag o' || truthy_at user_flag d' = false → truthy_at theme_key o' = true) as Hch.
  { unfold o', d', loaded_yaml. destruct (own o d) eqn:Hown; [unfold own in Hown; congruence|]. intros _.
    rewrite has_set, decide_True by done. cbn [truthy]. rewrite bool_decide_eq_false_2; [done|]. by apply (fm_name _ _ Hf). }
  assert (writable o' d' c) as Hw.
  { apply plain_writable; [done|done|apply He| |].
    - destruct (truthy_at user_flag o' || truthy_at user_flag d') eqn:Hor; [|left; by apply (has_nonempty theme_key), Hch].
      apply orb_true_iff in Hor as [Hor|Hor]; [left|right]; by eapply has_nonempty.
    - intros Hnil. apply (re_start _ _ _ _ He). unfold d', flagged in Hnil. destruct (truthy_at theme_key d); [|done].
      exfalso. revert Hnil. apply (has_nonempty user_flag). by rewrite has_set, decide_True. }
  destruct (graph_roundtrip _ _ _ _ o' d' c Hw) as (text & Htext & _).
  unfold Diagrams.init_diagram. rewrite (re_parse _ _ _ _ He). cbn [mbind result_mbind g_yaml g_dir g_content].
  rewrite !flag_theme_run. cbn [mbind result_mbind]. rewrite user_chose_run. cbn [mbind result_mbind].
  assert ((if truthy_at user_flag (flagged o) || truthy_at user_flag (flagged d) then Ok (Graph (JObj (flagged o)) (JObj (flagged d)) c)
    else put_theme t (Graph (JObj (flagged o)) (JObj (flagged d)) c)) = Ok (Graph (JObj o') (JObj d') c)) as ->.
  { unfold o', d', loaded_yaml, own. rewrite put_theme_run.
    by destruct (truthy_at user_flag (flagged o) || truthy_at user_flag (flagged d)). }
  cbn [mbind result_mbind]. rewrite Htext. cbn [mbind result_mbind]. eexists. split; [done|]. split_and!; [|done|done|].
  - split; [done|done|done|apply flagged_own|done].
  - cbn [ct_inner]. destruct v.
    + split; [done|]. intros _. apply elem_of_app. right. by left.
    + split; [|done]. case_decide; intros Hin; exfalso; rewrite ?elem_of_cons in Hin; set_solver.
Qed.

(** Drawing again: a hidden diagram keeps its source, one that is shown keeps
    a theme of the author or gets the one of the page; shown for the first time
    it gets the one of the page in any case. *)
Definition redrawn (t : jsstr) (rendered v : bool) (o d : list (jsstr * jsval)) : list (jsstr * jsval) :=
  if rendered && (truthy_at user_flag o || truthy_at user_flag d || is_theme t (default JUndef (jm_get theme_key o))) then o
  else if v then jm_set theme_key (JStr t) o else o.

Lemma is_theme_has t o : Theme t → is_theme t (default JUndef (jm_get theme_key o)) = true → truthy_at theme_key o = true.
Proof.
  intros Ht. unfold truthy_at, is_theme. destruct (default _ _); try done. rewrite bool_decide_eq_true. intros ->. simpl.
  rewrite bool_decide_eq_false_2; [done|]. by apply (fm_name _ _ Hf).
Qed.
Lemma set_theme_same t o : is_theme t (default JUndef (jm_get theme_key o)) = true → jm_get theme_key o = Some (JStr t).
Proof. destruct (jm_get theme_key o) as [[]|]; simpl; try done. by rewrite bool_decide_eq_true; intros ->. Qed.

(** A diagram with the class is drawn from its source. *)
Definition rendered (k : container) : Prop := render_class ∈ ct_inner k.
#[export] Instance rendered_dec k : Decision (rendered k) := decide_rel elem_of _ _.
Definition drawn (k : container) : Prop := rendered k → ct_processed k = true ∧ ct_shows k = inr (ct_code k).
Definition to_draw (k : container) : Prop := rendered k ∧ ct_processed k = false ∧ ct_shows k = inl (ct_code k).

Lemma run_drawn k : drawn k ∨ to_draw k → drawn (run_diagram k) ∧ ct_code (run_diagram k) = ct_code k ∧ ct_inner (run_diagram k) = ct_inner k.
Proof.
  unfold run_diagram, drawn, to_draw, rendered. intros Hk. destruct (decide _) as [Hr|Hr]; [|done].
  destruct Hk as [Hk|(_ & Hp & Hs)]; [destruct (Hk Hr) as [Hp Hs]|]; rewrite Hp; [done|]. rewrite Hs. done.
Qed.

Lemma keeps_code k k' o d c : ct_code k' = ct_code k → holds_graph k o d c → holds_graph k' o d c.
Proof. intros Hc []. split; [congruence|done..]. Qed.

Lemma keeps_set k k' o d c t :
  holds_graph k o d c → Theme t → serializeGraph (Graph (JObj (jm_set theme_key (JStr t) o)) (JObj d) c) = Ok (ct_code k') →
  holds_graph k' (jm_set theme_key (JStr t) o) d c.
Proof.
  intros Hk Ht Hs. destruct (kp_plain _ _ _ _ Hk) as [Ho Hd]. assert (truthy_at theme_key (jm_set theme_key (JStr t) o) = true) as Hh.
  { rewrite has_set, decide_True by done. simpl. rewrite bool_decide_eq_false_2; [done|]. by apply (fm_name _ _ Hf). }
  assert (Plain (jm_set theme_key (JStr t) o)) by by apply (fm_theme _ _ Hf).
  split; [done|done| |apply Hk|done]. apply plain_writable; [done|done|apply Hk|left; by eapply has_nonempty|].
  apply (wr_start _ _ _ _ _ _ _ (kp_writable _ _ _ _ Hk)).
Qed.

(** One redrawing: the flag tells that there is something to draw. *)
Lemma update_keeps k o d c t v :
  holds_graph k o d c → Theme t →
  ∃ k' b, update_diagram t v k = Ok (k', b) ∧ holds_graph k' (redrawn t (bool_decide (rendered k)) v o d) d c ∧
    (v = true → rendered k') ∧ (rendered k → truthy_at user_flag o || truthy_at user_flag d = true → k' = k) ∧
    (rendered k' → truthy_at user_flag o || truthy_at user_flag d = true ∨
      jm_get theme_key (redrawn t (bool_decide (rendered k)) v o d) = Some (JStr t)) ∧
    if b : bool then to_draw k' else drawn k → drawn k'.
Proof.
  intros Hk Ht. unfold Diagrams.update_diagram. rewrite (keeps_parse _ _ _ _ Hk). cbn [mbind result_mbind].
  rewrite user_chose_run. cbn [g_yaml g_dir get_prop mbind result_mbind].
  assert (is_theme t (default JUndef (jm_get theme_key d)) = true → truthy_at user_flag d = true) as Hdir.
  { intros H. by apply (kp_dir _ _ _ _ Hk), (is_theme_has t). }
  assert (∀ k', ct_code k' = ct_code k → holds_graph k' o d c) as Hcode by (intros; by eapply keeps_code).
  set (done := if decide (render_class ∈ ct_inner k) then _ else _).
  assert (done = Ok (bool_decide (rendered k) && (truthy_at user_flag o || truthy_at user_flag d || is_theme t (default JUndef (jm_get theme_key o))))) as ->.
  { unfold done, rendered. destruct (decide (render_class ∈ ct_inner k)) as [Hr|Hr]; [|by rewrite bool_decide_eq_false_2].
    rewrite bool_decide_eq_true_2 by done. cbn [mbind result_mbind]. destruct (truthy_at user_flag o || truthy_at user_flag d) eqn:Hor; [done|].
    cbn [orb andb]. destruct (is_theme t (default JUndef (jm_get theme_key o))); [done|]. apply orb_false_iff in Hor as [_ Hor].
    destruct (is_theme t (default JUndef (jm_get theme_key d))); [by rewrite Hdir in Hor|done]. }
  cbn [mbind result_mbind]. unfold redrawn. destruct (bool_decide (rendered k) && _) eqn:Hb.
  { apply andb_true_iff in Hb as [Hr Hor]. apply bool_decide_eq_true in Hr. exists k, false. split_and!; [done|done|done|done| |done].
    intros _. apply orb_true_iff in Hor as [Hor|Hor]; [by left|right; by apply set_theme_same]. }
  assert (rendered k → truthy_at user_flag o || truthy_at user_flag d = true → False) as Hno.
  { intros Hr Hor. by rewrite bool_decide_eq_true_2, Hor in Hb. }
  destruct v.
  - rewrite put_theme_run. cbn [mbind result_mbind]. rewrite serialize_parts. cbn [mbind result_mbind].
    do 2 eexists. split; [done|]. split; [eapply keeps_set; [done|done|apply serialize_parts]|].
    assert (render_class ∈ add_class render_class (ct_inner k)) by (unfold add_class; case_decide; [done|apply elem_of_app; right; by left]).
    split_and!; [done| |intros _; right; apply jm_get_set_eq|done]. intros Hr Hor. by destruct (Hno Hr Hor).
  - assert (render_class ∉ remove_class render_class (ct_inner k)) as Hout by (by intros [? _]%list_elem_of_filter).
    do 2 eexists. split; [done|]. split; [by apply Hcode|]. split_and!; [done| |by intros ?%Hout|by intros _ ?%Hout].
    intros Hr Hor. by destruct (Hno Hr Hor).
Qed.

(** ** All diagrams of the page *)
Abbreviation init_func := (init_func yaml_load yaml_dump json_parse json_stringify).
Abbreviation update_func := (update_func yaml_load yaml_dump json_parse json_stringify).

(** What a diagram is made of. *)
Record contents := Contents { co_yaml : list (jsstr * jsval); co_dir : list (jsstr * jsval); co_content : jsstr }.
Definition own_theme (g : contents) : bool := own (co_yaml g) (co_dir g).

(** A diagram under the theme [t] of the page; [steady]: it was visible all the
    time. *)
Definition tracks (t : jsstr) (steady : bool) (g : contents) (x : bool * container) : Prop :=
  ∃ o, holds_graph x.2 o (flagged (co_dir g)) (co_content g) ∧ drawn x.2 ∧ (x.1 = true → rendered x.2) ∧
    truthy_at user_flag o || truthy_at user_flag (flagged (co_dir g)) = own_theme g ∧
    if own_theme g then steady = true → x.1 = true ∧ o = flagged (co_yaml g)
    else rendered x.2 → jm_get theme_key o = Some (JStr t).

Lemma tracks_run t steady g v k : 
  (∃ o, holds_graph k o (flagged (co_dir g)) (co_content g) ∧ (drawn k ∨ to_draw k) ∧ (v = true → rendered k) ∧
    truthy_at user_flag o || truthy_at user_flag (flagged (co_dir g)) = own_theme g ∧
    if own_theme g then steady = true → v = true ∧ o = flagged (co_yaml g) else rendered k → jm_get theme_key o = Some (JStr t)) →
  tracks t steady g (v, run_diagram k).
Proof.
  intros (o & Hk & Hd & Hv & Hown & Ho). destruct (run_drawn k Hd) as (Hd' & Hc & Hi).
  exists o. cbn [fst snd]. unfold rendered in *. rewrite Hi. split_and!; [by eapply keeps_code|done|done|done|done].
Qed.

Lemma own_set_theme o d t : truthy_at user_flag (jm_set theme_key (JStr t) o) || truthy_at user_flag d = truthy_at user_flag o || truthy_at user_flag d.
Proof. by rewrite has_set, decide_False. Qed.

Lemma init_tracks t v e g :
  readable_source e (co_yaml g) (co_dir g) (co_content g) → Theme t →
  ∃ k, init_diagram t v e = Ok k ∧ tracks t v g (v, run_diagram k).
Proof.
  intros He Ht. destruct (init_keeps e _ _ _ t v He Ht) as (k & Hr & Hk & Hs & Hp & Hv). exists k. split; [done|].
  apply tracks_run. exists (loaded_yaml t (co_yaml g) (co_dir g)). split; [done|]. split.
  { destruct (decide (rendered k)); [by right|by left]. }
  split; [by apply Hv|]. unfold own_theme, loaded_yaml. destruct (own (co_yaml g) (co_dir g)) eqn:Hown.
  - by split_and!.
  - rewrite own_set_theme. split; [done|]. intros _. apply jm_get_set_eq.
Qed.

Lemma update_tracks t t' steady v v' g k :
  tracks t steady g (v, k) → Theme t' →
  ∃ k' b, update_diagram t' v' k = Ok (k', b) ∧ tracks t' (steady && v') g (v', run_diagram k') ∧
    (b = false → tracks t' (steady && v') g (v', k')).
Proof.
  intros (o & Hk & Hd & Hv & Hown & Ho) Ht. cbn [fst snd] in *.
  destruct (update_keeps k o _ _ t' v' Hk Ht) as (k' & b & Hr & Hk' & Hv' & Hsame & Htheme & Hb).
  set (o' := redrawn t' (bool_decide (rendered k)) v' o (flagged (co_dir g))) in *.
  assert (truthy_at user_flag o' || truthy_at user_flag (flagged (co_dir g)) = own_theme g) as Hown'.
  { unfold o', redrawn. destruct (_ && _); [done|]. destruct v'; [by rewrite own_set_theme|done]. }
  assert (if own_theme g then steady && v' = true → v' = true ∧ o' = flagged (co_yaml g)
    else rendered k' → jm_get theme_key o' = Some (JStr t')) as Ho'.
  { destruct (own_theme g) eqn:Hg; [|intros Hr'; by destruct (Htheme Hr') as [|]; [congruence|]].
    intros [Hs ->]%andb_true_iff. split; [done|]. destruct (Ho Hs) as [-> ->]. unfold o', redrawn.
    rewrite bool_decide_eq_true_2 by by apply Hv. by rewrite Hown. }
  exists k', b. split; [done|]. split.
  - apply tracks_run. exists o'. split_and!; [done| |done|done|done]. destruct b; [by right|left; by apply Hb].
  - intros ->. exists o'. cbn [fst snd]. split_and!; [done|by apply Hb|done|done|done].
Qed.

Lemma tracks_hide t s s' g v v' k :
  tracks t s g (v, k) → (s' = true → s = true ∧ v' = true) → (v' = true → v = true) → tracks t s' g (v', k).
Proof.
  intros (o & Hk & Hd & Hv & Hown & Ho) Hs Hv'. cbn [fst snd] in *. exists o. cbn [fst snd]. split_and!; [done|done|auto|done|].
  destruct (own_theme g); [|done]. intros H. destruct (Hs H) as [Hs' ?]. by destruct (Ho Hs').
Qed.

Definition run_page (l : list (bool * container)) : list (bool * container) := prod_map id run_diagram <$> l.

Lemma init_func_tracks t gs l :
  Theme t → Forall2 (λ g x, readable_source x.2 (co_yaml g) (co_dir g) (co_content g)) gs l →
  ∃ ks b, init_func t l = (ks, [], Ok b) ∧ Forall3 (tracks t) l.*1 gs (run_page ks) ∧ (b = false → ks = []) ∧ ks.*1 = l.*1.
Proof.
  intros Ht. induction 1 as [|g [v e] gs l He Hl IH].
  { exists [], false. split_and!; [done|constructor|done|done]. }
  destruct (init_tracks t v e g He Ht) as (k & Hk & Htr). destruct IH as (ks & b & Hi & Hks & _ & Hkeys). cbn [Diagrams.init_func]. rewrite Hk, Hi.
  exists ((v, k) :: ks), true. split_and!; [done|by constructor|done|]. rewrite !fmap_cons. by f_equal.
Qed.

Lemma update_func_tracks t' ss gs l :
  Theme t' → Forall3 (λ s g x, ∃ t v, tracks t s g (v, x.2)) ss gs l →
  ∃ ks b, update_func t' l = (ks, Ok b) ∧ Forall3 (tracks t') (zip_with andb ss l.*1) gs (run_page ks) ∧
    (b = false → Forall3 (tracks t') (zip_with andb ss l.*1) gs ks).
Proof.
  intros Ht. induction 1 as [|s g [v' k] ss gs l (t & v & Hv) Hl IH].
  { exists [], false. split_and!; [done|constructor|constructor]. }
  destruct (update_tracks t t' s v v' g k Hv Ht) as (k' & b & Hr & Htr & Hb). destruct IH as (ks & b' & Hu & Hks & Hb').
  cbn [Diagrams.update_func]. rewrite Hr, Hu. exists ((v', k') :: ks), (b || b'). split_and!; [done|by constructor|].
  intros [-> ->]%orb_false_iff. constructor; auto.
Qed.
End diagrams.

(** ** Examples *)
Definition lf : N := 10.
Definition lines (l : list string) : jsstr := join_on lf (js <$> l).
Example parts_all :
  head (graph_parts (lines [""; "---"; "title: x"; "---"; ""; "%%{init: {}}%%"; "graph LR"])%string) =
    Some ((Some (lf :: js "title: x" ++ [lf]), Some (js " {}}")), js "graph LR").
Proof. vm_compute. reflexivity. Qed.
Example parts_none : head (graph_parts (lines ["graph LR"; "---"; "a"; "---"])%string) = Some ((None, None), lines ["graph LR"; "---"; "a"; "---"]).
Proof. vm_compute. reflexivity. Qed.
