(* ===== verification/PageThemes.v ===== *)
(** * The theme of diagrams and API descriptions (theme.js, functions
    [initMermaid], [initOpenapi], [updateTheme], [getColorValue])

    The page draws its diagrams and shows its API descriptions when it is
    loaded and again when the theme, the colour scheme or the medium changes,
    a tab is chosen or a box is opened. Both parts remember in the same flag of
    the window that they have been set up. *)

From S2P Require Import Prelude JSColl JSValue Sorter WordPattern PageServices Diagrams.

Inductive print_listener := Mermaid_print | Openapi_print.

(** What is shown of an API: a frame, and once it is loaded the options given
    to Swagger. *)
Record api_options := ApiOptions { ao_docExpansion : jsstr; ao_filter : bool; ao_theme : jsstr; ao_spec : option jsval; ao_url : option jsstr }.
Record api_frame := ApiFrame {
  af_mode : jsstr;                 (* the theme in the class of [<html>] *)
  af_code_theme : jsstr;
  af_format : jsstr;
  af_css : jsstr;
  af_variant : jsstr;
  af_options : option api_options
}.
(** A [.sc-openapi-container] with the frames in it. *)
Record api := Api { api_spec : jsstr; api_url : jsstr; api_frames : list api_frame }.

Record themed_page := ThemedPage {
  raws : list (bool * raw_diagram);        (* with what is visible *)
  containers : list (bool * container);
  apis : list api;
  is_initialized : bool;                   (* of the window: [this] in both functions *)
  print_listeners : list print_listener;
  print_preview : bool;                    (* [isPrintPreview] *)
  last_variant : option jsstr;
  css_variant : jsstr;                     (* the style sheets in force *)
  css_dark : bool;
  mermaid_config : option (list (jsstr * jsval));   (* given to [mermaid.initialize] *)
  words_marked : bool;
  mark_due : bool                          (* a debounced [mark] *)
}.
Definition set_diagrams rs ks (p : themed_page) := ThemedPage rs ks (apis p) (is_initialized p) (print_listeners p) (print_preview p) (last_variant p) (css_variant p) (css_dark p) (mermaid_config p) (words_marked p) (mark_due p).
Definition set_apis a (p : themed_page) := ThemedPage (raws p) (containers p) a (is_initialized p) (print_listeners p) (print_preview p) (last_variant p) (css_variant p) (css_dark p) (mermaid_config p) (words_marked p) (mark_due p).
Definition set_up l (p : themed_page) := ThemedPage (raws p) (containers p) (apis p) true (print_listeners p ++ [l]) (print_preview p) (last_variant p) (css_variant p) (css_dark p) (mermaid_config p) (words_marked p) (mark_due p).
Definition set_preview b (p : themed_page) := ThemedPage (raws p) (containers p) (apis p) (is_initialized p) (print_listeners p) b (last_variant p) (css_variant p) (css_dark p) (mermaid_config p) (words_marked p) (mark_due p).
Definition set_last v (p : themed_page) := ThemedPage (raws p) (containers p) (apis p) (is_initialized p) (print_listeners p) (print_preview p) v (css_variant p) (css_dark p) (mermaid_config p) (words_marked p) (mark_due p).
Definition set_css v d (p : themed_page) := ThemedPage (raws p) (containers p) (apis p) (is_initialized p) (print_listeners p) (print_preview p) (last_variant p) v d (mermaid_config p) (words_marked p) (mark_due p).
Definition set_config c (p : themed_page) := ThemedPage (raws p) (containers p) (apis p) (is_initialized p) (print_listeners p) (print_preview p) (last_variant p) (css_variant p) (css_dark p) c (words_marked p) (mark_due p).
Definition set_marks m d (p : themed_page) := ThemedPage (raws p) (containers p) (apis p) (is_initialized p) (print_listeners p) (print_preview p) (last_variant p) (css_variant p) (css_dark p) (mermaid_config p) m d.

Section themes.
Context (yaml_load : jsstr → result jsval) (yaml_dump : jsval → jsstr).
Context (json_parse : jsstr → result jsval) (json_stringify : jsval → jsstr).

(** The settings of the site. *)
Record settings := Settings {
  themeUseMermaid : option (list (jsstr * jsval));   (* its configuration *)
  mermaid_loaded : bool;                             (* [typeof mermaid] and [mermaidAPI] *)
  themeUseOpenapi : bool;
  assetsBuster : jsstr;
  relBasePath : jsstr;
  min_suffix : jsstr;
  isPrint : bool
}.
Context (conf : settings) (css : jsstr → bool → jsstr → jsstr).

(** The computed value of the property [name], by variant and colour scheme. *)
Definition getColorValue (c : jsstr) (p : themed_page) : jsstr :=
  normalizeColor (css (css_variant p) (css_dark p) (js "--INTERNAL-" ++ c)).

(** [useMermaid]: the theme of the configuration is dropped. *)
Definition useMermaid (config : list (jsstr * jsval)) : list (jsstr * jsval) := jm_delete theme_key config.

(** [useOpenapi]: the place of the style sheet of a project. *)
Definition useOpenapi (sheet : jsstr) (cssInProject : bool) : jsstr :=
  if negb (bool_decide (sheet = [])) && cssInProject then relBasePath conf ++ sheet else sheet.

(** ** Diagrams *)
Definition initialize_mermaid (config : list (jsstr * jsval)) (theme : jsstr) : list (jsstr * jsval) :=
  spread (spread [(js "securityLevel", JStr (js "antiscript")); (js "startOnLoad", JBool false)] config) [(theme_key, JStr theme)].

(** [debounce(mark, 200)()] *)
Definition mark_later : M themed_page unit := modify (λ p, set_marks (words_marked p) true p).
(** The body once Mermaid is there. A diagram that was drawn asks for the words
    to be marked again, too. *)
Definition draw_diagrams (config : list (jsstr * jsval)) (update : bool) (theme : jsstr) : M themed_page unit :=
  (if update then modify (λ p, set_marks false (mark_due p) p) else mret tt);;
  drawn ← (λ p, if update then
                  let '(ks, r) := update_func yaml_load yaml_dump json_parse json_stringify theme (containers p) in (set_diagrams (raws p) ks p, r)
                else
                  let '(ks, rest, r) := init_func yaml_load yaml_dump json_parse json_stringify theme (raws p) in
                  (set_diagrams rest (containers p ++ ks) p, r));
  (if (drawn : bool) then
     modify (λ p, set_marks (words_marked p) true
       (set_diagrams (raws p) (run_page (containers p)) (set_config (Some (initialize_mermaid (useMermaid config) theme)) p)))
   else mret tt);;
  (if update then mark_later else mret tt).

Definition initMermaid (update : bool) (attrs : option jsstr) : M themed_page unit :=
  match themeUseMermaid conf with
  | None => mret tt
  | Some config =>
      on ← gets is_initialized;
      if update && negb on then mret tt
      else if negb (mermaid_loaded conf) then mret tt
      else
        (if (on : bool) then mret tt else modify (set_up Mermaid_print));;
        theme ← gets (λ p, default (getColorValue (js "MERMAID-theme") p) attrs);
        draw_diagrams config update theme
  end.

(** ** API descriptions *)

(** The element with the identifier of the frame: the first on the page. *)
Fixpoint remove_frame (l : list api) : list api :=
  match l with
  | [] => []
  | a :: l => match api_frames a with
              | [] => a :: remove_frame l
              | _ :: fs => Api (api_spec a) (api_url a) fs :: l
              end
  end.
Definition on_print (p : themed_page) : bool := isPrint conf || print_preview p.
Definition new_frame (p : themed_page) : api_frame :=
  let print := if on_print p then js "PRINT-" else [] in
  let format := if on_print p then js "print" else js "html" in
  ApiFrame (getColorValue (print ++ js "OPENAPI-theme") p) (getColorValue (print ++ js "OPENAPI-CODE-theme") p) format
    (relBasePath conf ++ js "/css/format-" ++ format ++ min_suffix conf ++ js ".css" ++ assetsBuster conf) (css_variant p) None.
(** The element for an error is never put on the page, as its wrapper is not
    found, so there is none to remove. *)
Definition renderOpenAPI (i : nat) (p : themed_page) : themed_page :=
  let f := new_frame p in
  set_apis (alter (λ a, Api (api_spec a) (api_url a) (api_frames a ++ [f])) i (remove_frame (apis p))) p.

Definition render_all (p : themed_page) : themed_page := foldl (λ p i, renderOpenAPI i p) p (seq 0 (length (apis p))).
Definition initOpenapi (update : bool) : M themed_page unit :=
  if negb (themeUseOpenapi conf) then mret tt
  else
    on ← gets is_initialized;
    if update && negb on then mret tt
    else
      (if (on : bool) then mret tt else modify (set_up Openapi_print));;
      modify render_all.

(** [onload] of the frame of API [i]; [swagger]: whether [SwaggerUIBundle]
    accepts its options. A failure empties the container and shows nothing. *)
Definition api_source (a : api) : option jsval * option jsstr :=
  match api_spec a with
  | [] => (None, Some (api_url a))
  | spec => (match json_parse spec with Ok v => Some v | Throw _ => match yaml_load spec with Ok v => Some v | Throw _ => None end end, None)
  end.
Definition frame_options (p : themed_page) (a : api) (f : api_frame) : api_options :=
  let '(spec, url) := api_source a in
  ApiOptions (if on_print p then js "full" else js "list") (negb (on_print p)) (af_code_theme f) spec url.
Definition load_frame (swagger : bool) (p : themed_page) (a : api) : api :=
  match api_frames a with
  | [] => a
  | f :: fs =>
      Api (api_spec a) (api_url a)
        (if swagger then ApiFrame (af_mode f) (af_code_theme f) (af_format f) (af_css f) (af_variant f) (Some (frame_options p a f)) :: fs else [])
  end.

(** ** Events *)
Inductive theme_event :=
  | Variant_loaded (variant : jsstr)
  | Dark_mode (dark : bool)
  | Before_print
  | After_print
  | Toggled (visible : nat → bool)         (* a box opened, a tab chosen *)
  | Frame_loaded (i : nat) (swagger : bool)
  | Mark_timer.

Definition set_visible (visible : nat → bool) (p : themed_page) : themed_page :=
  set_diagrams (raws p) (imap (λ i x, (visible i, x.2)) (containers p)) p.
Definition redraw : M themed_page unit := initMermaid true None;; initOpenapi true.
Definition updateTheme (variant : jsstr) : M themed_page unit :=
  last ← gets last_variant;
  if bool_decide (last = Some variant) then mret tt else modify (set_last (Some variant));; redraw.
Definition print_mermaid (preview : bool) : M themed_page unit :=
  modify (set_preview preview);;
  theme ← gets (getColorValue (js "PRINT-MERMAID-theme"));
  initMermaid true (if preview then Some theme else None).
Definition print_openapi (preview : bool) : M themed_page unit := modify (set_preview preview);; initOpenapi true.
Definition print_handler (preview : bool) (l : print_listener) : M themed_page unit :=
  match l with Mermaid_print => print_mermaid preview | Openapi_print => print_openapi preview end.

Definition theme_handler (ev : theme_event) : M themed_page unit :=
  match ev with
  | Variant_loaded v => modify (λ p, set_css v (css_dark p) p);; updateTheme v
  | Dark_mode d => modify (λ p, set_css (css_variant p) d p);; redraw
  | Before_print => l ← gets print_listeners; mfor (print_handler true) l
  | After_print => l ← gets print_listeners; mfor (print_handler false) l
  | Toggled visible => modify (set_visible visible);; initMermaid true None
  | Frame_loaded i swagger => modify (λ p, set_apis (alter (load_frame swagger p) i (apis p)) p)
  | Mark_timer => modify (λ p, if mark_due p then set_marks true false p else p)
  end.

(** What [ready] does for both; then [restoreTabSelections] shows and hides. *)
Definition ready_themes (restored : nat → bool) : M themed_page unit :=
  initMermaid false None;; initOpenapi false;; modify (set_visible restored).
Definition theme_session (restored : nat → bool) (evs : list theme_event) : M themed_page unit :=
  ready_themes restored;; mfor theme_handler evs.
End themes.

(** ** Diagrams follow the theme *)
Section follow.
Context (yaml_load : jsstr → result jsval) (yaml_dump : jsval → jsstr).
Context (json_parse : jsstr → result jsval) (json_stringify : jsval → jsstr).
Context (conf : settings) (css : jsstr → bool → jsstr → jsstr).
Context (config : list (jsstr * jsval)) (Hon : themeUseMermaid conf = Some config) (Hloaded : mermaid_loaded conf = true).
Context (Plain : list (jsstr * jsval) → Prop) (Theme : jsstr → Prop).
Context (Hf : formats yaml_load yaml_dump json_parse json_stringify Plain Theme).

(** The theme of the diagrams on the screen and on paper. *)
Definition screen_theme (p : themed_page) : jsstr := getColorValue css (js "MERMAID-theme") p.
Definition paper_theme (p : themed_page) : jsstr := getColorValue css (js "PRINT-MERMAID-theme") p.
Context (Hcss : ∀ p, Theme (screen_theme p) ∧ Theme (paper_theme p)).

Abbreviation tracks := (tracks yaml_load yaml_dump json_parse json_stringify Plain).
Abbreviation initMermaid := (initMermaid yaml_load yaml_dump json_parse json_stringify conf css).
Abbreviation theme_handler := (theme_handler yaml_load yaml_dump json_parse json_stringify conf css).
Context (w : list bool) (gs : list contents).

(** Diagrams that are to be visible all the time, [w], are visible. *)
Definition respects (l : list bool) : Prop := zip_with andb w l = w.

(** The page after loading: every diagram is under the theme [t], that of the
    screen unless the page is being printed. *)
Record themed (t : jsstr) (p : themed_page) : Prop := {
  th_raws : raws p = [];
  th_on : is_initialized p = true;
  th_listens : ∃ l, print_listeners p = Mermaid_print :: l ∧ Forall (.= Openapi_print) l;
  th_tracks : Forall3 (tracks t) w gs (containers p);
  th_theme : Theme t;
  th_screen : print_preview p = false → t = screen_theme p;
  th_last v : last_variant p = Some v → css_variant p = v;
  th_steady : respects (containers p).*1;
}.

(** The same with diagrams that were just shown or hidden, before they are
    drawn again. *)
Record almost_themed (p : themed_page) : Prop := {
  at_raws : raws p = [];
  at_on : is_initialized p = true;
  at_listens : ∃ l, print_listeners p = Mermaid_print :: l ∧ Forall (.= Openapi_print) l;
  at_tracks : Forall3 (λ s g x, ∃ t v, tracks t s g (v, x.2)) w gs (containers p);
  at_last v : last_variant p = Some v → css_variant p = v;
  at_steady : respects (containers p).*1;
}.
Lemma themed_almost t p : themed t p → almost_themed p.
Proof.
  intros [? ? ? Ht _ _ ? ?]. split; [done|done|done| |done|done]. clear -Ht. induction Ht as [|s g [v k]]; constructor; [|done]. by exists t, v.
Qed.

Lemma update_keys theme l ks r : update_func yaml_load yaml_dump json_parse json_stringify theme l = (ks, r) → ks.*1 = l.*1.
Proof.
  revert ks r. induction l as [|[v k] l IH]; intros ks r; cbn [update_func]; [by intros [= <- _]|].
  destruct (update_diagram _ _ _ _ _ _ _) as [[k' b]|x]; [|by intros [= <- _]].
  destruct (update_func _ _ _ _ theme l) as [ks' r'] eqn:Hu. intros [= <- _]. rewrite !fmap_cons. f_equal. by eapply IH.
Qed.
Lemma run_page_keys l : (run_page l).*1 = l.*1.
Proof. unfold run_page. rewrite <-list_fmap_compose. by apply list_fmap_ext. Qed.

(** Drawing again never fails and puts all diagrams under the theme. *)
Lemma update_run attrs p :
  almost_themed p → let t := default (screen_theme p) attrs in
  Theme t → (print_preview p = false → t = screen_theme p) →
  ∃ p', initMermaid true attrs p = (p', Ok tt) ∧ themed t p' ∧
    apis p' = apis p ∧ print_listeners p' = print_listeners p ∧ print_preview p' = print_preview p ∧
    css_variant p' = css_variant p ∧ css_dark p' = css_dark p ∧ last_variant p' = last_variant p ∧
    (containers p').*1 = (containers p).*1 ∧ mark_due p' = true.
Proof.
  intros Hp t Ht Hs. unfold PageThemes.initMermaid. rewrite Hon, M_bind_eq. unfold gets at 1.
  rewrite (at_on _ Hp), Hloaded. cbn [andb negb]. rewrite M_bind_eq. unfold mret at 1, M_mret at 1. rewrite M_bind_eq. unfold gets at 1.
  fold (screen_theme p). fold t. unfold draw_diagrams. rewrite M_bind_eq. unfold modify at 1. rewrite M_bind_eq.
  cbn [set_marks containers].
  assert (∃ ks b, update_func yaml_load yaml_dump json_parse json_stringify t (containers p) = (ks, Ok b) ∧
    Forall3 (tracks t) w gs (run_page ks) ∧ (b = false → Forall3 (tracks t) w gs ks)) as (ks & b & Hu & Hks & Hb).
  { pose proof (at_steady _ Hp) as Hw. unfold respects in Hw.
    destruct (update_func_tracks _ _ _ _ Plain Theme Hf t w gs (containers p) Ht (at_tracks _ Hp)) as (ks & b & Hu & Hks & Hb).
    rewrite Hw in Hks, Hb. by exists ks, b. }
  rewrite Hu. pose proof (update_keys _ _ _ _ Hu) as Hkeys.
  assert (∀ l : list (bool * container), l.*1 = (containers p).*1 → respects l.*1) as Hst by (intros l ->; apply Hp).
  assert ((run_page ks).*1 = (containers p).*1) as Hkeys' by by rewrite run_page_keys.
  rewrite M_bind_eq. destruct b; unfold modify, mret, M_mret.
  - eexists. split; [done|]. destruct Hp. split_and!; try done. split; cbn; auto.
  - eexists. split; [done|]. destruct Hp. split_and!; try done. split; cbn; auto.
Qed.

Lemma api_run update p :
  is_initialized p = true → ∃ a, initOpenapi conf css update p = (set_apis a p, Ok tt).
Proof.
  intros Hi. unfold initOpenapi. destruct (themeUseOpenapi conf); cbn [negb]; [|exists (apis p); by destruct p].
  rewrite M_bind_eq. unfold gets. rewrite Hi, andb_false_r. rewrite M_bind_eq. unfold mret, M_mret, modify, render_all.
  generalize (seq 0 (length (apis p))) as l. intros l. clear Hi.
  assert (∃ a, foldl (λ p i, renderOpenAPI conf css i p) p l = set_apis a p) as [a ->]; [|by exists a].
  revert p. induction l as [|i l IH]; intros p; [exists (apis p); by destruct p|]. cbn [foldl].
  destruct (IH (renderOpenAPI conf css i p)) as [a ->]. by exists a.
Qed.
Lemma themed_apis t a p : themed t p → themed t (set_apis a p).
Proof. intros []. by split. Qed.

Lemma redraw_run p :
  almost_themed p → ∃ p', redraw yaml_load yaml_dump json_parse json_stringify conf css p = (p', Ok tt) ∧ themed (screen_theme p) p' ∧
    css_variant p' = css_variant p ∧ (containers p').*1 = (containers p).*1.
Proof.
  intros Hp. destruct (update_run None p Hp) as (p1 & H1 & Ht & _ & _ & _ & Hv & _ & _ & Hc & _); [exact (proj1 (Hcss _))|done|].
  unfold redraw. rewrite M_bind_eq, H1. destruct (api_run true p1 (th_on _ _ Ht)) as [a Ha]. rewrite Ha.
  exists (set_apis a p1). split; [done|]. split; [by apply themed_apis|done].
Qed.

(** An event keeps the diagrams that are to stay visible. *)
Definition stays (visible : nat → bool) : Prop := ∀ i, w !! i = Some true → visible i = true.
Definition event_stays (ev : theme_event) : Prop := match ev with Toggled visible => stays visible | _ => True end.

Lemma respects_stays (visible : nat → bool) (l : list (bool * container)) :
  stays visible → length l = length w → respects (imap (λ i x, (visible i, x.2)) l).*1.
Proof.
  unfold respects, stays. intros Hs Hl. apply list_eq. intros i. rewrite lookup_zip_with, list_lookup_fmap, list_lookup_imap.
  specialize (Hs i). destruct (w !! i) as [[]|] eqn:Hi; cbn; [|by destruct (l !! i) eqn:Hx; [|apply lookup_ge_None in Hx; apply lookup_lt_Some in Hi; lia]|done].
  destruct (l !! i) eqn:Hx; [cbn; by rewrite Hs|]. apply lookup_ge_None in Hx. apply lookup_lt_Some in Hi. lia.
Qed.

Lemma Forall3_imap {A B C D} (P : A → B → C → Prop) (Q : A → B → D → Prop) (f : nat → C → D) l l' k m :
  Forall3 P l k m → length l' = length l →
  (∀ i x x' y z, l !! i = Some x → l' !! i = Some x' → m !! i = Some z → P x y z → Q x' y (f i z)) → Forall3 Q l' k (imap f m).
Proof.
  intros Hl. revert f l'. induction Hl as [|x y z l k m Hx Hl IH]; intros f [|x' l'] Hlen Hf'; try discriminate Hlen; [constructor|].
  rewrite imap_cons. constructor; [by apply (Hf' 0%nat x x')|]. apply IH; [by injection Hlen|]. intros i. apply (Hf' (S i)).
Qed.

Lemma toggled_almost t p visible : themed t p → stays visible → almost_themed (set_visible visible p).
Proof.
  intros Ht Hs. destruct (themed_almost _ _ Ht) as [H1 H2 H3 H4 H5 H6]. split; [done|done|done| |done|].
  - eapply Forall3_imap; [exact H4|done|]. intros i s s' g [v k] Hs1 Hs2 _ (t' & v' & Hv). exists t', v'. by simplify_eq.
  - apply respects_stays; [done|]. symmetry. by eapply Forall3_length_lr.
Qed.

Abbreviation handler := (print_handler yaml_load yaml_dump json_parse json_stringify conf css).

Lemma mfor_apis l p :
  is_initialized p = true → Forall (.= Openapi_print) l → ∀ b,
  ∃ a, mfor (handler b) l p = (set_apis a (match l with [] => p | _ => set_preview b p end), Ok tt).
Proof.
  intros Hi Hl b. revert p Hi. induction Hl as [|x l -> Hl IH]; intros p Hi; [exists (apis p); by destruct p|].
  cbn [mfor]. rewrite M_bind_eq. unfold print_handler at 1, print_openapi. rewrite M_bind_eq. unfold modify.
  destruct (api_run true (set_preview b p) Hi) as [a ->]. destruct (IH (set_apis a (set_preview b p)) Hi) as [a' ->].
  exists a'. by destruct l.
Qed.

(** Printing, or the end of it. *)
Lemma print_run t p b :
  themed t p → ∃ t' p', (l ← gets print_listeners; mfor (handler b) l) p = (p', Ok tt) ∧ themed t' p'.
Proof.
  intros Hp. rewrite M_bind_eq. unfold gets. destruct (th_listens _ _ Hp) as (l & -> & Hl). cbn [mfor]. rewrite M_bind_eq.
  unfold print_handler at 1, print_mermaid. rewrite M_bind_eq. unfold modify. rewrite M_bind_eq. unfold gets.
  set (q := set_preview b p). assert (almost_themed q) as Hq by (destruct (themed_almost _ _ Hp); by split).
  set (attrs := if b then Some (getColorValue css (js "PRINT-MERMAID-theme") q) else None).
  destruct (update_run attrs q Hq) as (p1 & H1 & Ht & Ha & Hls & Hpr & _); [destruct b; apply (Hcss q)|by destruct b|]. rewrite H1.
  destruct (mfor_apis l p1 (th_on _ _ Ht) Hl b) as [a ->]. do 2 eexists. split; [done|]. apply themed_apis.
  destruct l; [exact Ht|]. cbn [print_preview set_preview q] in Hpr. destruct Ht. split; try done. cbn [print_preview set_preview].
  intros ->. apply th_screen0. by rewrite Hpr.
Qed.

Lemma event_run t p ev :
  themed t p → event_stays ev →
  ∃ t' p', theme_handler ev p = (p', Ok tt) ∧ themed t' p'.
Proof.
  intros Hp Hev. destruct ev as [v|d| | |visible|i sw|]; cbn [theme_handler].
  - rewrite M_bind_eq. unfold modify at 1, updateTheme. rewrite M_bind_eq. unfold gets. cbn [set_css last_variant].
    case_bool_decide as Hl.
    + exists t. eexists. split; [done|]. assert (css_variant p = v) as <- by by apply (th_last _ _ Hp). by destruct p.
    + rewrite M_bind_eq. unfold modify. set (q := set_last _ _).
      assert (almost_themed q) as Hq by (destruct (themed_almost _ _ Hp); split; try done; by intros ? [= <-]).
      destruct (redraw_run q Hq) as (p' & H1 & Ht & _). by eexists _, p'.
  - rewrite M_bind_eq. unfold modify at 1. set (q := set_css _ _ _).
    assert (almost_themed q) as Hq by (destruct (themed_almost _ _ Hp); by split).
    destruct (redraw_run q Hq) as (p' & H1 & Ht & _). by eexists _, p'.
  - by eapply print_run.
  - by eapply print_run.
  - rewrite M_bind_eq. unfold modify at 1. pose proof (toggled_almost _ _ _ Hp Hev) as Hq.
    destruct (update_run None _ Hq) as (p' & H1 & Ht & _); [exact (proj1 (Hcss _))|done|]. by eexists _, p'.
  - eexists _, _. split; [done|]. by apply themed_apis.
  - unfold modify. eexists _, _. split; [done|]. destruct (mark_due p); [|exact Hp]. destruct Hp. by split.
Qed.

Lemma events_run t p evs :
  themed t p → Forall event_stays evs →
  ∃ t' p', mfor theme_handler evs p = (p', Ok tt) ∧ themed t' p'.
Proof.
  intros Hp Hevs. revert t p Hp. induction Hevs as [|ev evs Hev Hevs IH]; intros t p Hp; [by exists t, p|].
  cbn [mfor]. rewrite M_bind_eq. destruct (event_run t p ev Hp Hev) as (t1 & p1 & -> & Hp1). by eapply IH.
Qed.

(** ** Loading *)

(** A page before [ready]; restoring the tabs shows no diagram that was hidden. *)
Record fresh_page (p : themed_page) (restored : nat → bool) : Prop := {
  fr_nothing : containers p = [] ∧ is_initialized p = false ∧ print_listeners p = [] ∧ print_preview p = false ∧ last_variant p = None;
  fr_readable : Forall2 (λ g x, readable_source yaml_load json_parse Plain x.2 (co_yaml g) (co_dir g) (co_content g)) gs (raws p);
  fr_restored i : restored i = true → (raws p).*1 !! i ≠ Some false;
}.

Lemma ready_run p restored :
  fresh_page p restored → length w = length (raws p) → (∀ i, w !! i = Some true → (raws p).*1 !! i = Some true ∧ restored i = true) →
  ∃ p', ready_themes yaml_load yaml_dump json_parse json_stringify conf css restored p = (p', Ok tt) ∧ themed (screen_theme p) p'.
Proof.
  intros [(Hk & Hi & Hl & Hp & Hv) Hr Hrest] Hw Hst. unfold ready_themes. rewrite M_bind_eq.
  unfold PageThemes.initMermaid. rewrite Hon, M_bind_eq. unfold gets at 1. rewrite Hi, Hloaded. cbn [andb negb].
  rewrite M_bind_eq. unfold modify at 1. rewrite M_bind_eq. unfold gets at 1. cbn [from_option].
  set (q := set_up Mermaid_print p). change (getColorValue css (js "MERMAID-theme") q) with (screen_theme p).
  set (t := screen_theme p). unfold draw_diagrams. rewrite M_bind_eq. unfold mret at 1, M_mret at 1. rewrite M_bind_eq.
  change (raws q) with (raws p). destruct (init_func_tracks _ _ _ _ Plain Theme Hf t gs (raws p) (proj1 (Hcss p)) Hr) as (ks & b & Hinit & Htr & Hb & Hkeys).
  rewrite Hinit. change (containers q) with (containers p). rewrite Hk, app_nil_l, M_bind_eq.
  set (q1 := set_diagrams [] ks q).
  assert (∃ q2, (if b then modify (λ p, set_marks (words_marked p) true
    (set_diagrams (raws p) (run_page (containers p)) (set_config (Some (initialize_mermaid (useMermaid config) t)) p))) else mret tt) q1 = (q2, Ok tt) ∧
    raws q2 = [] ∧ containers q2 = run_page ks ∧ is_initialized q2 = true ∧ print_listeners q2 = [Mermaid_print] ∧
    print_preview q2 = false ∧ last_variant q2 = None ∧ css_variant q2 = css_variant p ∧ css_dark q2 = css_dark p) as (q2 & Hq2 & Hr2 & Hc2 & Hi2 & Hl2 & Hp2 & Hv2 & Hcv & Hcd).
  { destruct b; unfold modify, mret, M_mret; eexists; (split; [reflexivity|]); cbn; rewrite ?Hl, ?Hp, ?Hv; [by split_and!|].
    by rewrite (Hb eq_refl). }
  rewrite Hq2. unfold mret at 1, M_mret at 1. rewrite M_bind_eq. destruct (api_run false q2 Hi2) as [a Ha]. rewrite Ha.
  unfold modify. eexists. split; [done|]. cbn [set_visible].
  assert (containers (set_visible restored (set_apis a q2)) = imap (λ i x, (restored i, x.2)) (run_page ks)) as Hcs by (unfold set_visible; cbn; by rewrite Hc2).
  assert (length (run_page ks) = length w) as Hlen.
  { rewrite Hw. etrans; [symmetry; by eapply Forall3_length_lr|]. by rewrite length_fmap. }
  split; rewrite ?Hcs; try done.
  - cbn. exists []. by rewrite Hl2.
  - eapply Forall3_imap; [exact Htr|by rewrite length_fmap|]. intros i s s' g [v k] Hs1 Hs2 Hx Hg.
    assert ((raws p).*1 !! i = Some v) as Hvi.
    { rewrite <-Hkeys, <-run_page_keys, list_lookup_fmap, Hx. done. }
    apply (tracks_hide _ _ _ _ _ _ s s' g v); [done| |].
    + intros ->. destruct (Hst i Hs2) as [Hv1 Hv2']. split; [congruence|done].
    + intros Hri. destruct v; [done|]. by apply Hrest in Hri.
  - exact (proj1 (Hcss p)).
  - intros _. unfold t, screen_theme, getColorValue. cbn. by rewrite Hcv, Hcd.
  - cbn. rewrite Hv2. done.
  - apply respects_stays; [|done]. intros i Hwi. by apply Hst.
Qed.
End follow.

(** ** What the reader sees *)
Section seen.
Context (yaml_load : jsstr → result jsval) (yaml_dump : jsval → jsstr).
Context (json_parse : jsstr → result jsval) (json_stringify : jsval → jsstr).
Context (conf : settings) (css : jsstr → bool → jsstr → jsstr).
Context (config : list (jsstr * jsval)) (Plain : list (jsstr * jsval) → Prop) (Theme : jsstr → Prop).

(** Diagram [i] is visible from the beginning to the end. *)
Definition event_shows (i : nat) (ev : theme_event) : bool := match ev with Toggled visible => visible i | _ => true end.
Definition always_visible (p : themed_page) (restored : nat → bool) (evs : list theme_event) (i : nat) : bool :=
  default false ((raws p).*1 !! i) && restored i && forallb (event_shows i) evs.

(** C30. Diagrams follow the theme of the page: on a page where Mermaid is used
    and loaded, whose diagrams can be read (header and directive are as YAML and
    JSON are written) and whose restored tabs show no diagram that was hidden,
    whatever variants, colour schemes, printing, tabs and boxes come and go,
    nothing fails, and every diagram that is visible is drawn from the text of
    its author; outside of the print preview it is drawn in the theme the page
    now has on the screen, or, when the author chose a theme and it was visible
    all the time, exactly as the author wrote it. (Of other pages see
    [restored_not_drawn] and [bad_directive_stops].) *)
Theorem diagrams_follow_theme (gs : list contents) (p : themed_page) (restored : nat → bool) (evs : list theme_event) :
  themeUseMermaid conf = Some config → mermaid_loaded conf = true →
  formats yaml_load yaml_dump json_parse json_stringify Plain Theme →
  (∀ p, Theme (screen_theme css p) ∧ Theme (paper_theme css p)) →
  fresh_page yaml_load json_parse Plain gs p restored →
  ∃ s, theme_session yaml_load yaml_dump json_parse json_stringify conf css restored evs p = (s, Ok tt) ∧
    length (containers s) = length (raws p) ∧
    ∀ i g k, gs !! i = Some g → containers s !! i = Some (true, k) →
      ∃ o text, ct_shows k = inr text ∧
        parseGraph yaml_load json_parse text = Ok (Graph (JObj o) (JObj (flagged (co_dir g))) (co_content g)) ∧
        if own_theme g then always_visible p restored evs i = true → o = flagged (co_yaml g)
        else print_preview s = false → jm_get theme_key o = Some (JStr (screen_theme css s)).
Proof.
  intros Hon Hl Hf Hcss Hp. set (w := imap (λ i _, always_visible p restored evs i) (raws p)).
  assert (∀ i, w !! i = Some true → always_visible p restored evs i = true) as Hw.
  { intros i. unfold w. rewrite list_lookup_imap. destruct (raws p !! i); simpl; congruence. }
  destruct (ready_run _ _ _ _ conf css config Hon Hl Plain Theme Hf Hcss w gs p restored Hp) as (p1 & H1 & Ht1).
  { by unfold w; rewrite length_imap. }
  { intros i Hi%Hw. unfold always_visible in Hi. apply andb_true_iff in Hi as [[Hv Hr]%andb_true_iff _].
    split; [|done]. by destruct ((raws p).*1 !! i) as [[]|]. }
  destruct (events_run _ _ _ _ conf css config Hon Hl Plain Theme Hf Hcss w gs _ p1 evs Ht1) as (t & s & H2 & Ht).
  { apply Forall_forall. intros ev Hev. destruct ev; try done. intros i Hi%Hw. unfold always_visible in Hi.
    apply andb_true_iff in Hi as [_ Hi]. rewrite forallb_forall in Hi. by apply (Hi (Toggled _)), list_elem_of_In. }
  exists s. unfold theme_session. rewrite M_bind_eq, H1, H2. split; [done|].
  pose proof (th_tracks _ _ _ _ _ _ _ _ _ _ _ Ht) as Htr. split.
  { rewrite <-(Forall3_length_lr _ _ _ _ Htr). unfold w. by rewrite length_imap. }
  intros i g k Hg Hk. destruct (Forall3_lookup_r _ _ _ _ i _ Htr Hk) as (b & g' & Hb & Hg' & Htk).
  rewrite Hg in Hg'. injection Hg' as <-. destruct Htk as (o & Hko & Hd & Hv & _ & Ho). cbn [fst snd] in *.
  destruct (Hd (Hv eq_refl)) as [_ Hs]. exists o, (ct_code k). split; [done|]. split; [by eapply keeps_parse|].
  destruct (own_theme g).
  - intros Ha. apply Ho. unfold w in Hb. rewrite list_lookup_imap in Hb. destruct (raws p !! i); simpl in Hb; [congruence|done].
  - intros Hpr. rewrite <-(th_screen _ _ _ _ _ _ _ _ _ _ _ Ht Hpr). apply Ho. by apply Hv.
Qed.
End seen.

(** ** API descriptions *)
Section api.
Context (conf : settings) (css : jsstr → bool → jsstr → jsstr).

Definition frame_count (l : list api) : nat := sum_list_with (λ a, length (api_frames a)) l.
Lemma no_frames l : frame_count l = 0%nat → api_frames <$> l = replicate (length l) [].
Proof.
  induction l as [|a l IH]; [done|]. unfold frame_count in *. csimpl. intros H.
  rewrite IH by lia. f_equal. apply length_zero_iff_nil. lia.
Qed.
Lemma remove_frame_none l : (frame_count l <= 1)%nat → api_frames <$> remove_frame l = replicate (length l) [].
Proof.
  induction l as [|a l IH]; [done|]. intros H. cbn [remove_frame]. unfold frame_count in H, IH. simpl in H.
  destruct (api_frames a) as [|f fs] eqn:Ha; simpl in H; rewrite fmap_cons.
  - by rewrite Ha, IH by lia.
  - cbn [api_frames]. rewrite no_frames by (unfold frame_count; lia). assert (fs = []) as ->; [|done]. apply length_zero_iff_nil. lia.
Qed.
Lemma render_run i p :
  (frame_count (apis p) <= 1)%nat → (i < length (apis p))%nat →
  api_frames <$> apis (renderOpenAPI conf css i p) = <[i := [new_frame conf css p]]> (replicate (length (apis p)) []).
Proof.
  intros Hc Hi. cbn [renderOpenAPI set_apis apis]. pose proof (remove_frame_none _ Hc) as Hr.
  apply list_eq. intros j. rewrite list_lookup_fmap. destruct (decide (j = i)) as [->|Hj].
  - rewrite list_lookup_alter_eq, list_lookup_insert_eq by (by rewrite length_replicate).
    assert ((api_frames <$> remove_frame (apis p)) !! i = Some []) as Hx by (rewrite Hr; by apply lookup_replicate).
    rewrite list_lookup_fmap in Hx. destruct (remove_frame (apis p) !! i) as [a|]; [|done]. simpl in *. by injection Hx as ->.
  - rewrite list_lookup_alter_ne, list_lookup_insert_ne by done. by rewrite <-Hr, list_lookup_fmap.
Qed.
Lemma one_frame n i (f : api_frame) l : (i < n)%nat → api_frames <$> l = <[i := [f]]> (replicate n []) → frame_count l = 1%nat ∧ length l = n.
Proof.
  intros Hi Hl. assert (length l = n) as Hn by (rewrite <-(length_fmap api_frames), Hl, length_insert; apply length_replicate). split; [|done].
  assert (frame_count l = sum_list_with length (api_frames <$> l)) as ->.
  { clear. induction l as [|a l IH]; [done|]. unfold frame_count in *. simpl. by rewrite IH. }
  rewrite Hl. clear -Hi. revert i Hi. induction n as [|n IH]; intros [|i] Hi; simpl; [lia|lia| |].
  - f_equal. clear. induction n; simpl; auto.
  - apply IH. lia.
Qed.

(** The frames of a page with several APIs carry one identifier: drawing the
    next one removes the one before, so that in the end only the last API is
    shown, in the theme and for the medium of the page. *)
Theorem openapi_last_only (update : bool) (p : themed_page) :
  themeUseOpenapi conf = true → is_initialized p = true → (frame_count (apis p) <= 1)%nat → apis p ≠ [] →
  ∃ s, initOpenapi conf css update p = (s, Ok tt) ∧
    api_frames <$> apis s = replicate (length (apis p) - 1) [] ++ [[new_frame conf css p]].
Proof.
  intros Hon Hi Hc Hne. unfold initOpenapi. rewrite Hon. cbn [negb]. rewrite M_bind_eq. unfold gets. rewrite Hi, andb_false_r, M_bind_eq.
  unfold mret, M_mret, modify, render_all. eexists. split; [done|].
  destruct (length (apis p)) as [|n] eqn:Hn; [by destruct (apis p)|]. rewrite Nat.sub_succ, Nat.sub_0_r.
  assert (∀ k q, (k <= n)%nat → (frame_count (apis q) <= 1)%nat → length (apis q) = S n → new_frame conf css q = new_frame conf css p →
    api_frames <$> apis (foldl (λ p i, renderOpenAPI conf css i p) q (seq k (S n - k))) = <[n := [new_frame conf css p]]> (replicate (S n) [])) as Hall.
  { intros k. remember (n - k)%nat as m eqn:Hm. revert k Hm. induction m as [|m IH]; intros k Hm q Hk Hq Hl Hf.
    - assert (k = n) as -> by lia. replace (S n - n)%nat with 1%nat by lia. cbn [seq foldl]. rewrite render_run by (done || lia). by rewrite Hf, Hl.
    - replace (S n - k)%nat with (S (S n - S k)) by lia. cbn [seq foldl]. pose proof (render_run k q Hq ltac:(lia)) as Hr.
      rewrite Hl in Hr. destruct (one_frame (S n) k _ _ ltac:(lia) Hr) as [H1 H2]. apply IH; [lia|lia|lia|done|]. exact Hf. }
  pose proof (Hall 0%nat p ltac:(lia) Hc Hn eq_refl) as H. rewrite Nat.sub_0_r in H. rewrite H. clear.
  by rewrite replicate_S_end, insert_app_r_alt, length_replicate, Nat.sub_diag by (by rewrite length_replicate).
Qed.
End api.

(** ** A page to try it on

    Two themes; objects with a theme, the mark of the author's, or both. *)
Definition dark_theme : jsstr := js "dark".
Definition light_theme : jsstr := js "default".
Definition theme_entry (t : jsstr) : jsstr * jsval := (theme_key, JStr t).
Definition flag_entry : jsstr * jsval := (user_flag, JBool true).
Definition sample_objects : list (list (jsstr * jsval)) :=
  [] :: [flag_entry] :: ([dark_theme; light_theme] ≫= λ t, [[theme_entry t]; [theme_entry t; flag_entry]; [flag_entry; theme_entry t]]).
Definition entry_text (quote : jsstr) (e : jsstr * jsval) : jsstr :=
  quote ++ e.1 ++ quote ++ js ": " ++ match e.2 with JStr t => quote ++ t ++ quote | _ => js "true" end.
Definition sample_dump (v : jsval) : jsstr := match v with JObj o => o ≫= λ e, entry_text [] e ++ [10%N] | _ => [] end.
Definition sample_stringify (v : jsval) : jsstr :=
  match v with JObj o => js "{" ++ join_on 44%N (entry_text [34%N] <$> o) ++ js "}" | _ => [] end.
Definition sample_read (write : jsval → jsstr) (text : jsstr) : result (list (jsstr * jsval)) :=
  result_of_option (PlainError "SyntaxError") (snd <$> list_find (λ o, write (JObj o) = text) sample_objects).
Definition sample_load (text : jsstr) : result jsval := o ← sample_read (λ v, 10%N :: sample_dump v) text; Ok (JObj o).
Definition sample_parse (text : jsstr) : result jsval :=
  o ← sample_read (λ v, init_text ++ 32%N :: sample_stringify v ++ js "}") text; Ok (JObj [(js "init", JObj o)]).

Definition sample_plain (o : list (jsstr * jsval)) : Prop := o ∈ sample_objects.
Definition sample_theme (t : jsstr) : Prop := t ∈ [dark_theme; light_theme].

Lemma no_dashes_check y :
  forallb (λ k, match y !! k with Some c => negb (newline c && bool_decide (dashes `prefix_of` drop (S k) y)) | None => true end) (seq 0 (length y)) = true →
  no_dashes y.
Proof.
  rewrite forallb_forall. intros Hy k c Hk Hc Hp. specialize (Hy k). rewrite Hk, Hc, bool_decide_eq_true_2 in Hy by done.
  discriminate Hy. apply in_seq. apply lookup_lt_Some in Hk. lia.
Qed.
Ltac each_object H := unfold sample_plain in H; vm_compute in H; repeat (apply elem_of_cons in H as [->|H]); [..|by apply not_elem_of_nil in H].
Ltac in_objects := unfold sample_plain; vm_compute; repeat first [apply list_elem_of_here|apply list_elem_of_further].
Lemma sample_formats : formats sample_load sample_dump sample_parse sample_stringify sample_plain sample_theme.
Proof.
  assert (∀ o, sample_plain o → o ≠ [] → yaml_written sample_load sample_dump o) as Hyaml.
  { intros o Ho Hne. exists (removelast (sample_dump (JObj o))). each_object Ho; [done|..];
      (split_and!; [reflexivity|reflexivity|by apply no_dashes_check; vm_compute|vm_compute; reflexivity]). }
  assert (∀ o, sample_plain o → o ≠ [] → json_written sample_parse sample_stringify o) as Hjson.
  { intros o Ho Hne. each_object Ho; [done|..]; (split; [by repeat constructor|vm_compute; reflexivity]). }
  split; [done|done|..].
  - intros o t Ho Ht. unfold sample_theme in Ht. apply elem_of_cons in Ht as [->|Ht]; [|apply list_elem_of_singleton in Ht as ->];
      each_object Ho; in_objects.
  - intros o Ho. each_object Ho; in_objects.
  - intros t Ht ->. unfold sample_theme in Ht. by apply elem_of_cons in Ht as [?|?%list_elem_of_singleton].
Qed.

Definition sample_settings : settings := Settings (Some []) true true [] (js "..") (js ".min") false.
Definition sample_css (variant : jsstr) (dark : bool) (name : jsstr) : jsstr := if dark then dark_theme else light_theme.
Definition sample_diagrams : list (bool * raw_diagram) :=
  [(true, RawDiagram [] [mermaid_class; wrapper_class] (js "graph LR"));
   (true, RawDiagram [] [mermaid_class] (lines ["---"; "theme: dark"; "---"; "graph TD"]%string))].
Definition sample_contents : list contents := [Contents [] [] (js "graph LR"); Contents [theme_entry dark_theme] [] (js "graph TD")].
Definition themed_start (rs : list (bool * raw_diagram)) (apis : list api) : themed_page :=
  ThemedPage rs [] apis false [] false None (js "red") false None true false.
Abbreviation sample_session := (theme_session sample_load sample_dump sample_parse sample_stringify sample_settings sample_css).

Lemma sample_fresh : fresh_page sample_load sample_parse sample_plain sample_contents (themed_start sample_diagrams []) (λ _, true).
Proof.
  split.
  - done.
  - apply Forall2_cons; split; [|apply Forall2_cons; split; [|by apply Forall2_nil]];
      (split; [vm_compute; reflexivity|split; in_objects|split_and!; by vm_compute|done || by vm_compute]).
  - intros i _. by destruct i as [|[|i]].
Qed.

Lemma diagrams_follow_theme_witness :
  ∃ s, sample_session (λ _, true) [Dark_mode true; Before_print; After_print] (themed_start sample_diagrams []) = (s, Ok tt) ∧
    length (containers s) = 2%nat.
Proof.
  destruct (diagrams_follow_theme sample_load sample_dump sample_parse sample_stringify sample_settings sample_css [] sample_plain sample_theme
    sample_contents (themed_start sample_diagrams []) (λ _, true) [Dark_mode true; Before_print; After_print]) as (s & Hs & Hl & _);
    [reflexivity|reflexivity|exact sample_formats| |exact sample_fresh|exists s; split; [exact Hs|exact Hl]].
  intros p. unfold screen_theme, paper_theme, getColorValue, sample_css. destruct (css_dark p); split;
    vm_compute; repeat first [apply list_elem_of_here|apply list_elem_of_further].
Defined.

(** ** Where it goes wrong *)

(** The sources drawn, or those left as text, after a session with a diagram of
    the page's theme and one of the author's. *)
Definition shown_after (visible restored : nat → bool) (evs : list theme_event) : list (jsstr + jsstr) :=
  (λ x, ct_shows x.2) <$> containers (sample_session restored evs (themed_start (imap (λ i x, (visible i, x.2)) sample_diagrams) [])).1.

(** A theme the author chose is lost when the diagram was hidden at first: once
    its tab is chosen it is drawn in the theme of the page, and stays so. *)
Theorem hidden_choice_lost :
  let shown := shown_after (λ i, (i =? 0)%nat) (λ i, (i =? 0)%nat) in
  shown [Toggled (λ _, true)] !! 1%nat =
    Some (inr (lines ["---"; "theme: default"; "relearn_user_theme: true"; "---"; "graph TD"]%string)) ∧
  shown [Toggled (λ _, true); Dark_mode true] !! 1%nat = shown [Toggled (λ _, true)] !! 1%nat.
Proof. vm_compute. split; reflexivity. Qed.

(** A diagram in a tab that is restored is not drawn until something else
    happens. *)
Theorem restored_not_drawn :
  shown_after (λ i, (i =? 1)%nat) (λ _, true) [] !! 0%nat = Some (inl (lines ["---"; "theme: default"; "---"; "graph LR"]%string)) ∧
  shown_after (λ i, (i =? 1)%nat) (λ _, true) [Dark_mode true] !! 0%nat =
    Some (inr (lines ["---"; "theme: dark"; "---"; "graph LR"]%string)).
Proof. vm_compute. split; reflexivity. Qed.

(** A directive that is not JSON ends the loading of the page with an error
    before any diagram behind it is drawn. *)
Theorem bad_directive_stops :
  let bad := RawDiagram [] [mermaid_class] (lines ["%%{init: {'theme': 'dark'}}%%"; "graph LR"]%string) in
  let r := sample_session (λ _, true) [] (themed_start ((true, bad) :: sample_diagrams) []) in
  r.2 = Throw (PlainError "SyntaxError") ∧ containers r.1 = [] ∧ length (raws r.1) = 3%nat.
Proof. vm_compute. repeat split. Qed.

(** Where Mermaid is used, the API descriptions are not made ready for
    printing, since both share the flag of having been set up. *)
Theorem apis_not_printed :
  let start := ThemedPage [] [] [Api [] (js "api.json") []] false [] false None (js "red") false None true false in
  let formats_of mermaid := λ evs, (λ a, af_format <$> api_frames a) <$>
    apis (theme_session sample_load sample_dump sample_parse sample_stringify
      (Settings mermaid true true [] (js "..") (js ".min") false) sample_css (λ _, true) evs start).1 in
  formats_of None [Before_print] = [[js "print"]] ∧ formats_of (Some []) [Before_print] = [[js "html"]].
Proof. vm_compute. split; reflexivity. Qed.
