(* ===== verification/CopyButtons.v ===== *)
(** * Buttons that copy code (theme.js, function [initCodeClipboard])

    Every piece of code gets its text as an attribute of itself or of the block
    around it, and a button next to that. Plain preformatted text is first
    given an inner element. The list of code elements is taken before the loop;
    the loop replaces some of them by clones, so that an element of the list may
    have left the page when its turn comes: [cp_detached]. A code element is
    known by its place in the list, [e_key], until it was handled. *)

From S2P Require Import Prelude JSValue WordPattern Dom Highlight PageSearch PageSearchTheorems.

(** ** Elements *)

(** An element made by the script. *)
Definition made (tag : string) (classes : list string) : element := Element None (js tag) (join_on 32%N (js <$> classes)) true None.
Definition with_key k (e : element) : element := Element k (localName e) (className e) (xhtml e) (data_code e).
Definition with_data d (e : element) : element := Element (e_key e) (localName e) (className e) (xhtml e) d.
Definition tag_is (t : string) (e : element) : bool := bool_decide (lower_tag e = js t).

(** The selectors [code, .pre-only], [pre:not(.mermaid)] and [td.lntd]. *)
Definition is_code (e : element) : bool := bool_decide (localName e = js "code") || has_class (js "pre-only") e.
Definition is_plain_pre (e : element) : bool := bool_decide (localName e = js "pre") && negb (has_class (js "mermaid") e).
Definition is_lntd (e : element) : bool := tag_is "td" e && has_class (js "lntd") e.
Definition is_highlight_div (e : element) : bool := tag_is "div" e && has_class (js "highlight") e.
Definition is_heading (e : element) : bool := bool_decide (lower_tag e ∈ js <$> ["h1"; "h2"; "h3"; "h4"; "h5"; "h6"]%string).
Definition is_element (n : dom) : bool := match n with Elem _ _ => true | _ => false end.

(** The elements in [pre] other than [code] and every [pre] without elements
    get an inner element. *)
Fixpoint wrap_pre (in_pre : bool) (n : dom) : dom :=
  match n with
  | Elem e cs =>
      let cs' := wrap_pre (is_plain_pre e) <$> cs in
      if (in_pre && negb (bool_decide (localName e = js "code"))) || (is_plain_pre e && negb (existsb is_element cs))
      then Elem e [Elem (made "div" ["pre-only"]%string) cs'] else Elem e cs'
  | _ => n
  end.

(** The code elements are numbered in the order of the page. *)
Definition number_all (f : nat → dom → nat * dom) : nat → list dom → nat * list dom :=
  fix all (i : nat) (l : list dom) : nat * list dom :=
    match l with
    | [] => (i, [])
    | c :: l => let '(j, c) := f i c in let '(k, l) := all j l in (k, c :: l)
    end.
Fixpoint number_codes (i : nat) (n : dom) : nat * dom :=
  match n with
  | Elem e cs =>
      let '(j, cs') := number_all number_codes (if is_code e then S i else i) cs in
      (j, Elem (with_key (if is_code e then Some i else None) e) cs')
  | _ => (i, n)
  end.
(** [cloneNode(true)] *)
Fixpoint clone (n : dom) : dom := match n with Elem e cs => Elem (with_key None e) (clone <$> cs) | _ => n end.

(** ** The text of code *)

(** [*:scope > span > span:first-child:not(:last-child)]: a line number. *)
Fixpoint remove_first_element (l : list dom) : list dom :=
  match l with [] => [] | Elem _ _ :: l => l | n :: l => n :: remove_first_element l end.
Definition drop_lineno (n : dom) : dom :=
  match n with
  | Elem e cs =>
      if bool_decide (localName e = js "span") then
        match List.filter is_element cs with
        | Elem f _ :: _ :: _ => if bool_decide (localName f = js "span") then Elem e (remove_first_element cs) else n
        | _ => n
        end
      else n
  | _ => n
  end.
Definition strip_newline (s : jsstr) : jsstr := match reverse s with 10%N :: r => reverse r | _ => s end.
Definition getCodeText (cs : list dom) : jsstr := strip_newline ((drop_lineno <$> cs) ≫= textContent).

(** ** The place of an element: its ancestors, with what stands before and
    after *)
Record around := Around { ar_el : element; ar_left : list dom; ar_right : list dom }.
Definition fill_in (a : around) (l : list dom) : dom := Elem (ar_el a) (ar_left a ++ l ++ ar_right a).
Definition set_around e (a : around) : around := Around e (ar_left a) (ar_right a).
Fixpoint close_up (z : list around) (n : dom) : dom := match z with [] => n | a :: z => close_up z (fill_in a [n]) end.
Fixpoint locate (k : nat) (up : list around) (n : dom) : option (list around * element * list dom) :=
  match n with
  | Elem e cs =>
      if decide (e_key e = Some k) then Some (up, e, cs)
      else (fix among (left cs : list dom) :=
              match cs with
              | [] => None
              | c :: cs => match locate k (Around e left cs :: up) c with Some x => Some x | None => among (left ++ [c]) cs end
              end) [] cs
  | _ => None
  end.

(** ** Buttons *)
Definition copy_icon : dom := Elem (made "button" []) [Elem (made "i" ["fa-fw"; "far"; "fa-copy"]%string) []].
Definition actionbar : dom :=
  Elem (made "div" ["actionbar"]%string)
    [Elem (made "span" ["btn"; "cstyle"; "block-copy-to-clipboard-button"; "action"; "noborder"; "notitle"; "interactive"]%string) [copy_icon]].
Definition inline_button : dom :=
  Elem (made "span" ["btn"; "cstyle"; "inline-copy-to-clipboard-button"; "inline"; "notitle"; "interactive"]%string) [copy_icon].
(** A click: the attribute of the element before the bar or the button. *)
Definition clipboard_text (before : list dom) : option jsstr :=
  match List.filter is_element (reverse before) with Elem e _ :: _ => Some (default [] (data_code e)) | _ => None end.

Section clipboard.
Context (disableInlineCopyToClipboard enableBlockCodeWrap : bool).

(** ** One code element *)

Definition code_class : jsstr := js "copy-to-clipboard-code".
(** [td:first-child > pre > code] in document order; [first]: the node is the
    first element of its parent, [cell] and [pre]: its parent is such a [td], a
    [pre] in one. *)
Fixpoint cell_codes (first cell pre : bool) (n : dom) : list element :=
  match n with
  | Elem e cs =>
      (if pre && tag_is "code" e then [e] else []) ++
      (fix all (first' : bool) (l : list dom) : list element :=
         match l with
         | [] => []
         | c :: l => cell_codes first' (first && tag_is "td" e) (cell && tag_is "pre" e) c ++ all (first' && negb (is_element c)) l
         end) true cs
  | _ => []
  end.
(** [row.querySelector(…) == code] *)
Definition is_first_cell (row : dom) (code : element) : bool :=
  match cell_codes false false false row with e :: _ => bool_decide (e_key e = e_key code) | [] => false end.

(** Results: the tree with the element, the trees that left it, and whether an
    exception ended the loop. [in_page]: the tree is the page, so that its root
    is in the document. *)
Definition handled : Type := dom * list dom * result unit.

(** Code in [pre], itself in a cell of a table with line numbers. *)
Definition table_code (text : jsstr) (e : element) (cs : list dom) (f1 f2 : around) (z : list around) : handled :=
  let inner := fill_in f2 [fill_in (set_around (classList_add (js "pre-code") (ar_el f1)) f1) [Elem e cs]] in
  match z with
  | f3 :: f4 :: f5 :: z5 =>
      let table := fill_in (set_around (with_data (Some text) (ar_el f5)) f5) [close_up [f3; f4] inner] in
      match z5 with
      | f6 :: z6 => (close_up z6 (fill_in f6 [table; actionbar]), [], Ok tt)
      | [] => (table, [], Throw TypeError)
      end
  | _ => (close_up z inner, [], Throw TypeError)
  end.

(** Code in another [pre]: in a highlighted block it gets its button, otherwise
    the block is made. *)
Definition pre_code (in_page : bool) (text : jsstr) (e : element) (cs : list dom) (f1 f2 : around) (z : list around) : handled :=
  let pre := fill_in (set_around (with_data (Some text) (classList_add (js "pre-code") (ar_el f1))) f1) [Elem e cs] in
  if existsb (λ a, is_highlight_div (ar_el a)) (f2 :: z) then (close_up z (fill_in f2 [pre; actionbar]), [], Ok tt)
  else if in_page then
    let block := made "div" (if enableBlockCodeWrap then ["highlight"; "actionbar-wrapper"; "wrap-code"] else ["highlight"; "actionbar-wrapper"])%string in
    (close_up z (fill_in f2 [Elem block [clone pre; actionbar]]), [pre], Ok tt)
  else (close_up z (fill_in f2 [pre]), [], Throw TypeError).

(** Code in a line of text; in headings it gets no button. *)
Definition inline_buttons (z : list around) : list dom :=
  let inHeading := existsb (λ a, is_heading (ar_el a)) z in
  if negb disableInlineCopyToClipboard && negb inHeading then [inline_button] else [].
Definition inline_code (text : jsstr) (e : element) (cs : list dom) (f1 : around) (z : list around) : handled :=
  let copy := clone (Elem (with_data (Some text) (classList_add (js "highlight") e)) cs) in
  (close_up z (fill_in f1 [Elem (made "span" ["copy-to-clipboard"]%string) (copy :: inline_buttons (f1 :: z))]), [Elem e cs], Ok tt).

Definition handle_code (in_page : bool) (z : list around) (e : element) (cs : list dom) : handled :=
  let text := getCodeText cs in
  let seen := with_key None e in
  let unchanged := close_up z (Elem seen cs) in
  match z with
  | [] => (unchanged, [], Throw TypeError)
  | f1 :: z1 =>
      if tag_is "pre" (ar_el f1) then
        match z1 with
        | [] => (unchanged, [], Throw TypeError)
        | f2 :: z2 =>
            let inTable := is_lntd (ar_el f2) in
            let marked := classList_add (js "copy-to-clipboard") (classList_add code_class seen) in
            match inTable, z2 with
            | true, [] => (unchanged, [], Throw TypeError)
            | true, f3 :: _ =>
                let isFirstLineCell := is_first_cell (close_up [f1; f2; f3] (Elem e cs)) e in
                if isFirstLineCell then (unchanged, [], Ok tt) else table_code text marked cs f1 f2 z2
            | false, _ => pre_code in_page text marked cs f1 f2 z2
            end
        end
      else if (5 <? length text)%nat then inline_code text (classList_add code_class seen) cs f1 z1
      else (unchanged, [], Ok tt)
  end.

(** ** All of them *)
Record code_page := CodePage { cp_root : dom; cp_detached : list dom }.

Fixpoint handle_detached (k : nat) (l : list dom) : option (list dom * result unit) :=
  match l with
  | [] => None
  | n :: l =>
      match locate k [] n with
      | Some (z, e, cs) => let '(n, out, r) := handle_code false z e cs in Some (n :: l ++ out, r)
      | None => '(l, r) ← handle_detached k l; Some (n :: l, r)
      end
  end.
Definition handle_number (k : nat) : M code_page unit := λ p,
  match locate k [] (cp_root p) with
  | Some (z, e, cs) => let '(root, out, r) := handle_code true z e cs in (CodePage root (cp_detached p ++ out), r)
  | None =>
      match handle_detached k (cp_detached p) with
      | Some (l, r) => (CodePage (cp_root p) l, r)
      | None => (p, Ok tt)
      end
  end.
Definition initCodeClipboard (root : dom) : code_page * result unit :=
  let '(n, root) := number_codes 0 (wrap_pre false root) in
  mfor handle_number (seq 0 n) (CodePage root []).
End clipboard.

(** ** Copying a selection *)

(** The listener of [copy]: the fragments of the ranges selected, the element
    the selection starts in with its ancestors, and the selected text. [Some]:
    the text is put into the clipboard and the browser does nothing of its own. *)
Section copy.
Context (has_id : element → bool).
Definition selectionContainsLnClass (ranges : list (list dom)) : bool :=
  existsb (λ fragment, existsb (λ e, has_class (js "ln") e || has_id e) (fragment ≫= dom_elements)) ranges.
Fixpoint copy_from (up : list element) (text : jsstr) : option jsstr :=
  match up with
  | [] => None
  | e :: up => if has_class (js "highlight") e then Some text else copy_from up text
  end.
Definition on_copy (ranges : list (list dom)) (up : list element) (text : jsstr) : option jsstr :=
  if selectionContainsLnClass ranges then None else copy_from up text.
End copy.

(** ** What the loop keeps *)

(** The numbers still to come, and the contents of all code elements. *)
Definition keys (n : dom) : list nat := omap e_key (dom_elements n).
Fixpoint codes (n : dom) : list (list dom) :=
  match n with
  | Elem e cs => (if is_code e then [cs] else []) ++ (cs ≫= codes)
  | _ => []
  end.

Lemma keys_elem e cs : keys (Elem e cs) = option_list (e_key e) ++ (cs ≫= keys).
Proof.
  unfold keys. cbn [dom_elements omap list_omap]. assert (omap e_key (cs ≫= dom_elements) = cs ≫= λ c, omap e_key (dom_elements c)) as H.
  { induction cs as [|c cs IH]; [done|]. rewrite !bind_cons, omap_app. by rewrite IH. }
  change (mbind dom_elements cs) with (cs ≫= dom_elements). destruct (e_key e); simpl; by rewrite <-H.
Qed.

Lemma codes_elem e cs : codes (Elem e cs) = (if is_code e then [cs] else []) ++ (cs ≫= codes).
Proof. done. Qed.
Lemma text_elem e cs : textContent (Elem e cs) = cs ≫= textContent.
Proof. done. Qed.

(** Each of them is put together from the parts of the tree. *)
Section parts.
Context {A} (f : dom → list A) (h : element → list A) (P : element → Prop) (Hf : ∀ e cs, P e → f (Elem e cs) = h e ++ (cs ≫= f)).

Lemma close_parts z : Forall (λ a, P (ar_el a)) z → ∃ l r, ∀ n, f (close_up z n) = l ++ f n ++ r.
Proof.
  induction 1 as [|a z Ha Hz (l & r & IH)]; [exists [], []; intros n; by rewrite app_nil_r|].
  exists (l ++ h (ar_el a) ++ (ar_left a ≫= f)), ((ar_right a ≫= f) ++ r). intros n. cbn [close_up]. rewrite IH. unfold fill_in.
  rewrite Hf by done. rewrite !bind_app. cbn [mbind list_bind]. rewrite app_nil_r. by rewrite <-!app_assoc.
Qed.
End parts.

Lemma text_parts z : ∃ l r, ∀ n, textContent (close_up z n) = l ++ textContent n ++ r.
Proof. apply (close_parts textContent (λ _, []) (λ _, True)); [done|by apply Forall_true]. Qed.
Lemma keys_parts z : ∃ l r, ∀ n, keys (close_up z n) = l ++ keys n ++ r.
Proof. apply (close_parts keys (λ e, option_list (e_key e)) (λ _, True)); [intros; apply keys_elem|by apply Forall_true]. Qed.
Lemma codes_parts z : Forall (λ a, is_code (ar_el a) = false) z → ∃ l r, ∀ n, codes (close_up z n) = l ++ codes n ++ r.
Proof. apply (close_parts codes (λ _, []) (λ e, is_code e = false)). intros e cs He. simpl. by rewrite He. Qed.

(** A clone differs in the numbers only. *)
Lemma with_key_id e : e_key e = None → with_key None e = e.
Proof. destruct e as [[] ? ? ? ?]; done. Qed.
Lemma clone_id n : keys n = [] → clone n = n.
Proof.
  induction n as [s|s|e cs IH] using node_ind'; [done..|]. rewrite keys_elem. intros [He Hcs]%app_nil. cbn [clone].
  rewrite with_key_id by by destruct (e_key e). f_equal. clear He. induction IH as [|c cs Hc _ IHcs]; [done|].
  rewrite bind_cons in Hcs. apply app_nil in Hcs as [H1 H2]. rewrite fmap_cons, Hc, IHcs; done.
Qed.

(** ** Elements with their ancestors *)

(** Of an ancestor: is it a [pre], a cell with code, does it hold a text? *)
Definition el_kind (e : element) : bool * bool * bool := (tag_is "pre" e, is_lntd e, bool_decide (is_Some (data_code e))).
Definition kinds (z : list around) : list (bool * bool * bool) := el_kind ∘ ar_el <$> z.
Fixpoint all_in (Q : list (bool * bool * bool) → element → list dom → Prop) (up : list (bool * bool * bool)) (n : dom) : Prop :=
  match n with
  | Elem e cs => Q up e cs ∧ foldr (λ c P, all_in Q (el_kind e :: up) c ∧ P) True cs
  | _ => True
  end.
Lemma all_in_elem Q up e cs : all_in Q up (Elem e cs) ↔ Q up e cs ∧ Forall (all_in Q (el_kind e :: up)) cs.
Proof. cbn [all_in]. by rewrite foldr_Forall. Qed.
Lemma all_in_focus Q z up n : all_in Q up (close_up z n) → all_in Q (kinds z ++ up) n.
Proof.
  revert n. induction z as [|a z IH]; intros n; [done|]. cbn [close_up]. intros H%IH. unfold fill_in in H. rewrite all_in_elem, !Forall_app in H.
  destruct H as (_ & _ & H & _). by apply Forall_cons in H as [? _].
Qed.

(** After a block with a text stands a bar. *)
Fixpoint follow (l : list dom) : Prop :=
  match l with
  | Elem f _ :: l' => (is_code f = false → data_code f ≠ None → match l' with b :: _ => b = actionbar | [] => False end) ∧ follow l'
  | _ :: l' => follow l'
  | [] => True
  end.
Lemma follow_app l r : follow l → follow r → follow (l ++ r).
Proof.
  intros Hl Hr. induction l as [|[s|s|f cs] l IH]; [done|by apply IH..|]. destruct Hl as [Hf Hl]. split; [|by apply IH].
  intros H1 H2. specialize (Hf H1 H2). by destruct l.
Qed.
Lemma follow_split l n r : codes n ≠ [] → follow (l ++ n :: r) → follow l ∧ follow r.
Proof.
  intros He. induction l as [|[s|s|f ds] l IH]; [by destruct n; intros H; split; try apply H|done..|]. cbn [app follow].
  intros [Hf Hl]. destruct (IH Hl) as [Hl' Hr]. split; [|done]. split; [|done]. intros H1 H2. specialize (Hf H1 H2).
  destruct l as [|c l]; [by rewrite Hf in He|exact Hf].
Qed.

(** The code is served: it or an ancestor holds a text, or it is not to be. *)
Definition labelled (up : list (bool * bool * bool)) (e : element) (cs : list dom) : Prop :=
  is_Some (data_code e) ∨ existsb snd up = true ∨
  match up with
  | (true, _, _) :: (_, lntd, _) :: _ => lntd = true
  | (true, _, _) :: [] => False
  | _ => (length (getCodeText cs) <= 5)%nat
  end.
Record fine (up : list (bool * bool * bool)) (e : element) (cs : list dom) : Prop := {
  gd_codes : is_code e = true → cs ≫= codes = [];
  gd_pre : tag_is "pre" e = true → (length (cs ≫= codes) <= 1)%nat;
  gd_depth : is_lntd e = true → (4 <= length up)%nat;
  gd_data t : data_code e = Some t → t ∈ getCodeText <$> codes (Elem e cs);
  gd_follow : follow cs;
  gd_key : e_key e ≠ None → is_code e = true ∧ data_code e = None;
  gd_seen : is_code e = true → e_key e ≠ None ∨ labelled up e cs;
}.

(** Without code in it only the depth of a node matters. *)
Lemma codeless_deeper up up' n : codes n = [] → (length up <= length up')%nat → all_in fine up n → all_in fine up' n.
Proof.
  revert up up'. induction n as [s|s|e cs IH] using node_ind'; intros up up' Hn Hup; [done..|]. rewrite !all_in_elem. cbn [codes] in Hn.
  apply app_nil in Hn as [He Hcs]. intros [[] Hall]. split.
  - split; try done; [intros H; apply gd_depth0 in H; lia|]. intros Hc. by rewrite Hc in He.
  - clear -IH Hup Hall Hcs. revert Hall. induction IH as [|c cs Hc _ IHcs]; [done|]. rewrite bind_cons in Hcs. apply app_nil in Hcs as [H1 H2].
    intros [Hx Hxs]%Forall_cons. constructor; [|by apply IHcs]. apply (Hc (el_kind e :: up)); [done|simpl; lia|done].
Qed.
Lemma codeless_keys up n : codes n = [] → all_in fine up n → keys n = [].
Proof.
  revert up. induction n as [s|s|e cs IH] using node_ind'; intros up Hn; [done..|]. rewrite all_in_elem, keys_elem. cbn [codes] in Hn.
  apply app_nil in Hn as [He Hcs]. intros [Hg Hall]. assert (e_key e = None) as ->.
  { destruct (e_key e) eqn:Hk; [|done]. destruct (gd_key _ _ _ Hg) as [Hc _]; [congruence|]. by rewrite Hc in He. }
  clear -IH Hall Hcs. cbn [option_list app]. revert Hall. induction IH as [|c cs Hc _ IHcs]; [done|].
  rewrite bind_cons in Hcs. apply app_nil in Hcs as [H1 H2]. intros [Hx Hxs]%Forall_cons. rewrite bind_cons, (Hc _ H1 Hx). by apply IHcs.
Qed.

(** An ancestor may gain a text. *)
Definition gains (a b : bool * bool * bool) : Prop := a.1 = b.1 ∧ (a.2 = true → b.2 = true).
Lemma gains_refl l : Forall2 gains l l.
Proof. induction l; constructor; [by split|done]. Qed.
Lemma labelled_gains up up' e cs : Forall2 gains up up' → labelled up e cs → labelled up' e cs.
Proof.
  intros Hg [H|[H|H]]; [by left| |].
  - right; left. induction Hg as [|a b up up' [_ Hab] _ IH]; [done|]. simpl in *. apply orb_true_iff in H as [H|H]; apply orb_true_iff; auto.
  - right; right. destruct Hg as [|[[] ?] [[] ?] up up' [Hab _] Hg]; [done|]. simpl in Hab. simplify_eq. destruct b2; [|done].
    destruct Hg as [|[[] ?] [[] ?] up up' [Hab' _] Hg]; [done|]. simpl in Hab'. by simplify_eq.
Qed.
Lemma all_in_gains up up' n : Forall2 gains up up' → all_in fine up n → all_in fine up' n.
Proof.
  revert up up'. induction n as [s|s|e cs IH] using node_ind'; intros up up' Hg; [done..|]. rewrite !all_in_elem. intros [H Hall]. split.
  - destruct H. split; try done.
    + intros Hl. rewrite <-(Forall2_length _ _ _ Hg). auto.
    + intros Hc. destruct (gd_seen0 Hc); [by left|right]. by eapply labelled_gains.
  - clear -IH Hall Hg. induction IH as [|c cs Hc _ IHcs]; [done|]. apply Forall_cons in Hall as [Hx Hxs]. constructor; [|by apply IHcs].
    eapply Hc; [|exact Hx]. by constructor.
Qed.

(** One node for another of the same element with the same code. *)
Lemma fine_children up e cs cs' :
  is_code e = false → cs ≫= codes = cs' ≫= codes → follow cs' → fine up e cs → fine up e cs'.
Proof.
  intros He Hc Hf []. split; rewrite <-?Hc; try done.
  - intros t Ht. apply gd_data0 in Ht. cbn [codes] in *. rewrite He in *. by rewrite <-Hc.
  - by rewrite He.
Qed.
Lemma follow_swap l e e' cs cs' r :
  codes (Elem e cs) ≠ [] → is_code e' = is_code e → data_code e' = data_code e → follow (l ++ Elem e cs :: r) → follow (l ++ Elem e' cs' :: r).
Proof.
  intros He Hc Hd. induction l as [|[s|s|f ds] l IH]; [cbn [app follow]; by rewrite Hc, Hd|done..|]. cbn [app follow].
  intros [Hf Hl]. split; [|by apply IH]. intros H1 H2. specialize (Hf H1 H2). destruct l as [|c l]; [by rewrite Hf in He|exact Hf].
Qed.
Lemma close_same up z e cs cs' :
  Forall (λ a, is_code (ar_el a) = false) z → codes (Elem e cs) ≠ [] → codes (Elem e cs) = codes (Elem e cs') →
  all_in fine up (close_up z (Elem e cs)) → all_in fine (kinds z ++ up) (Elem e cs') → all_in fine up (close_up z (Elem e cs')).
Proof.
  intros Hz. revert e cs cs'. induction Hz as [|a z Ha Hz IH]; intros e cs cs' Hne Hc Hall Hn; [done|]. cbn [close_up] in *. unfold fill_in in *.
  assert (∀ n, codes (Elem (ar_el a) (ar_left a ++ [n] ++ ar_right a)) = (ar_left a ≫= codes) ++ codes n ++ (ar_right a ≫= codes)) as Hcodes.
  { intros n. cbn [codes]. rewrite Ha, !bind_app. cbn [mbind list_bind app]. by rewrite app_nil_r. }
  apply (IH _ (ar_left a ++ [Elem e cs] ++ ar_right a)).
  { rewrite Hcodes. intros [_ [H _]%app_nil]%app_nil. by destruct Hne. }
  { by rewrite !Hcodes, Hc. }
  { done. }
  apply all_in_focus in Hall. rewrite all_in_elem in *. destruct Hall as [Hg Hall]. rewrite !Forall_app in *. destruct Hall as (Hl & _ & Hr).
  split; [|split_and!; [done|apply Forall_singleton; rewrite all_in_elem; exact Hn|done]]. refine (fine_children _ _ _ _ Ha _ _ Hg).
  - rewrite !bind_app. cbn [mbind list_bind app]. by rewrite Hc.
  - apply (follow_swap _ e _ cs); [done..|apply Hg].
Qed.

(** Other nodes in its place. *)
Lemma fill_good up f n l :
  is_code (ar_el f) = false → codes n = l ≫= codes → (follow (ar_left f ++ n :: ar_right f) → follow (ar_left f ++ l ++ ar_right f)) →
  all_in fine up (fill_in f [n]) → Forall (all_in fine (el_kind (ar_el f) :: up)) l → all_in fine up (fill_in f l).
Proof.
  intros Hf Hc Hfl. unfold fill_in. rewrite !all_in_elem, !Forall_app. intros [Hg (Hl & _ & Hr)] Hall. split; [|done].
  refine (fine_children _ _ _ _ Hf _ (Hfl (gd_follow _ _ _ Hg)) Hg). rewrite !bind_app, <-Hc. cbn [mbind list_bind]. by rewrite app_nil_r.
Qed.
(** Whatever stands there may be put in between unless a bar was there. *)
Lemma follow_between l n m r : codes n ≠ [] → follow m → follow (l ++ n :: r) → follow (l ++ m ++ r).
Proof. intros He Hm H. destruct (follow_split _ _ _ He H). by repeat apply follow_app. Qed.

(** The element itself gets a class, or a text. *)
Lemma same_good up e e' cs :
  is_code e' = is_code e → el_kind e' = el_kind e → data_code e' = data_code e → e_key e' = e_key e →
  all_in fine up (Elem e cs) → all_in fine up (Elem e' cs).
Proof.
  intros Hc Hk Hd Hn. rewrite !all_in_elem, Hk. intros [[] Hall]. split; [|done]. unfold el_kind in Hk. injection Hk as Hp Hl _.
  split; rewrite ?Hc, ?Hp, ?Hl, ?Hd, ?Hn; try done.
  - intros t Ht. apply gd_data0 in Ht. cbn [codes] in *. by rewrite Hc.
  - intros H. destruct (gd_seen0 H) as [|Hlab]; [by left|right]. unfold labelled in *. by rewrite Hd.
Qed.
Lemma data_good up e cs t :
  is_code e = false → t ∈ getCodeText <$> (cs ≫= codes) → all_in fine up (Elem e cs) → all_in fine up (Elem (with_data (Some t) e) cs).
Proof.
  intros Hc Ht. assert (is_code (with_data (Some t) e) = false) as Hc' by done. rewrite !all_in_elem. intros [[] Hall]. split.
  - split; rewrite ?Hc'; try done.
    + intros t' [= <-]. by rewrite codes_elem, Hc'.
    + intros H. destruct (gd_key0 H). congruence.
  - eapply Forall_impl; [exact Hall|]. intros c. apply all_in_gains. constructor; [by split|apply gains_refl].
Qed.
(** Under a text the place does not matter but for the depth. *)
Lemma deeper_good up up' n : existsb snd up' = true → (length up <= length up')%nat → all_in fine up n → all_in fine up' n.
Proof.
  revert up up'. induction n as [s|s|e cs IH] using node_ind'; intros up up' Hs Hl; [done..|]. rewrite !all_in_elem. intros [[] Hall]. split.
  - split; try done; [intros H; apply gd_depth0 in H; lia|]. intros H. destruct (gd_seen0 H); [by left|right]. by right; left.
  - clear -IH Hs Hl Hall. induction IH as [|c cs Hc _ IHcs]; [done|]. apply Forall_cons in Hall as [Hx Hxs]. constructor; [|by apply IHcs].
    eapply Hc; [..|exact Hx]; [simpl; by rewrite Hs, orb_true_r|simpl; lia].
Qed.

(** What the script adds is inert: neither code nor text. *)
Fixpoint inert (n : dom) : bool :=
  match n with
  | Elem e cs => negb (is_code e) && negb (tag_is "pre" e) && negb (is_lntd e) && bool_decide (data_code e = None) &&
                 bool_decide (e_key e = None) && forallb inert cs
  | Text s => bool_decide (s = [])
  | Other _ => true
  end.
Lemma inert_good up n : inert n = true → all_in fine up n ∧ codes n = [] ∧ keys n = [] ∧ textContent n = [].
Proof.
  revert up. induction n as [s|s|e cs IH] using node_ind'; intros up.
  - cbn [inert]. intros ->%bool_decide_eq_true. done.
  - done.
  - cbn [inert]. rewrite !andb_true_iff, !negb_true_iff, !bool_decide_eq_true. intros [[[[[He Hp] Hl] Hd] Hk] Hcs].
    assert (Forall (λ c, all_in fine (el_kind e :: up) c ∧ codes c = [] ∧ keys c = [] ∧ textContent c = []) cs) as Hall.
    { apply Forall_forall. intros c Hc. rewrite Forall_forall in IH. apply IH; [done|]. rewrite forallb_forall in Hcs. by apply Hcs, list_elem_of_In. }
    assert (cs ≫= codes = [] ∧ cs ≫= keys = [] ∧ cs ≫= textContent = []) as (H1 & H2 & H3).
    { clear -Hall. induction Hall as [|c cs (_ & Hc & Hk & Ht) _ (IH1 & IH2 & IH3)]; [done|]. by rewrite !bind_cons, Hc, Hk, Ht, IH1, IH2, IH3. }
    rewrite all_in_elem, keys_elem, Hk. cbn [codes textContent]. rewrite He. split_and!; try done.
    + split; rewrite ?He, ?Hp, ?Hl, ?Hd, ?Hk; try done.
      clear -Hall Hcs. induction cs as [|[s|s|f ds] cs IH]; [done|..]; apply Forall_cons in Hall as [_ Hall]; cbn [forallb] in Hcs;
        apply andb_true_iff in Hcs as [Hc Hcs]; [by apply IH..|]. split; [|by apply IH]. cbn [inert] in Hc.
      rewrite !andb_true_iff, !bool_decide_eq_true in Hc. destruct Hc as [[[_ Hd] _] _]. congruence.
    + eapply Forall_impl; [exact Hall|]. by intros c (? & _).
Qed.

(** ** One code element *)

Lemma is_code_add c e : token c → c ≠ js "pre-only" → is_code (classList_add c e) = is_code e.
Proof. intros Hc Hne. unfold is_code. by rewrite has_class_add. Qed.
Lemma lntd_add c e : token c → c ≠ js "lntd" → is_lntd (classList_add c e) = is_lntd e.
Proof. intros Hc Hne. unfold is_lntd. by rewrite has_class_add. Qed.
Lemma plain_token s : bool_decide (js s ≠ []) && forallb (λ c, negb (html_space c)) (js s) = true → token (js s).
Proof.
  intros [Hs Hall]%andb_true_iff. apply bool_decide_eq_true in Hs. split; [done|]. apply Forall_forall. intros c Hc.
  rewrite forallb_forall in Hall. by apply negb_true_iff, Hall, list_elem_of_In.
Qed.
Lemma pre_not_lntd e : tag_is "pre" e = true → is_lntd e = false.
Proof. unfold is_lntd, tag_is. rewrite bool_decide_eq_true. by intros ->. Qed.

(** The ancestors of code are no code. *)
Lemma ancestors_plain z n : all_in fine [] (close_up z n) → codes n ≠ [] → Forall (λ a, is_code (ar_el a) = false) z.
Proof.
  revert n. induction z as [|a z IH]; intros n Hall Hn; [constructor|]. cbn [close_up] in Hall.
  assert ((ar_left a ++ [n] ++ ar_right a) ≫= codes ≠ []) as Hne.
  { rewrite !bind_app. cbn [mbind list_bind app]. rewrite app_nil_r. intros [_ [? _]%app_nil]%app_nil. done. }
  constructor.
  - apply all_in_focus in Hall. unfold fill_in in Hall. rewrite all_in_elem in Hall. destruct Hall as [Hg _].
    destruct (is_code (ar_el a)) eqn:Ha; [|done]. by destruct (Hne (gd_codes _ _ _ Hg Ha)).
  - apply (IH _ Hall). unfold fill_in. cbn [codes]. by intros [_ ?]%app_nil.
Qed.

(** The root of the page: neither code nor [pre]. *)
Definition root_ok (n : dom) : Prop := match n with Elem h _ => is_code h = false ∧ tag_is "pre" h = false | _ => False end.
Lemma root_same z g ds ds' : root_ok (close_up z (Elem g ds)) → root_ok (close_up z (Elem g ds')).
Proof. revert g ds ds'. induction z as [|a z IH]; intros g ds ds'; [done|]. cbn [close_up]. unfold fill_in. apply IH. Qed.

(** A step of the loop: number [k] is gone, nothing else. *)
Record step_done (k : nat) (root root' : dom) : Prop := {
  sd_good : all_in fine [] root';
  sd_root : root_ok root';
  sd_codes : codes root' = codes root;
  sd_text : textContent root' = textContent root;
  sd_keys : ∃ l r, keys root = l ++ k :: r ∧ keys root' = l ++ r;
}.
Lemma replaced k z g ds ds' l r :
  codes (Elem g ds) ≠ [] → all_in fine [] (close_up z (Elem g ds)) → root_ok (close_up z (Elem g ds)) →
  all_in fine (kinds z) (Elem g ds') → codes (Elem g ds') = codes (Elem g ds) → textContent (Elem g ds') = textContent (Elem g ds) →
  keys (Elem g ds) = l ++ k :: r → keys (Elem g ds') = l ++ r → step_done k (close_up z (Elem g ds)) (close_up z (Elem g ds')).
Proof.
  intros Hne Hall Hroot Hg Hc Ht Hk Hk'. pose proof (ancestors_plain _ _ Hall Hne) as Hz. split.
  - apply (close_same [] z g ds); [done|done|done|done|]. by rewrite app_nil_r.
  - by eapply root_same.
  - destruct (codes_parts z Hz) as (a & b & H). by rewrite !H, Hc.
  - destruct (text_parts z) as (a & b & H). by rewrite !H, Ht.
  - destruct (keys_parts z) as (a & b & H). exists (a ++ l), (r ++ b). rewrite !H, Hk, Hk'. by rewrite <-!app_assoc.
Qed.

Lemma keys_fill f l : keys (fill_in f l) = option_list (e_key (ar_el f)) ++ (ar_left f ≫= keys) ++ (l ≫= keys) ++ (ar_right f ≫= keys).
Proof. unfold fill_in. by rewrite keys_elem, !bind_app. Qed.
Lemma codes_fill f l : is_code (ar_el f) = false → codes (fill_in f l) = (ar_left f ≫= codes) ++ (l ≫= codes) ++ (ar_right f ≫= codes).
Proof. intros Hf. unfold fill_in. cbn [codes]. by rewrite Hf, !bind_app. Qed.
Lemma text_fill f l : textContent (fill_in f l) = (ar_left f ≫= textContent) ++ (l ≫= textContent) ++ (ar_right f ≫= textContent).
Proof. unfold fill_in. cbn [textContent]. by rewrite !bind_app. Qed.

(** An element with the code is replaced by others within its parent. *)
Lemma replaced_in_parent k a b f z e cs l :
  codes (Elem e cs) ≠ [] → all_in fine [] (close_up (f :: z) (Elem e cs)) → root_ok (close_up (f :: z) (Elem e cs)) →
  codes (Elem e cs) = l ≫= codes → textContent (Elem e cs) = l ≫= textContent → keys (Elem e cs) = a ++ k :: b → l ≫= keys = a ++ b → follow l →
  Forall (all_in fine (kinds (f :: z))) l → step_done k (close_up (f :: z) (Elem e cs)) (close_up z (fill_in f l)).
Proof.
  intros Hne Hall Hroot Hc Ht Hks Hks' Hfl Hl. pose proof (all_in_focus _ _ _ _ Hall) as Hfoc. rewrite app_nil_r in Hfoc.
  pose proof (ancestors_plain _ _ Hall Hne) as [Hf Hz]%Forall_cons. cbn [close_up] in *.
  pose proof (all_in_focus fine z [] _ Hall) as Hpar. rewrite app_nil_r in Hpar.
  apply (replaced k z (ar_el f) _ _ (option_list (e_key (ar_el f)) ++ (ar_left f ≫= keys) ++ a) (b ++ (ar_right f ≫= keys))); [|done|done|..].
  - intros Hn. apply Hne. pose proof (codes_fill f [Elem e cs] Hf) as H. unfold fill_in in H. rewrite Hn in H.
    symmetry in H. apply app_nil in H as [_ [H _]%app_nil]. cbn [mbind list_bind] in H. by rewrite app_nil_r in H.
  - apply (fill_good _ f (Elem e cs) l); [done|done| |done|done]. by apply follow_between.
  - fold (fill_in f l). fold (fill_in f [Elem e cs]). rewrite !codes_fill by done. rewrite <-Hc. cbn [mbind list_bind]. by rewrite app_nil_r.
  - fold (fill_in f l). fold (fill_in f [Elem e cs]). rewrite !text_fill. rewrite <-Ht. cbn [mbind list_bind]. by rewrite app_nil_r.
  - fold (fill_in f [Elem e cs]). rewrite keys_fill. cbn [mbind list_bind]. rewrite app_nil_r, Hks, <-!app_assoc. done.
  - fold (fill_in f l). rewrite keys_fill, Hks', <-!app_assoc. done.
Qed.

(** The element as the loop meets it. *)
Record met (z : list around) (e : element) (cs : list dom) (k : nat) : Prop := {
  mt_key : e_key e = Some k;
  mt_good : all_in fine [] (close_up z (Elem e cs));
  mt_root : root_ok (close_up z (Elem e cs));
}.
Lemma met_focus z e cs k :
  met z e cs k → is_code e = true ∧ data_code e = None ∧ cs ≫= codes = [] ∧ cs ≫= keys = [] ∧
    fine (kinds z) e cs ∧ Forall (all_in fine (el_kind e :: kinds z)) cs ∧ Forall (λ a, is_code (ar_el a) = false) z.
Proof.
  intros []. pose proof (all_in_focus _ _ _ _ mt_good0) as Hfoc. rewrite app_nil_r, all_in_elem in Hfoc. destruct Hfoc as [Hg Hall].
  destruct (gd_key _ _ _ Hg) as [He Hd]; [congruence|]. pose proof (gd_codes _ _ _ Hg He) as Hc. split_and!; try done.
  - clear -Hc Hall. induction Hall as [|c cs Hx _ IH]; [done|]. rewrite bind_cons in *. apply app_nil in Hc as [H1 H2].
    by rewrite (codeless_keys _ _ H1 Hx), IH.
  - apply (ancestors_plain _ _ mt_good0). cbn [codes]. by rewrite He.
Qed.

(** The element marked or clipboard_text, at the same place or deeper. *)
Lemma marked_good up up' e e' cs :
  fine up e cs → Forall (all_in fine (el_kind e :: up)) cs → is_code e = true → tag_is "pre" e' = tag_is "pre" e → is_lntd e' = is_lntd e →
  is_code e' = true → e_key e' = None → (data_code e' = None ∨ data_code e' = Some (getCodeText cs)) → labelled up' e' cs →
  (length up <= length up')%nat → all_in fine up' (Elem e' cs).
Proof.
  intros [] Hall He Hp Hl He' Hk Hd Hlab Hup. rewrite all_in_elem. split.
  - split; rewrite ?Hp, ?Hl, ?Hk; try done; try (by right).
    + intros _. by apply gd_codes0.
    + intros H. apply gd_depth0 in H. lia.
    + intros t Ht. destruct Hd as [Hd|Hd]; rewrite Hd in Ht; [done|]. injection Ht as <-. cbn [codes]. rewrite He'. by left.
  - specialize (gd_codes0 He). clear -Hall gd_codes0 Hup. induction Hall as [|c cs Hx _ IH]; [constructor|]. rewrite bind_cons in gd_codes0.
    apply app_nil in gd_codes0 as [H1 H2]. constructor; [|by apply IH]. apply (codeless_deeper (el_kind e :: up)); [done|simpl; lia|done].
Qed.

Lemma passed_over z e cs k f :
  met (f :: z) e cs k → labelled (kinds (f :: z)) e cs → step_done k (close_up (f :: z) (Elem e cs)) (close_up (f :: z) (Elem (with_key None e) cs)).
Proof.
  intros Hm Hlab. destruct (met_focus _ _ _ _ Hm) as (He & Hd & Hc & Hk & Hg & Hall & _). destruct Hm.
  apply (replaced_in_parent k [] (cs ≫= keys) f z e cs [Elem (with_key None e) cs]); [cbn [codes]; by rewrite He|done|done|..].
  - cbn [mbind list_bind]. by rewrite app_nil_r.
  - cbn [mbind list_bind]. by rewrite app_nil_r.
  - by rewrite keys_elem, mt_key0.
  - cbn [mbind list_bind]. by rewrite app_nil_r, keys_elem.
  - split; [|done]. intros H. by rewrite (H : is_code e = false) in He.
  - constructor; [|constructor]. apply (marked_good (kinds (f :: z)) _ e); try done. by left.
Qed.

Lemma inline_done d z e cs k f :
  met (f :: z) e cs k → ∃ root' out, inline_code d (getCodeText cs) (classList_add code_class (with_key None e)) cs f z = (root', out, Ok tt) ∧
    step_done k (close_up (f :: z) (Elem e cs)) root'.
Proof.
  intros Hm. destruct (met_focus _ _ _ _ Hm) as (He & Hd & Hc & Hk & Hg & Hall & _). destruct Hm. unfold inline_code.
  set (e' := with_data _ _). set (button := inline_buttons d (f :: z)).
  assert (token (js "highlight") ∧ token code_class) as [T1 T2] by (split; by apply plain_token).
  assert (is_code e' = true) as He'.
  { change (is_code (classList_add (js "highlight") (classList_add code_class (with_key None e))) = true). by rewrite !is_code_add by done. }
  assert (clone (Elem e' cs) = Elem e' cs) as ->.
  { apply clone_id. by rewrite keys_elem. }
  eexists _, _. split; [done|].
  assert (∀ up, Forall (all_in fine up) button ∧ button ≫= codes = [] ∧ button ≫= keys = [] ∧ button ≫= textContent = [] ∧ follow button) as Hb.
  { intros up. unfold button, inline_buttons. destruct (_ && _); [|done]. destruct (inert_good up inline_button) as (H1 & H2 & H3 & H4); [by vm_compute|].
    cbn [mbind list_bind]. rewrite H2, H3, H4. split_and!; try done. by constructor. }
  set (span := made "span" _).
  assert (all_in fine (el_kind (ar_el f) :: kinds z) (Elem span (Elem e' cs :: button))) as Hspan.
  { rewrite all_in_elem. destruct (Hb (el_kind span :: el_kind (ar_el f) :: kinds z)) as (B1 & B2 & B3 & B4 & B5). split.
    - split; try (intros H; discriminate H); try done.
      + split; [|done]. intros H. by rewrite He' in H.
    - constructor; [|done]. apply (marked_good (kinds (f :: z)) _ e); try done; try (by right); try (by left; eexists). 
      change (is_lntd (classList_add (js "highlight") (classList_add code_class (with_key None e))) = is_lntd e). by rewrite !lntd_add by done. }
  destruct (Hb []) as (B1 & B2 & B3 & B4 & B5).
  apply (replaced_in_parent k [] (cs ≫= keys) f z e cs [Elem span (Elem e' cs :: button)]); [cbn [codes]; by rewrite He|done|done|..].
  - rewrite bind_cons, app_nil_r, !codes_elem, bind_cons, codes_elem, He, He', Hc, B2. done.
  - rewrite bind_cons, app_nil_r, !text_elem, bind_cons, text_elem, B4, app_nil_r. done.
  - by rewrite keys_elem, mt_key0.
  - rewrite bind_cons, app_nil_r, keys_elem, bind_cons, keys_elem, B3, app_nil_r. done.
  - done.
  - by constructor.
Qed.

(** *** Code in preformatted text *)

Definition mark_copied (e : element) : element := classList_add (js "copy-to-clipboard") (classList_add code_class (with_key None e)).
Lemma mark_code e : is_code (mark_copied e) = is_code e.
Proof. unfold mark_copied. by rewrite !is_code_add by (by apply plain_token || done). Qed.
Lemma mark_lntd e : is_lntd (mark_copied e) = is_lntd e.
Proof. unfold mark_copied. by rewrite !lntd_add by (by apply plain_token || done). Qed.

Lemma keys_set e f l : e_key e = e_key (ar_el f) → keys (fill_in (set_around e f) l) = keys (fill_in f l).
Proof. intros H. by rewrite !keys_fill, <-H. Qed.
Lemma codes_set e f l : is_code e = is_code (ar_el f) → codes (fill_in (set_around e f) l) = codes (fill_in f l).
Proof. intros H. unfold fill_in. cbn [codes ar_el set_around]. by rewrite H. Qed.
Lemma text_set e f l : textContent (fill_in (set_around e f) l) = textContent (fill_in f l).
Proof. done. Qed.

Lemma fill_focus up f e cs :
  all_in fine up (fill_in f [Elem e cs]) → fine (el_kind (ar_el f) :: up) e cs ∧ Forall (all_in fine (el_kind e :: el_kind (ar_el f) :: up)) cs.
Proof. unfold fill_in. rewrite all_in_elem, !Forall_app. intros (_ & _ & [H _]%Forall_cons & _). by rewrite all_in_elem in H. Qed.
Lemma marked_in up f e cs k :
  e_key e = Some k → is_code (ar_el f) = false → labelled (el_kind (ar_el f) :: up) (mark_copied e) cs →
  all_in fine up (fill_in f [Elem e cs]) → all_in fine up (fill_in f [Elem (mark_copied e) cs]).
Proof.
  intros Hk Hf Hlab Hall. destruct (fill_focus _ _ _ _ Hall) as [Hg Hcs].
  destruct (gd_key _ _ _ Hg) as [He Hd]; [congruence|].
  apply (fill_good _ _ (Elem e cs)); [done| | |done|].
  - cbn [mbind list_bind]. by rewrite app_nil_r, !codes_elem, mark_code.
  - apply follow_swap; [by rewrite codes_elem, He|apply mark_code|done].
  - constructor; [|constructor]. apply (marked_good (el_kind (ar_el f) :: up) _ e); try done; [apply mark_lntd|by rewrite mark_code|by left].
Qed.

(** With one code element in it nothing else of it is numbered. *)
Lemma pre_alone up f e cs :
  tag_is "pre" (ar_el f) = true → is_code (ar_el f) = false → is_code e = true → all_in fine up (fill_in f [Elem e cs]) →
  codes (fill_in f [Elem e cs]) = [cs] ∧ keys (fill_in f [Elem e cs]) = option_list (e_key e) ∧ e_key (ar_el f) = None.
Proof.
  intros Hp Hf He Hall. destruct (fill_focus _ _ _ _ Hall) as [Hg Hcs].
  pose proof (gd_codes _ _ _ Hg He) as Hc. unfold fill_in in Hall. rewrite all_in_elem, !Forall_app in Hall. destruct Hall as (Hgf & Hl & _ & Hr).
  pose proof (gd_pre _ _ _ Hgf Hp) as Hle. rewrite !bind_app, bind_cons, codes_elem, He, Hc in Hle. cbn [mbind list_bind app] in Hle.
  rewrite length_app in Hle. cbn [length] in Hle.
  assert (ar_left f ≫= codes = [] ∧ ar_right f ≫= codes = []) as [H1 H2].
  { split; apply length_zero_iff_nil; unfold mbind, list_bind in *; lia. }
  assert (∀ l up', l ≫= codes = [] → Forall (all_in fine up') l → l ≫= keys = []) as Hno.
  { intros l up' Hn Hall. clear -Hn Hall. induction Hall as [|c l Hx _ IH]; [done|]. rewrite bind_cons in *. apply app_nil in Hn as [A B].
    by rewrite (codeless_keys _ _ A Hx), IH. }
  assert (e_key (ar_el f) = None) as Hk.
  { destruct (e_key (ar_el f)) eqn:Hk; [|done]. destruct (gd_key _ _ _ Hgf); congruence. }
  split_and!; [|rewrite keys_fill, Hk; cbn [option_list app]|done].
  - rewrite codes_fill, H1, H2 by done. rewrite bind_cons, codes_elem, He, Hc. done.
  - rewrite (Hno _ _ H1 Hl), (Hno _ _ H2 Hr), bind_cons, keys_elem, (Hno _ _ Hc Hcs). cbn [mbind list_bind app]. by rewrite !app_nil_r.
Qed.

Lemma text_deeper up up' e cs :
  is_code e = false → is_Some (data_code e) → (length up <= length up')%nat → all_in fine up (Elem e cs) → all_in fine up' (Elem e cs).
Proof.
  intros Hc Hd Hl. rewrite !all_in_elem. intros [[] Hall]. split.
  - split; try done; [intros H; apply gd_depth0 in H; lia|congruence].
  - eapply Forall_impl; [exact Hall|]. intros c. apply deeper_good; [|simpl; lia]. simpl. by rewrite bool_decide_eq_true_2.
Qed.
Lemma kind_add c e : token c → c ≠ js "lntd" → el_kind (classList_add c e) = el_kind e.
Proof. intros Hc Hne. unfold el_kind. by rewrite lntd_add. Qed.

Lemma app_single {A} (l r : list A) x : l ++ x :: r = [x] → l ++ r = [].
Proof. destruct l as [|y l]; [by intros [= ->]|]. intros [= -> H]. by apply app_nil in H as [_ ?]. Qed.

(** The [pre] with its text, at the same place or deeper. *)
Definition pre_marked (e : element) (cs : list dom) (f : around) : dom :=
  fill_in (set_around (with_data (Some (getCodeText cs)) (classList_add (js "pre-code") (ar_el f))) f) [Elem (mark_copied e) cs].
Lemma pre_marked_ok up up' e cs f k :
  tag_is "pre" (ar_el f) = true → is_code (ar_el f) = false → is_code e = true → e_key e = Some k → (length up <= length up')%nat →
  all_in fine up (fill_in f [Elem e cs]) →
  all_in fine up' (pre_marked e cs f) ∧ codes (pre_marked e cs f) = [cs] ∧ keys (pre_marked e cs f) = [] ∧
    textContent (pre_marked e cs f) = textContent (fill_in f [Elem e cs]).
Proof.
  intros Hp Hf He Hk Hup Hall. destruct (pre_alone _ _ _ _ Hp Hf He Hall) as (Hc & Hks & Hkf). unfold pre_marked. set (e1 := with_data _ _).
  assert (token (js "pre-code")) as T by by apply plain_token.
  assert (is_code e1 = false) as He1.
  { change (is_code (classList_add (js "pre-code") (ar_el f)) = false). by rewrite is_code_add. }
  assert (all_in fine up (fill_in (set_around e1 f) [Elem e cs])) as H1.
  { unfold fill_in. cbn [ar_el ar_left ar_right set_around]. apply data_good; [by rewrite is_code_add| |].
    - unfold fill_in in Hc. rewrite codes_elem, Hf in Hc. cbn [app] in Hc. cbn [app]. rewrite Hc. by left.
    - apply (same_good _ (ar_el f)); try done; [by apply is_code_add|by apply kind_add]. }
  apply marked_in with (k := k) in H1; [|done|done|right; left; by simpl].
  split_and!.
  - eapply text_deeper; [done| |exact Hup|exact H1]. by eexists.
  - rewrite codes_set by (by rewrite He1). rewrite codes_fill in * by done. rewrite <-Hc, !bind_cons, !codes_elem, mark_code. done.
  - rewrite keys_set by done. rewrite keys_fill, Hkf, bind_cons, keys_elem, Hk in Hks. rewrite keys_fill, Hkf, bind_cons, keys_elem.
    apply (app_single (ar_left f ≫= keys) _ k). cbn [option_list app] in *. by rewrite <-!app_assoc in *.
  - by rewrite text_set, !text_fill, !bind_cons.
Qed.

Lemma bar_good up : all_in fine up actionbar ∧ codes actionbar = [] ∧ keys actionbar = [] ∧ textContent actionbar = [].
Proof. apply inert_good. by vm_compute. Qed.

Lemma pre_done w z e cs k f1 f2 :
  met (f1 :: f2 :: z) e cs k → tag_is "pre" (ar_el f1) = true →
  ∃ root' out, pre_code w true (getCodeText cs) (mark_copied e) cs f1 f2 z = (root', out, Ok tt) ∧ step_done k (close_up (f1 :: f2 :: z) (Elem e cs)) root'.
Proof.
  intros Hm Hp. destruct (met_focus _ _ _ _ Hm) as (He & Hd & Hc & Hk & Hg & Hall & [Hf1 Hf2]%Forall_cons). destruct Hm.
  assert (all_in fine (kinds (f2 :: z)) (fill_in f1 [Elem e cs])) as Hpre.
  { pose proof (all_in_focus fine (f2 :: z) [] _ mt_good0) as H. by rewrite app_nil_r in H. }
  unfold pre_code. fold (pre_marked e cs f1). set (pre := pre_marked e cs f1).
  destruct (pre_alone _ _ _ _ Hp Hf1 He Hpre) as (P1 & P2 & _). rewrite mt_key0 in P2. cbn [option_list] in P2.
  assert (∀ up', (length (kinds (f2 :: z)) <= length up')%nat →
    all_in fine up' pre ∧ codes pre = [cs] ∧ keys pre = [] ∧ textContent pre = textContent (fill_in f1 [Elem e cs])) as Hp'.
  { intros up' Hl. by apply (pre_marked_ok (kinds (f2 :: z)) up' e cs f1 k). }
  assert (∀ l, l ≫= codes = [cs] → l ≫= textContent = textContent (fill_in f1 [Elem e cs]) → l ≫= keys = [] → follow l →
    Forall (all_in fine (kinds (f2 :: z))) l → step_done k (close_up (f1 :: f2 :: z) (Elem e cs)) (close_up z (fill_in f2 l))) as Hstep.
  { intros l L1 L2 L3 L4 L5. cbn [close_up]. change (fill_in f1 [Elem e cs]) with (Elem (ar_el f1) (ar_left f1 ++ [Elem e cs] ++ ar_right f1)) in *.
    apply (replaced_in_parent k [] []); try done; [by rewrite P1|by rewrite L1]. }
  assert (∀ up', (length (kinds (f2 :: z)) <= length up')%nat → Forall (all_in fine up') [pre; actionbar] ∧
    [pre; actionbar] ≫= codes = [cs] ∧ [pre; actionbar] ≫= keys = [] ∧ [pre; actionbar] ≫= textContent = textContent (fill_in f1 [Elem e cs]) ∧
    follow [pre; actionbar]) as Hl.
  { intros up' Hl. destruct (Hp' up' Hl) as (A1 & A2 & A3 & A4), (bar_good up') as (B1 & B2 & B3 & B4).
    rewrite !bind_cons, A2, A3, A4, B2, B3, B4, !app_nil_r. split_and!; [|reflexivity..|].
    - constructor; [exact A1|constructor; [exact B1|constructor]].
    - split; [intros _ _; reflexivity|split; [intros _ H; by destruct H|exact I]]. }
  destruct (existsb _ _); (eexists _, _; split; [done|]).
  - destruct (Hl (kinds (f2 :: z))) as (A1 & A2 & A3 & A4 & A5); [done|]. by apply Hstep.
  - set (block := made "div" _). assert (tag_is "pre" block = false ∧ is_lntd block = false ∧ el_kind block = (false, false, false) ∧ is_code block = false ∧ e_key block = None ∧ data_code block = None) as (K5 & K6 & K1 & K2 & K3 & K4).
    { unfold block. by destruct w. }
    destruct (Hl (el_kind block :: kinds (f2 :: z))) as (A1 & A2 & A3 & A4 & A5); [simpl; lia|]. rewrite clone_id.
    2: { rewrite !bind_cons in A3. by apply app_nil in A3 as [A3 _]. }
    apply Hstep.
    + by rewrite bind_cons, codes_elem, K2, A2.
    + by rewrite bind_cons, text_elem, A4, app_nil_r.
    + by rewrite bind_cons, keys_elem, K3, A3.
    + cbn [follow]. by rewrite K4.
    + constructor; [|constructor]. rewrite all_in_elem. split; [|done].
      split; rewrite ?K2, ?K3, ?K4, ?K5, ?K6; done.
Qed.

(** *** Code in a table with line numbers *)

(** What of a tree does not depend on the parts in it. *)
Lemma close_swap z n n' :
  Forall (λ a, is_code (ar_el a) = false) z → codes n' = codes n → textContent n' = textContent n →
  codes (close_up z n') = codes (close_up z n) ∧ textContent (close_up z n') = textContent (close_up z n).
Proof.
  intros Hz Hc Ht. destruct (codes_parts z Hz) as (? & ? & C), (text_parts z) as (? & ? & T). by rewrite !C, !T, Hc, Ht.
Qed.

Lemma close_nonempty z n : codes n ≠ [] → codes (close_up z n) ≠ [].
Proof.
  revert n. induction z as [|a z IH]; intros n Hn; [done|]. apply IH. unfold fill_in. cbn [codes]. rewrite !bind_app. cbn [mbind list_bind app].
  rewrite app_nil_r. by intros [_ [_ [? _]%app_nil]%app_nil]%app_nil.
Qed.

Lemma table_done z e cs k f1 f2 :
  met (f1 :: f2 :: z) e cs k → tag_is "pre" (ar_el f1) = true → is_lntd (ar_el f2) = true →
  ∃ root' out, table_code (getCodeText cs) (mark_copied e) cs f1 f2 z = (root', out, Ok tt) ∧ step_done k (close_up (f1 :: f2 :: z) (Elem e cs)) root'.
Proof.
  intros Hm Hp Hl. destruct (met_focus _ _ _ _ Hm) as (He & Hd & Hc & Hk & Hg & Hall & Hz). destruct Hm.
  pose proof (all_in_focus fine z [] (fill_in f2 [fill_in f1 [Elem e cs]]) mt_good0) as H2. rewrite app_nil_r in H2.
  assert (4 <= length z)%nat as Hlen.
  { unfold fill_in in H2. rewrite all_in_elem in H2. destruct H2 as [H2 _]. apply gd_depth in H2; [|done]. unfold kinds in H2. by rewrite length_fmap in H2. }
  destruct z as [|f3 [|f4 [|f5 [|f6 z]]]]; cbn [length] in Hlen; try lia. clear Hlen.
  pose proof (all_in_focus fine (f6 :: z) [] (close_up [f1; f2; f3; f4; f5] (Elem e cs)) mt_good0) as H5. rewrite app_nil_r in H5.
  pose proof (Forall_inv Hz) as F1. pose proof (Forall_inv_tail Hz) as Hz2. pose proof (Forall_inv Hz2) as F2.
  pose proof (Forall_inv_tail Hz2) as Hz3. rewrite !Forall_cons in Hz3. destruct Hz3 as (F3 & F4 & F5 & _).
  assert (codes (Elem e cs) ≠ []) as Hne by by rewrite codes_elem, He.
  unfold table_code. set (e1 := classList_add (js "pre-code") (ar_el f1)). set (pre := fill_in (set_around e1 f1) [Elem (mark_copied e) cs]).
  set (tdn := fill_in f2 [pre]). set (e5 := with_data _ _).
  assert (token (js "pre-code")) as T by by apply plain_token.
  assert (is_code e1 = false) as He1 by (unfold e1; by rewrite is_code_add).
  (* the cell *)
  assert (all_in fine (kinds (f3 :: f4 :: f5 :: f6 :: z)) tdn) as Htd.
  { apply (fill_good _ _ (fill_in f1 [Elem e cs])); [done|..].
    - rewrite bind_cons, app_nil_r. unfold pre. rewrite codes_set by (by rewrite He1). rewrite !codes_fill, !bind_cons, !codes_elem, mark_code by done. done.
    - apply follow_swap; [exact (close_nonempty [f1] _ Hne)|exact (eq_trans He1 (eq_sym F1))|done].
    - exact H2.
    - constructor; [|constructor]. pose proof (all_in_focus fine [f2] _ _ H2) as H1. cbn [kinds fmap list_fmap app] in H1.
      apply (marked_in _ _ e cs k); [done|done|right; right|].
      + cbn [ar_el set_around]. unfold e1, compose. rewrite kind_add by done. unfold el_kind. by rewrite Hp.
      + apply (same_good _ (ar_el f1)); [exact (eq_trans He1 (eq_sym F1))|by apply kind_add|done|done|exact H1]. }
  assert (codes tdn = codes (fill_in f2 [fill_in f1 [Elem e cs]]) ∧ textContent tdn = textContent (fill_in f2 [fill_in f1 [Elem e cs]])) as [C2 X2].
  { apply (close_swap [f2]); [by repeat constructor|..].
    - unfold pre. rewrite codes_set by exact (eq_trans He1 (eq_sym F1)). rewrite !codes_fill, !bind_cons, !codes_elem, mark_code by done. done.
    - unfold pre. by rewrite text_set, !text_fill, !bind_cons. }
  destruct (close_swap [f3; f4; f5] (fill_in f2 [fill_in f1 [Elem e cs]]) tdn) as [C5 X5]; [by repeat constructor|done..|].
  assert (all_in fine (kinds (f6 :: z)) (close_up [f3; f4; f5] tdn)) as HT.
  { apply (close_same (kinds (f6 :: z)) [f3; f4; f5] (ar_el f2) (ar_left f2 ++ [fill_in f1 [Elem e cs]] ++ ar_right f2)).
    - by repeat constructor.
    - exact (close_nonempty [f1; f2] _ Hne).
    - symmetry. exact C2.
    - exact H5.
    - exact Htd. }
  (* the table gets the text *)
  assert (all_in fine (kinds (f6 :: z)) (fill_in (set_around e5 f5) [close_up [f3; f4] tdn])) as HT'.
  { apply data_good; [done| |exact HT]. apply list_elem_of_fmap_2.
    destruct (codes_parts [f1; f2; f3; f4; f5]) as (l & r & C); [by repeat constructor|]. specialize (C (Elem e cs)).
    assert (codes (close_up [f3; f4; f5] tdn) = l ++ [cs] ++ r) as C'.
    { rewrite C5. etrans; [exact C|]. rewrite codes_elem, He, Hc. done. }
    cbn [close_up] in C'. unfold fill_in in C' at 1. rewrite codes_elem, F5 in C'. rewrite app_nil_l in C'.
    change (cs ∈ (ar_left f5 ++ [fill_in f4 [fill_in f3 [tdn]]] ++ ar_right f5) ≫= codes). rewrite C'. set_solver. }
  destruct (keys_parts [f1; f2; f3; f4; f5]) as (a & b & K).
  assert (keys (fill_in (set_around e5 f5) [close_up [f3; f4] tdn]) = a ++ b) as KT.
  { rewrite keys_set by done. etrans; [|etrans; [exact (K (Elem (mark_copied e) cs))|]].
    - unfold tdn. destruct (keys_parts [f2; f3; f4; f5]) as (l & r & K'). etrans; [exact (K' pre)|]. etrans; [|symmetry; exact (K' (fill_in f1 [Elem (mark_copied e) cs]))].
      unfold pre. by rewrite keys_set.
    - by rewrite keys_elem, Hk. }
  destruct (bar_good (kinds (f6 :: z))) as (B1 & B2 & B3 & B4).
  eexists _, _. split; [done|].
  apply (replaced_in_parent k a b f6 z (ar_el f5) (ar_left f5 ++ [close_up [f1; f2; f3; f4] (Elem e cs)] ++ ar_right f5)).
  - exact (close_nonempty [f1; f2; f3; f4; f5] _ Hne).
  - done.
  - done.
  - rewrite !bind_cons, B2, app_nil_r, codes_set by done. symmetry. exact C5.
  - rewrite !bind_cons, B4, app_nil_r, text_set. symmetry. exact X5.
  - etrans; [exact (K (Elem e cs))|]. by rewrite keys_elem, mt_key0, Hk.
  - rewrite !bind_cons, B3, KT. by rewrite !app_nil_r.
  - split; [intros _ _; reflexivity|split; [intros _ H; by destruct H|exact I]].
  - constructor; [exact HT'|constructor; [exact B1|constructor]].
Qed.

(** ** The loop *)

Lemma handle_done d w z e cs k :
  met z e cs k → ∃ root' out, handle_code d w true z e cs = (root', out, Ok tt) ∧ step_done k (close_up z (Elem e cs)) root'.
Proof.
  intros Hm. destruct (met_focus _ _ _ _ Hm) as (He & Hd & _ & _ & _ & _ & Hz). pose proof (mt_root _ _ _ _ Hm) as Hroot. unfold handle_code.
  destruct z as [|f1 z]; [destruct Hroot; congruence|]. destruct (tag_is "pre" (ar_el f1)) eqn:Hp.
  - destruct z as [|f2 z]; [destruct Hroot; congruence|]. fold (mark_copied e). destruct (is_lntd (ar_el f2)) eqn:Hl; [|by apply pre_done].
    destruct z as [|f3 z].
    { pose proof (mt_good _ _ _ _ Hm) as Hg. cbn [close_up] in Hg. unfold fill_in at 1 in Hg. rewrite all_in_elem in Hg. destruct Hg as [Hg _].
      apply gd_depth in Hg; [simpl in Hg; lia|done]. }
    destruct (is_first_cell _ _); [|by apply table_done]. eexists _, _. split; [done|]. apply passed_over; [done|].
    right; right. unfold kinds, el_kind. simpl. by rewrite Hp.
  - destruct (5 <? length (getCodeText cs))%nat eqn:Hlen; [by apply inline_done|]. apply Nat.ltb_ge in Hlen.
    eexists _, _. split; [done|]. apply passed_over; [done|]. right; right. unfold kinds, el_kind. simpl. by rewrite Hp.
Qed.

(** The number is found. *)
Lemma close_app z z' n : close_up (z ++ z') n = close_up z' (close_up z n).
Proof. revert n. induction z as [|a z IH]; intros n; [done|]. apply IH. Qed.
Lemma locate_none k n up : k ∉ keys n → locate k up n = None.
Proof.
  revert up. induction n as [s|s|e cs IH] using node_ind'; intros up; [done..|]. rewrite keys_elem, not_elem_of_app. intros [He Hcs]. cbn [locate].
  rewrite decide_False by (intros H; rewrite H in He; set_solver). clear He. generalize (@nil dom) at 2 as left. induction IH as [|c cs Hc _ IHcs]; intros left; [done|].
  rewrite bind_cons, not_elem_of_app in Hcs. destruct Hcs as [H1 H2]. rewrite Hc by done. by apply IHcs.
Qed.
Lemma locate_spec k n up : k ∈ keys n →
  ∃ z e cs, locate k up n = Some (z ++ up, e, cs) ∧ e_key e = Some k ∧ close_up z (Elem e cs) = n.
Proof.
  revert up. induction n as [s|s|e cs IH] using node_ind'; intros up; [by intros ?%not_elem_of_nil..|]. rewrite keys_elem. cbn [locate].
  destruct (decide (e_key e = Some k)) as [He|He]; [intros _; by exists [], e, cs|]. intros Hk.
  assert (k ∈ cs ≫= keys) as Hin by (destruct (e_key e); set_solver).
  clear Hk He. change cs with ([] ++ cs) at 2. generalize (@nil dom) at 2 3 as left. induction IH as [|c cs Hc _ IHcs]; intros left; [by apply not_elem_of_nil in Hin|].
  destruct (decide (k ∈ keys c)) as [Hk|Hk].
  - destruct (Hc (Around e left cs :: up) Hk) as (z & e' & cs' & -> & H1 & H2). exists (z ++ [Around e left cs]), e', cs'.
    rewrite <-app_assoc, close_app, H2. done.
  - rewrite locate_none by done. rewrite bind_cons in Hin. apply elem_of_app in Hin as [Hin|Hin]; [done|].
    destruct (IHcs Hin (left ++ [c])) as (z & e' & cs' & H & H1 & H2). exists z, e', cs'. rewrite <-app_assoc in H2. done.
Qed.

(** Number [i] first, the others in their order: all are handled. *)
Lemma handle_all d w n i root out :
  all_in fine [] root → root_ok root → Permutation (keys root) (seq i n) →
  ∃ p, mfor (handle_number d w) (seq i n) (CodePage root out) = (p, Ok tt) ∧ all_in fine [] (cp_root p) ∧ keys (cp_root p) = [] ∧
    codes (cp_root p) = codes root ∧ textContent (cp_root p) = textContent root.
Proof.
  revert i root out. induction n as [|n IH]; intros i root out Hg Hr Hk.
  - exists (CodePage root out). split; [done|]. apply Permutation_sym, Permutation_nil in Hk. done.
  - assert (i ∈ keys root) as Hi by (rewrite Hk; simpl; set_solver). destruct (locate_spec i root [] Hi) as (z & e & cs & Hloc & He & Hz).
    rewrite app_nil_r in Hloc. destruct (handle_done d w z e cs i) as (root' & out' & Hh & []); [by split; rewrite ?Hz|]. rewrite Hz in *.
    destruct (IH (S i) root' (out ++ out')) as (p & Hp & P1 & P2 & P3 & P4); [done|done| |].
    { destruct sd_keys0 as (l & r & K1 & K2). rewrite K2. apply Permutation_cons_inv with i. etrans; [|exact Hk]. rewrite K1. apply Permutation_middle. }
    exists p. split_and!; [|done|done|congruence|congruence]. cbn [seq mfor]. rewrite M_bind_eq. unfold handle_number at 1. cbn [cp_root cp_detached].
    rewrite Hloc, Hh. exact Hp.
Qed.

(** The handler of [copy] changes what is copied only inside of code, and never
    where the selection has line numbers or anchors. *)
Lemma on_copy_spec has_id ranges up text :
  on_copy has_id ranges up text = Some text ↔
    (∀ fragment e, fragment ∈ ranges → e ∈ fragment ≫= dom_elements → has_class (js "ln") e = false ∧ has_id e = false) ∧
    ∃ e, e ∈ up ∧ has_class (js "highlight") e = true.
Proof.
  unfold on_copy. assert (copy_from up text = Some text ↔ ∃ e, e ∈ up ∧ has_class (js "highlight") e = true) as Hup.
  { induction up as [|e up IH]; cbn [copy_from]; [split; [done|intros (e & He & _); by apply not_elem_of_nil in He]|].
    destruct (has_class _ e) eqn:He; [split; [intros _; exists e; split; [by left|done]|done]|]. rewrite IH. split.
    - intros (e' & H1 & H2). exists e'. split; [by right|done].
    - intros (e' & [->|H1]%elem_of_cons & H2); [congruence|]. by exists e'. }
  assert (copy_from up text = None ∨ copy_from up text = Some text) as Hn.
  { clear Hup. induction up as [|e up IH]; cbn [copy_from]; [by left|]. destruct (has_class _ e); [by right|done]. }
  destruct (selectionContainsLnClass has_id ranges) eqn:Hs.
  - split; [done|]. intros [Hno _]. unfold selectionContainsLnClass in Hs. apply existsb_exists in Hs as (f & Hf & Hs).
    apply existsb_exists in Hs as (e & He & Hs). destruct (Hno f e) as [H1 H2]; [by apply list_elem_of_In|by apply list_elem_of_In|].
    by rewrite H1, H2 in Hs.
  - rewrite Hup. split; [|by intros [_ ?]]. intros He. split; [|done]. intros f e Hf Hin. apply orb_false_iff.
    unfold selectionContainsLnClass in Hs. destruct (has_class (js "ln") e || has_id e) eqn:Hb; [|done]. rewrite <-Hs. symmetry.
    apply existsb_exists. exists f. split; [by apply list_elem_of_In|]. apply existsb_exists. exists e. split; [by apply list_elem_of_In|done].
Qed.

(** ** The page before and after *)

(** Before: no code in code, at most one in a [pre], cells with line numbers in
    a table, no text yet. *)
Definition separate (up : list (bool * bool * bool)) (e : element) (cs : list dom) : bool :=
  implb (is_code e) (length (cs ≫= codes) =? 0)%nat && implb (tag_is "pre" e) (length (cs ≫= codes) <=? 1)%nat &&
  implb (is_lntd e) (4 <=? length up)%nat && bool_decide (data_code e = None) && bool_decide (e_key e = None).

(** After: code has its text at itself or around it unless it is not to have
    one; a text is that of code in the element; what a button after a block
    copies is the text of the block. *)
Record served (up : list (bool * bool * bool)) (e : element) (cs : list dom) : Prop := {
  sv_code : is_code e = true → labelled up e cs;
  sv_data t : data_code e = Some t → t ∈ getCodeText <$> codes (Elem e cs);
  sv_bar l f ds r t : cs = l ++ Elem f ds :: r → is_code f = false → data_code f = Some t →
    (∃ r', r = actionbar :: r') ∧ clipboard_text (l ++ [Elem f ds]) = Some t;
}.

Lemma good_served up n : all_in fine up n → keys n = [] → all_in served up n.
Proof.
  revert up. induction n as [s|s|e cs IH] using node_ind'; intros up; [done..|]. rewrite !all_in_elem, keys_elem. intros [[] Hall] [Hk Hks]%app_nil.
  split.
  - split; [|done|].
    + intros H. destruct (gd_seen0 H) as [H'|]; [|done]. by destruct (e_key e).
    + intros l f ds r t -> Hf Ht. split.
      * assert (follow (Elem f ds :: r)) as [H _] by (clear -gd_follow0; by induction l as [|[] l IH]; [|apply IH; apply gd_follow0..]).
        specialize (H Hf). rewrite Ht in H. destruct r as [|b r]; [by destruct H|]. exists r. by rewrite H.
      * unfold clipboard_text. rewrite reverse_snoc. cbn [List.filter is_element]. by rewrite Ht.
  - clear -IH Hall Hks. induction IH as [|c cs Hc _ IHcs]; [constructor|]. apply Forall_cons in Hall as [Hx Hxs]. rewrite bind_cons in Hks.
    apply app_nil in Hks as [H1 H2]. constructor; [by apply Hc|by apply IHcs].
Qed.

Lemma wrap_pre_text b n : textContent (wrap_pre b n) = textContent n.
Proof.
  revert b. induction n as [s|s|e cs IH] using node_ind'; intros b; [done..|]. cbn [wrap_pre].
  assert ((wrap_pre (is_plain_pre e) <$> cs) ≫= textContent = cs ≫= textContent) as H.
  { induction IH as [|c cs Hc _ IHcs]; [done|]. by rewrite fmap_cons, !bind_cons, Hc, IHcs. }
  destruct (_ || _); rewrite ?text_elem; [|done]. by rewrite bind_cons, text_elem, app_nil_r.
Qed.

Definition silent (n : dom) : Prop := match n with Elem f _ => data_code f = None | _ => True end.
Lemma silent_follow l : Forall silent l → follow l.
Proof. induction 1 as [|[s|s|f ds] l Hf _ IH]; [done..|]. by split. Qed.

(** Numbering a list of nodes, given what it does to each. *)
Record numbered (up : list (bool * bool * bool)) (i : nat) (l l' : list dom) : Prop := {
  nb_good : Forall (all_in fine up) l';
  nb_keys : l' ≫= keys = seq i (length (l ≫= codes));
  nb_codes : l' ≫= codes = l ≫= codes;
  nb_text : l' ≫= textContent = l ≫= textContent;
  nb_same : l ≫= codes = [] → l' = l;
  nb_silent : Forall silent l';
}.
Lemma numbered_cons up i n n' l l' :
  numbered up i [n] [n'] → numbered up (i + length (codes n)) l l' → numbered up i (n :: l) (n' :: l').
Proof.
  intros [A1 A2 A3 A4 A5 A6] [B1 B2 B3 B4 B5 B6]. rewrite !bind_cons in *. cbn [mbind list_bind] in *. rewrite !app_nil_r in *. split; rewrite ?bind_cons.
  - by apply Forall_cons; split; [inversion A1|].
  - rewrite A2, B2, length_app, seq_app. done.
  - by rewrite A3, B3.
  - by rewrite A4, B4.
  - intros [H1 H2]%app_nil. rewrite B5 by done. specialize (A5 H1). by injection A5 as ->.
  - by apply Forall_cons; split; [inversion A6|].
Qed.
Lemma numbered_all up l :
  Forall (λ c, ∀ i, ∃ c', number_codes i c = (i + length (codes c), c')%nat ∧ numbered up i [c] [c']) l →
  ∀ i, ∃ l', number_all number_codes i l = (i + length (l ≫= codes), l')%nat ∧ numbered up i l l'.
Proof.
  induction 1 as [|c l Hc _ IH]; intros i; [exists []; split; [cbn; by rewrite Nat.add_0_r|by split]|].
  destruct (Hc i) as (c' & H1 & H2), (IH (i + length (codes c))%nat) as (l' & H3 & H4). exists (c' :: l'). split; [|by apply numbered_cons].
  cbn [number_all]. rewrite H1. change (number_all number_codes (i + length (codes c)) l) with (number_all number_codes (i + length (codes c))%nat l).
  fold (number_all number_codes). rewrite H3, bind_cons, length_app. by rewrite Nat.add_assoc.
Qed.

Lemma number_codes_ok up i n :
  all_in (λ up e cs, separate up e cs = true) up n → ∃ n', number_codes i n = (i + length (codes n), n')%nat ∧ numbered up i [n] [n'].
Proof.
  revert up i. induction n as [s|s|e cs IH] using node_ind'; intros up i; [exists (Text s)|exists (Other s)|].
  1,2: split; [cbn; by rewrite Nat.add_0_r|by split; [repeat constructor|..]; repeat constructor].
  rewrite all_in_elem. unfold separate. rewrite !andb_true_iff, !bool_decide_eq_true. intros [((((Hc & Hp) & Hl) & Hd) & Hk) Hall].
  destruct (numbered_all (el_kind e :: up) cs) with (i := if is_code e then S i else i) as (cs' & Hn & [N1 N2 N3 N4 N5 N6]).
  { clear -IH Hall. induction IH as [|c cs Hx _ IHcs]; [constructor|]. apply Forall_cons in Hall as [H1 H2]. constructor; [intros i; by apply Hx|by apply IHcs]. }
  cbn [number_codes]. rewrite Hn. eexists. split.
  { f_equal. rewrite codes_elem. by destruct (is_code e); simpl; lia. }
  set (e' := with_key _ e). assert (is_code e' = is_code e) as Hc' by done.
  assert (is_code e = true → cs ≫= codes = [] ∧ cs' = cs) as Hcode.
  { intros He. rewrite He in Hc. simpl in Hc. apply Nat.eqb_eq, length_zero_iff_nil in Hc. split; [exact Hc|by apply N5]. }
  assert (codes (Elem e' cs') = codes (Elem e cs)) as Hcodes.
  { rewrite !codes_elem, Hc', N3. destruct (is_code e); [|done]. by destruct Hcode as [_ ->]. }
  assert (keys (Elem e' cs') = seq i (length (codes (Elem e cs)))) as Hkeys.
  { rewrite keys_elem, N2, codes_elem. unfold e'. destruct (is_code e) eqn:He; [|done]. destruct (Hcode eq_refl) as [H _]. by rewrite H. }
  split.
  - constructor; [|constructor]. rewrite all_in_elem. split; [|exact N1]. split.
    + intros He. rewrite N3. by apply Hcode.
    + intros Hpre. rewrite N3. change (tag_is "pre" e = true) in Hpre. rewrite Hpre in Hp. simpl in Hp. by apply Nat.leb_le.
    + intros Hlntd. change (is_lntd e = true) in Hlntd. rewrite Hlntd in Hl. simpl in Hl. by apply Nat.leb_le.
    + intros t Ht. change (data_code e = Some t) in Ht. congruence.
    + by apply silent_follow.
    + unfold e'. by destruct (is_code e) eqn:He.
    + unfold e'. intros He. change (is_code e = true) in He. rewrite He. by left.
  - cbn [mbind list_bind]. by rewrite !app_nil_r.
  - cbn [mbind list_bind]. by rewrite !app_nil_r.
  - cbn [mbind list_bind]. by rewrite !app_nil_r, !text_elem.
  - intros H. cbn [mbind list_bind] in H. rewrite app_nil_r, codes_elem in H. apply app_nil in H as [H1 H2]. rewrite (N5 H2). f_equal. f_equal.
    unfold e'. destruct (is_code e); [done|]. by apply with_key_id.
  - by repeat constructor.
Qed.

(** C33. The loop over the code of a page, on pages whose code is kept apart
    ([separate]: no code inside code, at most one code element in a [pre], cells
    with line numbers only inside tables, no marks of an earlier run) and whose
    root is neither code nor a [pre]: it ends without an exception, whatever code
    it replaces by clones on the way; the text of the page and what its code
    elements hold are as before; in the page it leaves every code element has its
    text at itself or around it, unless it is a line of at most five characters
    outside of preformatted text or a cell of a table with line numbers; every
    text kept is the one of code in its element; after a block with a text stands
    a bar whose button copies that text. (Of two code elements in a [pre] see
    [two_in_pre].) *)
Theorem initCodeClipboard_serves d w root :
  root_ok root → all_in (λ up e cs, separate up e cs = true) [] (wrap_pre false root) →
  ∃ p, initCodeClipboard d w root = (p, Ok tt) ∧ all_in served [] (cp_root p) ∧ keys (cp_root p) = [] ∧
    textContent (cp_root p) = textContent root ∧ codes (cp_root p) = codes (wrap_pre false root).
Proof.
  intros Hr Hsep. destruct (number_codes_ok [] 0 _ Hsep) as (n & Hn & [N1 N2 N3 N4 _ _]). cbn [mbind list_bind] in N2, N3, N4. rewrite !app_nil_r in *.
  destruct (handle_all d w (length (codes (wrap_pre false root))) 0 n []) as (p & Hp & P1 & P2 & P3 & P4).
  - by inversion N1.
  - destruct root as [| |e cs]; [done..|]. cbn [wrap_pre number_codes] in Hn. destruct Hr as [Hc Ht]. cbn [orb andb] in Hn.
    assert (is_plain_pre e = false) as Hpre.
    { unfold is_plain_pre. destruct (bool_decide (localName e = js "pre")) eqn:Hb; [|done]. apply bool_decide_eq_true in Hb. revert Ht.
      destruct e as [k name c x dt]. cbn [localName] in Hb. subst name. destruct x; vm_compute; discriminate. }
    rewrite Hpre in Hn. cbn [andb number_codes] in Hn. destruct (number_all _ _ _). by injection Hn as _ <-.
  - by rewrite N2.
  - exists p. split_and!; [|by apply good_served|done|by rewrite P4, N4, wrap_pre_text|congruence].
    unfold initCodeClipboard. rewrite Hn. exact Hp.
Qed.

(** A page with code in text and in a heading, in a plain [pre], in a
    highlighted one, in a table with line numbers, and a [pre] without code. *)
Definition tag_el (name : string) (cs : list dom) : dom := Elem (made name []) cs.
Definition class_el (name class : string) (cs : list dom) : dom := Elem (made name [class]%string) cs.
Definition code_el (s : string) : dom := tag_el "code" [Text (js s)].
Definition code_page_root : dom :=
  tag_el "html" [tag_el "body" [
    tag_el "h1" [code_el "heading code"];
    tag_el "p" [Text (js "see "); code_el "a long line"; code_el "short"];
    tag_el "pre" [code_el "plain block"];
    class_el "div" "highlight" [tag_el "pre" [code_el "block"]];
    class_el "div" "highlight" [tag_el "div" [tag_el "table" [tag_el "tbody" [tag_el "tr" [
      class_el "td" "lntd" [tag_el "pre" [code_el "1"]]; class_el "td" "lntd" [tag_el "pre" [code_el "line"]]]]]]];
    tag_el "pre" [Text (js "no code")]]].

Lemma initCodeClipboard_serves_witness :
  ∃ p, initCodeClipboard false true code_page_root = (p, Ok tt) ∧ all_in served [] (cp_root p) ∧ keys (cp_root p) = [] ∧
    textContent (cp_root p) = textContent code_page_root ∧ codes (cp_root p) = codes (wrap_pre false code_page_root).
Proof. apply (initCodeClipboard_serves false true code_page_root); vm_compute; repeat split. Defined.

(** The texts the buttons copy there, of blocks and in lines. *)
Fixpoint bars (l : list dom) : list jsstr :=
  (fix go (before l : list dom) : list jsstr :=
     match l with
     | [] => []
     | Elem e cs :: l =>
         (if has_class (js "actionbar") e || has_class (js "inline-copy-to-clipboard-button") e then option_list (clipboard_text before) else []) ++
         go (before ++ [Elem e cs]) l
     | c :: l => go (before ++ [c]) l
     end) [] l.
Fixpoint button_texts (n : dom) : list jsstr := match n with Elem e cs => (cs ≫= button_texts) ++ bars cs | _ => [] end.

Example page_buttons :
  button_texts (cp_root (initCodeClipboard false true code_page_root).1) = js <$> ["a long line"; "plain block"; "block"; "line"; "no code"]%string.
Proof. vm_compute. reflexivity. Qed.

(** A second code element in a [pre] outside of a highlighted block: the first
    one has the [pre] replaced, the second is then no longer in the page. *)
Example two_in_pre : (initCodeClipboard false true (tag_el "html" [tag_el "body" [tag_el "pre" [code_el "one"; Text [10%N]; code_el "two"]]])).2 = Throw TypeError.
Proof. vm_compute. reflexivity. Qed.
(** Preformatted text with another element in it: a button in the line, for that
    element only. *)
Example pre_with_span :
  button_texts (cp_root (initCodeClipboard false true (tag_el "html" [tag_el "body" [tag_el "pre" [Text (js "before "); tag_el "b" [Text (js "strong")]; Text (js " after")]]])).1)
  = [js "strong"].
Proof. vm_compute. reflexivity. Qed.
